(** * go-ini: a shallow embedding of the INI codec and its checked properties

    The development follows the Go package [ini]: the character scanner
    ([scanner]), the line grammar of the decoder ([Decoder]), the section tree
    and the shape walker over reflected values ([SectionsOf], [fieldsOf],
    [walkStructFields], [parseTag]), the leaf codecs ([encode], [decode],
    [quoteString]) and the encoder ([Encoder]).

    Go strings and byte slices are lists of 8-bit characters.  Loops that the
    source does not bound ([scanner.take], [Decoder.scan], the recursion of
    [Decoder.value]) take a fuel argument and answer [Timeout] when it runs
    out; a Go panic is the outcome [Panic]. *)

From Stdlib Require Import ZArith NArith List Ascii String Bool Lia.
From stdpp Require Import base option list.
Import ListNotations.

Local Open Scope Z_scope.
Local Open Scope list_scope.

(** ** Bytes and text *)

Abbreviation bytes := (list ascii).

(** [bs "text"] is the Go string literal ["text"]. *)
Definition bs (s : string) : bytes := list_ascii_of_string s.

Definition NUL : ascii := "000"%char.
Definition TAB : ascii := "009"%char.
Definition LF : ascii := "010"%char.
Definition VT : ascii := "011"%char.
Definition FF : ascii := "012"%char.
Definition CR : ascii := "013"%char.
Definition DQUOTE : ascii := "034"%char.
Definition SQUOTE : ascii := "'"%char.
Definition BACKSLASH : ascii := "\"%char.

(** The numeric value of a byte, and the byte of a number below 256. *)
Definition code (c : ascii) : Z := Z.of_N (N_of_ascii c).
Definition chr (z : Z) : ascii := ascii_of_N (Z.to_N z).

Definition char_eqb (a b : ascii) : bool := Ascii.eqb a b.
Definition char_leb (a b : ascii) : bool := code a <=? code b.

Declare Scope byte_scope.
Delimit Scope byte_scope with byte.
Notation "a == b" := (char_eqb a b) (at level 70, no associativity) : byte_scope.
Notation "a <=. b" := (char_leb a b) (at level 70, no associativity) : byte_scope.
Local Open Scope byte_scope.

Fixpoint bytes_eqb (a b : bytes) : bool :=
  match a, b with
  | [], [] => true
  | x :: a, y :: b => (x == y) && bytes_eqb a b
  | _, _ => false
  end.

(** ** Character classes of the grammar (decode.go) *)

Definition isNameChar (char : ascii) : bool :=
  ("a"%char <=. char) && (char <=. "z"%char) ||
  ("A"%char <=. char) && (char <=. "Z"%char) ||
  (char == "_"%char).

Definition isDigit (char : ascii) : bool :=
  ("0"%char <=. char) && (char <=. "9"%char).

Definition isHexDigit (char : ascii) : bool :=
  isDigit char ||
  ("a"%char <=. char) && (char <=. "f"%char) ||
  ("A"%char <=. char) && (char <=. "F"%char).

Definition isNameCharOrDigit (char : ascii) : bool :=
  isNameChar char || isDigit char.

Definition isNewlineChar (char : ascii) : bool :=
  (char == LF) || (char == CR).

(** ** Errors

    Every [errors.New] and [fmt.Errorf] of the package is a constructor that
    keeps the formatted arguments; [%w] wrapping keeps the wrapped error. *)

#[warnings="-register-all"]
Inductive error : Type :=
| stop                                                 (* scanner.stop *)
| errUnexpectedChar (char : ascii) (line column : Z)
| errExpectedNewLine (line column : Z)
| errKeyMustBeUnderSection
| errUnknownSection (sectionName : bytes)
| errInvalidEscape
| errParsingFailed (err : error)
| errSyntax (fn str : bytes)                           (* strconv.ErrSyntax *)
| errRange (fn str : bytes)                            (* strconv.ErrRange *)
| errValueCannotBeSet
| errCannotDecode (type : bytes)
| errFieldInvalidValue
| errInvalidTypeForEncode (type : bytes)
| errUnexpectedComma
| errUnknownFlag (tag field t : bytes)
| errDuplicateFlag (tag field t : bytes)
| errMapKey (type : bytes)
| errMapKeyNotString
| errInvalidType (type : bytes)
| errFieldType (structType field : bytes)
| errCannotUseType (type : bytes)
| errReadFailed (err : error)
| errWriteFailed (err : error)
| errJoin (errs : list error)                          (* errors.Join *)
| errForeign (msg : bytes).                            (* raised by caller code *)

Definition is_stop (e : error) : bool :=
  match e with stop => true | _ => false end.

(** [errors.Join]: nil when there is nothing to join. *)
Definition errors_Join (errs : list error) : option error :=
  match errs with
  | [] => None
  | _ => Some (errJoin errs)
  end.

(** ** Outcomes and the state monad of the decoder *)

Inductive outcome (A : Type) : Type :=
| Ok (a : A)
| Err (e : error)
| Panic (msg : bytes)
| Timeout.
Arguments Ok {A} a.
Arguments Err {A} e.
Arguments Panic {A} msg.
Arguments Timeout {A}.

Definition M (S A : Type) : Type := S -> outcome A * S.

Definition ret {S A} (a : A) : M S A := fun s => (Ok a, s).
Definition fail {S A} (e : error) : M S A := fun s => (Err e, s).
Definition panic {S A} (msg : bytes) : M S A := fun s => (Panic msg, s).
Definition timeout {S A} : M S A := fun s => (Timeout, s).

Definition bind {S A B} (m : M S A) (k : A -> M S B) : M S B :=
  fun s =>
    match m s with
    | (Ok a, s') => k a s'
    | (Err e, s') => (Err e, s')
    | (Panic msg, s') => (Panic msg, s')
    | (Timeout, s') => (Timeout, s')
    end.

(** A total, infallible method of the state. *)
Definition call {S A} (f : S -> A * S) : M S A :=
  fun s => let (a, s') := f s in (Ok a, s').
Definition get {S A} (f : S -> A) : M S A := fun s => (Ok (f s), s).

Notation "x <- m ;; k" := (bind m (fun x => k))
  (at level 100, m at next level, right associativity).
Notation "m ;;; k" := (bind m (fun _ => k))
  (at level 100, right associativity).

(** Panics alone, for the code that keeps Go's [(value, error)] pairs. *)
Definition obind {A B} (o : outcome A) (k : A -> outcome B) : outcome B :=
  match o with
  | Ok a => k a
  | Err e => Err e
  | Panic msg => Panic msg
  | Timeout => Timeout
  end.

(** ** scanner: the byte cursor *)

Definition uint32 (z : Z) : Z := z mod 2 ^ 32.

Module scanner.

Record t : Type := mk {
  buf : bytes;             (* Actual data. *)
  bufPos : nat;            (* Current character index. *)
  lineNum : Z;             (* Current line number. *)
  charNum : Z;             (* Current character number. *)
  prevLineCharNum : Z      (* Last character number in the previous line. *)
}.

Definition init (buffer : bytes) : t := mk buffer 0 1 1 0.

Definition lookAhead (scan : t) (offset : nat) : ascii :=
  match buf scan !! (bufPos scan + offset)%nat with
  | Some c => c
  | None => NUL
  end.

Definition peek (scan : t) : ascii := lookAhead scan 0.

Definition skip1 (base : t) : t :=
  mk (buf base) (S (bufPos base)) (lineNum base) (charNum base)
     (prevLineCharNum base).

(** Handles a new line character to update internal data. *)
Definition handleNewline (base : t) : bool * t :=
  let (w1, b1) := if peek base == CR then (true, skip1 base) else (false, base) in
  let (w2, b2) := if peek b1 == LF then (true, skip1 b1) else (w1, b1) in
  if w2
  then (true, mk (buf b2) (bufPos b2) (uint32 (lineNum b2 + 1)) 1 (charNum b2))
  else (false, b2).

Definition advance (scan : t) : ascii * t :=
  let previous := peek scan in
  if previous == NUL then (previous, scan)                      (* Stay here *)
  else if (previous == LF) || (previous == CR)
  then (previous, snd (handleNewline scan))
  else (previous,
        mk (buf scan) (S (bufPos scan)) (lineNum scan)
           (uint32 (charNum scan + 1)) (prevLineCharNum scan)).

Definition consume (char : ascii) (base : t) : bool * t :=
  if peek base == char then (true, snd (advance base)) else (false, base).

(** [take f] calls the producer [f] while the cursor is inside the buffer
    and joins what it yields; [stop] ends the loop cleanly. *)
Fixpoint take_loop (fuel : nat) (f : M t bytes) (result : bytes) (base : t)
  : outcome bytes * t :=
  if (bufPos base <? length (buf base))%nat then
    match fuel with
    | O => (Timeout, base)
    | S fuel =>
        match f base with
        | (Ok b, base) => take_loop fuel f (result ++ b) base
        | (Err err, base) =>
            if is_stop err then (Ok result, base) else (Err err, base)
        | (Panic msg, base) => (Panic msg, base)
        | (Timeout, base) => (Timeout, base)
        end
    end
  else (Ok result, base).

Definition take (fuel : nat) (f : M t bytes) : M t bytes :=
  take_loop fuel f [].

Definition takeWhile (fuel : nat) (f : ascii -> bool) : M t bytes :=
  take fuel (fun base =>
    if f (peek base)
    then let (c, base) := advance base in (Ok [c], base)
    else (Err stop, base)).

Definition takeUntil (fuel : nat) (f : ascii -> bool) : M t bytes :=
  take fuel (fun base =>
    if negb (f (peek base))
    then let (c, base) := advance base in (Ok [c], base)
    else (Err stop, base)).

End scanner.

(** ** Decoder: the value grammar *)

(** [hex.Decode] of two hexadecimal digits. *)
Definition fromHexChar (c : ascii) : Z :=
  if isDigit c then code c - code "0"%char
  else if ("a"%char <=. c) && (c <=. "f"%char) then code c - code "a"%char + 10
  else code c - code "A"%char + 10.

Definition hex_Decode (hi lo : ascii) : ascii :=
  chr (fromHexChar hi * 16 + fromHexChar lo).

Module Decoder.

Definition skipSpaces (fuel : nat) : M scanner.t unit :=
  scanner.takeWhile fuel (fun char => char == " "%char) ;;; ret tt.

Definition name (fuel : nat) : M scanner.t bytes :=
  skipSpaces fuel ;;;
  name <- scanner.takeWhile fuel isNameCharOrDigit ;;
  skipSpaces fuel ;;;
  ret name.

Definition takeStringChar : M scanner.t bytes :=
  char <- get scanner.peek ;;
  if (char == NUL) || (char == SQUOTE) || isNewlineChar char then fail stop
  else
    escaped <- call (scanner.consume BACKSLASH) ;;
    if negb escaped then
      c <- call scanner.advance ;; ret [c]
    else
      c <- call scanner.advance ;;
      if c == CR then call (scanner.consume LF) ;;; ret [LF]
      else if c == LF then ret [LF]
      else if c == "n"%char then ret [LF]
      else if c == "r"%char then ret [CR]
      else if c == "t"%char then ret [TAB]
      else if c == BACKSLASH then ret [BACKSLASH]
      else if c == SQUOTE then ret [SQUOTE]
      else if c == DQUOTE then ret [DQUOTE]
      else if c == "x"%char then
        h0 <- get scanner.peek ;;
        h1 <- get (fun d => scanner.lookAhead d 1) ;;
        if negb (isHexDigit h0) || negb (isHexDigit h1) then panic (bs "TODO")
        else
          b0 <- call scanner.advance ;;
          b1 <- call scanner.advance ;;
          ret [hex_Decode b0 b1]
      else fail errInvalidEscape.

Definition unexpectedChar {A} : M scanner.t A :=
  fun d => (Err (errUnexpectedChar (scanner.peek d) (scanner.lineNum d)
                                   (scanner.charNum d)), d).

(** The switch of [value] on the lookahead: one literal. *)
Definition literal (fuel : nat) : M scanner.t bytes :=
  c <- get scanner.peek ;;
  if c == SQUOTE then
    call scanner.advance ;;;
    s <- scanner.take fuel takeStringChar ;;
    call scanner.advance ;;;
    ret s
  else if c == DQUOTE then
    call scanner.advance ;;;
    s <- scanner.takeUntil fuel (fun char => char == DQUOTE) ;;
    call scanner.advance ;;;
    ret s
  else if isDigit c then
    int <- scanner.takeWhile fuel isDigit ;;
    dot <- call (scanner.consume "."%char) ;;
    if dot then
      frac <- scanner.takeWhile fuel isDigit ;;
      ret (int ++ "."%char :: frac)
    else ret int
  else if isNameChar c then
    scanner.takeWhile fuel isNameCharOrDigit
  else if isNewlineChar c then
    ret []                                       (* Empty value. *)
  else unexpectedChar.

Fixpoint value (fuel : nat) : M scanner.t bytes :=
  match fuel with
  | O => timeout
  | S fuel =>
      skipSpaces fuel ;;;
      lit <- literal fuel ;;
      skipSpaces fuel ;;;
      comma <- call (scanner.consume ","%char) ;;
      rest <- (if comma then
                 fun d =>
                   match value fuel d with
                   | (Ok v, d) => (Ok (","%char :: v), d)
                   | (Err _, d) => (Ok [","%char], d)   (* if err != nil { } *)
                   | (Panic msg, d) => (Panic msg, d)
                   | (Timeout, d) => (Timeout, d)
                   end
               else ret []) ;;
      semi <- call (scanner.consume ";"%char) ;;
      (if semi then scanner.takeUntil fuel isNewlineChar ;;; ret tt else ret tt) ;;;
      ret (lit ++ rest)
  end.

End Decoder.

(** ** The Go library functions the package calls

    [unicode/utf8], [strings], [strconv] and [encoding/hex] are not part of
    the package; they are written here after their documented behaviour. *)

Definition RuneError : Z := 0xFFFD.
Definition RuneSelf : Z := 0x80.

Definition isCont (c : ascii) : bool := (0x80 <=? code c) && (code c <=? 0xBF).

(** [utf8.DecodeRuneInString]: the rune at the head of [s] and its width; an
    invalid or truncated encoding is [(RuneError, 1)]. *)
Definition DecodeRune (s : bytes) : Z * nat :=
  match s with
  | [] => (RuneError, 0%nat)
  | b0 :: s1 =>
      let c0 := code b0 in
      if c0 <? 0x80 then (c0, 1%nat)
      else if c0 <? 0xC2 then (RuneError, 1%nat)
      else if c0 <? 0xE0 then
        match s1 with
        | b1 :: _ =>
            if isCont b1
            then ((c0 - 0xC0) * 64 + (code b1 - 0x80), 2%nat)
            else (RuneError, 1%nat)
        | _ => (RuneError, 1%nat)
        end
      else if c0 <? 0xF0 then
        match s1 with
        | b1 :: b2 :: _ =>
            let lo := if c0 =? 0xE0 then 0xA0 else 0x80 in
            let hi := if c0 =? 0xED then 0x9F else 0xBF in
            if (lo <=? code b1) && (code b1 <=? hi) && isCont b2
            then ((c0 - 0xE0) * 4096 + (code b1 - 0x80) * 64 + (code b2 - 0x80),
                  3%nat)
            else (RuneError, 1%nat)
        | _ => (RuneError, 1%nat)
        end
      else if c0 <? 0xF5 then
        match s1 with
        | b1 :: b2 :: b3 :: _ =>
            let lo := if c0 =? 0xF0 then 0x90 else 0x80 in
            let hi := if c0 =? 0xF4 then 0x8F else 0xBF in
            if (lo <=? code b1) && (code b1 <=? hi) && isCont b2 && isCont b3
            then ((c0 - 0xF0) * 262144 + (code b1 - 0x80) * 4096
                  + (code b2 - 0x80) * 64 + (code b3 - 0x80), 4%nat)
            else (RuneError, 1%nat)
        | _ => (RuneError, 1%nat)
        end
      else (RuneError, 1%nat)
  end.

(** [string(r)]: the UTF-8 encoding of a rune. *)
Definition EncodeRune (r : Z) : bytes :=
  if (r <? 0) || (0x10FFFF <? r) || (0xD800 <=? r) && (r <=? 0xDFFF)
  then [chr 0xEF; chr 0xBF; chr 0xBD]
  else if r <? 0x80 then [chr r]
  else if r <? 0x800 then [chr (0xC0 + r / 64); chr (0x80 + r mod 64)]
  else if r <? 0x10000 then
    [chr (0xE0 + r / 4096); chr (0x80 + (r / 64) mod 64); chr (0x80 + r mod 64)]
  else
    [chr (0xF0 + r / 262144); chr (0x80 + (r / 4096) mod 64);
     chr (0x80 + (r / 64) mod 64); chr (0x80 + r mod 64)].

(** [for _, r := range s]: the runes a range loop over a string visits. *)
Fixpoint range_loop (fuel : nat) (s : bytes) : list Z :=
  match fuel with
  | O => []
  | S fuel =>
      match s with
      | [] => []
      | _ => let (r, w) := DecodeRune s in r :: range_loop fuel (drop w s)
      end
  end.

Definition range_string (s : bytes) : list Z := range_loop (length s) s.

(** [utf8.DecodeLastRuneInString]. *)
Fixpoint lastRuneStart (fuel : nat) (s : bytes) (start lim : Z) : Z :=
  match fuel with
  | O => start
  | S fuel =>
      if start <? lim then start
      else if negb (isCont (nth (Z.to_nat start) s NUL)) then start
      else lastRuneStart fuel s (start - 1) lim
  end.

Definition DecodeLastRune (s : bytes) : Z * nat :=
  let end_ := Z.of_nat (length s) in
  if end_ =? 0 then (RuneError, 0%nat)
  else
    let r := code (nth (Z.to_nat (end_ - 1)) s NUL) in
    if r <? RuneSelf then (r, 1%nat)
    else
      let lim := Z.max 0 (end_ - 4) in
      let start := Z.max 0 (lastRuneStart 4 s (end_ - 2) lim) in
      let (r, size) := DecodeRune (drop (Z.to_nat start) s) in
      if start + Z.of_nat size =? end_ then (r, size) else (RuneError, 1%nat).

(** [unicode.IsSpace]. *)
Definition unicode_IsSpace (r : Z) : bool :=
  if r <=? 0xFF then
    (r =? 9) || (r =? 10) || (r =? 11) || (r =? 12) || (r =? 13) || (r =? 32)
    || (r =? 0x85) || (r =? 0xA0)
  else
    (r =? 0x1680) || (0x2000 <=? r) && (r <=? 0x200A) || (r =? 0x2028)
    || (r =? 0x2029) || (r =? 0x202F) || (r =? 0x205F) || (r =? 0x3000).

Definition asciiSpace (c : ascii) : bool :=
  (c == TAB) || (c == LF) || (c == VT) || (c == FF) || (c == CR) || (c == " "%char).

Fixpoint TrimLeftFunc_loop (fuel : nat) (f : Z -> bool) (s : bytes) : bytes :=
  match fuel with
  | O => s
  | S fuel =>
      match s with
      | [] => []
      | _ => let (r, w) := DecodeRune s in
             if f r then TrimLeftFunc_loop fuel f (drop w s) else s
      end
  end.

Definition TrimLeftFunc (s : bytes) (f : Z -> bool) : bytes :=
  TrimLeftFunc_loop (length s) f s.

(** [lastIndexFunc s f false]: where the last rune that fails [f] starts. *)
Fixpoint lastIndexFunc (fuel : nat) (f : Z -> bool) (s : bytes) : option nat :=
  match fuel with
  | O => None
  | S fuel =>
      match s with
      | [] => None
      | _ => let (r, size) := DecodeLastRune s in
             let i := (length s - size)%nat in
             if negb (f r) then Some i else lastIndexFunc fuel f (take i s)
      end
  end.

Definition TrimRightFunc (s : bytes) (f : Z -> bool) : bytes :=
  match lastIndexFunc (length s) f s with
  | Some i =>
      if RuneSelf <=? code (nth i s NUL)
      then let (_, wid) := DecodeRune (drop i s) in take (i + wid) s
      else take (S i) s
  | None => []
  end.

Definition TrimFunc (s : bytes) (f : Z -> bool) : bytes :=
  TrimRightFunc (TrimLeftFunc s f) f.

(** [strings.TrimSpace]: the ASCII fast path from both ends, and the
    Unicode-aware trimming as soon as a byte above 0x7F is met. *)
Fixpoint TrimSpace_start (s : bytes) : bytes * bool :=
  match s with
  | [] => ([], false)
  | c :: s' =>
      if RuneSelf <=? code c then (s, true)
      else if asciiSpace c then TrimSpace_start s'
      else (s, false)
  end.

Definition TrimSpace (s : bytes) : bytes :=
  let (s1, slow) := TrimSpace_start s in
  if slow then TrimFunc s1 unicode_IsSpace
  else
    let (r, slow) := TrimSpace_start (rev s1) in
    if slow then TrimRightFunc (rev r) unicode_IsSpace else rev r.

(** [strings.Split(s, ",")]. *)
Fixpoint Split_loop (s cur : bytes) : list bytes :=
  match s with
  | [] => [cur]
  | c :: s =>
      if c == ","%char then cur :: Split_loop s []
      else Split_loop s (cur ++ [c])
  end.

Definition Split_comma (s : bytes) : list bytes := Split_loop s [].

(** [strings.Cut(s, ",")]. *)
Fixpoint Cut_loop (s before : bytes) : bytes * bytes * bool :=
  match s with
  | [] => (before, [], false)
  | c :: s =>
      if c == ","%char then (before, s, true)
      else Cut_loop s (before ++ [c])
  end.

Definition Cut_comma (s : bytes) : bytes * bytes * bool := Cut_loop s [].

(** [strconv.FormatBool], [strconv.ParseBool]. *)
Definition FormatBool (b : bool) : bytes := if b then bs "true" else bs "false".

Definition ParseBool (str : bytes) : outcome bool :=
  if existsb (bytes_eqb str)
       [bs "1"; bs "t"; bs "T"; bs "TRUE"; bs "true"; bs "True"] then Ok true
  else if existsb (bytes_eqb str)
       [bs "0"; bs "f"; bs "F"; bs "FALSE"; bs "false"; bs "False"] then Ok false
  else Err (errSyntax (bs "ParseBool") str).

(** [strconv.FormatUint(u, 10)] and [strconv.FormatInt(i, 10)]: a 64-bit
    number has at most twenty decimal digits. *)
Fixpoint formatBits (fuel : nat) (u : Z) (a : bytes) : bytes :=
  match fuel with
  | O => a
  | S fuel =>
      if u <? 10 then chr (code "0"%char + u) :: a
      else formatBits fuel (u / 10) (chr (code "0"%char + u mod 10) :: a)
  end.

Definition FormatUint (u : Z) : bytes := formatBits 20 u [].

Definition FormatInt (i : Z) : bytes :=
  if i <? 0 then "-"%char :: formatBits 20 (- i) [] else formatBits 20 i [].

(** [strconv.ParseUint(s, 10, 64)]. *)
Fixpoint ParseUint_loop (s0 s : bytes) (n : Z) : outcome Z :=
  match s with
  | [] => Ok n
  | c :: s =>
      if isDigit c then
        let n1 := n * 10 + (code c - code "0"%char) in
        if 2 ^ 64 <=? n1 then Err (errRange (bs "ParseUint") s0)
        else ParseUint_loop s0 s n1
      else Err (errSyntax (bs "ParseUint") s0)
  end.

Definition ParseUint (s : bytes) : outcome Z :=
  match s with
  | [] => Err (errSyntax (bs "ParseUint") s)
  | _ => ParseUint_loop s s 0
  end.

(** [strconv.ParseInt(s, 10, 64)]. *)
Definition ParseInt (s : bytes) : outcome Z :=
  match s with
  | [] => Err (errSyntax (bs "ParseInt") s)
  | c :: s' =>
      let neg := c == "-"%char in
      let digits := if (c == "+"%char) || neg then s' else s in
      match ParseUint digits with
      | Ok un =>
          if negb neg && (2 ^ 63 <=? un) then Err (errRange (bs "ParseInt") s)
          else if neg && (2 ^ 63 <? un) then Err (errRange (bs "ParseInt") s)
          else Ok (if neg then - un else un)
      | Err (errRange _ _) => Err (errRange (bs "ParseInt") s)
      | Err _ => Err (errSyntax (bs "ParseInt") s)
      | Panic msg => Panic msg
      | Timeout => Timeout
      end
  end.

(** [hex.EncodeToString] of one byte. *)
Definition hexDigit (z : Z) : ascii :=
  if z <? 10 then chr (code "0"%char + z) else chr (code "a"%char + (z - 10)).

Definition hex_Encode (c : ascii) : ascii * ascii :=
  (hexDigit (code c / 16), hexDigit (code c mod 16)).

(** ** reflect: types, values in memory, and value handles

    A [GoValue] is the content of a typed storage location; it carries what
    [reflect] can ask of it (its type name, its kind, its members with their
    tags).  Values are trees: a pointer owns what it points to.  A
    [reflect.Value] is a handle: a path into the root value of the call, or a
    value held outside it. *)

Module reflect.

Inductive Kind : Type :=
  | Invalid | Bool | Int | Int8 | Int16 | Int32 | Int64
  | Uint | Uint8 | Uint16 | Uint32 | Uint64 | Uintptr
  | Float32 | Float64 | Complex64 | Complex128
  | Array | Chan | Func | Interface | Map | Pointer | Slice | String | Struct
  | UnsafePointer.

Definition Kind_eqb (a b : Kind) : bool :=
  match a, b with
  | Invalid, Invalid | Bool, Bool | Int, Int | Int8, Int8 | Int16, Int16
  | Int32, Int32 | Int64, Int64 | Uint, Uint | Uint8, Uint8 | Uint16, Uint16
  | Uint32, Uint32 | Uint64, Uint64 | Uintptr, Uintptr | Float32, Float32
  | Float64, Float64 | Complex64, Complex64 | Complex128, Complex128
  | Array, Array | Chan, Chan | Func, Func | Interface, Interface | Map, Map
  | Pointer, Pointer | Slice, Slice | String, String | Struct, Struct
  | UnsafePointer, UnsafePointer => true
  | _, _ => false
  end.

Inductive IntKind : Type := KInt | KInt8 | KInt16 | KInt32 | KInt64.
Inductive UintKind : Type := KUint | KUint8 | KUint16 | KUint32 | KUint64.
Inductive FloatKind : Type := KFloat32 | KFloat64.

Definition kindOfInt (k : IntKind) : Kind :=
  match k with
  | KInt => Int | KInt8 => Int8 | KInt16 => Int16 | KInt32 => Int32
  | KInt64 => Int64
  end.
Definition kindOfUint (k : UintKind) : Kind :=
  match k with
  | KUint => Uint | KUint8 => Uint8 | KUint16 => Uint16 | KUint32 => Uint32
  | KUint64 => Uint64
  end.
Definition kindOfFloat (k : FloatKind) : Kind :=
  match k with KFloat32 => Float32 | KFloat64 => Float64 end.

(** Width in bits; [int] and [uint] are 64 bits wide. *)
Definition intBits (k : IntKind) : Z :=
  match k with KInt8 => 8 | KInt16 => 16 | KInt32 => 32 | _ => 64 end.
Definition uintBits (k : UintKind) : Z :=
  match k with KUint8 => 8 | KUint16 => 16 | KUint32 => 32 | _ => 64 end.

(** A struct tag in its conventional form: [key:"value"] pairs. *)
Definition StructTag := list (bytes * bytes).

Fixpoint Tag_Get (tag : StructTag) (key : bytes) : bytes :=
  match tag with
  | [] => []
  | (k, v) :: tag => if bytes_eqb k key then v else Tag_Get tag key
  end.

(** The declaration of a struct member. *)
Record Member : Type := mkMember {
  mName : bytes;
  mPkgPath : bytes;          (* empty for an exported member *)
  mTag : StructTag;
  mAnonymous : bool
}.

#[warnings="-register-all"]
Inductive GoType : Type :=
  | TBool (tn : bytes)
  | TInt (tn : bytes) (k : IntKind)
  | TUint (tn : bytes) (k : UintKind)
  | TFloat (tn : bytes) (k : FloatKind)
  | TString (tn : bytes)
  | TArray (tn : bytes) (len : nat) (elem : GoType)
  | TSlice (tn : bytes) (elem : GoType)
  | TStruct (tn : bytes) (fields : list (Member * GoType))
  | TMap (tn : bytes) (key elem : GoType)
  | TPointer (tn : bytes) (elem : GoType)
  | TInterface (tn : bytes)
  | TOther (tn : bytes) (k : Kind).   (* chan, func, complex, uintptr, ... *)

#[warnings="-register-all"]
Inductive GoValue : Type :=
  | VBool (tn : bytes) (b : bool)
  | VInt (tn : bytes) (k : IntKind) (i : Z)
  | VUint (tn : bytes) (k : UintKind) (u : Z)
  | VFloat (tn : bytes) (k : FloatKind) (float64bits : Z)
  | VString (tn : bytes) (s : bytes)
  | VArray (tn : bytes) (elem : GoType) (l : list GoValue)
  | VSlice (tn : bytes) (elem : GoType) (l : option (list GoValue)) (cap : nat)
  | VStruct (tn : bytes) (fields : list (Member * GoValue))
  | VMap (tn : bytes) (key elem : GoType) (m : option (list (GoValue * GoValue)))
  | VPointer (tn : bytes) (elem : GoType) (p : option GoValue)
  | VInterface (tn : bytes) (e : option GoValue)
  | VOther (tn : bytes) (k : Kind) (isZero : bool).

(** [t.String()] and [t.Kind()]. *)
Definition Type_String (t : GoType) : bytes :=
  match t with
  | TBool tn | TInt tn _ | TUint tn _ | TFloat tn _ | TString tn
  | TArray tn _ _ | TSlice tn _ | TStruct tn _ | TMap tn _ _ | TPointer tn _
  | TInterface tn | TOther tn _ => tn
  end.

Definition Type_Kind (t : GoType) : Kind :=
  match t with
  | TBool _ => Bool
  | TInt _ k => kindOfInt k
  | TUint _ k => kindOfUint k
  | TFloat _ k => kindOfFloat k
  | TString _ => String
  | TArray _ _ _ => Array
  | TSlice _ _ => Slice
  | TStruct _ _ => Struct
  | TMap _ _ _ => Map
  | TPointer _ _ => Pointer
  | TInterface _ => Interface
  | TOther _ k => k
  end.

(** [v.Type()]. *)
Fixpoint typeOf (v : GoValue) : GoType :=
  match v with
  | VBool tn _ => TBool tn
  | VInt tn k _ => TInt tn k
  | VUint tn k _ => TUint tn k
  | VFloat tn k _ => TFloat tn k
  | VString tn _ => TString tn
  | VArray tn elem l => TArray tn (length l) elem
  | VSlice tn elem _ _ => TSlice tn elem
  | VStruct tn fields =>
      TStruct tn (map (fun mv : Member * GoValue =>
                         let (m, x) := mv in (m, typeOf x)) fields)
  | VMap tn key elem _ => TMap tn key elem
  | VPointer tn elem _ => TPointer tn elem
  | VInterface tn _ => TInterface tn
  | VOther tn k _ => TOther tn k
  end.

Definition Value_Kind (v : GoValue) : Kind := Type_Kind (typeOf v).

(** [reflect.Zero(t)]. *)
Fixpoint zero (t : GoType) : GoValue :=
  match t with
  | TBool tn => VBool tn false
  | TInt tn k => VInt tn k 0
  | TUint tn k => VUint tn k 0
  | TFloat tn k => VFloat tn k 0
  | TString tn => VString tn []
  | TArray tn n elem => VArray tn elem (replicate n (zero elem))
  | TSlice tn elem => VSlice tn elem None 0
  | TStruct tn fields =>
      VStruct tn (map (fun mt : Member * GoType =>
                         let (m, x) := mt in (m, zero x)) fields)
  | TMap tn key elem => VMap tn key elem None
  | TPointer tn elem => VPointer tn elem None
  | TInterface tn => VInterface tn None
  | TOther tn k => VOther tn k true
  end.

(** [v.IsZero()]; a float is zero when it compares equal to 0. *)
Fixpoint IsZero (v : GoValue) : bool :=
  match v with
  | VBool _ b => negb b
  | VInt _ _ i => i =? 0
  | VUint _ _ u => u =? 0
  | VFloat _ _ f => (f =? 0) || (f =? 2 ^ 63)
  | VString _ s => match s with [] => true | _ => false end
  | VArray _ _ l => forallb IsZero l
  | VSlice _ _ l _ => match l with None => true | Some _ => false end
  | VStruct _ fields =>
      forallb (fun mv : Member * GoValue => let (_, x) := mv in IsZero x) fields
  | VMap _ _ _ m => match m with None => true | Some _ => false end
  | VPointer _ _ p => match p with None => true | Some _ => false end
  | VInterface _ e => match e with None => true | Some _ => false end
  | VOther _ _ z => z
  end.

(** [math.IsNaN] and [math.IsInf] on the bits of a float64. *)
Definition float_exp (f : Z) : Z := (f / 2 ^ 52) mod 2 ^ 11.
Definition float_frac (f : Z) : Z := f mod 2 ^ 52.
Definition IsNaN (f : Z) : bool := (float_exp f =? 2047) && negb (float_frac f =? 0).
Definition IsInf (f : Z) (sign : Z) : bool :=
  (float_exp f =? 2047) && (float_frac f =? 0)
  && (if 0 <? sign then f <? 2 ^ 63 else 2 ^ 63 <=? f).

(** Locations inside the root value. *)
Inductive Step : Type :=
  | SField (i : nat)       (* v.Field(i) *)
  | SIndex (i : nat)       (* v.Index(i) *)
  | SElem                  (* v.Elem() of a pointer or an interface *)
  | SEntry (i : nat).      (* the value of the i-th entry of a map range *)

Abbreviation Path := (list Step).

Definition step (v : GoValue) (st : Step) : option GoValue :=
  match st, v with
  | SField i, VStruct _ fields => snd <$> fields !! i
  | SIndex i, VArray _ _ l => l !! i
  | SIndex i, VSlice _ _ (Some l) _ => l !! i
  | SElem, VPointer _ _ p => p
  | SElem, VInterface _ e => e
  | SEntry i, VMap _ _ _ (Some m) => snd <$> m !! i
  | _, _ => None
  end.

Fixpoint load (v : GoValue) (p : Path) : option GoValue :=
  match p with
  | [] => Some v
  | st :: p => match step v st with
               | Some x => load x p
               | None => None
               end
  end.

(** [modify v p f] replaces the content at [p] by [f] of it; a path that
    leads nowhere leaves the value as it is. *)
Fixpoint modify (v : GoValue) (p : Path) (f : GoValue -> GoValue) {struct p}
  : GoValue :=
  match p with
  | [] => f v
  | st :: p =>
      match st, v with
      | SField i, VStruct tn fields =>
          VStruct tn (alter (fun mv : Member * GoValue =>
                               (fst mv, modify (snd mv) p f)) i fields)
      | SIndex i, VArray tn elem l =>
          VArray tn elem (alter (fun x => modify x p f) i l)
      | SIndex i, VSlice tn elem (Some l) cap =>
          VSlice tn elem (Some (alter (fun x => modify x p f) i l)) cap
      | SElem, VPointer tn elem (Some x) =>
          VPointer tn elem (Some (modify x p f))
      | SElem, VInterface tn (Some x) =>
          VInterface tn (Some (modify x p f))
      | SEntry i, VMap tn key elem (Some m) =>
          VMap tn key elem
               (Some (alter (fun kv : GoValue * GoValue =>
                               (fst kv, modify (snd kv) p f)) i m))
      | _, _ => v
      end
  end.

(** The handle [reflect.Value]. *)
Inductive Value : Type :=
  | Zero                                   (* the zero Value: not IsValid *)
  | At (p : Path) (canAddr : bool)         (* a location under the root *)
  | Detached (v : GoValue).                (* a value of its own, read only *)

(** The content a handle denotes in memory [mem], and [v.CanAddr()]. *)
Definition resolve (mem : GoValue) (h : Value) : option (GoValue * bool) :=
  match h with
  | Zero => None
  | At p canAddr => (fun x => (x, canAddr)) <$> load mem p
  | Detached v => Some (v, false)
  end.

(** [reflect.StructField] as the walker receives it. *)
Record StructField : Type := mkStructField {
  Name : bytes;
  PkgPath : bytes;
  Type_ : option GoType;
  Tag : StructTag;
  Anonymous : bool
}.

Definition IsExported (f : StructField) : bool :=
  match PkgPath f with [] => true | _ => false end.

(** [v.Type().Field(i)] for the member [m] holding [x]. *)
Definition fieldOf (m : Member) (x : GoValue) : StructField :=
  mkStructField (mName m) (mPkgPath m) (Some (typeOf x)) (mTag m) (mAnonymous m).

(** [reflect.StructField{}]. *)
Definition noField : StructField := mkStructField [] [] None [] false.

End reflect.

Import reflect(GoType, GoValue).

(** ** The section tree (decode.go) *)

Module Field.
(** Field represents a key-value pair in the INI tree. *)
Record t : Type := mk {
    Name : bytes;
    Value : reflect.Value;
    OmitEmpty : bool;
    Commented : bool
  }.
End Field.

Module Section.
(** Section represents a table in the INI tree. *)
Record t : Type := mk {
  Name : bytes;
  Fields : list Field.t;
  OmitEmpty : bool
}.

Definition empty : t := mk [] [] false.
End Section.

(** Field looks for a name in the section. *)
Fixpoint Section_Field_loop (fields : list Field.t) (name : bytes)
  : option Field.t :=
  match fields with
  | [] => None
  | field :: fields =>
      if bytes_eqb (Field.Name field) name then Some field
      else Section_Field_loop fields name
  end.

Definition Section_Field (s : Section.t) (name : bytes) : option Field.t :=
  Section_Field_loop (Section.Fields s) name.

(** [slices.IndexFunc] on the section name; the pointer into [sections] is the
    section found. *)
Fixpoint findSection (sections : list Section.t) (name : bytes)
  : option Section.t :=
  match sections with
  | [] => None
  | section :: sections =>
      if bytes_eqb (Section.Name section) name then Some section
      else findSection sections name
  end.

(** ** What the caller's program supplies

    The methods that types of the caller implement ([Marshaler],
    [SectionMarshaler], [encoding.TextMarshaler]); the boolean asks for the
    method set of [*T] instead of [T].  A method receives the content of its
    receiver and the handle it was reached by. *)

Class Methods : Type := {
  MarshalINI :
    GoType -> bool ->
    option (GoValue -> reflect.Value -> outcome (list Section.t * option error));
  SectionMarshalINI :
    GoType -> bool ->
    option (GoValue -> reflect.Value -> outcome (Section.t * option error));
  MarshalText :
    GoType -> bool ->
    option (GoValue -> reflect.Value -> outcome (option bytes * option error))
}.

(** A program none of whose types implements a hook. *)
Definition noMethods : Methods :=
  {| MarshalINI := fun _ _ => None;
     SectionMarshalINI := fun _ _ => None;
     MarshalText := fun _ _ => None |}.

(** ** What the Go runtime supplies

    [strconv.FormatFloat(f, 'f', -1, 64)], [strconv.ParseFloat(s, 64)] and the
    rounding of [SetFloat] on a float32, on the bits of a float64: the
    decimal conversions of floating point are left to the implementation.
    So is the capacity [growslice] gives a slice of length [len] and capacity
    [cap] that [reflect.Value.Grow] grows by [n] elements of type [elem]: it
    is rounded up to an allocation size class, and is at least [len + n]. *)
Class Runtime : Type := {
  FormatFloat : Z -> bytes;
  ParseFloat : bytes -> outcome Z;
  roundFloat32 : Z -> Z;
  growCap : GoType -> nat -> nat -> nat -> nat;
  growCap_enough : forall elem len cap n, (len + n <= growCap elem len cap n)%nat
}.

(** ** Struct tags *)

Record flags : Type := mkFlags {
  key : bytes;
  inline : bool;
  omitempty : bool;
  commented : bool
}.

Definition set_key (f : flags) (k : bytes) : flags :=
  mkFlags k (inline f) (omitempty f) (commented f).
Definition set_inline (f : flags) : flags :=
  mkFlags (key f) true (omitempty f) (commented f).
Definition set_omitempty (f : flags) : flags :=
  mkFlags (key f) (inline f) true (commented f).
Definition set_commented (f : flags) : flags :=
  mkFlags (key f) (inline f) (omitempty f) true.

(** The loop of [parseTag] over the flags that follow the key. *)
Fixpoint parseTag_loop (t field : bytes) (rest : list bytes) (fl : flags)
  : flags * option error :=
  match rest with
  | [] => (fl, None)
  | flag :: rest =>
      let flag := TrimSpace flag in
      if bytes_eqb flag (bs "inline") then
        if inline fl then (fl, Some (errDuplicateFlag flag field t))
        else parseTag_loop t field rest (set_inline fl)
      else if bytes_eqb flag (bs "omitempty") then
        if omitempty fl then (fl, Some (errDuplicateFlag flag field t))
        else parseTag_loop t field rest (set_omitempty fl)
      else if bytes_eqb flag (bs "commented") then
        if commented fl then (fl, Some (errDuplicateFlag flag field t))
        else parseTag_loop t field rest (set_commented fl)
      else (fl, Some (errUnknownFlag flag field t))
  end.

Definition parseTag (t : GoType) (field : reflect.StructField)
  : flags * option error :=
  let '(name, rest, found) :=
    Cut_comma (reflect.Tag_Get (reflect.Tag field) (bs "ini")) in
  let rest := TrimSpace rest in
  let fl := mkFlags (TrimSpace name) false false false in
  if found then
    match rest with
    | [] => (fl, Some errUnexpectedComma)
    | _ => parseTag_loop (reflect.Type_String t) (reflect.Name field)
                         (Split_comma rest) fl
    end
  else (fl, None).

(** ** Leaf codecs *)

Definition quoteRune (r : Z) : bytes :=
  if (0x20 <=? r) && (r <=? 0x7E) then [chr r]
  else if r =? code LF then [BACKSLASH; "n"%char]
  else if r =? code CR then [BACKSLASH; "r"%char]
  else
    flat_map (fun c => let (hi, lo) := hex_Encode c in [BACKSLASH; "x"%char; hi; lo])
             (EncodeRune r).

Definition quoteString (s : bytes) : bytes :=
  SQUOTE :: flat_map quoteRune (range_string s) ++ [SQUOTE].

(** [v.Elem()] and [v.Index(i)] on handles. *)
Definition handleElem (h : reflect.Value) (ofPointer : bool) (x : option GoValue)
  : reflect.Value :=
  match x with
  | None => reflect.Zero
  | Some x =>
      match h with
      | reflect.At p _ => reflect.At (p ++ [reflect.SElem]) ofPointer
      | _ => reflect.Detached x
      end
  end.

Definition handleIndex (h : reflect.Value) (ofSlice : bool) (i : nat) (x : GoValue)
  : reflect.Value :=
  match h with
  | reflect.At p canAddr => reflect.At (p ++ [reflect.SIndex i]) (ofSlice || canAddr)
  | _ => reflect.Detached x
  end.

Definition canAddr (h : reflect.Value) : bool :=
  match h with reflect.At _ a => a | _ => false end.

Section Codec.
Context {methods : Methods} {runtime : Runtime}.

(** [if v.Kind() == reflect.Interface { v = v.Elem() }], then the rest of
    [encode] as [k]; [v.Type()] of the zero Value panics. *)
Definition throughInterface {R} (k : GoValue -> reflect.Value -> outcome R)
  (v : GoValue) (h : reflect.Value) : outcome R :=
  match v with
  | reflect.VInterface _ (Some x) => k x (handleElem h false (Some x))
  | reflect.VInterface _ None =>
      Panic (bs "reflect: call of reflect.Value.Type on zero Value")
  | _ => k v h
  end.

Definition encodeFloat (value : Z) : bytes :=
  if reflect.IsNaN value then bs "nan"
  else if reflect.IsInf value 1 then bs "inf"
  else if reflect.IsInf value (-1) then bs "-inf"
  else FormatFloat value.

Definition textHook (m : GoValue -> reflect.Value -> outcome (option bytes * option error))
  (v : GoValue) (h : reflect.Value) : outcome (option bytes * option error) :=
  obind (m v h) (fun r =>
    match r with
    | (_, Some err) => Ok (None, Some err)
    | (b, None) => Ok (b, None)
    end).

(** The loop of [encode] over the elements of a sequence: the texts of the
    elements, a comma between them. *)
Fixpoint encodeElements
    (encodeElem : GoValue -> reflect.Value -> outcome (option bytes * option error))
    (h : reflect.Value) (ofSlice : bool) (i : nat) (l : list GoValue) (buf : bytes)
    {struct l} : outcome (option bytes * option error) :=
  match l with
  | [] => Ok (Some buf, None)
  | x :: l =>
      let buf := if (0 <? i)%nat then buf ++ [","%char] else buf in
      match encodeElem x (handleIndex h ofSlice i x) with
      | Ok (_, Some err) => Ok (None, Some err)
      | Ok (b, None) => encodeElements encodeElem h ofSlice (S i) l (buf ++ default [] b)
      | Err e => Err e
      | Panic msg => Panic msg
      | Timeout => Timeout
      end
  end.

(** [encode] once the interface is unwrapped. *)
Fixpoint encodeValue (v : GoValue) (h : reflect.Value)
  : outcome (option bytes * option error) :=
  let t := reflect.typeOf v in
  match MarshalText t false with
  | Some m => textHook m v h
  | None =>
      if canAddr h && match MarshalINI t true with Some _ => true | None => false end
      then match MarshalText t true with
           | Some m => textHook m v h
           | None => Panic (bs "interface conversion: missing method MarshalText")
           end
      else
        let elems (ofSlice : bool) (l : list GoValue) :=
          encodeElements (throughInterface encodeValue) h ofSlice 0%nat l [] in
        match v with
        | reflect.VBool _ b => Ok (Some (FormatBool b), None)
        | reflect.VInt _ _ i => Ok (Some (FormatInt i), None)
        | reflect.VUint _ _ u => Ok (Some (FormatUint u), None)
        | reflect.VFloat _ _ f => Ok (Some (encodeFloat f), None)
        | reflect.VArray _ _ l => elems false l
        | reflect.VSlice _ _ (Some l) _ => elems true l
        | reflect.VSlice _ _ None _ => Ok (Some [], None)
        | reflect.VString _ s => Ok (Some (quoteString s), None)
        | _ => Ok (None, Some (errInvalidTypeForEncode (reflect.Type_String t)))
        end
  end.

Definition encode (v : GoValue) (h : reflect.Value)
  : outcome (option bytes * option error) :=
  throughInterface encodeValue v h.

(** The method [MarshalText] of [Field], reading the field's handle in memory [mem]. *)
Definition Field_MarshalText (mem : GoValue) (f : Field.t)
  : outcome (option bytes * option error) :=
  match reflect.resolve mem (Field.Value f) with
  | Some (v, _) =>
      if negb (Field.OmitEmpty f) || negb (reflect.IsZero v)
      then encode v (Field.Value f)
      else Ok (None, None)
  | None => Ok (None, Some errFieldInvalidValue)
  end.

End Codec.

(** ** Assignment into the target (decode.go) *)

Definition wrapInt (k : reflect.IntKind) (x : Z) : Z :=
  let m := 2 ^ reflect.intBits k in (x + m / 2) mod m - m / 2.
Definition wrapUint (k : reflect.UintKind) (x : Z) : Z :=
  x mod 2 ^ reflect.uintBits k.

Definition SetBool (x : bool) (v : GoValue) : GoValue :=
  match v with reflect.VBool tn _ => reflect.VBool tn x | _ => v end.
Definition SetInt (x : Z) (v : GoValue) : GoValue :=
  match v with reflect.VInt tn k _ => reflect.VInt tn k (wrapInt k x) | _ => v end.
Definition SetUint (x : Z) (v : GoValue) : GoValue :=
  match v with reflect.VUint tn k _ => reflect.VUint tn k (wrapUint k x) | _ => v end.
Definition SetFloat {runtime : Runtime} (x : Z) (v : GoValue) : GoValue :=
  match v with
  | reflect.VFloat tn reflect.KFloat32 _ => reflect.VFloat tn reflect.KFloat32 (roundFloat32 x)
  | reflect.VFloat tn reflect.KFloat64 _ => reflect.VFloat tn reflect.KFloat64 x
  | _ => v
  end.
Definition SetString (x : bytes) (v : GoValue) : GoValue :=
  match v with reflect.VString tn _ => reflect.VString tn x | _ => v end.

(** [v.Grow(n); v.SetLen(n)] on a slice whose capacity is below [n]: the
    elements are kept and zero elements follow.  [Grow] leaves the capacity
    alone when [n] more elements fit, and takes the one the runtime chooses
    otherwise. *)
Definition growTo {runtime : Runtime} (n : nat) (v : GoValue) : GoValue :=
  match v with
  | reflect.VSlice tn elem l cap =>
      let old := default [] l in
      reflect.VSlice tn elem
        (Some (old ++ replicate (n - length old) (reflect.zero elem)))
        (if (length old + n <=? cap)%nat then cap
         else growCap elem (length old) cap n)
  | _ => v
  end.

Definition sliceCap (v : option GoValue) : nat :=
  match v with
  | Some (reflect.VSlice _ _ _ cap) => cap
  | _ => 0%nat
  end.

Definition update (p : reflect.Path) (f : GoValue -> GoValue) : M GoValue unit :=
  fun mem => (Ok tt, reflect.modify mem p f).

Section Assign.
Context {runtime : Runtime}.

(** The loop of [decode] over the pieces of a sequence: piece [i] is
    decoded into [v.Index(i)], which panics out of range. *)
Fixpoint decodeElements (decodeElem : bytes -> reflect.Path -> M GoValue unit)
    (p : reflect.Path) (i : nat) (values : list bytes) {struct values}
  : M GoValue unit :=
  match values with
  | [] => ret tt
  | piece :: values =>
      fun mem =>
        let q := p ++ [reflect.SIndex i] in
        match reflect.load mem q with
        | None => (Panic (bs "reflect: slice index out of range"), mem)
        | Some _ =>
            match decodeElem (TrimSpace piece) q mem with
            | (Ok _, mem) => decodeElements decodeElem p (S i) values mem
            | (Err err, mem) => (Err (errParsingFailed err), mem)
            | (Panic msg, mem) => (Panic msg, mem)
            | (Timeout, mem) => (Timeout, mem)
            end
        end
  end.

(** The switch of [decode] on the kind of a settable location [p] whose
    type is [t]; the elements of a sequence are locations again. *)
Fixpoint decodeKind (t : GoType) (str : bytes) (p : reflect.Path) {struct t}
  : M GoValue unit :=
  match str with
  | [] => ret tt
  | _ =>
      let elements (elem : GoType) := decodeElements (decodeKind elem) p 0%nat in
      match t with
      | reflect.TBool _ =>
          match ParseBool str with
          | Ok x => update p (SetBool x)
          | Err err => fail (errParsingFailed err)
          | Panic msg => panic msg
          | Timeout => timeout
          end
      | reflect.TInt _ _ =>
          match ParseInt str with
          | Ok x => update p (SetInt x)
          | Err err => fail (errParsingFailed err)
          | Panic msg => panic msg
          | Timeout => timeout
          end
      | reflect.TUint _ _ =>
          match ParseUint str with
          | Ok x => update p (SetUint x)
          | Err err => fail (errParsingFailed err)
          | Panic msg => panic msg
          | Timeout => timeout
          end
      | reflect.TFloat _ _ =>
          match ParseFloat str with
          | Ok x => update p (SetFloat x)
          | Err err => fail (errParsingFailed err)
          | Panic msg => panic msg
          | Timeout => timeout
          end
      | reflect.TArray _ n elem =>
          let values := Split_comma str in
          if (n <? length values)%nat
          then panic (bs "reflect: call of reflect.Value.Grow on array Value")
          else elements elem values
      | reflect.TSlice _ elem =>
          let values := Split_comma str in
          fun mem =>
            let mem :=
              if (sliceCap (reflect.load mem p) <? length values)%nat
              then reflect.modify mem p (growTo (length values))
              else mem in
            elements elem values mem
      | reflect.TString _ =>
          update p (SetString str)                   (* String already unquoted. *)
      | _ => fail (errCannotDecode (reflect.Type_String t))
      end
  end.

Definition decode (str : bytes) (v : reflect.Value) : M GoValue unit :=
  fun mem =>
    match reflect.resolve mem v, str with
    | None, _ | _, [] => (Ok tt, mem)
    | Some (x, canSet), _ =>
        match v with
        | reflect.At p true => decodeKind (reflect.typeOf x) str p mem
        | _ => (Err errValueCannotBeSet, mem)
        end
    end.

(** The method [UnmarshalText] of [Field]. *)
Definition Field_UnmarshalText (f : Field.t) (text : bytes) : M GoValue unit :=
  fun mem =>
    match reflect.resolve mem (Field.Value f) with
    | Some _ => decode text (Field.Value f) mem
    | None => (Err errFieldInvalidValue, mem)
    end.

End Assign.

(** ** The shape walker (decode.go) *)

Definition handleField (h : reflect.Value) (i : nat) (x : GoValue) : reflect.Value :=
  match h with
  | reflect.At p canAddr => reflect.At (p ++ [reflect.SField i]) canAddr
  | _ => reflect.Detached x
  end.

Definition handleEntry (h : reflect.Value) (i : nat) (x : GoValue) : reflect.Value :=
  match h with
  | reflect.At p _ => reflect.At (p ++ [reflect.SEntry i]) false
  | _ => reflect.Detached x
  end.

Definition isBasicType (t : GoType) : bool :=
  match reflect.Type_Kind t with
  | reflect.Bool | reflect.Array | reflect.Slice | reflect.String
  | reflect.Int8 | reflect.Int16 | reflect.Int32 | reflect.Int64
  | reflect.Uint8 | reflect.Uint16 | reflect.Uint32 | reflect.Uint64
  | reflect.Int | reflect.Uint | reflect.Float32 | reflect.Float64 => true
  | _ => false
  end.

Definition isZeroOrEmpty (v : GoValue) : bool :=
  reflect.IsZero v ||
  match v with
  | reflect.VSlice _ _ (Some []) _ | reflect.VMap _ _ _ (Some []) => true
  | _ => false
  end.

Definition typePanic {A} : outcome A :=
  Panic (bs "reflect: call of reflect.Value.Type on zero Value").

Section Walker.
Context {methods : Methods}.

(** [walkStructFields v f]: [f] receives the member's value ([None] for the
    zero Value that [Elem] of a nil pointer or interface gives), its
    handle, its declaration and its flags.  The loop runs over the members
    from index [i] on, with the values and the errors gathered so far. *)
Fixpoint walkStructFields_loop {T} (t : GoType) (h : reflect.Value)
  (f : option GoValue -> reflect.Value -> reflect.StructField -> flags ->
       outcome (T * option error))
  (i : nat) (members : list (reflect.Member * GoValue))
  (vals : list T) (errs : list error) {struct members}
  : outcome (list T * option error) :=
  match members with
  | [] => Ok (vals, errors_Join errs)
  | (m, x) :: members =>
      let field := reflect.fieldOf m x in
      if negb (reflect.IsExported field)
      then walkStructFields_loop t h f (S i) members vals errs
      else
        match parseTag t field with
        | (_, Some err) =>
            walkStructFields_loop t h f (S i) members vals (errs ++ [err])
        | (fl, None) =>
            if bytes_eqb (key fl) (bs "-")
            then walkStructFields_loop t h f (S i) members vals errs
            else
              let fl := match key fl with
                        | [] => set_key fl (reflect.Name field)
                        | _ => fl
                        end in
              let fieldValue := handleField h i x in
              let r :=
                match x with
                | reflect.VPointer _ _ e =>
                    f e (handleElem fieldValue true e) field (set_omitempty fl)
                | reflect.VInterface _ e =>
                    f e (handleElem fieldValue false e) field fl
                | _ => f (Some x) fieldValue field fl
                end in
              match r with
              | Ok (_, Some err) =>
                  walkStructFields_loop t h f (S i) members vals (errs ++ [err])
              | Ok (val, None) =>
                  walkStructFields_loop t h f (S i) members (vals ++ [val]) errs
              | Err e => Err e
              | Panic msg => Panic msg
              | Timeout => Timeout
              end
        end
  end.

Definition walkStructFields {T} (v : GoValue) (h : reflect.Value)
  (f : option GoValue -> reflect.Value -> reflect.StructField -> flags ->
       outcome (T * option error))
  : outcome (list T * option error) :=
  match v with
  | reflect.VStruct _ members =>
      walkStructFields_loop (reflect.typeOf v) h f 0%nat members [] []
  | _ => Panic (bs "reflect: call of reflect.Value.NumField on non-struct Value")
  end.

(** [walkMap v f]: the entries are visited in the order the map ranges
    over them, which the value records. *)
Definition walkMap {T} (v : GoValue) (h : reflect.Value)
  (f : option GoValue -> reflect.Value -> flags -> outcome (T * option error))
  : outcome (list T * option error) :=
  match v with
  | reflect.VMap _ _ _ entries =>
      (fix loop (i : nat) (entries : list (GoValue * GoValue))
           (vals : list T) (errs : list error) {struct entries}
         : outcome (list T * option error) :=
         match entries with
         | [] => Ok (vals, errors_Join errs)
         | (kv, x) :: entries =>
             match kv with
             | reflect.VString tn k =>
                 if negb (bytes_eqb tn (bs "string"))
                 then Panic (bs "interface conversion: interface {} is not string")
                 else
                   let value := handleEntry h i x in
                   let r :=
                     match x with
                     | reflect.VPointer _ _ e =>
                         f e (handleElem value true e) (mkFlags k false true false)
                     | reflect.VInterface _ e =>
                         f e (handleElem value false e) (mkFlags k false false false)
                     | _ => f (Some x) value (mkFlags k false false false)
                     end in
                   match r with
                   | Ok (_, Some err) => loop (S i) entries vals (errs ++ [err])
                   | Ok (val, None) => loop (S i) entries (vals ++ [val]) errs
                   | Err e => Err e
                   | Panic msg => Panic msg
                   | Timeout => Timeout
                   end
             | _ => Panic (bs "interface conversion: interface {} is not string")
             end
         end) 0%nat (default [] entries) [] []
  | _ => Panic (bs "reflect: call of reflect.Value.MapRange on non-map Value")
  end.

Definition fieldsOfMap (section : GoValue) (h : reflect.Value)
  : outcome (list Field.t * option error) :=
  walkMap section h (fun v hv fl =>
    Ok (Field.mk (key fl) hv (omitempty fl) (commented fl), None)).

Definition mapKeyIsString (t : GoType) : bool :=
  match t with
  | reflect.TMap _ k _ => reflect.Kind_eqb (reflect.Type_Kind k) reflect.String
  | _ => false
  end.

Definition structTypeString (structType : option GoType) : outcome bytes :=
  match structType with
  | Some t => Ok (reflect.Type_String t)
  | None => Panic (bs "invalid memory address or nil pointer dereference")
  end.

Fixpoint fieldsOf (v : GoValue) (h : reflect.Value) (structType : option GoType)
  (field : reflect.StructField) (fl : flags) {struct v}
  : outcome (list Field.t * option error) :=
  let t := reflect.typeOf v in
  let hook (m : GoValue -> reflect.Value -> outcome (Section.t * option error)) :=
    obind (m v h) (fun r =>
      match r with
      | (_, Some err) => Ok ([], Some err)
      | (section, None) => Ok (Section.Fields section, None)
      end) in
  match SectionMarshalINI t false with
  | Some m => hook m
  | None =>
      match (if canAddr h then SectionMarshalINI t true else None) with
      | Some m => hook m
      | None =>
          if reflect.Kind_eqb (reflect.Type_Kind t) reflect.Map && inline fl then
            if negb (mapKeyIsString t) then Ok ([], Some errMapKeyNotString)
            else fieldsOfMap v h
          else if reflect.Kind_eqb (reflect.Type_Kind t) reflect.Struct && inline fl then
            (* fieldsOfStruct(v) *)
            obind (walkStructFields v h (fun x hx f fl' =>
                     match x with
                     | Some x => fieldsOf x hx (Some t) f fl'
                     | None => typePanic
                     end))
                  (fun r => Ok (concat (fst r), snd r))
          else if isBasicType t then
            Ok ([Field.mk (key fl) h (omitempty fl) (commented fl)], None)
          else
            match reflect.Type_ field with
            | Some _ =>
                obind (structTypeString structType) (fun st =>
                  Ok ([], Some (errFieldType st (reflect.Name field))))
            | None => Ok ([], Some (errCannotUseType (reflect.Type_String t)))
            end
      end
  end.

Definition fieldsOf' (structType : option GoType) (x : option GoValue)
  (hx : reflect.Value) (f : reflect.StructField) (fl : flags)
  : outcome (list Field.t * option error) :=
  match x with
  | Some x => fieldsOf x hx structType f fl
  | None => typePanic
  end.

Definition fieldsOfStruct (section : GoValue) (h : reflect.Value)
  : outcome (list Field.t * option error) :=
  obind (walkStructFields section h (fieldsOf' (Some (reflect.typeOf section))))
        (fun r => Ok (concat (fst r), snd r)).

Definition sectionOf (fl : flags) (r : list Field.t * option error)
  : outcome (Section.t * option error) :=
  match r with
  | (_, Some err) => Ok (Section.empty, Some err)
  | (fields, None) => Ok (Section.mk (key fl) fields (omitempty fl), None)
  end.

Definition sectionsOfMap (root : GoValue) (h : reflect.Value)
  : outcome (list Section.t * option error) :=
  walkMap root h (fun v hv fl =>
    let fl := set_inline fl in
    obind (fieldsOf' None v hv reflect.noField fl) (sectionOf fl)).

Definition sectionsOfStruct (root : GoValue) (h : reflect.Value)
  : outcome (list Section.t * option error) :=
  walkStructFields root h (fun v hv f fl =>
    let fl := set_inline fl in
    obind (fieldsOf' (Some (reflect.typeOf root)) v hv f fl) (sectionOf fl)).

(** [reflect.Indirect(reflect.ValueOf(value))]: the root of the call and
    whether it is addressable.  A nil interface is the nil [any]. *)
Definition Indirect (value : GoValue) : option (GoValue * bool) :=
  match value with
  | reflect.VPointer _ _ (Some x) => Some (x, true)
  | reflect.VPointer _ _ None => None
  | reflect.VInterface _ None => None
  | _ => Some (value, false)
  end.

(** SectionsOf builds an INI tree based on the value provided. *)
Definition SectionsOf (value : GoValue) : outcome (list Section.t * option error) :=
  match Indirect value with
  | None => typePanic
  | Some (v, addressable) =>
      let h := reflect.At [] addressable in
      let t := reflect.typeOf v in
      match MarshalINI t false with
      | Some m => m v h
      | None =>
          match (if addressable then MarshalINI t true else None) with
          | Some m => m v h
          | None =>
              if reflect.Kind_eqb (reflect.Type_Kind t) reflect.Map then
                if negb (mapKeyIsString t)
                then Ok ([], Some (errMapKey (reflect.Type_String t)))
                else sectionsOfMap v h
              else if reflect.Kind_eqb (reflect.Type_Kind t) reflect.Struct then
                sectionsOfStruct v h
              else Ok ([], Some (errInvalidType (reflect.Type_String t)))
          end
      end
  end.

End Walker.

(** ** Encoder (encode.go) *)

(** [io.Writer]. *)
Class Writer (W : Type) : Type := {
  Write : W -> bytes -> W * option error
}.

(** [bytes.Buffer]: a write appends and cannot fail. *)
#[export] Instance Buffer_Writer : Writer bytes := {
  Write := fun buf p => (buf ++ p, None)
}.

(** [io.Reader], read whole by [io.ReadAll]. *)
Class Reader (R : Type) : Type := {
  ReadAll : R -> bytes * option error
}.

(** [bytes.Reader]. *)
#[export] Instance Bytes_Reader : Reader bytes := {
  ReadAll := fun data => (data, None)
}.

Module Encoder.

(** Encoder writes an INI tree to the specified output. *)
Record t (W : Type) : Type := mk {
    w : W;
    skipFieldEncodeFailure : bool
  }.
Arguments mk {W} w skipFieldEncodeFailure.
Arguments w {W} _.
Arguments skipFieldEncodeFailure {W} _.

Definition NewEncoder {W} (w : W) : t W := mk w false.
Definition SkipFieldEncodeFailure {W} (e : t W) (flag : bool) : t W := mk (w e) flag.
Definition Reset {W} (e : t W) (w : W) : t W := mk w (skipFieldEncodeFailure e).

Section Methods.
Context {methods : Methods} {runtime : Runtime} {W : Type} {writer : Writer W}.

    (** [e.field(buf, field)]: the buffer after the call and the error. *)
Definition field (e : t W) (mem : GoValue) (buf : bytes) (field : Field.t)
  : outcome (bytes * option error) :=
  obind (Field_MarshalText mem field) (fun r =>
    match r with
    | (_, Some err) => Ok (buf, Some err)
    | (b, None) =>
        let buf := if Field.Commented field then buf ++ [";"%char] else buf in
        let buf :=
          if match b with Some _ => true | None => false end || Field.Commented field
          then buf ++ Field.Name field ++ ["="%char] ++ default [] b ++ [LF]
          else buf in
        Ok (buf, None)
    end).

Fixpoint fields_loop (e : t W) (mem : GoValue) (buf : bytes) (fields : list Field.t)
  : outcome (bytes * option error) :=
  match fields with
  | [] => Ok (buf, None)
  | f :: fields =>
      obind (field e mem buf f) (fun r =>
        match r with
        | (buf, Some err) =>
            if negb (skipFieldEncodeFailure e) then Ok (buf, Some err)
            else fields_loop e mem buf fields
        | (buf, None) => fields_loop e mem buf fields
        end)
  end.

Definition section (e : t W) (mem : GoValue) (buf : bytes) (section : Section.t)
  : outcome (bytes * option error) :=
  let buf := buf ++ ["["%char] in
  let buf := buf ++ Section.Name section in
  let buf := buf ++ ["]"%char] in
  let buf := buf ++ [LF] in
  fields_loop e mem buf (Section.Fields section).

Fixpoint sections_loop (e : t W) (mem : GoValue) (buf : bytes)
  (sections : list Section.t) : outcome (bytes * option error) :=
  match sections with
  | [] => Ok (buf, None)
  | s :: sections =>
      obind (section e mem buf s) (fun r =>
        match r with
        | (buf, Some err) => Ok (buf, Some err)
        | (buf, None) => sections_loop e mem buf sections
        end)
  end.

    (** Encode serializes the value provided into INI format; the result is
        the returned error ([Err]) or nil ([Ok]), and the encoder with its
        writer after the call. *)
Definition Encode (e : t W) (data : GoValue) : outcome unit * t W :=
  match SectionsOf data with
  | Ok (_, Some err) => (Err err, e)
  | Ok (sections, None) =>
      match sections_loop e (default data (fst <$> Indirect data)) [] sections with
      | Ok (_, Some err) => (Err err, e)
      | Ok (buf, None) =>
          let (w', err) := Write (w e) buf in
          let e' := mk w' (skipFieldEncodeFailure e) in
          match err with
          | Some err => (Err (errWriteFailed err), e')
          | None => (Ok tt, e')
          end
      | Err err => (Err err, e)
      | Panic msg => (Panic msg, e)
      | Timeout => (Timeout, e)
      end
  | Err err => (Err err, e)
  | Panic msg => (Panic msg, e)
  | Timeout => (Timeout, e)
  end.

End Methods.
End Encoder.

(** Marshal serializes the value provided into INI format. *)
Definition Marshal {methods : Methods} {runtime : Runtime} (value : GoValue)
  : outcome (bytes * option error) :=
  let buf : bytes := [] in
  let e := Encoder.Reset (Encoder.mk buf false) buf in
  match Encoder.Encode e value with
  | (Ok _, e) => Ok (Encoder.w e, None)
  | (Err err, _) => Ok ([], Some err)
  | (Panic msg, _) => Panic msg
  | (Timeout, _) => Timeout
  end.

(** ** Decoder: the line grammar and the decode entry points (decode.go) *)

Definition onScanner {A} (m : M scanner.t A) : M (scanner.t * GoValue) A :=
  fun st => let (r, d) := m (fst st) in (r, (d, snd st)).

Definition onTarget {A} (m : M GoValue A) : M (scanner.t * GoValue) A :=
  fun st => let (r, mem) := m (snd st) in (r, (fst st, mem)).

Section Decode.
Context {methods : Methods} {runtime : Runtime}.

(** [d.scan(sections)]: the state is the scanner and the target memory;
    [currentSection] is the loop's local. *)
Fixpoint scan (fuel : nat) (sections : list Section.t)
  (currentSection : option Section.t) : M (scanner.t * GoValue) unit :=
  match fuel with
  | O => timeout
  | S fuel =>
      char <- onScanner (get scanner.peek) ;;
      onScanner (Decoder.skipSpaces fuel) ;;;
      if char == NUL then ret tt
      else if isNewlineChar char then scan fuel sections currentSection
      else
        currentSection <-
          (if isNameChar char then
             fieldName <- onScanner (Decoder.name fuel) ;;
             eq <- onScanner (call (scanner.consume "="%char)) ;;
             if negb eq then onScanner Decoder.unexpectedChar
             else
               value <- onScanner (Decoder.value fuel) ;;
               match currentSection with
               | None => fail errKeyMustBeUnderSection
               | Some section =>
                   match Section_Field section fieldName with
                   | Some field =>
                       onTarget (decode (TrimSpace value) (Field.Value field)) ;;;
                       ret currentSection
                   | None => ret currentSection
                   end
               end
           else if char == "["%char then
             onScanner (call scanner.advance) ;;;
             sectionName <- onScanner (Decoder.name fuel) ;;
             closed <- (match sectionName with
                        | [] => ret false
                        | _ => onScanner (call (scanner.consume "]"%char))
                        end) ;;
             if negb closed then onScanner Decoder.unexpectedChar
             else
               match findSection sections sectionName with
               | Some section => ret (Some section)
               | None => fail (errUnknownSection sectionName)
               end
           else if (char == "#"%char) || (char == ";"%char) then
             onScanner (scanner.takeUntil fuel isNewlineChar) ;;;
             ret currentSection
           else
             onScanner (fun d =>
               (Err (errUnexpectedChar char (scanner.lineNum d) (scanner.charNum d)), d))) ;;
        newline <- onScanner (call scanner.handleNewline) ;;
        if negb newline then
          onScanner (fun d =>
            (Err (errExpectedNewLine (scanner.lineNum d) (scanner.charNum d)), d))
        else scan fuel sections currentSection
  end.

(** Decode deserializes an INI file into a Go value: the outcome and the
    root of the target after the call. *)
Definition Decode {R} {reader : Reader R} (fuel : nat) (r : R) (value : GoValue)
  : outcome unit * option GoValue :=
  let mem := fst <$> Indirect value in
  match SectionsOf value with
  | Ok (_, Some err) => (Err err, mem)
  | Ok (sections, None) =>
      match ReadAll r with
      | (_, Some err) => (Err (errReadFailed err), mem)
      | (b, None) =>
          match mem with
          | Some mem =>
              let (res, st) := scan fuel sections None (scanner.init b, mem) in
              (res, Some (snd st))
          | None => (typePanic, None)
          end
      end
  | Err err => (Err err, mem)
  | Panic msg => (Panic msg, mem)
  | Timeout => (Timeout, mem)
  end.

(** Unmarshal deserializes an INI file into a Go value. *)
Definition Unmarshal (fuel : nat) (data : bytes) (value : GoValue)
  : outcome unit * option GoValue :=
  Decode fuel data value.

End Decode.

(** ** Worked values

    The structs of the package's tests, and a small decode target. *)

(** The lines of a document, each closed by a newline. *)
Definition lines (l : list string) : bytes :=
  flat_map (fun s => bs s ++ [LF]) l.

Notation "'document' [ x ; .. ; y ]" :=
  (lines (cons x%string .. (cons y%string nil) ..))
  (at level 0, format "'document'  [ x ;  .. ;  y ]").

Definition member (name tag : string) : reflect.Member :=
  reflect.mkMember (bs name) []
    (match tag with EmptyString => [] | _ => [(bs "ini", bs tag)] end) false.

Definition int_ (i : Z) : GoValue := reflect.VInt (bs "int") reflect.KInt i.
Definition bool_ (b : bool) : GoValue := reflect.VBool (bs "bool") b.
Definition string_ (s : bytes) : GoValue := reflect.VString (bs "string") s.

(** [&v]. *)
Definition addressOf (v : GoValue) : GoValue :=
  reflect.VPointer (bs "*" ++ reflect.Type_String (reflect.typeOf v))
                   (reflect.typeOf v) (Some v).

(** encode_test.go: [VideoSettings] and [Settings]. *)
Definition VideoSettings (Width Height : Z) (FullScreen : bool) : GoValue :=
  reflect.VStruct (bs "ini_test.VideoSettings")
    [(member "Width" "width", int_ Width);
     (member "Height" "height", int_ Height);
     (member "FullScreen" "fullscreen,omitempty,commented", bool_ FullScreen)].

Definition Settings (Video : GoValue) : GoValue :=
  reflect.VStruct (bs "ini_test.Settings") [(member "Video" "", Video)].

(** [struct { A struct { K string `ini:"k"`; N int `ini:"n"` } }]. *)
Definition Conf (K : bytes) (N : Z) : GoValue :=
  reflect.VStruct (bs "Conf")
    [(member "A" "",
      reflect.VStruct (bs "ConfA")
        [(member "K" "k", string_ K); (member "N" "n", int_ N)])].

(** [struct { A struct { K string `ini:"k"`; N int `ini:"n"` };
             B struct { Xs []int `ini:"xs"`; On [2]bool `ini:"on"` } }]. *)
Definition ints_ (l : option (list Z)) (cap : nat) : GoValue :=
  reflect.VSlice (bs "[]int") (reflect.TInt (bs "int") reflect.KInt)
                 (map int_ <$> l) cap.
Definition bools2_ (a b : bool) : GoValue :=
  reflect.VArray (bs "[2]bool") (reflect.TBool (bs "bool")) [bool_ a; bool_ b].
Definition Lists (K : bytes) (N : Z) (Xs On : GoValue) : GoValue :=
  reflect.VStruct (bs "Lists")
    [(member "A" "",
      reflect.VStruct (bs "ListsA")
        [(member "K" "k", string_ K); (member "N" "n", int_ N)]);
     (member "B" "",
      reflect.VStruct (bs "ListsB")
        [(member "Xs" "xs", Xs); (member "On" "on", On)])].

(** A runtime whose float conversions accept no text, and which grows a
    slice to the capacity asked for; it closes the statements about values
    that hold no float. *)
Definition bareRuntime : Runtime :=
  {| FormatFloat := fun _ => [];
     ParseFloat := fun s => Err (errSyntax (bs "ParseFloat") s);
     roundFloat32 := fun f => f;
     growCap := fun _ len _ n => (len + n)%nat;
     growCap_enough := fun _ len _ n => le_n (len + n) |}.

(** A value with a member that cannot be rendered: a slice of channels. *)
Definition Unrenderable : GoValue :=
  reflect.VStruct (bs "T")
    [(member "S" "",
      reflect.VStruct (bs "TS")
        [(member "Ok" "", int_ 1);
         (member "Bad" "",
          reflect.VSlice (bs "[]chan int") (reflect.TOther (bs "chan int") reflect.Chan)
            (Some [reflect.VOther (bs "chan int") reflect.Chan false]) 1)])].

(** A rendering that succeeded. *)
Definition rendered (r : outcome (bytes * option error)) : Prop :=
  exists buf, r = Ok (buf, None).

(** ** Reading a tag as [parseTag] does *)

Definition knownFlag (flag : bytes) : bool :=
  bytes_eqb flag (bs "inline") || bytes_eqb flag (bs "omitempty")
  || bytes_eqb flag (bs "commented").

(** Whether [flag] is already set in [fl]. *)
Definition flagSet (fl : flags) (flag : bytes) : bool :=
  bytes_eqb flag (bs "inline") && inline fl
  || bytes_eqb flag (bs "omitempty") && omitempty fl
  || bytes_eqb flag (bs "commented") && commented fl.

Definition tagOf (field : reflect.StructField) : bytes * bytes * bool :=
  Cut_comma (reflect.Tag_Get (reflect.Tag field) (bs "ini")).

(** What follows the first comma of the tag, trimmed. *)
Definition tagRest (field : reflect.StructField) : bytes :=
  TrimSpace (snd (fst (tagOf field))).

(** The flags the tag lists, in order, each trimmed. *)
Definition listedFlags (field : reflect.StructField) : list bytes :=
  if snd (tagOf field) then map TrimSpace (Split_comma (tagRest field)) else [].

(** [struct { A int `ini:"a,omitempty,omitempty"`; B int; C int `ini:",bogus"` }]. *)
Definition BadTags : GoValue :=
  reflect.VStruct (bs "BadTags")
    [(member "A" "a,omitempty,omitempty", int_ 0);
     (member "B" "", int_ 0);
     (member "C" ",bogus", int_ 0)].

(** [fl] with the known flag [x] set. *)
Definition setFlag (fl : flags) (x : bytes) : flags :=
  if bytes_eqb x (bs "inline") then set_inline fl
  else if bytes_eqb x (bs "omitempty") then set_omitempty fl
  else set_commented fl.

(** A known flag that is not yet set in [fl]. *)
Definition freshKnown (fl : flags) (x : bytes) : Prop :=
  knownFlag x = true /\ flagSet fl x = false.

(** ** Positions of the scanner, and the spelling of one quoted byte *)

(** The cursor of [d] stands between [pre] and [post]. *)
Definition at_ (d : scanner.t) (pre post : bytes) : Prop :=
  scanner.buf d = pre ++ post /\ scanner.bufPos d = length pre.

(** A byte that the scanner advances over as an ordinary character. *)
Definition plain (c : ascii) : bool := negb (c == NUL) && negb (isNewlineChar c).

(** [utf8.ValidString]. *)
Fixpoint ValidString_loop (fuel : nat) (s : bytes) : bool :=
  match fuel with
  | O => true
  | S fuel =>
      match s with
      | [] => true
      | _ => let (r, w) := DecodeRune s in
             negb ((r =? RuneError) && (w =? 1)%nat)
             && ValidString_loop fuel (drop w s)
      end
  end.

Definition ValidString (s : bytes) : bool := ValidString_loop (length s) s.

(** How the encoder spells one byte of a valid text inside quotes. *)
Definition quoteByte (c : ascii) : bytes :=
  if (0x20 <=? code c) && (code c <=? 0x7E) then [c]
  else if c == LF then [BACKSLASH; "n"%char]
  else if c == CR then [BACKSLASH; "r"%char]
  else let (hi, lo) := hex_Encode c in [BACKSLASH; "x"%char; hi; lo].

(** A text without the two characters the quoted form cannot carry. *)
Definition quotable (s : bytes) : bool :=
  forallb (fun c => negb (c == SQUOTE) && negb (c == BACKSLASH)) s.

(** What a valid decoding step says about the bytes it read. *)
Definition validStep (s : bytes) (r : Z) (w : nat) : Prop :=
  EncodeRune r = take w s /\ length (take w s) = w /\
  ((w = 1%nat /\ r < 128 /\ exists b0 s1, s = b0 :: s1 /\ r = code b0) \/
   ((1 < w)%nat /\ 128 <= r /\ Forall (fun b => 128 <= code b) (take w s))).

(** The hex escape of one byte. *)
Definition hexEscape (c : ascii) : bytes :=
  let (hi, lo) := hex_Encode c in [BACKSLASH; "x"%char; hi; lo].

(** What may follow a value on its line: nothing that [value] would still
    consume. *)
Definition endsValue (post : bytes) : Prop :=
  match post with
  | [] => True
  | c :: _ => (c == " "%char) = false /\ (c == ","%char) = false /\ (c == ";"%char) = false
  end.

(** The number a string of digits denotes after [n]. *)
Definition digitsValue (n : Z) (ds : bytes) : Z :=
  fold_left (fun n c => n * 10 + (code c - code "0"%char)) ds n.

(** An ASCII byte that [TrimSpace] keeps. *)
Definition solid (c : ascii) : bool := (code c <? RuneSelf) && negb (asciiSpace c).

(** ** The values whose round trip is proved

    A record of records of leaves: every member exported, tagged without
    error and not excluded.  A leaf is an atom (a boolean, a signed integer
    from 0 up, an unsigned integer, or a text that is valid UTF-8, holds
    neither a single quote nor a backslash and is not changed by
    [TrimSpace]), an array of booleans or integers, or a slice of booleans
    or integers that is nil or holds an element. *)

Definition atomOK (y : GoValue) : bool :=
  match y with
  | reflect.VBool _ _ => true
  | reflect.VInt _ k i => (0 <=? i) && (i <? 2 ^ (reflect.intBits k - 1))
  | reflect.VUint _ k u => (0 <=? u) && (u <? 2 ^ reflect.uintBits k)
  | reflect.VString _ s => ValidString s && quotable s && bytes_eqb (TrimSpace s) s
  | _ => false
  end.

(** The text [encode] gives an atom, and the text [value] reads from it. *)
Definition atomText (y : GoValue) : bytes :=
  match y with
  | reflect.VBool _ b => FormatBool b
  | reflect.VInt _ _ i => FormatInt i
  | reflect.VUint _ _ u => FormatUint u
  | reflect.VString _ s => quoteString s
  | _ => []
  end.

Definition atomRaw (y : GoValue) : bytes :=
  match y with
  | reflect.VString _ s => s
  | _ => atomText y
  end.

(** The same type, for the types of booleans and integers. *)
Definition sameScalarType (t u : GoType) : bool :=
  match t, u with
  | reflect.TBool tn, reflect.TBool tn' => bytes_eqb tn tn'
  | reflect.TInt tn _, reflect.TInt tn' _
  | reflect.TUint tn _, reflect.TUint tn' _ =>
      bytes_eqb tn tn' && reflect.Kind_eqb (reflect.Type_Kind t) (reflect.Type_Kind u)
  | _, _ => false
  end.

(** An element of a sequence whose element type is [elem]. *)
Definition elemOK (elem : GoType) (x : GoValue) : bool :=
  sameScalarType elem (reflect.typeOf x) && atomOK x.

Definition leafOK (y : GoValue) : bool :=
  match y with
  | reflect.VArray _ elem l => forallb (elemOK elem) l
  | reflect.VSlice _ elem (Some l) _ =>
      match l with [] => false | _ => forallb (elemOK elem) l end
  | reflect.VSlice _ _ None _ => true
  | _ => atomOK y
  end.

(** Texts joined by commas, as [encode] joins the elements of a sequence. *)
Fixpoint joinComma (texts : list bytes) : bytes :=
  match texts with
  | [] => []
  | t :: texts =>
      match texts with
      | [] => t
      | _ => t ++ ","%char :: joinComma texts
      end
  end.

(** The elements of a sequence. *)
Definition elements (y : GoValue) : list GoValue :=
  match y with
  | reflect.VArray _ _ l | reflect.VSlice _ _ (Some l) _ => l
  | _ => []
  end.

(** The text [encode] gives a leaf, and the text [value] reads from it. *)
Definition leafText (y : GoValue) : bytes :=
  match y with
  | reflect.VArray _ _ _ | reflect.VSlice _ _ _ _ => joinComma (map atomText (elements y))
  | _ => atomText y
  end.

Definition leafRaw (y : GoValue) : bytes :=
  match y with
  | reflect.VArray _ _ _ | reflect.VSlice _ _ _ _ => joinComma (map atomText (elements y))
  | _ => atomRaw y
  end.

(** A leaf as the decoder leaves it in a target that held the zero value:
    the capacity of a slice is the one the runtime gives a nil slice grown
    to its length.  [reflect.DeepEqual] does not look at capacities. *)
Definition tight {runtime : Runtime} (y : GoValue) : GoValue :=
  match y with
  | reflect.VSlice tn elem (Some l) _ =>
      reflect.VSlice tn elem (Some l) (growCap elem 0 0 (length l))
  | reflect.VSlice tn elem None _ => reflect.VSlice tn elem None 0
  | _ => y
  end.

Definition tightMembers {runtime : Runtime} (l : list (reflect.Member * GoValue))
  : list (reflect.Member * GoValue) :=
  map (fun my => (fst my, tight (snd my))) l.

(** A record of records with every leaf tight. *)
Definition tightSection {runtime : Runtime} (x : GoValue) : GoValue :=
  match x with
  | reflect.VStruct tn leaves => reflect.VStruct tn (tightMembers leaves)
  | _ => x
  end.

Definition tightSections {runtime : Runtime} (l : list (reflect.Member * GoValue))
  : list (reflect.Member * GoValue) :=
  map (fun mx => (fst mx, tightSection (snd mx))) l.

Definition tightRecord {runtime : Runtime} (v : GoValue) : GoValue :=
  match v with
  | reflect.VStruct tn sections => reflect.VStruct tn (tightSections sections)
  | _ => v
  end.

(** The flags the walker hands to its callback for member [m] holding [x]
    (not a pointer), when the member is exported, its tag parses and its key
    is not ["-"]. *)
Definition memberFlags (t : GoType) (m : reflect.Member) (x : GoValue) : option flags :=
  let field := reflect.fieldOf m x in
  if reflect.IsExported field then
    match parseTag t field with
    | (fl, None) =>
        if bytes_eqb (key fl) (bs "-") then None
        else Some (match key fl with
                   | [] => set_key fl (reflect.Name field)
                   | _ => fl
                   end)
    | (_, Some _) => None
    end
  else None.

Definition memberKey (t : GoType) (mx : reflect.Member * GoValue) : bytes :=
  match memberFlags t (fst mx) (snd mx) with
  | Some fl => key fl
  | None => []
  end.

(** A key as the line grammar reads it back; a field name starts a line, so
    it starts with a name character. *)
Definition validName (startsLine : bool) (name : bytes) : bool :=
  match name with
  | [] => false
  | c :: _ => (if startsLine then isNameChar c else true)
              && forallb isNameCharOrDigit name
  end.

Fixpoint distinct (names : list bytes) : bool :=
  match names with
  | [] => true
  | n :: names => negb (existsb (bytes_eqb n) names) && distinct names
  end.

Definition fieldOK (t : GoType) (my : reflect.Member * GoValue) : bool :=
  match memberFlags t (fst my) (snd my) with
  | Some fl => validName true (key fl) && negb (commented fl) && leafOK (snd my)
  | None => false
  end.

Definition sectionOK (t : GoType) (mx : reflect.Member * GoValue) : bool :=
  match memberFlags t (fst mx) (snd mx), snd mx with
  | Some fl, reflect.VStruct _ leaves =>
      validName false (key fl)
      && forallb (fieldOK (reflect.typeOf (snd mx))) leaves
      && distinct (map (memberKey (reflect.typeOf (snd mx))) leaves)
  | _, _ => false
  end.

Definition supported (v : GoValue) : bool :=
  match v with
  | reflect.VStruct _ sections =>
      forallb (sectionOK (reflect.typeOf v)) sections
      && distinct (map (memberKey (reflect.typeOf v)) sections)
  | _ => false
  end.

(** The members of a record value. *)
Definition members (x : GoValue) : list (reflect.Member * GoValue) :=
  match x with
  | reflect.VStruct _ l => l
  | _ => []
  end.

(** The section tree the walker derives from a supported record whose
    handles are addressable or not: member [i] of the root is a section, its
    member [j] a field at the path [i, j]. *)
Fixpoint fieldsTree (canAddr : bool) (t : GoType) (i j : nat)
  (leaves : list (reflect.Member * GoValue)) : list Field.t :=
  match leaves with
  | [] => []
  | my :: leaves =>
      match memberFlags t (fst my) (snd my) with
      | Some fl =>
          [Field.mk (key fl) (reflect.At [reflect.SField i; reflect.SField j] canAddr)
                    (omitempty fl) (commented fl)]
      | None => []
      end ++ fieldsTree canAddr t i (S j) leaves
  end.

Definition sectionTree (canAddr : bool) (t : GoType) (i : nat)
  (mx : reflect.Member * GoValue) : Section.t :=
  match memberFlags t (fst mx) (snd mx) with
  | Some fl =>
      Section.mk (key fl)
        (fieldsTree canAddr (reflect.typeOf (snd mx)) i 0 (members (snd mx)))
        (omitempty fl)
  | None => Section.empty
  end.

Fixpoint sectionsTree (canAddr : bool) (t : GoType) (i : nat)
  (sections : list (reflect.Member * GoValue)) : list Section.t :=
  match sections with
  | [] => []
  | mx :: sections =>
      sectionTree canAddr t i mx :: sectionsTree canAddr t (S i) sections
  end.

(** The document of a supported record: a header per section, a line per
    field that is not omitted. *)
Definition lineOf (t : GoType) (my : reflect.Member * GoValue) : bytes :=
  match memberFlags t (fst my) (snd my) with
  | Some fl =>
      if omitempty fl && reflect.IsZero (snd my) then []
      else key fl ++ ["="%char] ++ leafText (snd my) ++ [LF]
  | None => []
  end.

Definition sectionText (t : GoType) (mx : reflect.Member * GoValue) : bytes :=
  ["["%char] ++ memberKey t mx ++ ["]"%char] ++ [LF]
  ++ flat_map (lineOf (reflect.typeOf (snd mx))) (members (snd mx)).

Definition docOf (v : GoValue) : bytes :=
  flat_map (sectionText (reflect.typeOf v)) (members v).

(** The zero value of each member. *)
Definition zeroMembers (l : list (reflect.Member * GoValue))
  : list (reflect.Member * GoValue) :=
  map (fun mx => (fst mx, reflect.zero (reflect.typeOf (snd mx)))) l.

(** A run of digits or a bare word: a text that [literal] reads as it is,
    and on which neither [TrimSpace] nor [Split] acts. *)
Definition bareText (t : bytes) : bool :=
  match t with
  | [] => false
  | c :: _ =>
      (isDigit c && forallb isDigit t) || (isNameChar c && forallb isNameCharOrDigit t)
  end.

(** ** The end of a line, and what may follow a value *)

(** What follows the body of a line in [scan]: the line break and the next
    round of the loop, or the error for a missing line break. *)
Definition lineEnd {runtime : Runtime} (fuel : nat) (sections : list Section.t)
    (cur : option Section.t) (d : scanner.t) (mem : GoValue)
  : outcome unit * (scanner.t * GoValue) :=
  match scanner.handleNewline d with
  | (true, d') => scan fuel sections cur (d', mem)
  | (false, d') =>
      (Err (errExpectedNewLine (scanner.lineNum d') (scanner.charNum d')), (d', mem))
  end.

(** A rest of the buffer that continues no value: it is empty, or starts
    with a byte that is no part of a literal, no space, no comma and no
    semicolon. *)
Definition closesValue (post : bytes) : bool :=
  match post with
  | [] => true
  | c :: _ => negb (isNameCharOrDigit c) && negb (c == "."%char) && negb (c == " "%char)
              && negb (c == ","%char) && negb (c == ";"%char)
  end.

(** A rest of the buffer that starts with no line break. *)
Definition noBreak (post : bytes) : bool :=
  match post with
  | [] => true
  | c :: _ => negb (isNewlineChar c)
  end.

(** The characters that [takeStringChar] accepts behind a backslash, the
    line breaks apart. *)
Definition knownEscape (c : ascii) : bool :=
  (c == "n"%char) || (c == "r"%char) || (c == "t"%char) || (c == BACKSLASH)
  || (c == SQUOTE) || (c == DQUOTE) || (c == "x"%char).

(** ** Handles that cannot be set, and indirections that are nil *)

(** A handle through which [decode] may assign: [v.CanSet()]. *)
Definition settable (h : reflect.Value) : bool :=
  match h with
  | reflect.At _ true => true
  | _ => false
  end.

(** A nil pointer or a nil interface. *)
Definition nilIndirect (x : GoValue) : bool :=
  match x with
  | reflect.VPointer _ _ None | reflect.VInterface _ None => true
  | _ => false
  end.

(** The loop of [walkMap] over the entries from index [i] on. *)
Definition walkMap_loop {T} (h : reflect.Value)
    (f : option GoValue -> reflect.Value -> flags -> outcome (T * option error))
  : nat -> list (GoValue * GoValue) -> list T -> list error ->
    outcome (list T * option error) :=
  fix loop (i : nat) (entries : list (GoValue * GoValue))
      (vals : list T) (errs : list error) {struct entries}
    : outcome (list T * option error) :=
    match entries with
    | [] => Ok (vals, errors_Join errs)
    | (kv, x) :: entries =>
        match kv with
        | reflect.VString tn k =>
            if negb (bytes_eqb tn (bs "string"))
            then Panic (bs "interface conversion: interface {} is not string")
            else
              let value := handleEntry h i x in
              let r :=
                match x with
                | reflect.VPointer _ _ e =>
                    f e (handleElem value true e) (mkFlags k false true false)
                | reflect.VInterface _ e =>
                    f e (handleElem value false e) (mkFlags k false false false)
                | _ => f (Some x) value (mkFlags k false false false)
                end in
              match r with
              | Ok (_, Some err) => loop (S i) entries vals (errs ++ [err])
              | Ok (val, None) => loop (S i) entries (vals ++ [val]) errs
              | Err e => Err e
              | Panic msg => Panic msg
              | Timeout => Timeout
              end
        | _ => Panic (bs "interface conversion: interface {} is not string")
        end
    end.

(** An entry of a [map[string]T] whose value is held directly. *)
Definition plainEntry (kx : GoValue * GoValue) : bool :=
  match fst kx with
  | reflect.VString tn _ => bytes_eqb tn (bs "string")
  | _ => false
  end
  && match snd kx with
     | reflect.VPointer _ _ _ | reflect.VInterface _ _ => false
     | _ => true
     end.

(** The key of an entry of a [map[string]T]. *)
Definition entryKey (kx : GoValue * GoValue) : bytes :=
  match fst kx with
  | reflect.VString _ k => k
  | _ => []
  end.

(** The fields [fieldsOfMap] makes of the entries from index [i] on. *)
Fixpoint entryFields (h : reflect.Value) (i : nat) (entries : list (GoValue * GoValue))
  : list Field.t :=
  match entries with
  | [] => []
  | kx :: entries =>
      Field.mk (entryKey kx) (handleEntry h i (snd kx)) false false
      :: entryFields h (S i) entries
  end.

(** ** What the encoder writes *)

(** Printable ASCII. *)
Definition printable (c : ascii) : bool := (0x20 <=? code c) && (code c <=? 0x7E).

(** A field whose rendering does not fail. *)
Definition encodes {methods : Methods} {runtime : Runtime} (mem : GoValue) (f : Field.t)
  : bool :=
  match Field_MarshalText mem f with
  | Ok (_, Some _) => false
  | _ => true
  end.

(** A record whose members are all tagged [omitempty] and hold the zero
    value. *)
Definition allOmitted (x : GoValue) : bool :=
  forallb (fun my : reflect.Member * GoValue =>
             match memberFlags (reflect.typeOf x) (fst my) (snd my) with
             | Some fl => omitempty fl && reflect.IsZero (snd my)
             | None => false
             end) (members x).

(** The header line of a section. *)
Definition headerOf (t : GoType) (mx : reflect.Member * GoValue) : bytes :=
  "["%char :: memberKey t mx ++ ["]"%char; LF].

(** The line of a commented field that holds the atom [y]. *)
Definition commentedLine (f : Field.t) (y : GoValue) : bytes :=
  ";"%char :: Field.Name f ++ "="%char
  :: (if Field.OmitEmpty f && reflect.IsZero y then [] else atomText y) ++ [LF].

(** A line break in front of [post]: a line feed, a carriage return with
    its line feed, or a carriage return that no line feed follows. *)
Definition lineBreak (brk post : bytes) : bool :=
  bytes_eqb brk [LF] || bytes_eqb brk [CR; LF]
  || (bytes_eqb brk [CR] && match post with [] => true | c :: _ => negb (c == LF) end).

(** ** Runs of the buffer that hold line breaks *)

(** The bytes a run of the buffer yields to [take]: [advance] steps over a
    carriage return and the line feed behind it at once and returns the
    carriage return, so the line feed is consumed unseen. *)
Fixpoint yielded (w : bytes) : bytes :=
  match w with
  | [] => []
  | c :: w' =>
      c :: (if c == CR then
              match w' with
              | c' :: w'' => if c' == LF then yielded w'' else yielded w'
              | [] => []
              end
            else yielded w')
  end.

(** The run [w] ends with no carriage return that would take a line feed at
    the head of [post] with it. *)
Definition closedRun (w post : bytes) : bool :=
  negb ((List.last w NUL == CR) && match post with c :: _ => c == LF | [] => false end).

(** The sequence [y] with the elements [l]. *)
Definition withElements (y : GoValue) (l : list GoValue) : GoValue :=
  match y with
  | reflect.VArray tn elem _ => reflect.VArray tn elem l
  | reflect.VSlice tn elem _ cap => reflect.VSlice tn elem (Some l) cap
  | _ => y
  end.

(** ** The calls of the walker *)

(** The call that [walkStructFields] makes of its callback [f] for member
    [i], declared as [m] and holding [x], whose flags are [fl]: a pointer or
    an interface is entered first, and a pointer is marked omitempty. *)
Definition memberCall {T}
    (f : option GoValue -> reflect.Value -> reflect.StructField -> flags ->
         outcome (T * option error))
    (h : reflect.Value) (i : nat) (m : reflect.Member) (x : GoValue) (fl : flags)
  : outcome (T * option error) :=
  let field := reflect.fieldOf m x in
  let fieldValue := handleField h i x in
  match x with
  | reflect.VPointer _ _ e => f e (handleElem fieldValue true e) field (set_omitempty fl)
  | reflect.VInterface _ e => f e (handleElem fieldValue false e) field fl
  | _ => f (Some x) fieldValue field fl
  end.

(** The callback [f] returns on every call that the walk of [members],
    numbered from [i], makes: on the members that are exported, whose tag
    parses and whose key is not ["-"]. *)
Definition returnsOn {T}
    (f : option GoValue -> reflect.Value -> reflect.StructField -> flags ->
         outcome (T * option error))
    (t : GoType) (h : reflect.Value) (i : nat) (members : list (reflect.Member * GoValue))
  : Prop :=
  forall j m x fl,
    members !! j = Some (m, x) ->
    memberFlags t m x = Some fl ->
    exists r, memberCall f h (i + j) m x fl = Ok r.

(** The callback of [sectionsOfStruct] for the root [root]. *)
Definition sectionCallback {methods : Methods} (root : GoValue)
  : option GoValue -> reflect.Value -> reflect.StructField -> flags ->
    outcome (Section.t * option error) :=
  fun v hv f fl =>
    let fl := set_inline fl in
    obind (fieldsOf' (Some (reflect.typeOf root)) v hv f fl) (sectionOf fl).

(** * Properties *)

(** ** Scanner and monad facts *)

Lemma peek_in_buffer (d : scanner.t) :
  scanner.peek d <> NUL -> (scanner.bufPos d < length (scanner.buf d))%nat.
Proof.
  unfold scanner.peek, scanner.lookAhead. rewrite Nat.add_0_r.
  destruct (scanner.buf d !! scanner.bufPos d) eqn:E; [|congruence].
  intros _. eapply lookup_lt_Some; eauto.
Qed.

Lemma isNewlineChar_not_NUL c : isNewlineChar c = true -> c <> NUL.
Proof. intros H ->. discriminate. Qed.

Lemma isNewlineChar_not_space c : isNewlineChar c = true -> (c == " "%char) = false.
Proof.
  unfold isNewlineChar, char_eqb. intros H.
  apply orb_true_iff in H as [H|H]; apply Ascii.eqb_eq in H; subst; reflexivity.
Qed.

(** Skipping spaces in front of a newline moves nothing, and needs one unit
    of fuel to find that out. *)
Lemma skipSpaces_at_newline fuel d :
  isNewlineChar (scanner.peek d) = true ->
  Decoder.skipSpaces fuel d = (match fuel with O => Timeout | S _ => Ok tt end, d).
Proof.
  intros Hnl.
  pose proof (peek_in_buffer d (isNewlineChar_not_NUL _ Hnl)) as Hlt.
  apply Nat.ltb_lt in Hlt.
  unfold Decoder.skipSpaces, bind, scanner.takeWhile, scanner.take.
  destruct fuel as [|fuel]; simpl; rewrite Hlt; [reflexivity|].
  rewrite (isNewlineChar_not_space _ Hnl). reflexivity.
Qed.

Section DecoderFacts.
Context {methods : Methods} {runtime : Runtime}.

(** In front of a newline character one round of the loop of [scan] moves
    nothing: [continue] skips the call that would consume the newline. *)
Lemma scan_newline_step fuel sections currentSection d mem :
  isNewlineChar (scanner.peek d) = true ->
  scan (S (S fuel)) sections currentSection (d, mem)
  = scan (S fuel) sections currentSection (d, mem).
Proof.
  intros Hnl.
  cbn [scan]. unfold bind at 1. unfold onScanner at 1, get. cbn [fst snd].
  unfold bind at 1. unfold onScanner at 1. cbn [fst snd].
  rewrite (skipSpaces_at_newline (S fuel) d Hnl), Hnl.
  destruct (scanner.peek d == NUL) eqn:E; [|reflexivity].
  apply Ascii.eqb_eq in E. rewrite E in Hnl. discriminate.
Qed.

(** With one unit of fuel the loop cannot even skip the spaces. *)
Lemma scan_newline_last sections currentSection d mem :
  isNewlineChar (scanner.peek d) = true ->
  scan 1 sections currentSection (d, mem) = (Timeout, (d, mem)).
Proof.
  intros Hnl.
  cbn [scan]. unfold bind at 1. unfold onScanner at 1, get. cbn [fst snd].
  unfold bind at 1. unfold onScanner at 1. cbn [fst snd].
  now rewrite (skipSpaces_at_newline 0 d Hnl).
Qed.

(** C3, as the code behaves: once the loop of [scan] stands in front of a
    newline character (a blank line), it never returns: whatever the fuel,
    the outcome is [Timeout] and neither the cursor nor the target moved.
    The claim that a blank line is consumed and that decoding terminates on
    every input fails here. *)
Theorem scan_blank_line_diverges fuel sections currentSection d mem :
  isNewlineChar (scanner.peek d) = true ->
  scan fuel sections currentSection (d, mem) = (Timeout, (d, mem)).
Proof.
  intros Hnl. induction fuel as [|fuel IH]; [reflexivity|].
  destruct fuel as [|fuel].
  - now apply scan_newline_last.
  - rewrite scan_newline_step by assumption. exact IH.
Qed.

(** The lookahead character is read before the spaces are skipped: a line
    that begins with a space is dispatched on the space itself and never
    decodes. *)
Lemma scan_space_never_ok fuel sections currentSection d mem :
  scanner.peek d = " "%char ->
  fst (scan fuel sections currentSection (d, mem)) <> Ok tt.
Proof.
  intros Hsp. destruct fuel as [|fuel]; [discriminate|].
  cbn [scan]. unfold bind at 1. unfold onScanner at 1, get. cbn [fst snd].
  unfold bind at 1. unfold onScanner at 1. cbn [fst snd].
  destruct (Decoder.skipSpaces fuel d) as [[[]| | |] d']; cbn [fst]; try discriminate.
  rewrite Hsp. cbn. discriminate.
Qed.

End DecoderFacts.

Lemma scan_blank_line_diverges_witness :
  isNewlineChar (scanner.peek (scanner.init [LF])) = true /\
  scan (runtime := bareRuntime) 1000 [] None
       (scanner.init [LF], Conf [] 0)
  = (Timeout, (scanner.init [LF], Conf [] 0)).
Proof.
  split; [reflexivity|].
  apply (scan_blank_line_diverges (runtime := bareRuntime)
           1000 [] None (scanner.init [LF]) (Conf [] 0)).
  reflexivity.
Defined.

Section FailingInputs.
Context {runtime : Runtime}.
Existing Instance noMethods.

(** A document that is one blank line: [Unmarshal] never returns. *)
Lemma Unmarshal_blank_line fuel :
  Unmarshal fuel [LF] (addressOf (Conf [] 0)) = (Timeout, Some (Conf [] 0)).
Proof.
  unfold Unmarshal, Decode.
  match goal with
  | |- context [SectionsOf ?v] =>
      let s := eval vm_compute in (SectionsOf v) in change (SectionsOf v) with s
  end.
  cbn -[scan].
  match goal with
  | |- context [scan fuel ?s None ?st] =>
      assert (H : scan fuel s None st = (Timeout, st)); [|now rewrite H]
  end.
  induction fuel as [|fuel IH]; [reflexivity|].
  destruct fuel as [|fuel]; [reflexivity|].
  rewrite scan_newline_step by reflexivity. exact IH.
Qed.

(** A header behind a space: the header [[A]] decodes, the same header behind
    one space is an unexpected character at 1:2. *)
Lemma Unmarshal_leading_space k :
  Unmarshal (20 + k) (document ["[A]"; "k='x'"]) (addressOf (Conf [] 0))
  = (Ok tt, Some (Conf (bs "x") 0)) /\
  Unmarshal (20 + k) (document [" [A]"; "k='x'"]) (addressOf (Conf [] 0))
  = (Err (errUnexpectedChar " "%char 1 2), Some (Conf [] 0)).
Proof. split; vm_compute; reflexivity. Qed.

(** C5, as the code behaves: an invalid hex escape panics, and an
    unterminated quote followed by a blank line decodes without error. *)
Theorem bad_quoted_strings k :
  Unmarshal (20 + k) (document ["[A]"; "k='\xZZ'"]) (addressOf (Conf [] 0))
  = (Panic (bs "TODO"), Some (Conf [] 0)) /\
  Unmarshal (20 + k) (document ["[A]"; "k='\x4"]) (addressOf (Conf [] 0))
  = (Panic (bs "TODO"), Some (Conf [] 0)) /\
  Unmarshal (20 + k) (document ["[A]"; "k='abc"] ++ [LF]) (addressOf (Conf [] 0))
  = (Ok tt, Some (Conf (bs "abc") 0)).
Proof. repeat split; vm_compute; reflexivity. Qed.

(** C6, as the code behaves: the value after a comma fails on [;], the
    failure is dropped, and the decode succeeds with the text [1,]. *)
Theorem comma_failure_is_dropped k :
  fst (Decoder.value (20 + k) (scanner.init (document [";c"])))
  = Err (errUnexpectedChar ";"%char 1 1) /\
  fst (Decoder.value (20 + k) (scanner.init (document ["1,;c"]))) = Ok (bs "1,") /\
  Unmarshal (20 + k) (document ["[A]"; "k=1,;c"]) (addressOf (Conf [] 0))
  = (Ok tt, Some (Conf (bs "1,") 0)).
Proof. repeat split; vm_compute; reflexivity. Qed.

End FailingInputs.

(** ** Encoder *)

Section EncoderFacts.
Context {runtime : Runtime}.
Existing Instance noMethods.

(** C8: the two documents of the [Marshal] example, and the commented,
    omitted, zero [FullScreen] that renders as a line without value. *)
Theorem Marshal_Settings_example :
  Marshal (Settings (VideoSettings 1024 768 true))
  = Ok (document ["[Video]"; "width=1024"; "height=768"; ";fullscreen=true"], None)
  /\
  Marshal (Settings (VideoSettings 0 0 false))
  = Ok (document ["[Video]"; "width=0"; "height=0"; ";fullscreen="], None).
Proof. split; vm_compute; reflexivity. Qed.

End EncoderFacts.

Section EncoderAtomic.
Context {methods : Methods} {runtime : Runtime} {W : Type} {writer : Writer W}.

(** A commented field whose value is omitted still makes a line: the
    semicolon, the name and an empty value. *)
Lemma field_commented_omitted (e : Encoder.t W) mem buf f v a :
  Field.Commented f = true ->
  Field.OmitEmpty f = true ->
  reflect.resolve mem (Field.Value f) = Some (v, a) ->
  reflect.IsZero v = true ->
  Encoder.field e mem buf f
  = Ok (buf ++ [";"%char] ++ Field.Name f ++ ["="%char] ++ [LF], None).
Proof.
  intros Hc Ho Hr Hz. unfold Encoder.field, Field_MarshalText.
  rewrite Hr, Ho, Hz, Hc. cbn. now rewrite <- app_assoc.
Qed.

(** Whether a field renders does not depend on the buffer. *)
Lemma field_error_iff (e : Encoder.t W) mem buf f :
  match Field_MarshalText mem f with
  | Ok (_, Some err) => Encoder.field e mem buf f = Ok (buf, Some err)
  | Ok (_, None) => exists buf', Encoder.field e mem buf f = Ok (buf', None)
  | Err x => Encoder.field e mem buf f = Err x
  | Panic x => Encoder.field e mem buf f = Panic x
  | Timeout => Encoder.field e mem buf f = Timeout
  end.
Proof.
  unfold Encoder.field. destruct (Field_MarshalText mem f) as [[b [err|]]| | |];
    cbn; eauto.
Qed.

Lemma fields_loop_failure (e : Encoder.t W) mem fields :
  Encoder.skipFieldEncodeFailure e = false ->
  forall buf f b err,
    In f fields ->
    Field_MarshalText mem f = Ok (b, Some err) ->
    ~ rendered (Encoder.fields_loop e mem buf fields).
Proof.
  intros Hskip. induction fields as [|g fields IH]; intros buf f b err Hin Hf.
  - destruct Hin.
  - cbn [Encoder.fields_loop].
    pose proof (field_error_iff e mem buf g) as Hg.
    destruct (Field_MarshalText mem g) as [[bg [errg|]]| | |] eqn:Eg.
    + rewrite Hg. cbn. rewrite Hskip. cbn. intros [x Hx]. discriminate.
    + destruct Hg as [buf' ->]. cbn.
      destruct Hin as [->|Hin]; [congruence|]. eapply IH; eauto.
    + rewrite Hg. intros [x Hx]. discriminate.
    + rewrite Hg. intros [x Hx]. discriminate.
    + rewrite Hg. intros [x Hx]. discriminate.
Qed.

Lemma sections_loop_failure (e : Encoder.t W) mem sections :
  Encoder.skipFieldEncodeFailure e = false ->
  forall buf s f b err,
    In s sections -> In f (Section.Fields s) ->
    Field_MarshalText mem f = Ok (b, Some err) ->
    ~ rendered (Encoder.sections_loop e mem buf sections).
Proof.
  intros Hskip. induction sections as [|s0 sections IH]; intros buf s f b err Hs Hf Hm.
  - destruct Hs.
  - cbn [Encoder.sections_loop]. unfold Encoder.section.
    destruct Hs as [->|Hs].
    + pose proof (fields_loop_failure e mem (Section.Fields s) Hskip
                    ((((buf ++ ["["%char]) ++ Section.Name s) ++ ["]"%char]) ++ [LF])
                    f b err Hf Hm) as Hno.
      destruct (Encoder.fields_loop e mem _ (Section.Fields s))
        as [[b' [e'|]]| | |]; cbn; try (intros [x Hx]; discriminate).
      exfalso. apply Hno. eexists; reflexivity.
    + destruct (Encoder.fields_loop e mem _ (Section.Fields s0))
        as [[b' [e'|]]| | |]; cbn; try (intros [x Hx]; discriminate).
      eapply IH; eauto.
Qed.

Lemma Encode_unfold (e : Encoder.t W) (data mem : GoValue) (a : bool) sections :
  Indirect data = Some (mem, a) ->
  SectionsOf data = Ok (sections, None) ->
  Encoder.Encode e data =
  match Encoder.sections_loop e mem [] sections with
  | Ok (_, Some err) => (Err err, e)
  | Ok (buf, None) =>
      let (w', err) := Write (Encoder.w e) buf in
      let e' := Encoder.mk w' (Encoder.skipFieldEncodeFailure e) in
      match err with
      | Some err => (Err (errWriteFailed err), e')
      | None => (Ok tt, e')
      end
  | Err err => (Err err, e)
  | Panic msg => (Panic msg, e)
  | Timeout => (Timeout, e)
  end.
Proof. intros Hroot Hs. unfold Encoder.Encode. rewrite Hs, Hroot. reflexivity. Qed.

(** The fields of a section up to the first one that fails to render. *)
Lemma fields_loop_first (e : Encoder.t W) mem F1 f F2 b err :
  Encoder.skipFieldEncodeFailure e = false ->
  (forall g, In g F1 -> exists b', Field_MarshalText mem g = Ok (b', None)) ->
  Field_MarshalText mem f = Ok (b, Some err) ->
  forall buf, exists buf',
    Encoder.fields_loop e mem buf (F1 ++ f :: F2) = Ok (buf', Some err).
Proof.
  intros Hskip HF1 Hf. induction F1 as [|g F1 IH]; intros buf; cbn [app Encoder.fields_loop].
  - pose proof (field_error_iff e mem buf f) as Hg. rewrite Hf in Hg. rewrite Hg.
    cbn. rewrite Hskip. cbn. now exists buf.
  - pose proof (field_error_iff e mem buf g) as Hg.
    destruct (HF1 g (or_introl eq_refl)) as [b' Hb]. rewrite Hb in Hg.
    destruct Hg as [buf1 ->]. cbn.
    apply IH. intros g' Hin. apply HF1. now right.
Qed.

Lemma fields_loop_clean (e : Encoder.t W) mem F :
  (forall g, In g F -> exists b', Field_MarshalText mem g = Ok (b', None)) ->
  forall buf, exists buf', Encoder.fields_loop e mem buf F = Ok (buf', None).
Proof.
  induction F as [|g F IH]; intros HF buf; cbn [Encoder.fields_loop]; [now exists buf|].
  pose proof (field_error_iff e mem buf g) as Hg.
  destruct (HF g (or_introl eq_refl)) as [b' Hb]. rewrite Hb in Hg.
  destruct Hg as [buf1 ->]. cbn. apply IH. intros g' Hin. apply HF. now right.
Qed.

(** The sections up to the first field that fails to render: the loop ends
    with the error of that field. *)
Lemma sections_loop_first (e : Encoder.t W) mem S1 s S2 F1 f F2 b err :
  Encoder.skipFieldEncodeFailure e = false ->
  (forall s' g, In s' S1 -> In g (Section.Fields s') ->
                exists b', Field_MarshalText mem g = Ok (b', None)) ->
  Section.Fields s = F1 ++ f :: F2 ->
  (forall g, In g F1 -> exists b', Field_MarshalText mem g = Ok (b', None)) ->
  Field_MarshalText mem f = Ok (b, Some err) ->
  forall buf, exists buf',
    Encoder.sections_loop e mem buf (S1 ++ s :: S2) = Ok (buf', Some err).
Proof.
  intros Hskip HS1 Hs HF1 Hf.
  induction S1 as [|s0 S1 IH]; intros buf; cbn [app Encoder.sections_loop];
    unfold Encoder.section.
  - rewrite Hs.
    destruct (fields_loop_first e mem F1 f F2 b err Hskip HF1 Hf
                ((((buf ++ ["["%char]) ++ Section.Name s) ++ ["]"%char]) ++ [LF]))
      as [buf' ->].
    cbn. now exists buf'.
  - destruct (fields_loop_clean e mem (Section.Fields s0)
                (fun g Hg => HS1 s0 g (or_introl eq_refl) Hg)
                ((((buf ++ ["["%char]) ++ Section.Name s0) ++ ["]"%char]) ++ [LF]))
      as [buf1 ->].
    cbn. apply IH. intros s' g Hs' Hg. apply (HS1 s' g); [now right|assumption].
Qed.

(** C10: [Encode] is atomic towards its writer.  When the section tree
    cannot be built, its error is returned with the writer untouched.  With
    skipping disabled, the first field of the tree that fails to render ends
    the call: [Encode] returns the error of that field and the writer is
    untouched; and whatever the fields before it do, a field that fails to
    render keeps [Encode] from succeeding and from writing.  When the writer
    did change, it was handed the whole rendered document in one [Write]. *)
Theorem Encode_is_atomic (e : Encoder.t W) (data mem : GoValue) (a : bool) :
  Indirect data = Some (mem, a) ->
  (forall sections err,
      SectionsOf data = Ok (sections, Some err) ->
      Encoder.Encode e data = (Err err, e)) /\
  (forall S1 s S2 F1 f F2 b err,
      SectionsOf data = Ok (S1 ++ s :: S2, None) ->
      Encoder.skipFieldEncodeFailure e = false ->
      Section.Fields s = F1 ++ f :: F2 ->
      (forall s' g, In s' S1 -> In g (Section.Fields s') ->
                    exists b', Field_MarshalText mem g = Ok (b', None)) ->
      (forall g, In g F1 -> exists b', Field_MarshalText mem g = Ok (b', None)) ->
      Field_MarshalText mem f = Ok (b, Some err) ->
      Encoder.Encode e data = (Err err, e)) /\
  (forall sections s f b err,
      SectionsOf data = Ok (sections, None) ->
      Encoder.skipFieldEncodeFailure e = false ->
      In s sections -> In f (Section.Fields s) ->
      Field_MarshalText mem f = Ok (b, Some err) ->
      snd (Encoder.Encode e data) = e /\ fst (Encoder.Encode e data) <> Ok tt) /\
  (Encoder.w (snd (Encoder.Encode e data)) <> Encoder.w e ->
   exists sections buf,
     SectionsOf data = Ok (sections, None) /\
     Encoder.sections_loop e mem [] sections = Ok (buf, None) /\
     Encoder.w (snd (Encoder.Encode e data)) = fst (Write (Encoder.w e) buf)).
Proof.
  intros Hroot. split; [|split; [|split]].
  - intros sections err Hs. unfold Encoder.Encode. rewrite Hs. reflexivity.
  - intros S1 s S2 F1 f F2 b err Hs Hskip HF HS1 HF1 Hf.
    rewrite (Encode_unfold e data mem a _ Hroot Hs).
    destruct (sections_loop_first e mem S1 s S2 F1 f F2 b err Hskip HS1 HF HF1 Hf [])
      as [buf' ->].
    reflexivity.
  - intros sections s f b err Hs Hskip Hin Hf Hm.
    rewrite (Encode_unfold e data mem a sections Hroot Hs).
    pose proof (sections_loop_failure e mem sections Hskip [] s f b err Hin Hf Hm)
      as Hno.
    destruct (Encoder.sections_loop e mem [] sections) as [[buf [e'|]]| | |];
      cbn; try (split; [reflexivity|discriminate]).
    exfalso. apply Hno. eexists; reflexivity.
  - intros Hw.
    destruct (SectionsOf data) as [[sections [err|]]| | |] eqn:Hs;
      try (exfalso; apply Hw; unfold Encoder.Encode; rewrite Hs; reflexivity).
    rewrite (Encode_unfold e data mem a sections Hroot Hs) in Hw |- *.
    destruct (Encoder.sections_loop e mem [] sections) as [[buf [e'|]]| | |] eqn:Hl;
      try (exfalso; apply Hw; reflexivity).
    exists sections, buf. split; [reflexivity|]. split; [assumption || reflexivity|].
    destruct (Write (Encoder.w e) buf) as [w' [err|]]; reflexivity.
Qed.

End EncoderAtomic.

Lemma Encode_is_atomic_witness :
  Indirect Unrenderable = Some (Unrenderable, false) /\
  Encoder.Encode (methods := noMethods) (runtime := bareRuntime)
    (Encoder.mk (bs "earlier output") false) Unrenderable
  = (Err (errInvalidTypeForEncode (bs "chan int")), Encoder.mk (bs "earlier output") false).
Proof.
  split; [reflexivity|].
  pose proof (Encode_is_atomic (methods := noMethods) (runtime := bareRuntime)
                (Encoder.mk (bs "earlier output") false) Unrenderable Unrenderable false
                eq_refl) as [_ [H _]].
  eapply (H [] _ [] [_] _ []).
  - vm_compute. reflexivity.
  - reflexivity.
  - reflexivity.
  - intros s' g [].
  - intros g [<-|[]]. eexists. vm_compute. reflexivity.
  - vm_compute. reflexivity.
Defined.

(** ** Tags and their flags *)

Lemma char_eqb_eq a b : (a == b) = true <-> a = b.
Proof. apply Ascii.eqb_eq. Qed.

Lemma bytes_eqb_eq a b : bytes_eqb a b = true <-> a = b.
Proof.
  revert b. induction a as [|x a IH]; intros [|y b]; cbn; try (split; congruence).
  rewrite andb_true_iff, char_eqb_eq, IH. split; [intros [-> ->]|intros [= -> ->]]; auto.
Qed.

Lemma bytes_eqb_refl a : bytes_eqb a a = true.
Proof. now apply bytes_eqb_eq. Qed.

Lemma bytes_eqb_neq a b : bytes_eqb a b = false <-> a <> b.
Proof.
  split.
  - intros H ->. rewrite bytes_eqb_refl in H. discriminate.
  - intros H. destruct (bytes_eqb a b) eqn:E; [|reflexivity].
    apply bytes_eqb_eq in E. contradiction.
Qed.

Ltac flag_cases x :=
  destruct (bytes_eqb x (bs "inline")) eqn:?Ei;
  [|destruct (bytes_eqb x (bs "omitempty")) eqn:?Eo;
    [|destruct (bytes_eqb x (bs "commented")) eqn:?Ec]];
  repeat match goal with
         | H : bytes_eqb _ _ = true |- _ => apply bytes_eqb_eq in H; subst
         end.

Ltac name_flags :=
  set (Inline := bs "inline") in *;
  set (Omitempty := bs "omitempty") in *;
  set (Commented := bs "commented") in *.

Lemma flagSet_set_inline fl x :
  flagSet (set_inline fl) x = false -> flagSet fl x = false /\ x <> bs "inline".
Proof.
  unfold flagSet, set_inline. cbn [inline omitempty commented]. name_flags.
  rewrite <- bytes_eqb_neq.
  destruct (bytes_eqb x Inline), (bytes_eqb x Omitempty), (bytes_eqb x Commented),
    (inline fl), (omitempty fl), (commented fl); cbn; intros; try discriminate; auto.
Qed.

Lemma flagSet_set_omitempty fl x :
  flagSet (set_omitempty fl) x = false -> flagSet fl x = false /\ x <> bs "omitempty".
Proof.
  unfold flagSet, set_omitempty. cbn [inline omitempty commented]. name_flags.
  rewrite <- bytes_eqb_neq.
  destruct (bytes_eqb x Inline), (bytes_eqb x Omitempty), (bytes_eqb x Commented),
    (inline fl), (omitempty fl), (commented fl); cbn; intros; try discriminate; auto.
Qed.

Lemma flagSet_set_commented fl x :
  flagSet (set_commented fl) x = false -> flagSet fl x = false /\ x <> bs "commented".
Proof.
  unfold flagSet, set_commented. cbn [inline omitempty commented]. name_flags.
  rewrite <- bytes_eqb_neq.
  destruct (bytes_eqb x Inline), (bytes_eqb x Omitempty), (bytes_eqb x Commented),
    (inline fl), (omitempty fl), (commented fl); cbn; intros; try discriminate; auto.
Qed.

Lemma knownFlag_cases x :
  knownFlag x = true -> x = bs "inline" \/ x = bs "omitempty" \/ x = bs "commented".
Proof.
  unfold knownFlag. rewrite !orb_true_iff, !bytes_eqb_eq. tauto.
Qed.

(** One step of the loop of [parseTag]. *)
Lemma parseTag_loop_step t field y rest fl :
  parseTag_loop t field (y :: rest) fl =
  if knownFlag (TrimSpace y) then
    if flagSet fl (TrimSpace y)
    then (fl, Some (errDuplicateFlag (TrimSpace y) field t))
    else parseTag_loop t field rest (setFlag fl (TrimSpace y))
  else (fl, Some (errUnknownFlag (TrimSpace y) field t)).
Proof.
  cbn [parseTag_loop]. unfold knownFlag, flagSet, setFlag. name_flags.
  destruct (bytes_eqb (TrimSpace y) Inline) eqn:Ei.
  { apply bytes_eqb_eq in Ei. rewrite Ei. subst Inline Omitempty Commented.
    cbn. destruct (inline fl); reflexivity. }
  destruct (bytes_eqb (TrimSpace y) Omitempty) eqn:Eo.
  { apply bytes_eqb_eq in Eo. rewrite Eo. subst Inline Omitempty Commented.
    cbn. destruct (omitempty fl); reflexivity. }
  destruct (bytes_eqb (TrimSpace y) Commented) eqn:Ec.
  { apply bytes_eqb_eq in Ec. rewrite Ec. subst Inline Omitempty Commented.
    cbn. destruct (commented fl); reflexivity. }
  reflexivity.
Qed.

Lemma flagSet_setFlag fl y x :
  knownFlag y = true ->
  flagSet (setFlag fl y) x = false -> flagSet fl x = false /\ x <> y.
Proof.
  intros Hk. unfold setFlag. apply knownFlag_cases in Hk as [->|[->| ->]]; cbn.
  - apply flagSet_set_inline.
  - apply flagSet_set_omitempty.
  - apply flagSet_set_commented.
Qed.

Lemma flagSet_setFlag_other fl y x :
  knownFlag y = true -> flagSet fl x = false -> x <> y -> flagSet (setFlag fl y) x = false.
Proof.
  intros Hk Hs Hne. unfold setFlag.
  apply knownFlag_cases in Hk as [->|[->| ->]]; cbn;
  apply bytes_eqb_neq in Hne; revert Hs Hne;
  unfold flagSet, set_inline, set_omitempty, set_commented;
  cbn [inline omitempty commented]; name_flags;
  destruct (bytes_eqb x Inline), (bytes_eqb x Omitempty), (bytes_eqb x Commented),
    (inline fl), (omitempty fl), (commented fl); cbn; intros; try discriminate; auto.
Qed.

Lemma flagSet_setFlag_same fl y : knownFlag y = true -> flagSet (setFlag fl y) y = true.
Proof.
  intros Hk. apply knownFlag_cases in Hk as [->|[->| ->]]; reflexivity || (cbn; 
  unfold flagSet; cbn; now rewrite ?orb_true_r).
Qed.

Lemma parseTag_loop_ok t field rest :
  forall fl fl',
    parseTag_loop t field rest fl = (fl', None) ->
    NoDup (map TrimSpace rest) /\
    Forall (fun x => knownFlag x = true /\ flagSet fl x = false) (map TrimSpace rest).
Proof.
  induction rest as [|y rest IH]; intros fl fl' H; cbn [map].
  - split; constructor.
  - rewrite parseTag_loop_step in H.
    destruct (knownFlag (TrimSpace y)) eqn:Hk; [|discriminate].
    destruct (flagSet fl (TrimSpace y)) eqn:Hs; [discriminate|].
    apply IH in H as [Hnd Hall]. split.
    + constructor; [|assumption]. intros Hin.
      rewrite Forall_forall in Hall. apply Hall in Hin as [_ Hin].
      apply (flagSet_setFlag fl _ _ Hk) in Hin as [_ Hin]. now apply Hin.
    + constructor; [split; assumption|].
      eapply Forall_impl; [exact Hall|]. intros x [Hkx Hsx]. split; [assumption|].
      now apply (flagSet_setFlag fl _ _ Hk) in Hsx.
Qed.

Lemma flagSet_setFlag_mono fl y x :
  knownFlag y = true -> flagSet fl x = true -> flagSet (setFlag fl y) x = true.
Proof.
  intros Hk. unfold setFlag.
  apply knownFlag_cases in Hk as [->|[->| ->]]; cbn;
  unfold flagSet, set_inline, set_omitempty, set_commented;
  cbn [inline omitempty commented]; name_flags;
  destruct (bytes_eqb x Inline), (bytes_eqb x Omitempty), (bytes_eqb x Commented),
    (inline fl), (omitempty fl), (commented fl); cbn; intros; try discriminate; auto.
Qed.

Lemma freshKnown_step fl p pre :
  freshKnown fl p -> ~ In p pre ->
  Forall (freshKnown fl) pre -> Forall (freshKnown (setFlag fl p)) pre.
Proof.
  intros [Hk Hs] Hni Hall. rewrite Forall_forall in *. intros x Hx.
  destruct (Hall x Hx) as [Hkx Hsx]. split; [assumption|].
  apply flagSet_setFlag_other; auto. intros ->. apply Hni.
  now apply list_elem_of_In.
Qed.

(** The first unknown flag stops the loop with an error that names the flag,
    the member and the type. *)
Lemma parseTag_loop_unknown t field pre :
  forall rest u post fl,
    map TrimSpace rest = pre ++ u :: post ->
    NoDup pre -> Forall (freshKnown fl) pre ->
    knownFlag u = false ->
    snd (parseTag_loop t field rest fl) = Some (errUnknownFlag u field t).
Proof.
  induction pre as [|p pre IH]; intros rest u post fl Hmap Hnd Hall Hu;
    (destruct rest as [|y rest]; [discriminate|]);
    cbn in Hmap; injection Hmap as Hy Hrest; rewrite parseTag_loop_step, Hy.
  - rewrite Hu. reflexivity.
  - apply NoDup_cons in Hnd as [Hni Hnd]. apply Forall_cons in Hall as [[Hkp Hsp] Hall].
    rewrite Hkp, Hsp. eapply IH; eauto.
    apply freshKnown_step; auto; [split; auto|]. intros Hin. apply Hni.
    now apply list_elem_of_In.
Qed.

(** A known flag listed a second time stops the loop with the error for a
    duplicate, naming the flag, the member and the type. *)
Lemma parseTag_loop_duplicate t field pre :
  forall rest u post fl,
    map TrimSpace rest = pre ++ u :: post ->
    NoDup pre -> Forall (freshKnown fl) pre ->
    knownFlag u = true -> flagSet fl u = true \/ In u pre ->
    snd (parseTag_loop t field rest fl) = Some (errDuplicateFlag u field t).
Proof.
  induction pre as [|p pre IH]; intros rest u post fl Hmap Hnd Hall Hu Hdup;
    (destruct rest as [|y rest]; [discriminate|]);
    cbn in Hmap; injection Hmap as Hy Hrest; rewrite parseTag_loop_step, Hy.
  - rewrite Hu. destruct Hdup as [->|[]]. reflexivity.
  - apply NoDup_cons in Hnd as [Hni Hnd]. apply Forall_cons in Hall as [[Hkp Hsp] Hall].
    rewrite Hkp, Hsp. eapply IH; eauto.
    + apply freshKnown_step; auto; [split; auto|]. intros Hin. apply Hni.
      now apply list_elem_of_In.
    + destruct Hdup as [Hs|[->|Hin]].
      * left. now apply flagSet_setFlag_mono.
      * left. now apply flagSet_setFlag_same.
      * right. assumption.
Qed.

Lemma listedFlags_found field pre u post :
  listedFlags field = pre ++ u :: post -> snd (tagOf field) = true.
Proof.
  unfold listedFlags. destruct (snd (tagOf field)); [reflexivity|].
  destruct pre; discriminate.
Qed.

Lemma parseTag_unfold t field :
  parseTag t field =
  let fl := mkFlags (TrimSpace (fst (fst (tagOf field)))) false false false in
  if snd (tagOf field) then
    match tagRest field with
    | [] => (fl, Some errUnexpectedComma)
    | _ => parseTag_loop (reflect.Type_String t) (reflect.Name field)
                         (Split_comma (tagRest field)) fl
    end
  else (fl, None).
Proof.
  unfold parseTag, tagRest, tagOf.
  destruct (Cut_comma _) as [[name rest] found]. reflexivity.
Qed.

Lemma freshKnown_initial k pre :
  Forall (fun x => knownFlag x = true) pre ->
  Forall (freshKnown (mkFlags k false false false)) pre.
Proof.
  intros H. eapply Forall_impl; [exact H|]. intros x Hx. split; [assumption|].
  unfold flagSet. cbn. now rewrite !andb_false_r.
Qed.

(** Skipping spaces where no space stands moves nothing. *)
Lemma skipSpaces_no_space fuel d :
  (scanner.peek d == " "%char) = false ->
  Decoder.skipSpaces (S fuel) d = (Ok tt, d).
Proof.
  intros Hsp. unfold Decoder.skipSpaces, bind, scanner.takeWhile, scanner.take.
  cbn [scanner.take_loop]. rewrite Hsp.
  destruct (scanner.bufPos d <? length (scanner.buf d))%nat; reflexivity.
Qed.

Lemma isNameChar_not_space c : isNameChar c = true -> (c == " "%char) = false.
Proof.
  intros H. destruct (c == " "%char) eqn:E; [|reflexivity].
  apply char_eqb_eq in E. subst. discriminate.
Qed.

Lemma isNameChar_dispatch c :
  isNameChar c = true -> (c == NUL) = false /\ isNewlineChar c = false.
Proof.
  intros H. split.
  - destruct (c == NUL) eqn:E; [|reflexivity]. apply char_eqb_eq in E. subst. discriminate.
  - unfold isNewlineChar.
    destruct (c == LF) eqn:E1; [apply char_eqb_eq in E1; subst; discriminate|].
    destruct (c == CR) eqn:E2; [apply char_eqb_eq in E2; subst; discriminate|].
    reflexivity.
Qed.

Section UnknownSteps.
Context {runtime : Runtime}.

(** One round of [scan] on a header whose name [findSection] does not find. *)
Lemma scan_unknown_section fuel sections (d : scanner.t) (mem : GoValue)
    currentSection sectionName d1 d2 :
  scanner.peek d = "["%char ->
  Decoder.name (S fuel) (snd (scanner.advance d)) = (Ok sectionName, d1) ->
  sectionName <> [] ->
  scanner.consume "]"%char d1 = (true, d2) ->
  findSection sections sectionName = None ->
  scan (S (S fuel)) sections currentSection (d, mem)
  = (Err (errUnknownSection sectionName), (d2, mem)).
Proof.
  intros Hpeek Hname Hne Hclose Hfind.
  cbn [scan]. unfold bind at 1. unfold onScanner at 1, get. cbn [fst snd].
  unfold bind at 1. unfold onScanner at 1. cbn [fst snd].
  rewrite skipSpaces_no_space by (rewrite Hpeek; reflexivity).
  rewrite Hpeek.
  change ("["%char == NUL) with false. change (isNewlineChar "["%char) with false.
  change (isNameChar "["%char) with false. change ("["%char == "["%char) with true.
  cbv iota.
  unfold bind, onScanner, call. cbn [fst snd].
  destruct (scanner.advance d) as [c d'] eqn:Hadv. cbn [snd] in Hname.
  cbn [fst snd]. rewrite Hname. destruct sectionName as [|c0 sn]; [contradiction|].
  cbn [fst snd]. rewrite Hclose. cbn [negb fst snd]. rewrite Hfind. reflexivity.
Qed.

(** One round of [scan] on a line whose key [Section.Field] does not find. *)
Lemma scan_unknown_key fuel sections (d : scanner.t) (mem : GoValue)
    section fieldName value d1 d2 d3 d4 :
  isNameChar (scanner.peek d) = true ->
  Decoder.name (S fuel) d = (Ok fieldName, d1) ->
  scanner.consume "="%char d1 = (true, d2) ->
  Decoder.value (S fuel) d2 = (Ok value, d3) ->
  Section_Field section fieldName = None ->
  scanner.handleNewline d3 = (true, d4) ->
  scan (S (S fuel)) sections (Some section) (d, mem)
  = scan (S fuel) sections (Some section) (d4, mem).
Proof.
  intros Hpeek Hname Heq Hvalue Hfield Hnl.
  destruct (isNameChar_dispatch _ Hpeek) as [Hnul Hnewline].
  cbn [scan]. unfold bind at 1. unfold onScanner at 1, get. cbn [fst snd].
  unfold bind at 1. unfold onScanner at 1. cbn [fst snd].
  rewrite skipSpaces_no_space by (now apply isNameChar_not_space).
  rewrite Hnul, Hnewline, Hpeek.
  unfold bind, onScanner, call, ret. cbn [fst snd].
  rewrite Hname. cbn [fst snd]. rewrite Heq. cbn [negb fst snd].
  rewrite Hvalue, Hfield. cbn [fst snd]. rewrite Hnl. reflexivity.
Qed.

End UnknownSteps.

(** ** The scanner on a known buffer *)

Lemma at_peek d pre c post : at_ d pre (c :: post) -> scanner.peek d = c.
Proof.
  intros [Hb Hp]. unfold scanner.peek, scanner.lookAhead.
  rewrite Nat.add_0_r, Hb, Hp, lookup_app_r, Nat.sub_diag by lia. reflexivity.
Qed.

Lemma at_peek_end d pre : at_ d pre [] -> scanner.peek d = NUL.
Proof.
  intros [Hb Hp]. unfold scanner.peek, scanner.lookAhead.
  rewrite Nat.add_0_r, Hb, Hp, app_nil_r, lookup_ge_None_2 by lia. reflexivity.
Qed.

Lemma at_lookAhead1 d pre c c1 post :
  at_ d pre (c :: c1 :: post) -> scanner.lookAhead d 1 = c1.
Proof.
  intros [Hb Hp]. unfold scanner.lookAhead.
  rewrite Hb, Hp, lookup_app_r by lia.
  replace (length pre + 1 - length pre)%nat with 1%nat by lia. reflexivity.
Qed.

Lemma at_inside d pre c post :
  at_ d pre (c :: post) -> (scanner.bufPos d <? length (scanner.buf d))%nat = true.
Proof.
  intros [Hb Hp]. apply Nat.ltb_lt. rewrite Hb, Hp, length_app. cbn. lia.
Qed.

Lemma at_outside d pre :
  at_ d pre [] -> (scanner.bufPos d <? length (scanner.buf d))%nat = false.
Proof.
  intros [Hb Hp]. apply Nat.ltb_ge. rewrite Hb, Hp, app_nil_r. lia.
Qed.

Lemma at_skip1 d pre c post : at_ d pre (c :: post) -> at_ (scanner.skip1 d) (pre ++ [c]) post.
Proof.
  intros [Hb Hp]. split; cbn.
  - now rewrite Hb, <- app_assoc.
  - rewrite Hp, length_app. cbn. lia.
Qed.

Lemma plain_spec c : plain c = true -> (c == NUL) = false /\ isNewlineChar c = false.
Proof.
  unfold plain. rewrite andb_true_iff, !negb_true_iff. tauto.
Qed.

Lemma advance_plain d pre c post :
  at_ d pre (c :: post) -> plain c = true ->
  exists d', scanner.advance d = (c, d') /\ at_ d' (pre ++ [c]) post.
Proof.
  intros Hat Hc. apply plain_spec in Hc as [Hn Hnl].
  unfold scanner.advance. rewrite (at_peek _ _ _ _ Hat), Hn.
  unfold isNewlineChar in Hnl. rewrite Hnl.
  eexists. split; [reflexivity|].
  destruct Hat as [Hb Hp]. split; cbn.
  - now rewrite Hb, <- app_assoc.
  - rewrite Hp, length_app. cbn. lia.
Qed.

Lemma char_eqb_refl c : (c == c) = true.
Proof. now apply char_eqb_eq. Qed.

Lemma consume_hit d pre c post :
  at_ d pre (c :: post) -> plain c = true ->
  exists d', scanner.consume c d = (true, d') /\ at_ d' (pre ++ [c]) post.
Proof.
  intros Hat Hc. unfold scanner.consume. rewrite (at_peek _ _ _ _ Hat), char_eqb_refl.
  destruct (advance_plain _ _ _ _ Hat Hc) as (d' & Ha & Hat').
  exists d'. rewrite Ha. auto.
Qed.

Lemma consume_miss d x : (scanner.peek d == x) = false -> scanner.consume x d = (false, d).
Proof. intros H. unfold scanner.consume. now rewrite H. Qed.

Lemma handleNewline_LF d pre post :
  at_ d pre (LF :: post) ->
  exists d', scanner.handleNewline d = (true, d') /\ at_ d' (pre ++ [LF]) post.
Proof.
  intros Hat. unfold scanner.handleNewline. rewrite (at_peek _ _ _ _ Hat).
  change (LF == CR) with false. cbv iota. rewrite (at_peek _ _ _ _ Hat).
  change (LF == LF) with true. cbv iota.
  eexists. split; [reflexivity|]. apply at_skip1 in Hat. exact Hat.
Qed.

(** [takeWhile] reads the longest run of bytes that satisfy [f]. *)
Lemma take_loop_while f (Hf : forall c, f c = true -> plain c = true) w :
  forall fuel acc d pre post,
    at_ d pre (w ++ post) ->
    forallb f w = true ->
    match post with [] => True | c :: _ => f c = false end ->
    (length w < fuel)%nat ->
    exists d',
      scanner.take_loop fuel
        (fun base => if f (scanner.peek base)
                     then let (c, base) := scanner.advance base in (Ok [c], base)
                     else (Err stop, base)) acc d
      = (Ok (acc ++ w), d') /\ at_ d' (pre ++ w) post.
Proof.
  induction w as [|c w IH]; intros fuel acc d pre post Hat Hall Hpost Hfuel.
  - rewrite !app_nil_r. cbn in Hat. destruct fuel as [|fuel]; [lia|].
    cbn [scanner.take_loop]. destruct post as [|c post].
    + rewrite (at_outside _ _ Hat). eauto.
    + rewrite (at_inside _ _ _ _ Hat), (at_peek _ _ _ _ Hat), Hpost. cbn. eauto.
  - cbn in Hall. apply andb_true_iff in Hall as [Hc Hall].
    destruct fuel as [|fuel]; [cbn in Hfuel; lia|].
    cbn [scanner.take_loop]. cbn in Hat.
    rewrite (at_inside _ _ _ _ Hat), (at_peek _ _ _ _ Hat), Hc.
    destruct (advance_plain _ _ _ _ Hat (Hf _ Hc)) as (d1 & Ha & Hat1).
    rewrite Ha.
    destruct (IH fuel (acc ++ [c]) d1 (pre ++ [c]) post Hat1 Hall Hpost) as (d' & He & Hat').
    { cbn in Hfuel. lia. }
    exists d'. rewrite He. rewrite <- !app_assoc in *. cbn in *.
    split; [reflexivity|assumption].
Qed.

Lemma takeWhile_run f (Hf : forall c, f c = true -> plain c = true) w fuel d pre post :
  at_ d pre (w ++ post) ->
  forallb f w = true ->
  match post with [] => True | c :: _ => f c = false end ->
  (length w < fuel)%nat ->
  exists d', scanner.takeWhile fuel f d = (Ok w, d') /\ at_ d' (pre ++ w) post.
Proof.
  intros. unfold scanner.takeWhile, scanner.take.
  eapply (take_loop_while f Hf w fuel []); eauto.
Qed.

(** ** Bytes *)

Lemma code_range c : 0 <= code c < 256.
Proof.
  unfold code. pose proof (N_ascii_bounded c). lia.
Qed.

Lemma chr_code c : chr (code c) = c.
Proof. unfold chr, code. rewrite N2Z.id. apply ascii_N_embedding. Qed.

Lemma code_chr z : 0 <= z < 256 -> code (chr z) = z.
Proof.
  intros H. unfold chr, code. rewrite N_ascii_embedding by lia. lia.
Qed.

Lemma code_inj a b : code a = code b -> a = b.
Proof. intros H. rewrite <- (chr_code a), <- (chr_code b). now rewrite H. Qed.

Lemma char_eqb_code a b : (a == b) = (code a =? code b).
Proof.
  destruct (a == b) eqn:E.
  - apply char_eqb_eq in E. subst. symmetry. apply Z.eqb_refl.
  - symmetry. apply Z.eqb_neq. intros H. apply code_inj in H. subst.
    now rewrite char_eqb_refl in E.
Qed.

Ltac each_byte c := destruct c as [[] [] [] [] [] [] [] []].

(** The spelling of a byte other than the quote and the backslash, and what
    the decoder needs to know about it. *)
Lemma quoteByte_cases c :
  negb (c == SQUOTE) && negb (c == BACKSLASH) = true ->
  (quoteByte c = [c] /\ plain c = true /\ (c == SQUOTE) = false /\ (c == BACKSLASH) = false)
  \/ (c = LF /\ quoteByte c = [BACKSLASH; "n"%char])
  \/ (c = CR /\ quoteByte c = [BACKSLASH; "r"%char])
  \/ (exists hi lo,
         quoteByte c = [BACKSLASH; "x"%char; hi; lo] /\
         isHexDigit hi = true /\ isHexDigit lo = true /\
         plain hi = true /\ plain lo = true /\ hex_Decode hi lo = c).
Proof.
  each_byte c; intros H; try discriminate H;
    first [ left; repeat split; reflexivity
          | right; left; split; reflexivity
          | right; right; left; split; reflexivity
          | right; right; right; do 2 eexists; repeat split; reflexivity ].
Qed.

Ltac run_at H :=
  repeat first
    [ rewrite (at_peek _ _ _ _ H)
    | rewrite (at_lookAhead1 _ _ _ _ _ H) ].

(** One encoded byte is read back by [takeStringChar]. *)
Lemma takeStringChar_quoteByte c d pre post :
  negb (c == SQUOTE) && negb (c == BACKSLASH) = true ->
  at_ d pre (quoteByte c ++ post) ->
  exists d', Decoder.takeStringChar d = (Ok [c], d') /\ at_ d' (pre ++ quoteByte c) post.
Proof.
  intros Hq Hat. unfold Decoder.takeStringChar, bind, get, call, ret.
  destruct (quoteByte_cases c Hq)
    as [(Hb & Hp & Hsq & Hbs)|[(-> & Hb)|[(-> & Hb)|(hi & lo & Hb & Hh & Hl & Hph & Hpl & Hd)]]];
    rewrite Hb in *; cbn [app] in Hat.
  - destruct (plain_spec _ Hp) as [Hn Hnl].
    rewrite (at_peek _ _ _ _ Hat), Hn, Hsq, Hnl. cbn [orb].
    rewrite consume_miss by (now rewrite (at_peek _ _ _ _ Hat)). cbn [negb].
    destruct (advance_plain _ _ _ _ Hat Hp) as (d' & -> & Hat'). eauto.
  - rewrite (at_peek _ _ _ _ Hat). cbn [orb].
    change ((BACKSLASH == NUL) || (BACKSLASH == SQUOTE) || isNewlineChar BACKSLASH) with false.
    cbv iota.
    destruct (consume_hit _ _ _ _ Hat eq_refl) as (d1 & -> & Hat1). cbn [negb].
    destruct (advance_plain _ _ _ _ Hat1 eq_refl) as (d2 & -> & Hat2).
    change ("n"%char == CR) with false. change ("n"%char == LF) with false.
    change ("n"%char == "n"%char) with true. cbv iota.
    eexists. split; [reflexivity|]. rewrite <- app_assoc in Hat2. exact Hat2.
  - rewrite (at_peek _ _ _ _ Hat).
    change ((BACKSLASH == NUL) || (BACKSLASH == SQUOTE) || isNewlineChar BACKSLASH) with false.
    cbv iota.
    destruct (consume_hit _ _ _ _ Hat eq_refl) as (d1 & -> & Hat1). cbn [negb].
    destruct (advance_plain _ _ _ _ Hat1 eq_refl) as (d2 & -> & Hat2).
    change ("r"%char == CR) with false. change ("r"%char == LF) with false.
    change ("r"%char == "n"%char) with false. change ("r"%char == "r"%char) with true.
    cbv iota.
    eexists. split; [reflexivity|]. rewrite <- app_assoc in Hat2. exact Hat2.
  - rewrite (at_peek _ _ _ _ Hat).
    change ((BACKSLASH == NUL) || (BACKSLASH == SQUOTE) || isNewlineChar BACKSLASH) with false.
    cbv iota.
    destruct (consume_hit _ _ _ _ Hat eq_refl) as (d1 & -> & Hat1). cbn [negb].
    destruct (advance_plain _ _ _ _ Hat1 eq_refl) as (d2 & -> & Hat2).
    change ("x"%char == CR) with false. change ("x"%char == LF) with false.
    change ("x"%char == "n"%char) with false. change ("x"%char == "r"%char) with false.
    change ("x"%char == "t"%char) with false. change ("x"%char == BACKSLASH) with false.
    change ("x"%char == SQUOTE) with false. change ("x"%char == DQUOTE) with false.
    change ("x"%char == "x"%char) with true. cbv beta iota.
    rewrite (at_peek _ _ _ _ Hat2), (at_lookAhead1 _ _ _ _ _ Hat2), Hh, Hl. cbn [negb orb].
    destruct (advance_plain _ _ _ _ Hat2 Hph) as (d3 & -> & Hat3).
    destruct (advance_plain _ _ _ _ Hat3 Hpl) as (d4 & -> & Hat4).
    rewrite Hd. eexists. split; [reflexivity|].
    rewrite <- !app_assoc in Hat4. exact Hat4.
Qed.

(** A quoted body is read back up to the closing quote. *)
Lemma take_loop_quoted s :
  forall fuel acc d pre post,
    quotable s = true ->
    at_ d pre (flat_map quoteByte s ++ SQUOTE :: post) ->
    (length s < fuel)%nat ->
    exists d',
      scanner.take_loop fuel Decoder.takeStringChar acc d = (Ok (acc ++ s), d') /\
      at_ d' (pre ++ flat_map quoteByte s) (SQUOTE :: post).
Proof.
  induction s as [|c s IH]; intros fuel acc d pre post Hq Hat Hfuel.
  - cbn in *. rewrite !app_nil_r. destruct fuel as [|fuel]; [lia|].
    cbn [scanner.take_loop]. rewrite (at_inside _ _ _ _ Hat).
    unfold Decoder.takeStringChar at 1, bind, get. rewrite (at_peek _ _ _ _ Hat).
    cbn. eauto.
  - cbn in Hq. apply andb_true_iff in Hq as [Hc Hq].
    destruct fuel as [|fuel]; [cbn in Hfuel; lia|].
    cbn [scanner.take_loop flat_map] in *. rewrite <- app_assoc in Hat.
    assert (Hin : (scanner.bufPos d <? length (scanner.buf d))%nat = true).
    { destruct (quoteByte c) as [|q qs] eqn:Eq.
      - exfalso. revert Eq. clear. unfold quoteByte.
        destruct ((32 <=? code c) && (code c <=? 126)); [discriminate|].
        destruct (c == LF); [discriminate|]. destruct (c == CR); [discriminate|].
        destruct (hex_Encode c). discriminate.
      - eapply at_inside. exact Hat. }
    rewrite Hin.
    destruct (takeStringChar_quoteByte c d pre _ Hc Hat) as (d1 & -> & Hat1).
    destruct (IH fuel (acc ++ [c]) d1 _ post Hq Hat1) as (d' & -> & Hat'); [cbn in Hfuel; lia|].
    exists d'. rewrite <- !app_assoc in *. cbn. split; [reflexivity|assumption].
Qed.

(** ** UTF-8: a valid encoding is what [EncodeRune] writes back *)

Ltac zbool :=
  repeat match goal with
         | H : (_ <? _) = true |- _ => apply Z.ltb_lt in H
         | H : (_ <? _) = false |- _ => apply Z.ltb_ge in H
         | H : (_ <=? _) = true |- _ => apply Z.leb_le in H
         | H : (_ <=? _) = false |- _ => apply Z.leb_gt in H
         | H : (_ =? _) = true |- _ => apply Z.eqb_eq in H
         | H : (_ =? _) = false |- _ => apply Z.eqb_neq in H
         | H : _ && _ = true |- _ => apply andb_true_iff in H as [? ?]
         | H : _ || _ = false |- _ => apply orb_false_iff in H as [? ?]
         end.

Ltac zcase :=
  match goal with
  | |- context [?a <? ?b] => destruct (Z.ltb_spec a b); try lia
  | |- context [?a <=? ?b] => destruct (Z.leb_spec a b); try lia
  | |- context [?a =? ?b] => destruct (Z.eqb_spec a b); try lia
  end.

Lemma isCont_spec b : isCont b = true -> 128 <= code b <= 191.
Proof. unfold isCont. intros H. zbool. lia. Qed.

Ltac bytes_eq :=
  repeat match goal with
         | |- _ :: _ = _ :: _ => f_equal
         | |- chr _ = ?b => rewrite <- (chr_code b) at 2; f_equal
         end;
  try reflexivity; try (Z.div_mod_to_equations; lia).

Ltac multibyte :=
  split; [bytes_eq|]; split; [reflexivity|]; right;
  split; [lia|]; split; [lia|];
  repeat (apply Forall_cons; split; [lia|]); apply Forall_nil; exact I.

Lemma DecodeRune_valid s r w :
  s <> [] ->
  DecodeRune s = (r, w) ->
  (r = RuneError /\ w = 1%nat) \/ validStep s r w.
Proof.
  intros Hne. destruct s as [|b0 s1]; [contradiction|]. clear Hne.
  unfold DecodeRune. pose proof (code_range b0) as R0.
  destruct (code b0 <? 128) eqn:E1.
  { intros [= <- <-]. right. zbool. unfold validStep, EncodeRune. cbn [firstn length]; rewrite ?take_0; cbn [length].
    repeat zcase. cbn [orb andb]. repeat zcase.
    split; [now rewrite chr_code|]. split; [reflexivity|]. left. eauto 10. }
  destruct (code b0 <? 194) eqn:E2; [intros [= <- <-]; now left|].
  destruct (code b0 <? 224) eqn:E3.
  { destruct s1 as [|b1 s2]; [intros [= <- <-]; now left|].
    destruct (isCont b1) eqn:C1; [|intros [= <- <-]; now left].
    intros [= <- <-]. right. apply isCont_spec in C1. zbool.
    unfold validStep, EncodeRune. cbn [firstn length]; rewrite ?take_0; cbn [length].
    repeat zcase; cbn [orb andb]; repeat zcase; multibyte. }
  destruct (code b0 <? 240) eqn:E4.
  { destruct s1 as [|b1 [|b2 s3]]; try (intros [= <- <-]; now left).
    match goal with |- context [if ?c then _ else _] => destruct c eqn:C end;
      [|intros [= <- <-]; now left].
    intros [= <- <-]. right.
    apply andb_true_iff in C as [C C2]. apply andb_true_iff in C as [Clo Chi].
    apply isCont_spec in C2. zbool.
    assert (Hb1 : 128 <= code b1 <= 191 /\
                  (code b0 = 224 -> 160 <= code b1) /\ (code b0 = 237 -> code b1 <= 159)).
    { revert Clo Chi. repeat zcase; lia. }
    clear Clo Chi. destruct Hb1 as (Hb1 & Hlo & Hhi).
    unfold validStep, EncodeRune. cbn [firstn length]; rewrite ?take_0; cbn [length].
    repeat zcase; cbn [orb andb]; repeat zcase; multibyte. }
  destruct (code b0 <? 245) eqn:E5; [|intros [= <- <-]; now left].
  destruct s1 as [|b1 [|b2 [|b3 s4]]]; try (intros [= <- <-]; now left).
  match goal with |- context [if ?c then _ else _] => destruct c eqn:C end;
    [|intros [= <- <-]; now left].
  intros [= <- <-]. right.
  apply andb_true_iff in C as [C C3]. apply andb_true_iff in C as [C C2].
  apply andb_true_iff in C as [Clo Chi].
  apply isCont_spec in C2. apply isCont_spec in C3. zbool.
  assert (Hb1 : 128 <= code b1 <= 191 /\
                (code b0 = 240 -> 144 <= code b1) /\ (code b0 = 244 -> code b1 <= 143)).
  { revert Clo Chi. repeat zcase; lia. }
  clear Clo Chi. destruct Hb1 as (Hb1 & Hlo & Hhi).
  unfold validStep, EncodeRune. cbn [firstn length]; rewrite ?take_0; cbn [length].
  repeat zcase; cbn [orb andb]; repeat zcase; multibyte.
Qed.

Lemma quoteRune_ascii b : code b < 128 -> quoteRune (code b) = quoteByte b.
Proof.
  each_byte b; intros H; first [reflexivity | vm_compute in H; discriminate H].
Qed.

Lemma quoteByte_high b : 128 <= code b -> quoteByte b = hexEscape b.
Proof.
  intros H. unfold quoteByte, hexEscape. rewrite !char_eqb_code.
  change (code LF) with 10. change (code CR) with 13.
  repeat zcase; reflexivity.
Qed.

Lemma quoteRune_high r : 128 <= r -> quoteRune r = flat_map hexEscape (EncodeRune r).
Proof.
  intros H. unfold quoteRune. change (code LF) with 10. change (code CR) with 13.
  repeat zcase; reflexivity.
Qed.

Lemma flat_map_ext_Forall {A B} (f g : A -> list B) (P : A -> Prop) l :
  (forall x, P x -> f x = g x) -> Forall P l -> flat_map f l = flat_map g l.
Proof.
  intros H. induction 1 as [|x l Hx Hl IH]; cbn; [reflexivity|].
  now rewrite H, IH.
Qed.

Lemma quoteRune_step s r w : validStep s r w -> quoteRune r = flat_map quoteByte (take w s).
Proof.
  intros (He & Hlen & [(-> & Hr & b0 & s1 & -> & ->)|(Hw & Hr & Hall)]).
  - cbn. rewrite app_nil_r. now apply quoteRune_ascii.
  - rewrite quoteRune_high, He by assumption.
    symmetry. eapply flat_map_ext_Forall; [|exact Hall].
    intros x Hx. now apply quoteByte_high.
Qed.

Lemma range_loop_quote fuel :
  forall s,
    (length s <= fuel)%nat ->
    ValidString_loop fuel s = true ->
    flat_map quoteRune (range_loop fuel s) = flat_map quoteByte s.
Proof.
  induction fuel as [|fuel IH]; intros s Hlen Hv.
  - destruct s; [reflexivity|cbn in Hlen; lia].
  - destruct s as [|c s']; [reflexivity|].
    cbn [range_loop ValidString_loop] in *.
    destruct (DecodeRune (c :: s')) as [r w] eqn:Hd.
    apply andb_true_iff in Hv as [Hok Hv].
    destruct (DecodeRune_valid (c :: s') r w ltac:(discriminate) Hd) as [[-> ->]|Hstep].
    { cbn in Hok. discriminate. }
    cbn [flat_map]. rewrite (quoteRune_step _ _ _ Hstep).
    destruct Hstep as (_ & Hw & Hcase).
    rewrite IH; [| |assumption].
    + rewrite <- flat_map_app, take_drop. reflexivity.
    + rewrite length_drop. cbn [length] in *.
      assert (1 <= w)%nat by (destruct Hcase as [[-> _]|[? _]]; lia). lia.
Qed.

(** A valid text is spelt byte by byte between the quotes. *)
Lemma quoteString_valid s :
  ValidString s = true -> quoteString s = SQUOTE :: flat_map quoteByte s ++ [SQUOTE].
Proof.
  intros H. unfold quoteString, range_string.
  now rewrite range_loop_quote.
Qed.

Lemma literal_quoted fuel d pre s post :
  quotable s = true ->
  at_ d pre (SQUOTE :: flat_map quoteByte s ++ SQUOTE :: post) ->
  (length s < fuel)%nat ->
  exists d',
    Decoder.literal fuel d = (Ok s, d') /\
    at_ d' (pre ++ SQUOTE :: flat_map quoteByte s ++ [SQUOTE]) post.
Proof.
  intros Hq Hat Hfuel. unfold Decoder.literal, bind, get, call, ret, scanner.take.
  rewrite (at_peek _ _ _ _ Hat). rewrite char_eqb_refl.
  destruct (advance_plain _ _ _ _ Hat eq_refl) as (d1 & -> & Hat1).
  destruct (take_loop_quoted s fuel [] d1 _ post Hq Hat1 Hfuel) as (d2 & -> & Hat2).
  destruct (advance_plain _ _ _ _ Hat2 eq_refl) as (d3 & -> & Hat3).
  exists d3. split; [reflexivity|].
  rewrite <- !app_assoc in Hat3. exact Hat3.
Qed.

Lemma endsValue_peek d pre post :
  at_ d pre post -> endsValue post ->
  (scanner.peek d == " "%char) = false /\ (scanner.peek d == ","%char) = false /\
  (scanner.peek d == ";"%char) = false.
Proof.
  intros Hat He. destruct post as [|c post].
  - rewrite (at_peek_end _ _ Hat). repeat split; reflexivity.
  - rewrite (at_peek _ _ _ _ Hat). exact He.
Qed.

(** A literal that nothing of the value grammar follows is the whole value. *)
Lemma value_single fuel d lit d1 pre1 post :
  (scanner.peek d == " "%char) = false ->
  Decoder.literal (S fuel) d = (Ok lit, d1) ->
  at_ d1 pre1 post -> endsValue post ->
  Decoder.value (S (S fuel)) d = (Ok lit, d1).
Proof.
  intros Hsp Hlit Hat He.
  destruct (endsValue_peek _ _ _ Hat He) as (H1 & H2 & H3).
  cbn [Decoder.value]. unfold bind at 1.
  rewrite (skipSpaces_no_space fuel d Hsp).
  unfold bind at 1. rewrite Hlit.
  unfold bind at 1. rewrite (skipSpaces_no_space fuel d1 H1).
  unfold bind, call, ret. rewrite (consume_miss _ _ H2), (consume_miss _ _ H3).
  now rewrite app_nil_r.
Qed.

(** C2, as amended: a valid UTF-8 text is rendered between single quotes
    byte by byte (printable ASCII as it is, newline and carriage return as
    two-character escapes, every other byte as a hex escape), and when the
    text holds neither a single quote nor a backslash the decoder's value
    grammar reads the rendering back to the same text, to the end of the
    buffer. *)
Theorem quoteString_reparse (s : bytes) (fuel : nat) :
  ValidString s = true ->
  quotable s = true ->
  (length s + 2 < fuel)%nat ->
  quoteString s = SQUOTE :: flat_map quoteByte s ++ [SQUOTE] /\
  exists d',
    Decoder.value fuel (scanner.init (quoteString s)) = (Ok s, d') /\
    at_ d' (quoteString s) [].
Proof.
  intros Hv Hq Hfuel. pose proof (quoteString_valid s Hv) as Hs.
  split; [assumption|]. rewrite Hs.
  destruct fuel as [|[|fuel]]; try lia.
  assert (Hat : at_ (scanner.init (SQUOTE :: flat_map quoteByte s ++ [SQUOTE])) []
                    (SQUOTE :: flat_map quoteByte s ++ SQUOTE :: [])).
  { split; reflexivity. }
  destruct (literal_quoted (S fuel) _ _ s [] Hq Hat ltac:(lia)) as (d' & Hl & Hat').
  exists d'. split; [|exact Hat'].
  eapply value_single; eauto. exact I.
Qed.

Lemma quoteString_reparse_witness :
  ValidString (bs "a b" ++ [LF; chr 0xF0; chr 0x9F; chr 0x8E; chr 0x89]) = true /\
  quotable (bs "a b" ++ [LF; chr 0xF0; chr 0x9F; chr 0x8E; chr 0x89]) = true /\
  quoteString (bs "a b" ++ [LF; chr 0xF0; chr 0x9F; chr 0x8E; chr 0x89])
  = bs "'a b\n\xf0\x9f\x8e\x89'" /\
  fst (Decoder.value 20 (scanner.init (bs "'a b\n\xf0\x9f\x8e\x89'")))
  = Ok (bs "a b" ++ [LF; chr 0xF0; chr 0x9F; chr 0x8E; chr 0x89]).
Proof.
  split; [reflexivity|]. split; [reflexivity|].
  destruct (quoteString_reparse (bs "a b" ++ [LF; chr 0xF0; chr 0x9F; chr 0x8E; chr 0x89]) 20
              eq_refl eq_refl ltac:(cbn; lia)) as (Hs & d' & Hv & Hat).
  split; [exact Hs|]. change (bs "'a b\n\xf0\x9f\x8e\x89'") with
    (quoteString (bs "a b" ++ [LF; chr 0xF0; chr 0x9F; chr 0x8E; chr 0x89])).
  rewrite Hv. reflexivity.
Defined.

(** C2 as stated fails on a text that is not valid UTF-8: the loop of
    [quoteString] ranges over runes, the byte [0xFF] is read as U+FFFD and
    rendered as the three escapes of that rune, which read back to three
    bytes.  It fails on a text that holds a single quote as well: the
    rendering of ['] is ['''], which no amount of fuel reads back to [']. *)
Lemma quoteString_reparse_counterexample :
  (quoteString [chr 0xFF] = bs "'\xef\xbf\xbd'" /\
   fst (Decoder.value 20 (scanner.init (quoteString [chr 0xFF])))
   = Ok [chr 0xEF; chr 0xBF; chr 0xBD] /\
   ~ exists fuel,
       fst (Decoder.value fuel (scanner.init (quoteString [chr 0xFF]))) = Ok [chr 0xFF]) /\
  (quoteString [SQUOTE] = [SQUOTE; SQUOTE; SQUOTE] /\
   ~ exists fuel,
       fst (Decoder.value fuel (scanner.init (quoteString [SQUOTE]))) = Ok [SQUOTE]).
Proof.
  split.
  - split; [reflexivity|]. split; [vm_compute; reflexivity|]. intros [fuel H].
    do 16 (destruct fuel as [|fuel]; [vm_compute in H; discriminate H|]).
    vm_compute in H. discriminate H.
  - split; [reflexivity|]. intros [fuel H].
    destruct fuel as [|[|[|[|[|fuel]]]]]; vm_compute in H; discriminate H.
Qed.

(** ** Decimal numbers *)

Lemma isDigit_spec c : isDigit c = true <-> 48 <= code c <= 57.
Proof.
  unfold isDigit, char_leb. change (code "0"%char) with 48. change (code "9"%char) with 57.
  rewrite andb_true_iff, !Z.leb_le. tauto.
Qed.

Lemma digitsValue_cons n c ds :
  digitsValue n (c :: ds) = digitsValue (n * 10 + (code c - 48)) ds.
Proof. reflexivity. Qed.

Lemma digitsValue_ge ds : forall n, 0 <= n -> forallb isDigit ds = true -> n <= digitsValue n ds.
Proof.
  induction ds as [|c ds IH]; intros n Hn Hd.
  - cbn. lia.
  - cbn [forallb] in Hd. apply andb_true_iff in Hd as [Hc Hd]. apply isDigit_spec in Hc.
    rewrite digitsValue_cons.
    assert (Hc1 : 0 <= n * 10 + (code c - 48)) by lia.
    specialize (IH _ Hc1 Hd). lia.
Qed.

Lemma ParseUint_loop_digits s0 ds :
  forall n,
    0 <= n -> forallb isDigit ds = true -> digitsValue n ds < 2 ^ 64 ->
    ParseUint_loop s0 ds n = Ok (digitsValue n ds).
Proof.
  induction ds as [|c ds IH]; intros n Hn Hd Hv; [reflexivity|].
  cbn [forallb] in Hd. apply andb_true_iff in Hd as [Hc Hd].
  rewrite digitsValue_cons in *. cbn [ParseUint_loop]. rewrite Hc.
  apply isDigit_spec in Hc. change (code "0"%char) with 48.
  assert (Hn1 : 0 <= n * 10 + (code c - 48)) by lia.
  pose proof (digitsValue_ge ds _ Hn1 Hd) as Hge.
  destruct (Z.leb_spec (2 ^ 64) (n * 10 + (code c - 48))); [lia|].
  apply IH; assumption.
Qed.

Lemma formatBits_digits fuel :
  forall u acc,
    0 <= u < 10 ^ Z.of_nat (S fuel) ->
    exists ds,
      formatBits (S fuel) u acc = ds ++ acc /\ ds <> [] /\ forallb isDigit ds = true /\
      forall n, digitsValue n ds = n * 10 ^ Z.of_nat (length ds) + u.
Proof.
  assert (Hsmall : forall fuel u acc, 0 <= u < 10 ->
            exists ds,
              formatBits (S fuel) u acc = ds ++ acc /\ ds <> [] /\
              forallb isDigit ds = true /\
              forall n, digitsValue n ds = n * 10 ^ Z.of_nat (length ds) + u).
  { intros fuel' u acc Hu. cbn [formatBits]. change (code "0"%char) with 48.
    destruct (Z.ltb_spec u 10) as [Hlt|Hge]; [|lia].
    exists [chr (48 + u)]. split; [reflexivity|]. split; [discriminate|].
    assert (Hc : code (chr (48 + u)) = 48 + u) by (apply code_chr; lia).
    split.
    - cbn. rewrite andb_true_r. apply isDigit_spec. lia.
    - intros n. rewrite digitsValue_cons, Hc. cbn. lia. }
  induction fuel as [|fuel IH]; intros u acc Hu.
  - apply Hsmall. cbn in Hu. lia.
  - destruct (Z.ltb_spec u 10) as [Hlt|Hge]; [apply Hsmall; lia|].
    cbn [formatBits]. change (code "0"%char) with 48.
    destruct (Z.ltb_spec u 10) as [Hlt'|_]; [lia|].
    assert (Hu' : 0 <= u / 10 < 10 ^ Z.of_nat (S fuel)).
    { rewrite (Nat2Z.inj_succ (S fuel)), Z.pow_succ_r in Hu by lia.
      split; [apply Z.div_pos; lia|]. apply Z.div_lt_upper_bound; lia. }
    destruct (IH (u / 10) (chr (48 + u mod 10) :: acc) Hu') as (ds & Hf & Hne & Hd & Hval).
    cbn [formatBits] in Hf. change (code "0"%char) with 48 in Hf. rewrite Hf.
    exists (ds ++ [chr (48 + u mod 10)]).
    assert (Hm : 0 <= u mod 10 < 10) by (apply Z.mod_pos_bound; lia).
    assert (Hc : code (chr (48 + u mod 10)) = 48 + u mod 10) by (apply code_chr; lia).
    split; [now rewrite <- app_assoc|]. split; [now destruct ds|].
    split.
    + rewrite forallb_app, Hd. cbn. rewrite andb_true_r. apply isDigit_spec. lia.
    + intros n. unfold digitsValue at 1. rewrite fold_left_app. fold (digitsValue n ds).
      cbn [fold_left]. change (code "0"%char) with 48.
      rewrite Hval, Hc, length_app. cbn [length].
      rewrite Nat2Z.inj_add, Z.pow_add_r by lia. change (10 ^ Z.of_nat 1) with 10.
      pose proof (Z.div_mod u 10 ltac:(lia)). lia.
Qed.

(** The decimal form of a 64-bit number: digits that read back to it. *)
Lemma FormatUint_digits u :
  0 <= u < 2 ^ 64 ->
  FormatUint u <> [] /\ forallb isDigit (FormatUint u) = true /\
  ParseUint (FormatUint u) = Ok u.
Proof.
  intros Hu. unfold FormatUint.
  destruct (formatBits_digits 19 u [] ltac:(cbn; lia)) as (ds & Hf & Hne & Hd & Hval).
  rewrite app_nil_r in Hf. rewrite Hf. split; [assumption|]. split; [assumption|].
  unfold ParseUint. destruct ds as [|c ds]; [contradiction|].
  rewrite ParseUint_loop_digits; rewrite ?Hval; try (f_equal; lia); try lia; assumption.
Qed.

Lemma FormatInt_nonneg i :
  0 <= i < 2 ^ 63 ->
  FormatInt i = FormatUint i /\ ParseInt (FormatInt i) = Ok i.
Proof.
  intros Hi. unfold FormatInt. destruct (Z.ltb_spec i 0); [lia|].
  fold (FormatUint i). split; [reflexivity|].
  destruct (FormatUint_digits i ltac:(lia)) as (Hne & Hd & Hp).
  unfold ParseInt. destruct (FormatUint i) as [|c ds] eqn:E; [contradiction|].
  cbn in Hd. apply andb_true_iff in Hd as [Hc _]. apply isDigit_spec in Hc.
  rewrite !char_eqb_code. change (code "-"%char) with 45. change (code "+"%char) with 43.
  destruct (Z.eqb_spec (code c) 45); [lia|]. destruct (Z.eqb_spec (code c) 43); [lia|].
  cbn [orb negb andb]. rewrite Hp.
  destruct (Z.leb_spec (2 ^ 63) i); [lia|]. reflexivity.
Qed.

(** ** Atoms: their text, how it is read, how it is assigned *)

Lemma isDigit_facts c :
  isDigit c = true ->
  solid c = true /\ plain c = true /\ (c == SQUOTE) = false /\ (c == DQUOTE) = false /\
  (c == " "%char) = false /\ (c == "."%char) = false.
Proof. each_byte c; intros H; try discriminate H; repeat split; reflexivity. Qed.

Lemma isNameCharOrDigit_plain c : isNameCharOrDigit c = true -> plain c = true.
Proof. each_byte c; intros H; try discriminate H; reflexivity. Qed.

Lemma isDigit_plain c : isDigit c = true -> plain c = true.
Proof. intros H. now apply isDigit_facts in H. Qed.

Lemma TrimSpace_start_solid c s : solid c = true -> TrimSpace_start (c :: s) = (c :: s, false).
Proof.
  unfold solid, RuneSelf. intros H. apply andb_true_iff in H as [H1 H2].
  apply Z.ltb_lt in H1. apply negb_true_iff in H2. cbn [TrimSpace_start].
  unfold RuneSelf. destruct (Z.leb_spec 128 (code c)); [lia|]. now rewrite H2.
Qed.

(** A text that starts and ends with a solid byte is not trimmed. *)
Lemma TrimSpace_solid s c s' c' r :
  s = c :: s' -> rev s = c' :: r -> solid c = true -> solid c' = true -> TrimSpace s = s.
Proof.
  intros Hs Hr Hc Hc'. unfold TrimSpace. rewrite Hs at 1.
  rewrite (TrimSpace_start_solid _ _ Hc). rewrite <- Hs, Hr.
  rewrite (TrimSpace_start_solid _ _ Hc'). rewrite <- Hr. apply rev_involutive.
Qed.

Lemma TrimSpace_digits ds :
  ds <> [] -> forallb isDigit ds = true -> TrimSpace ds = ds.
Proof.
  intros Hne Hd. destruct ds as [|c ds'] eqn:E; [contradiction|]. rewrite <- E in *.
  assert (Hrev : forallb isDigit (rev ds) = true).
  { rewrite forallb_forall in *. intros x Hx. apply Hd. now apply in_rev. }
  destruct (rev ds) as [|c' r] eqn:Er.
  { apply (f_equal (@length _)) in Er. rewrite length_rev, E in Er. discriminate. }
  rewrite E in Hd. cbn in Hd, Hrev.
  apply andb_true_iff in Hd as [Hc _]. apply andb_true_iff in Hrev as [Hc' _].
  eapply TrimSpace_solid; eauto; now apply isDigit_facts.
Qed.

(** A run of digits in front of a newline is one value. *)
Lemma value_digits fuel d pre ds post :
  ds <> [] -> forallb isDigit ds = true ->
  at_ d pre (ds ++ LF :: post) ->
  (length ds + 2 < fuel)%nat ->
  exists d', Decoder.value fuel d = (Ok ds, d') /\ at_ d' (pre ++ ds) (LF :: post).
Proof.
  intros Hne Hd Hat Hfuel. destruct fuel as [|[|fuel]]; try lia.
  destruct ds as [|c ds'] eqn:E; [contradiction|]. rewrite <- E in *.
  assert (Hc : isDigit c = true) by (rewrite E in Hd; cbn in Hd; now apply andb_true_iff in Hd).
  destruct (isDigit_facts _ Hc) as (_ & _ & Hsq & Hdq & Hsp & _).
  assert (Hpeek : scanner.peek d = c) by (rewrite E in Hat; exact (at_peek _ _ _ _ Hat)).
  destruct (takeWhile_run isDigit isDigit_plain ds (S fuel) d pre (LF :: post) Hat Hd eq_refl)
    as (d1 & Htw & Hat1); [lia|].
  exists d1. split; [|assumption].
  eapply value_single; [now rewrite Hpeek| |exact Hat1|repeat split].
  unfold Decoder.literal, bind, get, call, ret. rewrite Hpeek, Hsq, Hdq, Hc, Htw.
  rewrite consume_miss by (now rewrite (at_peek _ _ _ _ Hat1)). reflexivity.
Qed.

(** A bare word in front of a newline is one value. *)
Lemma value_word fuel d pre c w post :
  isNameChar c = true -> forallb isNameCharOrDigit (c :: w) = true ->
  at_ d pre ((c :: w) ++ LF :: post) ->
  (length (c :: w) + 2 < fuel)%nat ->
  exists d', Decoder.value fuel d = (Ok (c :: w), d') /\ at_ d' (pre ++ c :: w) (LF :: post).
Proof.
  intros Hc Hw Hat Hfuel. destruct fuel as [|[|fuel]]; try (cbn in Hfuel; lia).
  assert (Hpeek : scanner.peek d = c) by exact (at_peek _ _ _ _ Hat).
  destruct (takeWhile_run isNameCharOrDigit isNameCharOrDigit_plain (c :: w) (S fuel) d pre
              (LF :: post) Hat Hw eq_refl) as (d1 & Htw & Hat1); [cbn in *; lia|].
  exists d1. split; [|assumption].
  eapply value_single; [rewrite Hpeek; now apply isNameChar_not_space| |exact Hat1|repeat split].
  unfold Decoder.literal, bind, get. rewrite Hpeek.
  assert (Hq : (c == SQUOTE) = false /\ (c == DQUOTE) = false /\ isDigit c = false).
  { clear -Hc. each_byte c; try discriminate Hc; repeat split; reflexivity. }
  destruct Hq as (-> & -> & ->). now rewrite Hc.
Qed.

(** A quoted text in front of a newline is one value. *)
Lemma value_quoted fuel d pre s post :
  ValidString s = true -> quotable s = true ->
  at_ d pre (quoteString s ++ LF :: post) ->
  (length s + 2 < fuel)%nat ->
  exists d', Decoder.value fuel d = (Ok s, d') /\ at_ d' (pre ++ quoteString s) (LF :: post).
Proof.
  intros Hv Hq Hat Hfuel. rewrite (quoteString_valid s Hv) in *.
  destruct fuel as [|[|fuel]]; try lia.
  cbn [app] in Hat. rewrite <- app_assoc in Hat. cbn [app] in Hat.
  destruct (literal_quoted (S fuel) d pre s (LF :: post) Hq Hat ltac:(lia)) as (d1 & Hl & Hat1).
  exists d1. split; [|exact Hat1].
  eapply value_single; [now rewrite (at_peek _ _ _ _ Hat)|exact Hl|exact Hat1|repeat split].
Qed.

Lemma atomText_length_raw y : atomOK y = true -> (length (atomRaw y) <= length (atomText y))%nat.
Proof.
  destruct y; try discriminate; cbn [atomRaw atomText atomOK]; try lia. intros H.
  apply andb_true_iff in H as [H _]. apply andb_true_iff in H as [Hv _].
  rewrite (quoteString_valid s Hv). cbn [length]. rewrite length_app. cbn [length].
  assert (length s <= length (flat_map quoteByte s))%nat; [|lia].
  clear. induction s as [|c s IH]; cbn; [lia|]. rewrite length_app.
  assert (1 <= length (quoteByte c))%nat; [|lia].
  unfold quoteByte. repeat match goal with |- context [if ?b then _ else _] => destruct b end;
    try destruct (hex_Encode c); cbn; lia.
Qed.

Lemma atomOK_int k i :
  (0 <=? i) && (i <? 2 ^ (reflect.intBits k - 1)) = true -> 0 <= i < 2 ^ 63 /\ wrapInt k i = i.
Proof.
  intros H. apply andb_true_iff in H as [H0 H1]. apply Z.leb_le in H0. apply Z.ltb_lt in H1.
  unfold wrapInt.
  destruct k; cbv [reflect.intBits] in *; cbv zeta;
    [change (64 - 1) with 63 in H1 | change (8 - 1) with 7 in H1
    |change (16 - 1) with 15 in H1 | change (32 - 1) with 31 in H1
    |change (64 - 1) with 63 in H1];
    (split; [lia|]); Z.div_mod_to_equations; lia.
Qed.

Lemma atomOK_uint k u :
  (0 <=? u) && (u <? 2 ^ reflect.uintBits k) = true -> 0 <= u < 2 ^ 64 /\ wrapUint k u = u.
Proof.
  intros H. apply andb_true_iff in H as [H0 H1]. apply Z.leb_le in H0. apply Z.ltb_lt in H1.
  unfold wrapUint.
  destruct k; cbv [reflect.uintBits] in *; (split; [lia|]); Z.div_mod_to_equations; lia.
Qed.

(** The text of a supported leaf, in front of a newline, is read by [value]
    as the raw text of the leaf. *)
Lemma value_atom fuel d pre y post :
  atomOK y = true ->
  at_ d pre (atomText y ++ LF :: post) ->
  (length (atomText y) + 2 < fuel)%nat ->
  exists d', Decoder.value fuel d = (Ok (atomRaw y), d') /\
             at_ d' (pre ++ atomText y) (LF :: post).
Proof.
  intros Hok Hat Hfuel. pose proof (atomText_length_raw y Hok) as Hlen.
  destruct y; try discriminate Hok; cbn [atomText atomRaw] in *.
  - destruct b; cbn [FormatBool] in *.
    + eapply (value_word fuel d pre "t"%char (bs "rue")); eauto.
    + eapply (value_word fuel d pre "f"%char (bs "alse")); eauto.
  - destruct (atomOK_int _ _ Hok) as [Hi _].
    destruct (FormatInt_nonneg i Hi) as [Hf _]. rewrite Hf in *.
    destruct (FormatUint_digits i ltac:(lia)) as (Hne & Hd & _).
    eapply value_digits; eauto.
  - destruct (atomOK_uint _ _ Hok) as [Hu _].
    destruct (FormatUint_digits u Hu) as (Hne & Hd & _).
    eapply value_digits; eauto.
  - apply andb_true_iff in Hok as [Hok _]. apply andb_true_iff in Hok as [Hv Hq].
    eapply value_quoted; eauto. lia.
Qed.

Lemma TrimSpace_atomRaw y : atomOK y = true -> TrimSpace (atomRaw y) = atomRaw y.
Proof.
  intros Hok. destruct y; try discriminate Hok; cbn [atomText atomRaw] in *.
  - destruct b; reflexivity.
  - destruct (atomOK_int _ _ Hok) as [Hi _].
    destruct (FormatInt_nonneg i Hi) as [Hf _]. rewrite Hf.
    destruct (FormatUint_digits i ltac:(lia)) as (Hne & Hd & _).
    now apply TrimSpace_digits.
  - destruct (atomOK_uint _ _ Hok) as [Hu _].
    destruct (FormatUint_digits u Hu) as (Hne & Hd & _).
    now apply TrimSpace_digits.
  - apply andb_true_iff in Hok as [_ Ht]. now apply bytes_eqb_eq in Ht.
Qed.



(** What [encode] gives for a leaf, when no type implements a hook. *)
Lemma encode_atom {runtime : Runtime} y h :
  atomOK y = true ->
  encode (methods := noMethods) y h = Ok (Some (atomText y), None).
Proof.
  intros Hok. unfold encode, throughInterface.
  destruct y; try discriminate Hok; cbn; now rewrite andb_false_r.
Qed.

(** ** Locations in memory *)

(** The cases of a step into a value, and the equation of the parts that a
    step leads to. *)
Ltac each_step st v :=
  destruct st, v as [| | | | | |? ? [?|] ?| |? ? ? [?|]|? ? [?|]|? [?|]|].

Ltac inside_list tac :=
  apply list_alter_ext; [intros; cbn; first [tac | f_equal; tac]|reflexivity].

Ltac inside tac :=
  first [ tac | inside_list tac
        | f_equal; first [tac | inside_list tac | f_equal; first [tac | inside_list tac]] ].

Lemma load_app p q : forall v,
  reflect.load v (p ++ q)
  = match reflect.load v p with Some x => reflect.load x q | None => None end.
Proof.
  induction p as [|st p IH]; intros v; [reflexivity|].
  cbn [app reflect.load]. destruct (reflect.step v st); [apply IH|reflexivity].
Qed.

Lemma modify_app p q f : forall v,
  reflect.modify v (p ++ q) f = reflect.modify v p (fun x => reflect.modify x q f).
Proof.
  induction p as [|st p IH]; intros v; [reflexivity|].
  cbn [app reflect.modify]. each_step st v; try reflexivity; inside ltac:(apply IH).
Qed.

Lemma modify_ext p : forall v f g,
  (forall x, reflect.load v p = Some x -> f x = g x) ->
  reflect.modify v p f = reflect.modify v p g.
Proof.
  induction p as [|st p IH]; intros v f g H; [now apply H|].
  cbn [reflect.modify]. cbn [reflect.load] in H.
  each_step st v; try reflexivity; cbn [reflect.step] in H;
    inside ltac:(apply IH; intros;
                 match goal with
                 | Hy : _ !! _ = Some _ |- _ => rewrite Hy in H
                 | _ => idtac
                 end; now apply H).
Qed.

Lemma modify_id p : forall v, reflect.modify v p (fun x => x) = v.
Proof.
  induction p as [|st p IH]; intros v; [reflexivity|].
  cbn [reflect.modify].
  each_step st v; try reflexivity;
    repeat f_equal; try apply IH;
    apply list_alter_id; intros y; rewrite IH; now destruct y.
Qed.

(** Writing what is there changes nothing. *)
Lemma modify_same p v x :
  reflect.load v p = Some x -> reflect.modify v p (fun _ => x) = v.
Proof.
  intros H. rewrite <- (modify_id p v) at 2. apply modify_ext. congruence.
Qed.

Lemma modify_modify p : forall v f g,
  reflect.modify (reflect.modify v p f) p g = reflect.modify v p (fun x => g (f x)).
Proof.
  induction p as [|st p IH]; intros v f g; [reflexivity|].
  cbn [reflect.modify].
  each_step st v; try reflexivity; cbn [reflect.modify];
    rewrite ?list_alter_alter_eq; inside ltac:(apply IH).
Qed.

Lemma load_modify p : forall v f x,
  reflect.load v p = Some x -> reflect.load (reflect.modify v p f) p = Some (f x).
Proof.
  induction p as [|st p IH]; intros v f x H; [cbn in *; congruence|].
  cbn [reflect.modify reflect.load] in *.
  each_step st v; try discriminate H; cbn [reflect.step] in *;
    try (now apply IH);
    rewrite list_lookup_alter_eq;
    match type of H with
    | context [?l !! ?i] => destruct (l !! i) as [y|]; [|discriminate H]
    end; cbn in *; now apply IH.
Qed.

(** ** Bare texts: the elements of a sequence *)

Lemma isDigit_isNameCharOrDigit c : isDigit c = true -> isNameCharOrDigit c = true.
Proof. each_byte c; intros H; try discriminate H; reflexivity. Qed.

Lemma isNameCharOrDigit_facts c :
  isNameCharOrDigit c = true ->
  solid c = true /\ (c == ","%char) = false /\ (c == SQUOTE) = false /\
  (c == DQUOTE) = false /\ (c == " "%char) = false.
Proof. each_byte c; intros H; try discriminate H; repeat split; reflexivity. Qed.

Lemma isNameChar_not_digit c : isNameChar c = true -> isDigit c = false.
Proof. each_byte c; intros H; try discriminate H; reflexivity. Qed.

Lemma isNameChar_isNameCharOrDigit c : isNameChar c = true -> isNameCharOrDigit c = true.
Proof. each_byte c; intros H; try discriminate H; reflexivity. Qed.

Lemma bareText_inv t :
  bareText t = true ->
  exists c w, t = c :: w /\ forallb isNameCharOrDigit t = true /\
    ((isDigit c = true /\ forallb isDigit t = true) \/ isNameChar c = true).
Proof.
  destruct t as [|c w]; [discriminate|]. unfold bareText. intros H. exists c, w.
  split; [reflexivity|]. apply orb_true_iff in H as [H|H]; apply andb_true_iff in H as [Hc Hw].
  - split; [|left; auto]. rewrite forallb_forall in *. intros x Hx.
    apply isDigit_isNameCharOrDigit. now apply Hw.
  - split; [assumption|right; assumption].
Qed.

Lemma skipSpaces_pos fuel d :
  (0 < fuel)%nat -> (scanner.peek d == " "%char) = false ->
  Decoder.skipSpaces fuel d = (Ok tt, d).
Proof. destruct fuel; [lia|]. intros _. apply skipSpaces_no_space. Qed.

(** [literal] reads a bare text that a comma or a newline follows. *)
Lemma literal_bare fuel d pre t c post :
  bareText t = true ->
  at_ d pre (t ++ c :: post) ->
  isNameCharOrDigit c = false -> (c == "."%char) = false ->
  (length t < fuel)%nat ->
  exists d', Decoder.literal fuel d = (Ok t, d') /\ at_ d' (pre ++ t) (c :: post).
Proof.
  intros Hb Hat Hc Hdot Hfuel.
  destruct (bareText_inv _ Hb) as (c0 & w & -> & Hall & Hkind).
  assert (Hpeek : scanner.peek d = c0) by exact (at_peek _ _ _ _ Hat).
  assert (H0 : isNameCharOrDigit c0 = true)
    by (cbn [forallb] in Hall; now apply andb_true_iff in Hall).
  destruct (isNameCharOrDigit_facts _ H0) as (_ & _ & Hsq & Hdq & _).
  unfold Decoder.literal, bind, get, call, ret. rewrite Hpeek, Hsq, Hdq.
  destruct Hkind as [[Hd Hds]|Hn].
  - assert (Hcd : isDigit c = false).
    { destruct (isDigit c) eqn:E; [|reflexivity].
      apply isDigit_isNameCharOrDigit in E. congruence. }
    destruct (takeWhile_run isDigit isDigit_plain (c0 :: w) fuel d pre (c :: post)
                Hat Hds Hcd Hfuel) as (d1 & Htw & Hat1).
    exists d1. split; [|exact Hat1]. rewrite Hd, Htw.
    rewrite consume_miss by (now rewrite (at_peek _ _ _ _ Hat1)). reflexivity.
  - destruct (takeWhile_run isNameCharOrDigit isNameCharOrDigit_plain (c0 :: w) fuel d pre
                (c :: post) Hat Hall Hc Hfuel) as (d1 & Htw & Hat1).
    exists d1. split; [|exact Hat1].
    now rewrite (isNameChar_not_digit _ Hn), Hn.
Qed.

Lemma joinComma_cons t texts :
  texts <> [] -> joinComma (t :: texts) = t ++ ","%char :: joinComma texts.
Proof. destruct texts; [contradiction|reflexivity]. Qed.


Lemma joinComma_nonempty t texts : bareText t = true -> joinComma (t :: texts) <> [].
Proof.
  intros Ht. destruct (bareText_inv _ Ht) as (c & w & -> & _).
  destruct texts; [discriminate|]. rewrite joinComma_cons by discriminate. discriminate.
Qed.

(** [value] reads the bare texts of a sequence, joined by commas, as one
    value. *)
Lemma value_joined texts : forall fuel d pre post,
  texts <> [] -> forallb bareText texts = true ->
  at_ d pre (joinComma texts ++ LF :: post) ->
  (length (joinComma texts) + 2 < fuel)%nat ->
  exists d', Decoder.value fuel d = (Ok (joinComma texts), d') /\
             at_ d' (pre ++ joinComma texts) (LF :: post).
Proof.
  induction texts as [|t texts IH]; intros fuel d pre post Hne Hall Hat Hfuel;
    [contradiction|].
  cbn [forallb] in Hall. apply andb_true_iff in Hall as [Ht Hts].
  destruct (bareText_inv _ Ht) as (c0 & w & Et & Hchars & _).
  assert (H0 : (c0 == " "%char) = false).
  { rewrite Et in Hchars. cbn [forallb] in Hchars. apply andb_true_iff in Hchars as [H0 _].
    now apply isNameCharOrDigit_facts in H0. }
  destruct fuel as [|[|fuel]]; try lia.
  destruct texts as [|t2 texts].
  - cbn [joinComma] in *.
    destruct (literal_bare (S fuel) d pre t LF post Ht Hat eq_refl eq_refl ltac:(lia))
      as (d1 & Hl & Hat1).
    exists d1. split; [|exact Hat1].
    eapply value_single; [|exact Hl|exact Hat1|repeat split].
    rewrite Et in Hat. now rewrite (at_peek _ _ _ _ Hat).
  - rewrite joinComma_cons in * by discriminate.
    set (rest := joinComma (t2 :: texts)) in *.
    remember (S fuel) as n eqn:En.
    assert (Hat0 : at_ d pre (t ++ ","%char :: rest ++ LF :: post)).
    { destruct Hat as [Hb Hp]. split; [|exact Hp]. rewrite Hb, <- app_assoc. reflexivity. }
    rewrite length_app in Hfuel. cbn [length] in Hfuel.
    destruct (literal_bare n d pre t ","%char _ Ht Hat0 eq_refl eq_refl ltac:(lia))
      as (d1 & Hl & Hat1).
    destruct (consume_hit _ _ _ _ Hat1 eq_refl) as (d2 & Hc & Hat2).
    destruct (IH n d2 _ post ltac:(discriminate) Hts Hat2 ltac:(lia))
      as (d3 & Hv & Hat3).
    exists d3. split.
    + assert (Hn : (0 < n)%nat) by lia.
      cbn [Decoder.value]. unfold bind at 1.
      rewrite (skipSpaces_pos n d Hn)
        by (rewrite Et in Hat0; now rewrite (at_peek _ _ _ _ Hat0)).
      unfold bind at 1. rewrite Hl.
      unfold bind at 1.
      rewrite (skipSpaces_pos n d1 Hn) by (now rewrite (at_peek _ _ _ _ Hat1)).
      unfold bind at 1. unfold call at 1. rewrite Hc.
      unfold bind at 1. rewrite Hv.
      unfold bind, call, ret.
      rewrite consume_miss by (now rewrite (at_peek _ _ _ _ Hat3)). reflexivity.
    + destruct Hat3 as [Hb Hp]. split.
      * rewrite Hb. rewrite <- !app_assoc. reflexivity.
      * rewrite Hp. rewrite <- !app_assoc. reflexivity.
Qed.

Lemma TrimSpace_all_solid s :
  s <> [] -> forallb solid s = true -> TrimSpace s = s.
Proof.
  intros Hne Hd. destruct s as [|c s'] eqn:E; [contradiction|]. rewrite <- E in *.
  assert (Hrev : forallb solid (rev s) = true).
  { rewrite forallb_forall in *. intros x Hx. apply Hd. now apply in_rev. }
  destruct (rev s) as [|c' r] eqn:Er.
  { apply (f_equal (@length _)) in Er. rewrite length_rev, E in Er. discriminate. }
  rewrite E in Hd. cbn [forallb] in Hd, Hrev.
  apply andb_true_iff in Hd as [Hc _]. apply andb_true_iff in Hrev as [Hc' _].
  eapply TrimSpace_solid; eauto.
Qed.

Lemma TrimSpace_bare t : bareText t = true -> TrimSpace t = t.
Proof.
  intros Ht. destruct (bareText_inv _ Ht) as (c & w & E & Hall & _).
  apply TrimSpace_all_solid; [rewrite E; discriminate|].
  rewrite forallb_forall in *. intros x Hx. now apply isNameCharOrDigit_facts, Hall.
Qed.


Lemma Split_loop_app t : forall s cur,
  forallb (fun c => negb (c == ","%char)) t = true ->
  Split_loop (t ++ s) cur = Split_loop s (cur ++ t).
Proof.
  induction t as [|c t IH]; intros s cur H; [now rewrite app_nil_r|].
  cbn [forallb] in H. apply andb_true_iff in H as [Hc Ht]. apply negb_true_iff in Hc.
  cbn [app Split_loop]. rewrite Hc, IH by assumption. now rewrite <- app_assoc.
Qed.

(** [Split] finds the bare texts that [encode] joined. *)
Lemma Split_joined texts :
  texts <> [] -> forallb bareText texts = true -> Split_comma (joinComma texts) = texts.
Proof.
  unfold Split_comma. induction texts as [|t texts IH]; intros Hne Hall; [contradiction|].
  cbn [forallb] in Hall. apply andb_true_iff in Hall as [Ht Hts].
  assert (Hnc : forallb (fun c => negb (c == ","%char)) t = true).
  { destruct (bareText_inv _ Ht) as (c & w & _ & Hchars & _).
    rewrite forallb_forall in *. intros x Hx. apply negb_true_iff.
    now apply isNameCharOrDigit_facts, Hchars. }
  destruct texts as [|t2 texts].
  - cbn [joinComma]. rewrite <- (app_nil_r t) at 1. now rewrite Split_loop_app.
  - rewrite joinComma_cons by discriminate. rewrite Split_loop_app by assumption.
    cbn [Split_loop app]. change (","%char == ","%char) with true. cbv iota.
    now rewrite IH.
Qed.

(** ** The zero value of a type *)



(** ** Leaves that are sequences *)

Lemma elemOK_inv elem x :
  elemOK elem x = true ->
  reflect.typeOf x = elem /\ atomOK x = true /\ atomRaw x = atomText x /\
  bareText (atomText x) = true /\ forall runtime : Runtime, tight x = x.
Proof.
  unfold elemOK. intros H. apply andb_true_iff in H as [Ht Hok].
  destruct elem, x; try discriminate Ht; cbn [sameScalarType reflect.typeOf] in Ht.
  - apply bytes_eqb_eq in Ht. subst. repeat split; try assumption. now destruct b.
  - apply andb_true_iff in Ht as [Hn Hk]. apply bytes_eqb_eq in Hn. subst.
    assert (k = k0) by (destruct k, k0; try discriminate Hk; reflexivity). subst.
    repeat split; try assumption. cbn [atomText].
    destruct (atomOK_int _ _ Hok) as [Hi _]. destruct (FormatInt_nonneg i Hi) as [-> _].
    destruct (FormatUint_digits i ltac:(lia)) as (Hne & Hd & _).
    destruct (FormatUint i) as [|c ds]; [contradiction|].
    unfold bareText. rewrite Hd. cbn [forallb] in Hd. apply andb_true_iff in Hd as [-> _].
    reflexivity.
  - apply andb_true_iff in Ht as [Hn Hk]. apply bytes_eqb_eq in Hn. subst.
    assert (k = k0) by (destruct k, k0; try discriminate Hk; reflexivity). subst.
    repeat split; try assumption. cbn [atomText].
    destruct (atomOK_uint _ _ Hok) as [Hu _].
    destruct (FormatUint_digits u Hu) as (Hne & Hd & _).
    destruct (FormatUint u) as [|c ds]; [contradiction|].
    unfold bareText. rewrite Hd. cbn [forallb] in Hd. apply andb_true_iff in Hd as [-> _].
    reflexivity.
Qed.

Lemma elems_bare elem l :
  forallb (elemOK elem) l = true -> forallb bareText (map atomText l) = true.
Proof.
  induction l as [|x l IH]; [reflexivity|]. cbn [forallb map]. intros H.
  apply andb_true_iff in H as [Hx Hl]. rewrite IH by assumption.
  destruct (elemOK_inv _ _ Hx) as (_ & _ & _ & -> & _). reflexivity.
Qed.


(** The cases of a leaf. *)
Lemma leafOK_cases y :
  leafOK y = true ->
  atomOK y = true \/
  (exists tn elem l, y = reflect.VArray tn elem l /\ forallb (elemOK elem) l = true) \/
  (exists tn elem l cap, y = reflect.VSlice tn elem (Some l) cap /\ l <> [] /\
                         forallb (elemOK elem) l = true) \/
  (exists tn elem cap, y = reflect.VSlice tn elem None cap).
Proof.
  destruct y; cbn [leafOK]; try (now left); intros H.
  - right. left. eauto.
  - destruct l as [l|]; [|right; right; right; eauto].
    right. right. left. destruct l; [discriminate|]. eauto 10.
Qed.

Section SequenceCodec.
Context {runtime : Runtime}.
Existing Instance noMethods.

Lemma encodeElements_atoms elem h ofSlice l :
  forallb (elemOK elem) l = true ->
  forall i buf,
    encodeElements (throughInterface encodeValue) h ofSlice i l buf
    = Ok (Some (match l with
                | [] => buf
                | _ => buf ++ (if (0 <? i)%nat then [","%char] else [])
                           ++ joinComma (map atomText l)
                end), None).
Proof.
  induction l as [|x l IH]; intros Hall i buf; [reflexivity|].
  cbn [forallb] in Hall. apply andb_true_iff in Hall as [Hx Hl].
  destruct (elemOK_inv _ _ Hx) as (_ & Hok & _).
  cbn [encodeElements].
  change (throughInterface encodeValue x (handleIndex h ofSlice i x))
    with (encode x (handleIndex h ofSlice i x)).
  rewrite encode_atom by assumption. cbn [default]. rewrite IH by assumption.
  destruct l as [|x2 l]; cbn [map].
  - cbn [joinComma]. destruct (0 <? i)%nat; now rewrite <- ?app_assoc.
  - rewrite (joinComma_cons (atomText x)) by discriminate.
    change (0 <? S i)%nat with true. cbv iota.
    destruct (0 <? i)%nat; repeat (rewrite <- app_assoc; cbn [app]); reflexivity.
Qed.

(** What [encode] gives for a leaf, when no type implements a hook. *)
Lemma encode_leaf y h :
  leafOK y = true -> encode y h = Ok (Some (leafText y), None).
Proof.
  intros Hok.
  destruct (leafOK_cases _ Hok)
    as [Ha|[(tn & elem & l & -> & Hl)|[(tn & elem & l & cap & -> & Hne & Hl)
                                      |(tn & elem & cap & ->)]]].
  - rewrite encode_atom by assumption. destruct y; try discriminate Ha; reflexivity.
  - unfold encode, throughInterface. cbn [encodeValue reflect.typeOf MarshalText noMethods
      MarshalINI]. rewrite andb_false_r. cbv iota zeta.
    rewrite (encodeElements_atoms elem) by assumption.
    destruct l; reflexivity.
  - unfold encode, throughInterface. cbn [encodeValue reflect.typeOf MarshalText noMethods
      MarshalINI]. rewrite andb_false_r. cbv iota zeta.
    rewrite (encodeElements_atoms elem) by assumption.
    destruct l; [contradiction|reflexivity].
  - unfold encode, throughInterface. cbn [encodeValue reflect.typeOf MarshalText noMethods
      MarshalINI]. now rewrite andb_false_r.
Qed.

End SequenceCodec.
Lemma leafText_seq y :
  match y with reflect.VArray _ _ _ | reflect.VSlice _ _ _ _ => True | _ => False end ->
  leafText y = joinComma (map atomText (elements y)) /\ leafRaw y = leafText y.
Proof. destruct y; try contradiction; intros _; split; reflexivity. Qed.

(** An empty value in front of a newline. *)
Lemma value_empty fuel d pre post :
  at_ d pre (LF :: post) ->
  exists d', Decoder.value (S (S fuel)) d = (Ok [], d') /\ at_ d' (pre ++ []) (LF :: post).
Proof.
  intros Hat. exists d. split; [|now rewrite app_nil_r].
  eapply value_single; [now rewrite (at_peek _ _ _ _ Hat)| |exact Hat|repeat split].
  unfold Decoder.literal, bind, get. now rewrite (at_peek _ _ _ _ Hat).
Qed.

(** [value] reads the text of a leaf in front of a newline. *)
Lemma value_leaf fuel d pre y post :
  leafOK y = true ->
  at_ d pre (leafText y ++ LF :: post) ->
  (length (leafText y) + 2 < fuel)%nat ->
  exists d', Decoder.value fuel d = (Ok (leafRaw y), d') /\
             at_ d' (pre ++ leafText y) (LF :: post).
Proof.
  intros Hok Hat Hfuel.
  assert (Hseq : forall l,
    leafText y = joinComma (map atomText l) -> leafRaw y = leafText y ->
    (exists elem, forallb (elemOK elem) l = true) ->
    exists d', Decoder.value fuel d = (Ok (leafRaw y), d') /\
               at_ d' (pre ++ leafText y) (LF :: post)).
  { intros l Ht Hr [elem Hl]. rewrite Hr, Ht in *. destruct l as [|x l].
    - destruct fuel as [|[|fuel]]; try lia. now apply value_empty.
    - apply value_joined; try assumption; [discriminate|]. now apply (elems_bare elem). }
  destruct (leafOK_cases _ Hok)
    as [Ha|[(tn & elem & l & -> & Hl)|[(tn & elem & l & cap & -> & Hne & Hl)
                                      |(tn & elem & cap & ->)]]].
  - assert (leafText y = atomText y /\ leafRaw y = atomRaw y) as [Ht Hr]
      by (destruct y; try discriminate Ha; split; reflexivity).
    rewrite Ht, Hr in *. now apply value_atom.
  - apply (Hseq l); eauto.
  - apply (Hseq l); eauto.
  - apply (Hseq []); [reflexivity|reflexivity|]. exists elem. reflexivity.
Qed.


Section SequenceAssign.
Context {runtime : Runtime}.




End SequenceAssign.






Lemma tight_type {runtime : Runtime} y : reflect.typeOf (tight y) = reflect.typeOf y.
Proof. destruct y as [| | | | | |? ? [?|] ?| | | | |]; reflexivity. Qed.

(** ** The walker on a supported record *)






Lemma memberFlags_Some t m x fl :
  memberFlags t m x = Some fl ->
  reflect.IsExported (reflect.fieldOf m x) = true /\
  exists fl0,
    parseTag t (reflect.fieldOf m x) = (fl0, None) /\
    bytes_eqb (key fl0) (bs "-") = false /\
    fl = match key fl0 with [] => set_key fl0 (reflect.Name (reflect.fieldOf m x)) | _ => fl0 end.
Proof.
  unfold memberFlags. destruct (reflect.IsExported _); [|discriminate].
  destruct (parseTag _ _) as [fl0 [e|]]; [discriminate|].
  destruct (bytes_eqb (key fl0) (bs "-")) eqn:E; [discriminate|].
  intros [= <-]. eauto.
Qed.

Section WalkSupported.
Context {runtime : Runtime}.
Existing Instance noMethods.

Lemma fieldsOf_leaf y h st f fl :
  leafOK y = true ->
  fieldsOf y h st f fl = Ok ([Field.mk (key fl) h (omitempty fl) (commented fl)], None).
Proof.
  intros Hok. destruct y; try discriminate Hok; try destruct k; cbn;
    destruct (canAddr h); reflexivity.
Qed.

Lemma leafOK_not_indirect y :
  leafOK y = true ->
  match y with reflect.VPointer _ _ _ | reflect.VInterface _ _ => False | _ => True end.
Proof. destruct y; try discriminate; intros; exact I. Qed.

(** One level down: the leaves of a section become its fields. *)
Lemma walk_fields t st a i leaves :
  forallb (fieldOK t) leaves = true ->
  forall j vals errs,
    walkStructFields_loop t (reflect.At [reflect.SField i] a) (fieldsOf' st) j leaves vals errs
    = Ok (vals ++ map (fun f => [f]) (fieldsTree a t i j leaves), errors_Join errs).
Proof.
  induction leaves as [|[m y] leaves IH]; intros Hall j vals errs.
  - cbn. now rewrite app_nil_r.
  - cbn [forallb] in Hall. apply andb_true_iff in Hall as [Hy Hall].
    unfold fieldOK in Hy. cbn [fst snd] in Hy.
    destruct (memberFlags t m y) as [fl|] eqn:Hfl; [|discriminate].
    apply andb_true_iff in Hy as [Hy Hleaf]. 
    destruct (memberFlags_Some _ _ _ _ Hfl) as (Hex & fl0 & Hp & Hdash & Hfl0).
    cbn [walkStructFields_loop fieldsTree fst snd]. rewrite Hex, Hp, Hdash, Hfl. cbn [negb].
    rewrite <- Hfl0.
    assert (Hcall : match y with
                    | reflect.VPointer _ _ e =>
                        fieldsOf' st e (handleElem (handleField (reflect.At [reflect.SField i] a) j y) true e)
                                  (reflect.fieldOf m y) (set_omitempty fl)
                    | reflect.VInterface _ e =>
                        fieldsOf' st e (handleElem (handleField (reflect.At [reflect.SField i] a) j y) false e)
                                  (reflect.fieldOf m y) fl
                    | _ => fieldsOf' st (Some y) (handleField (reflect.At [reflect.SField i] a) j y)
                                     (reflect.fieldOf m y) fl
                    end
                    = Ok ([Field.mk (key fl) (reflect.At [reflect.SField i; reflect.SField j] a)
                                    (omitempty fl) (commented fl)], None)).
    { destruct y; try discriminate Hleaf; cbn [fieldsOf']; now rewrite fieldsOf_leaf. }
    rewrite Hcall. rewrite IH by assumption.
    rewrite <- app_assoc. reflexivity.
Qed.

Lemma concat_singletons {A} (l : list A) : concat (map (fun f => [f]) l) = l.
Proof. induction l; cbn; congruence. Qed.

Lemma fieldsOf_section tn leaves a i st f fl :
  forallb (fieldOK (reflect.typeOf (reflect.VStruct tn leaves))) leaves = true ->
  inline fl = true ->
  fieldsOf (reflect.VStruct tn leaves) (reflect.At [reflect.SField i] a) st f fl
  = Ok (fieldsTree a (reflect.typeOf (reflect.VStruct tn leaves)) i 0 leaves, None).
Proof.
  intros Hall Hin. cbn [fieldsOf]. cbn [SectionMarshalINI noMethods].
  replace (if canAddr (reflect.At [reflect.SField i] a) then None else None)
    with (@None (GoValue -> reflect.Value -> outcome (Section.t * option error)))
    by (now destruct a).
  change (reflect.Kind_eqb (reflect.Type_Kind (reflect.typeOf (reflect.VStruct tn leaves)))
            reflect.Map) with false.
  change (reflect.Kind_eqb (reflect.Type_Kind (reflect.typeOf (reflect.VStruct tn leaves)))
            reflect.Struct) with true.
  rewrite Hin. cbn [andb].
  unfold walkStructFields.
  change (fun (x : option GoValue) (hx : reflect.Value) (f0 : reflect.StructField) (fl' : flags) =>
            match x with
            | Some x0 => fieldsOf x0 hx (Some (reflect.typeOf (reflect.VStruct tn leaves))) f0 fl'
            | None => typePanic
            end)
    with (fieldsOf' (Some (reflect.typeOf (reflect.VStruct tn leaves)))).
  rewrite (walk_fields _ _ a i leaves Hall). cbn [obind fst snd app errors_Join].
  now rewrite concat_singletons.
Qed.

End WalkSupported.

Section WalkSections.
Context {runtime : Runtime}.
Existing Instance noMethods.

Lemma sectionOK_inv t m x :
  sectionOK t (m, x) = true ->
  exists fl tn leaves,
    memberFlags t m x = Some fl /\ x = reflect.VStruct tn leaves /\
    validName false (key fl) = true /\
    forallb (fieldOK (reflect.typeOf x)) leaves = true /\
    distinct (map (memberKey (reflect.typeOf x)) leaves) = true.
Proof.
  unfold sectionOK. cbn [fst snd].
  destruct (memberFlags t m x) as [fl|]; [|discriminate].
  destruct x; try discriminate. intros H.
  apply andb_true_iff in H as [H Hd]. apply andb_true_iff in H as [Hn Hf].
  eauto 10.
Qed.

(** The top level: the members of the root become the sections. *)
Lemma walk_sections t a sections :
  forallb (sectionOK t) sections = true ->
  forall i vals errs,
    walkStructFields_loop t (reflect.At [] a)
      (fun v hv f fl =>
         let fl := set_inline fl in
         obind (fieldsOf' (Some t) v hv f fl) (sectionOf fl))
      i sections vals errs
    = Ok (vals ++ sectionsTree a t i sections, errors_Join errs).
Proof.
  induction sections as [|[m x] sections IH]; intros Hall i vals errs.
  - cbn. now rewrite app_nil_r.
  - cbn [forallb] in Hall. apply andb_true_iff in Hall as [Hx Hall].
    destruct (sectionOK_inv _ _ _ Hx) as (fl & tn & leaves & Hfl & -> & Hn & Hf & Hd).
    destruct (memberFlags_Some _ _ _ _ Hfl) as (Hex & fl0 & Hp & Hdash & Hfl0).
    cbn [walkStructFields_loop sectionsTree]. rewrite Hex, Hp, Hdash. cbn [negb].
    rewrite <- Hfl0. cbv zeta. cbn [fieldsOf' handleField app].
    rewrite fieldsOf_section by (assumption || reflexivity).
    cbn [obind sectionOf]. rewrite IH by assumption.
    unfold sectionTree. cbn [fst snd members]. rewrite Hfl.
    rewrite <- app_assoc. reflexivity.
Qed.

Lemma SectionsOf_supported tn sections :
  forallb (sectionOK (reflect.typeOf (reflect.VStruct tn sections))) sections = true ->
  SectionsOf (reflect.VStruct tn sections)
  = Ok (sectionsTree false (reflect.typeOf (reflect.VStruct tn sections)) 0 sections, None) /\
  SectionsOf (addressOf (reflect.VStruct tn sections))
  = Ok (sectionsTree true (reflect.typeOf (reflect.VStruct tn sections)) 0 sections, None).
Proof.
  intros Hall. unfold SectionsOf, addressOf, Indirect, sectionsOfStruct, walkStructFields.
  cbn [MarshalINI noMethods]. 
  change (reflect.Kind_eqb (reflect.Type_Kind (reflect.typeOf (reflect.VStruct tn sections)))
            reflect.Map) with false.
  change (reflect.Kind_eqb (reflect.Type_Kind (reflect.typeOf (reflect.VStruct tn sections)))
            reflect.Struct) with true.
  cbv iota. split; now rewrite walk_sections.
Qed.

End WalkSections.

(** ** The zero value of a supported record is supported *)






(** ** The encoder on a supported record *)

Section EncodeSupported.
Context {runtime : Runtime} {W : Type} {writer : Writer W}.
Existing Instance noMethods.

Lemma fields_loop_doc (e : Encoder.t W) mem a t i leaves :
  forallb (fieldOK t) leaves = true ->
  forall j buf,
    (forall k my, leaves !! k = Some my ->
                  reflect.load mem [reflect.SField i; reflect.SField (j + k)] = Some (snd my)) ->
    Encoder.fields_loop e mem buf (fieldsTree a t i j leaves)
    = Ok (buf ++ flat_map (lineOf t) leaves, None).
Proof.
  induction leaves as [|[m y] leaves IH]; intros Hall j buf Hmem.
  - cbn. now rewrite app_nil_r.
  - cbn [forallb] in Hall. apply andb_true_iff in Hall as [Hy Hall].
    pose proof (Hmem 0%nat (m, y) eq_refl) as Hload. rewrite Nat.add_0_r in Hload.
    cbn [snd] in Hload.
    unfold fieldOK in Hy. cbn [fst snd] in Hy.
    cbn [fieldsTree flat_map fst snd]. unfold lineOf at 1. cbn [fst snd].
    destruct (memberFlags t m y) as [fl|]; [|discriminate].
    apply andb_true_iff in Hy as [Hy Hleaf]. apply andb_true_iff in Hy as [_ Hc].
    apply negb_true_iff in Hc.
    cbn [app Encoder.fields_loop]. unfold Encoder.field, Field_MarshalText.
    cbn [Field.Value Field.OmitEmpty Field.Commented Field.Name reflect.resolve].
    rewrite Hload, Hc. cbn [fmap option_fmap option_map].
    rewrite encode_leaf by assumption.
    assert (Hrest : forall buf',
      Encoder.fields_loop e mem buf' (fieldsTree a t i (S j) leaves)
      = Ok (buf' ++ flat_map (lineOf t) leaves, None)).
    { intros buf'. apply IH; [assumption|]. intros k my Hk.
      replace (S j + k)%nat with (j + S k)%nat by lia. now apply Hmem. }
    destruct (omitempty fl), (reflect.IsZero y); cbn; rewrite Hrest;
      rewrite <- ?app_assoc; reflexivity.
Qed.

Lemma sections_loop_doc (e : Encoder.t W) mem a t sections :
  forallb (sectionOK t) sections = true ->
  forall i buf,
    (forall k mx, sections !! k = Some mx ->
                  reflect.load mem [reflect.SField (i + k)] = Some (snd mx)) ->
    Encoder.sections_loop e mem buf (sectionsTree a t i sections)
    = Ok (buf ++ flat_map (sectionText t) sections, None).
Proof.
  induction sections as [|[m x] sections IH]; intros Hall i buf Hmem.
  - cbn. now rewrite app_nil_r.
  - cbn [forallb] in Hall. apply andb_true_iff in Hall as [Hx Hall].
    pose proof (Hmem 0%nat (m, x) eq_refl) as Hload. rewrite Nat.add_0_r in Hload.
    cbn [snd] in Hload.
    destruct (sectionOK_inv _ _ _ Hx) as (fl & tn & leaves & Hfl & -> & Hn & Hf & Hd).
    cbn [sectionsTree flat_map Encoder.sections_loop].
    unfold sectionTree, sectionText, memberKey. cbn [fst snd members]. rewrite Hfl.
    unfold Encoder.section. cbn [Section.Name Section.Fields].
    rewrite (fields_loop_doc e mem a _ i leaves Hf 0).
    + cbn [obind]. rewrite IH; [|assumption|].
      * rewrite <- !app_assoc. reflexivity.
      * intros k mx Hk. replace (S i + k)%nat with (i + S k)%nat by lia. now apply Hmem.
    + intros k my Hk. cbn [reflect.load] in *.
      destruct (reflect.step mem (reflect.SField i)) as [x0|]; [|discriminate].
      injection Hload as ->. cbn [reflect.step]. rewrite Nat.add_0_l, Hk. reflexivity.
Qed.

End EncodeSupported.

Lemma load_member tn (sections : list (reflect.Member * GoValue)) k mx :
  sections !! k = Some mx ->
  reflect.load (reflect.VStruct tn sections) [reflect.SField (0 + k)] = Some (snd mx).
Proof. intros H. cbn. now rewrite H. Qed.

Lemma Marshal_supported {runtime : Runtime} v :
  supported v = true -> Marshal (methods := noMethods) v = Ok (docOf v, None).
Proof.
  intros Hs. destruct v; try discriminate Hs. unfold supported in Hs.
  apply andb_true_iff in Hs as [Hall _].
  unfold Marshal, Encoder.Encode, Encoder.Reset.
  destruct (SectionsOf_supported _ _ Hall) as [-> _].
  cbn [Indirect fmap option_fmap option_map default fst Encoder.w id].
  rewrite (sections_loop_doc _ _ false _ _ Hall 0 []) by apply load_member.
  reflexivity.
Qed.

(** ** Looking names up in the tree of a supported record *)

Lemma distinct_head n names m :
  distinct (n :: names) = true -> In m names -> bytes_eqb n m = false.
Proof.
  cbn [distinct]. intros H Hin. apply andb_true_iff in H as [H _].
  apply negb_true_iff in H. destruct (bytes_eqb n m) eqn:E; [|reflexivity].
  rewrite <- H. symmetry. apply existsb_exists. eauto.
Qed.

Lemma distinct_tail n names : distinct (n :: names) = true -> distinct names = true.
Proof. cbn [distinct]. intros H. now apply andb_true_iff in H. Qed.

Lemma fieldOK_flags t my :
  fieldOK t my = true ->
  exists fl, memberFlags t (fst my) (snd my) = Some fl /\ memberKey t my = key fl /\
             validName true (key fl) = true /\ commented fl = false /\
             leafOK (snd my) = true.
Proof.
  unfold fieldOK, memberKey. destruct (memberFlags t (fst my) (snd my)) as [fl|];
    [|discriminate].
  intros H. apply andb_true_iff in H as [H Hl]. apply andb_true_iff in H as [Hn Hc].
  apply negb_true_iff in Hc. eauto 10.
Qed.

Lemma Section_Field_tree a t i B my C :
  forallb (fieldOK t) (B ++ my :: C) = true ->
  distinct (map (memberKey t) (B ++ my :: C)) = true ->
  forall j, exists fld,
    Section_Field_loop (fieldsTree a t i j (B ++ my :: C)) (memberKey t my) = Some fld /\
    Field.Value fld = reflect.At [reflect.SField i; reflect.SField (j + length B)] a.
Proof.
  induction B as [|b B IH]; intros Hall Hd j; cbn [app] in *.
  - cbn [forallb] in Hall. apply andb_true_iff in Hall as [Hy _].
    destruct (fieldOK_flags _ _ Hy) as (fl & Hfl & Hk & _).
    cbn [fieldsTree]. rewrite Hfl, Hk. cbn [app Section_Field_loop Field.Name].
    rewrite bytes_eqb_refl. eexists. split; [reflexivity|]. cbn [Field.Value length].
    now rewrite Nat.add_0_r.
  - cbn [forallb] in Hall. apply andb_true_iff in Hall as [Hb Hall].
    destruct (fieldOK_flags _ _ Hb) as (fl & Hfl & Hk & _).
    cbn [map] in Hd. pose proof (distinct_head _ _ (memberKey t my) Hd) as Hne.
    rewrite Hk in Hne.
    cbn [fieldsTree]. rewrite Hfl. cbn [app Section_Field_loop Field.Name].
    rewrite Hne by (rewrite map_app; apply in_or_app; right; now left).
    destruct (IH Hall (distinct_tail _ _ Hd) (S j)) as (fld & Hf & Hv).
    exists fld. split; [exact Hf|]. rewrite Hv. cbn [length].
    now replace (j + S (length B))%nat with (S j + length B)%nat by lia.
Qed.

Lemma findSection_tree a t A mx D :
  forallb (sectionOK t) (A ++ mx :: D) = true ->
  distinct (map (memberKey t) (A ++ mx :: D)) = true ->
  forall i,
    findSection (sectionsTree a t i (A ++ mx :: D)) (memberKey t mx)
    = Some (sectionTree a t (i + length A) mx).
Proof.
  assert (Hname : forall i mx, sectionOK t mx = true ->
            Section.Name (sectionTree a t i mx) = memberKey t mx).
  { intros i [m x] H. destruct (sectionOK_inv _ _ _ H) as (fl & tn & leaves & Hfl & _).
    unfold sectionTree, memberKey. cbn [fst snd]. now rewrite Hfl. }
  induction A as [|b A IH]; intros Hall Hd i; cbn [app] in *.
  - cbn [forallb] in Hall. apply andb_true_iff in Hall as [Hx _].
    cbn [sectionsTree findSection]. rewrite Hname, bytes_eqb_refl by assumption.
    cbn [length]. now rewrite Nat.add_0_r.
  - cbn [forallb] in Hall. apply andb_true_iff in Hall as [Hb Hall].
    cbn [map] in Hd. pose proof (distinct_head _ _ (memberKey t mx) Hd) as Hne.
    cbn [sectionsTree findSection]. rewrite Hname by assumption.
    rewrite Hne by (rewrite map_app; apply in_or_app; right; now left).
    rewrite (IH Hall (distinct_tail _ _ Hd) (S i)). cbn [length].
    now replace (i + S (length A))%nat with (S i + length A)%nat by lia.
Qed.

(** ** A leaf of a record of records in memory *)

Lemma load_leaf tn (A : list (reflect.Member * GoValue)) m tn'
    (B : list (reflect.Member * GoValue)) m' x C D :
  reflect.load (reflect.VStruct tn (A ++ (m, reflect.VStruct tn' (B ++ (m', x) :: C)) :: D))
    [reflect.SField (length A); reflect.SField (length B)] = Some x.
Proof.
  cbn [reflect.load reflect.step]. rewrite list_lookup_middle by reflexivity.
  cbn [fmap option_fmap option_map snd reflect.step].
  now rewrite list_lookup_middle by reflexivity.
Qed.

Lemma modify_leaf tn (A : list (reflect.Member * GoValue)) m tn'
    (B : list (reflect.Member * GoValue)) m' x C D f :
  reflect.modify (reflect.VStruct tn (A ++ (m, reflect.VStruct tn' (B ++ (m', x) :: C)) :: D))
    [reflect.SField (length A); reflect.SField (length B)] f
  = reflect.VStruct tn (A ++ (m, reflect.VStruct tn' (B ++ (m', f x) :: C)) :: D).
Proof.
  cbn [reflect.modify].
  rewrite alter_app_r_alt, Nat.sub_diag by lia.
  cbn [alter list_alter fst snd reflect.modify].
  rewrite alter_app_r_alt, Nat.sub_diag by lia. cbn. now destruct x.
Qed.

(** ** The decoder on the lines of a supported record *)

Lemma validName_inv b name :
  validName b name = true ->
  exists c w, name = c :: w /\ forallb isNameCharOrDigit name = true /\
              (b = true -> isNameChar c = true).
Proof.
  destruct name as [|c w]; [discriminate|]. unfold validName. intros H.
  apply andb_true_iff in H as [Hc Hw]. exists c, w. repeat split; [assumption|].
  intros ->. exact Hc.
Qed.

Lemma isNameCharOrDigit_not_space c : isNameCharOrDigit c = true -> (c == " "%char) = false.
Proof. each_byte c; intros H; try discriminate H; reflexivity. Qed.

(** [name] reads a name that is followed by a byte of no name. *)
Lemma name_run fuel d pre w c post :
  at_ d pre (w ++ c :: post) ->
  w <> [] -> forallb isNameCharOrDigit w = true ->
  isNameCharOrDigit c = false -> (c == " "%char) = false ->
  (length w < fuel)%nat ->
  exists d', Decoder.name fuel d = (Ok w, d') /\ at_ d' (pre ++ w) (c :: post).
Proof.
  intros Hat Hne Hw Hc Hsp Hfuel. destruct fuel as [|fuel]; [lia|].
  destruct w as [|c0 w]; [contradiction|].
  assert (Hc0 : (c0 == " "%char) = false).
  { cbn [forallb] in Hw. apply andb_true_iff in Hw as [Hc0 _].
    now apply isNameCharOrDigit_not_space. }
  destruct (takeWhile_run isNameCharOrDigit isNameCharOrDigit_plain (c0 :: w) (S fuel)
              d pre (c :: post) Hat Hw Hc Hfuel) as (d' & Ht & Hat').
  exists d'. split; [|exact Hat'].
  unfold Decoder.name, bind.
  rewrite skipSpaces_no_space by (cbn [app] in Hat; now rewrite (at_peek _ _ _ _ Hat)).
  rewrite Ht. rewrite skipSpaces_no_space by now rewrite (at_peek _ _ _ _ Hat').
  reflexivity.
Qed.

(** The same position, its prefix written in another way. *)
Ltac at_exact H :=
  match type of H with
  | at_ ?d ?p ?q =>
      match goal with
      | |- at_ d ?p' q =>
          replace p' with p;
          [exact H | repeat first [rewrite <- app_assoc | progress cbn [app]]; reflexivity]
      end
  end.

Section ScanLines.
Context {runtime : Runtime}.
Existing Instance noMethods.

(** At the end of the buffer the loop returns. *)
Lemma scan_end fuel sections currentSection d mem pre :
  at_ d pre [] ->
  scan (S (S fuel)) sections currentSection (d, mem) = (Ok tt, (d, mem)).
Proof.
  intros Hat. pose proof (at_peek_end _ _ Hat) as Hpeek.
  cbn [scan]. unfold bind at 1. unfold onScanner at 1, get. cbn [fst snd].
  unfold bind at 1. unfold onScanner at 1. cbn [fst snd].
  rewrite skipSpaces_no_space by (rewrite Hpeek; reflexivity).
  rewrite Hpeek. reflexivity.
Qed.

(** A header line of a known section makes it the current section. *)
Lemma scan_header fuel sections currentSection d mem pre name post section :
  validName false name = true ->
  at_ d pre ("["%char :: name ++ "]"%char :: LF :: post) ->
  findSection sections name = Some section ->
  (length name + 1 < fuel)%nat ->
  exists d',
    scan (S fuel) sections currentSection (d, mem)
    = scan fuel sections (Some section) (d', mem) /\
    at_ d' (pre ++ "["%char :: name ++ ["]"%char; LF]) post.
Proof.
  intros Hname Hat Hfind Hfuel.
  destruct (validName_inv _ _ Hname) as (c & w & -> & Hw & _).
  pose proof (at_peek _ _ _ _ Hat) as Hpeek.
  destruct (advance_plain _ _ _ _ Hat eq_refl) as (d1 & Hadv & Hat1).
  destruct (name_run fuel d1 _ (c :: w) "]"%char (LF :: post) Hat1 ltac:(discriminate) Hw
              eq_refl eq_refl ltac:(lia))
    as (d2 & Hn & Hat2).
  destruct (consume_hit _ _ _ _ Hat2 eq_refl) as (d3 & Hc & Hat3).
  destruct (handleNewline_LF _ _ _ Hat3) as (d4 & Hnl & Hat4).
  exists d4. split.
  - destruct fuel as [|fuel]; [lia|].
    cbn [scan]. unfold bind at 1. unfold onScanner at 1, get. cbn [fst snd].
    unfold bind at 1. unfold onScanner at 1. cbn [fst snd].
    rewrite skipSpaces_no_space by (rewrite Hpeek; reflexivity).
    rewrite Hpeek.
    change ("["%char == NUL) with false. change (isNewlineChar "["%char) with false.
    change (isNameChar "["%char) with false. change ("["%char == "["%char) with true.
    cbv iota.
    unfold bind, onScanner, call, ret. cbn [fst snd].
    rewrite Hadv. cbn [fst snd]. rewrite Hn. cbn [fst snd]. rewrite Hc. cbn [negb fst snd].
    rewrite Hfind. cbn [fst snd]. rewrite Hnl. reflexivity.
  - at_exact Hat4.
Qed.


End ScanLines.

(** ** Lines that do not decode *)

Lemma spaces_run n : forallb (fun char => char == " "%char) (replicate n " "%char) = true.
Proof. induction n as [|n IH]; [reflexivity|exact IH]. Qed.

Lemma space_plain c : (c == " "%char) = true -> plain c = true.
Proof. intros H. apply char_eqb_eq in H. now subst. Qed.

(** [skipSpaces] reads a run of spaces to its end. *)
Lemma skipSpaces_run fuel d pre n post :
  at_ d pre (replicate n " "%char ++ post) ->
  match post with [] => True | c :: _ => (c == " "%char) = false end ->
  (n < fuel)%nat ->
  exists d', Decoder.skipSpaces fuel d = (Ok tt, d') /\
             at_ d' (pre ++ replicate n " "%char) post.
Proof.
  intros Hat Hpost Hfuel.
  destruct (takeWhile_run (fun char => char == " "%char) space_plain (replicate n " "%char)
              fuel d pre post Hat (spaces_run n) Hpost) as (d' & Ht & Hat').
  { now rewrite length_replicate. }
  exists d'. split; [|exact Hat']. unfold Decoder.skipSpaces, bind. now rewrite Ht.
Qed.

Section LeadingSpace.
Context {runtime : Runtime}.
Existing Instance noMethods.

(** C7, as the code behaves: the lookahead character is read before the
    spaces are skipped, so a line that begins with spaces is dispatched on
    the space itself: whatever the fuel the outcome is never [Ok], and with
    fuel for the run of spaces it is the error for an unexpected character,
    a space, reported at the end of the run. *)
Theorem scan_leading_space_fails fuel sections currentSection d mem pre n post :
  at_ d pre (replicate (S n) " "%char ++ post) ->
  match post with [] => True | c :: _ => (c == " "%char) = false end ->
  (S n < fuel)%nat ->
  (forall fuel', fst (scan fuel' sections currentSection (d, mem)) <> Ok tt) /\
  exists d',
    scan (S fuel) sections currentSection (d, mem)
    = (Err (errUnexpectedChar " "%char (scanner.lineNum d') (scanner.charNum d')),
       (d', mem)) /\
    at_ d' (pre ++ replicate (S n) " "%char) post.
Proof.
  intros Hat Hpost Hfuel.
  assert (Hsp : scanner.peek d = " "%char) by exact (at_peek _ _ _ _ Hat).
  split; [intros fuel'; now apply scan_space_never_ok|].
  destruct (skipSpaces_run fuel d pre (S n) post Hat Hpost Hfuel) as (d' & Hs & Hat').
  exists d'. split; [|exact Hat'].
  cbn [scan]. unfold bind at 1. unfold onScanner at 1, get. cbn [fst snd].
  unfold bind at 1. unfold onScanner at 1. cbn [fst snd].
  rewrite Hs, Hsp. reflexivity.
Qed.

End LeadingSpace.

Lemma scan_leading_space_fails_witness :
  ((forall fuel',
      fst (scan (runtime := bareRuntime) fuel' [] None
             (scanner.init (document ["  [A]"]), Conf [] 0)) <> Ok tt) /\
   exists d',
     scan (runtime := bareRuntime) 4 [] None (scanner.init (document ["  [A]"]), Conf [] 0)
     = (Err (errUnexpectedChar " "%char (scanner.lineNum d') (scanner.charNum d')),
        (d', Conf [] 0)) /\
     at_ d' ([] ++ replicate 2 " "%char) (document ["[A]"])) /\
  scan (runtime := bareRuntime) 4 [] None (scanner.init (document ["  [A]"]), Conf [] 0)
  = (Err (errUnexpectedChar " "%char 1 3),
     (scanner.mk (document ["  [A]"]) 2 1 3 0, Conf [] 0)).
Proof.
  split; [|vm_compute; reflexivity].
  apply (scan_leading_space_fails (runtime := bareRuntime) 3 [] None
           (scanner.init (document ["  [A]"])) (Conf [] 0) [] 1 (document ["[A]"])).
  - split; reflexivity.
  - reflexivity.
  - lia.
Defined.

Section UnknownNames.
Context {runtime : Runtime}.
Existing Instance noMethods.

(** C4: a header that names no section of the target ends the decode with
    the error for an unknown section, the target untouched; a line whose key
    names no field of the current section has its value scanned, nothing is
    assigned, and the loop goes on with the next line in the same section.
    The last part says the same of any value that [value] reads. *)
Theorem unknown_section_fatal_unknown_key_ignored
    fuel sections (d : scanner.t) (mem : GoValue) pre name post :
  (forall currentSection,
      at_ d pre ("["%char :: name ++ "]"%char :: post) ->
      validName false name = true ->
      findSection sections name = None ->
      (length name + 1 < fuel)%nat ->
      exists d',
        scan (S fuel) sections currentSection (d, mem)
        = (Err (errUnknownSection name), (d', mem)) /\
        at_ d' (pre ++ "["%char :: name ++ ["]"%char]) post) /\
  (forall section y,
      at_ d pre (name ++ "="%char :: leafText y ++ LF :: post) ->
      validName true name = true -> leafOK y = true ->
      Section_Field section name = None ->
      (length name + length (leafText y) + 2 < fuel)%nat ->
      exists d',
        scan (S fuel) sections (Some section) (d, mem)
        = scan fuel sections (Some section) (d', mem) /\
        at_ d' (pre ++ name ++ "="%char :: leafText y ++ [LF]) post) /\
  (forall section fieldName value d1 d2 d3 d4,
      isNameChar (scanner.peek d) = true ->
      Decoder.name fuel d = (Ok fieldName, d1) ->
      scanner.consume "="%char d1 = (true, d2) ->
      Decoder.value fuel d2 = (Ok value, d3) ->
      Section_Field section fieldName = None ->
      scanner.handleNewline d3 = (true, d4) ->
      scan (S fuel) sections (Some section) (d, mem)
      = scan fuel sections (Some section) (d4, mem)).
Proof.
  split; [|split].
  - intros cur Hat Hname Hfind Hfuel.
    destruct (validName_inv _ _ Hname) as (c & w & -> & Hw & _).
    destruct (advance_plain _ _ _ _ Hat eq_refl) as (d1 & Hadv & Hat1).
    destruct (name_run fuel d1 _ (c :: w) "]"%char post Hat1 ltac:(discriminate) Hw
                eq_refl eq_refl ltac:(lia)) as (d2 & Hn & Hat2).
    destruct (consume_hit _ _ _ _ Hat2 eq_refl) as (d3 & Hc & Hat3).
    exists d3. split; [|at_exact Hat3].
    destruct fuel as [|fuel]; [lia|].
    apply (scan_unknown_section fuel sections d mem cur (c :: w) d2 d3).
    + exact (at_peek _ _ _ _ Hat).
    + now rewrite Hadv.
    + discriminate.
    + exact Hc.
    + exact Hfind.
  - intros section y Hat Hname Hok Hfld Hfuel.
    destruct (validName_inv _ _ Hname) as (c & w & -> & Hw & Hc).
    specialize (Hc eq_refl).
    destruct (name_run fuel d pre (c :: w) "="%char _ Hat ltac:(discriminate) Hw
                eq_refl eq_refl ltac:(cbn [length] in *; lia)) as (d1 & Hn & Hat1).
    destruct (consume_hit _ _ _ _ Hat1 eq_refl) as (d2 & Heq & Hat2).
    destruct (value_leaf fuel d2 _ y post Hok Hat2 ltac:(lia)) as (d3 & Hv & Hat3).
    destruct (handleNewline_LF _ _ _ Hat3) as (d4 & Hnl & Hat4).
    exists d4. split; [|at_exact Hat4].
    destruct fuel as [|fuel]; [lia|].
    apply (scan_unknown_key fuel sections d mem section (c :: w) (leafRaw y) d1 d2 d3 d4);
      try assumption.
    now rewrite (at_peek _ _ _ _ Hat).
  - intros section fieldName value d1 d2 d3 d4 Hpeek Hn Heq Hv Hfld Hnl.
    destruct fuel as [|fuel]; [discriminate Hv|].
    now apply (scan_unknown_key fuel sections d mem section fieldName value d1 d2 d3 d4).
Qed.

End UnknownNames.

Lemma unknown_section_fatal_unknown_key_ignored_witness :
  (exists d',
     scan (runtime := bareRuntime) 31 [Section.mk (bs "A") [] false] None
       (scanner.init (document ["[B]"]), Conf [] 0)
     = (Err (errUnknownSection (bs "B")), (d', Conf [] 0)) /\
     at_ d' (bs "[B]") [LF]) /\
  (let d := scanner.mk (document ["[A]"; "zzz=17"; "n=7"]) 4 2 1 4 in
   let s := Section.mk (bs "A")
              [Field.mk (bs "n") (reflect.At [reflect.SField 0; reflect.SField 1] true)
                        false false] false in
   exists d',
     scan (runtime := bareRuntime) 31 [s] (Some s) (d, Conf [] 0)
     = scan (runtime := bareRuntime) 30 [s] (Some s) (d', Conf [] 0) /\
     at_ d' (document ["[A]"; "zzz=17"]) (document ["n=7"])) /\
  (let d := scanner.mk (document ["[A]"; "zzz = 1,2 ; no such key"; "n=7"]) 4 2 1 4 in
   let s := Section.mk (bs "A")
              [Field.mk (bs "n") (reflect.At [reflect.SField 0; reflect.SField 1] true)
                        false false] false in
   scan (runtime := bareRuntime) 31 [s] (Some s) (d, Conf [] 0)
   = (Ok tt, (scanner.mk (document ["[A]"; "zzz = 1,2 ; no such key"; "n=7"]) 32 4 1 4,
              Conf [] 7))).
Proof.
  split; [|split].
  - apply (proj1 (unknown_section_fatal_unknown_key_ignored (runtime := bareRuntime) 30
                    [Section.mk (bs "A") [] false] (scanner.init (document ["[B]"]))
                    (Conf [] 0) [] (bs "B") [LF]) None).
    + split; reflexivity.
    + reflexivity.
    + reflexivity.
    + cbn. lia.
  - cbv zeta.
    apply (proj1 (proj2 (unknown_section_fatal_unknown_key_ignored (runtime := bareRuntime) 30
                    _ (scanner.mk (document ["[A]"; "zzz=17"; "n=7"]) 4 2 1 4)
                    (Conf [] 0) (document ["[A]"]) (bs "zzz") (document ["n=7"])))
             _ (int_ 17)).
    + split; reflexivity.
    + reflexivity.
    + reflexivity.
    + reflexivity.
    + vm_compute. lia.
  - cbv zeta. etransitivity.
    + eapply (proj2 (proj2 (unknown_section_fatal_unknown_key_ignored (runtime := bareRuntime) 30
                        _ _ _ [] [] []))).
      * reflexivity.
      * vm_compute. reflexivity.
      * vm_compute. reflexivity.
      * vm_compute. reflexivity.
      * reflexivity.
      * vm_compute. reflexivity.
    + vm_compute. reflexivity.
Defined.

Section BlankLineBetween.
Context {runtime : Runtime}.
Existing Instance noMethods.

(** A document with a blank line between a header and a key: the
    header is read, then [Unmarshal] never returns, whatever the fuel. *)
Lemma Unmarshal_blank_line_between fuel :
  Unmarshal fuel
    (bs "[A]" ++ [LF; LF] ++ bs "k='x'" ++ [LF]) (addressOf (Conf [] 0))
  = (Timeout, Some (Conf [] 0)).
Proof.
  unfold Unmarshal, Decode.
  match goal with
  | |- context [SectionsOf ?v] =>
      let s := eval vm_compute in (SectionsOf v) in change (SectionsOf v) with s
  end.
  cbn -[scan].
  match goal with
  | |- context [scan fuel ?s None ?st] =>
      assert (H : exists d, scan fuel s None st = (Timeout, (d, snd st)));
        [|destruct H as [d ->]; reflexivity]
  end.
  do 4 (destruct fuel as [|fuel]; [eexists; vm_compute; reflexivity|]).
  match goal with
  | |- context [scan _ ?s None (?d, ?mem)] =>
      destruct (scan_header (S (S (S fuel))) s None d mem []
                  (bs "A") (LF :: bs "k='x'" ++ [LF]) (Section.mk (bs "A")
                     [Field.mk (bs "k") (reflect.At [reflect.SField 0; reflect.SField 0] true)
                        false false;
                      Field.mk (bs "n") (reflect.At [reflect.SField 0; reflect.SField 1] true)
                        false false] false)
                  eq_refl (conj eq_refl eq_refl) eq_refl ltac:(cbn; lia))
        as (d1 & Hs & Hat1)
  end.
  exists d1. rewrite Hs. cbn [snd].
  assert (Hnl : isNewlineChar (scanner.peek d1) = true)
    by now rewrite (at_peek _ _ _ _ Hat1).
  generalize (S (S (S fuel))). intros n. induction n as [|n IH]; [reflexivity|].
  destruct n as [|n]; [now apply scan_newline_last|].
  rewrite scan_newline_step by assumption. exact IH.
Qed.

End BlankLineBetween.

(** ** The decoder on the document of a supported record *)

Ltac list_norm := repeat first [rewrite <- app_assoc | progress cbn [app]]; reflexivity.

Ltac at_from H :=
  match type of H with
  | at_ ?d ?p ?q =>
      match goal with
      | |- at_ d ?p' ?q' =>
          replace p' with p by list_norm; replace q' with q by list_norm; exact H
      end
  end.

Ltac len_norm H :=
  repeat first [rewrite length_app in H | progress cbn [length app] in H].

Section ScanDocument.
Context {runtime : Runtime}.
Existing Instance noMethods.



End ScanDocument.

(** ** Round trip *)





(** ** Line breaks and runs: where the scanner stands afterwards *)

Lemma take_loop_ext fuel (f1 f2 : M scanner.t bytes) :
  (forall b, f1 b = f2 b) ->
  forall acc d, scanner.take_loop fuel f1 acc d = scanner.take_loop fuel f2 acc d.
Proof.
  intros Hext. induction fuel as [|fuel IH]; intros acc d; cbn [scanner.take_loop].
  - reflexivity.
  - rewrite Hext. destruct (f2 d) as [[b|e|msg|] d']; try reflexivity.
    now rewrite IH.
Qed.

Lemma at_moved d pre w post l c p :
  at_ d pre (w ++ post) ->
  at_ (scanner.mk (scanner.buf d) (scanner.bufPos d + length w) l c p) (pre ++ w) post.
Proof.
  intros [Hb Hp]. split; cbn.
  - now rewrite Hb, <- app_assoc.
  - rewrite Hp, length_app. reflexivity.
Qed.

(** The loop of [take] over a run of ordinary bytes that the producer
    accepts: the run is the result, the cursor is behind it, the column has
    been counted up once per byte. *)
Lemma take_loop_exact (g : ascii -> bool) w :
  forall fuel acc d pre post,
    at_ d pre (w ++ post) ->
    forallb (fun c => g c && plain c) w = true ->
    match post with [] => True | c :: _ => g c = false end ->
    (length w < fuel)%nat ->
    scanner.take_loop fuel
      (fun base => if g (scanner.peek base)
                   then let (c, base) := scanner.advance base in (Ok [c], base)
                   else (Err stop, base)) acc d
    = (Ok (acc ++ w),
       scanner.mk (scanner.buf d) (scanner.bufPos d + length w) (scanner.lineNum d)
         (Nat.iter (length w) (fun x => uint32 (x + 1)) (scanner.charNum d))
         (scanner.prevLineCharNum d)).
Proof.
  induction w as [|c w IH]; intros fuel acc d pre post Hat Hall Hpost Hfuel.
  - rewrite app_nil_r. cbn [length Nat.iter]. rewrite Nat.add_0_r.
    cbn [app] in Hat. destruct fuel as [|fuel]; [lia|].
    cbn [scanner.take_loop]. destruct post as [|c post].
    + rewrite (at_outside _ _ Hat). now destruct d.
    + rewrite (at_inside _ _ _ _ Hat), (at_peek _ _ _ _ Hat), Hpost. cbn. now destruct d.
  - cbn [forallb] in Hall. apply andb_true_iff in Hall as [Hc Hall].
    apply andb_true_iff in Hc as [Hg Hc].
    destruct fuel as [|fuel]; [cbn in Hfuel; lia|].
    cbn [scanner.take_loop]. cbn [app] in Hat.
    rewrite (at_inside _ _ _ _ Hat), (at_peek _ _ _ _ Hat), Hg.
    destruct (advance_plain _ _ _ _ Hat Hc) as (d1 & Ha & Hat1).
    rewrite Ha.
    rewrite (IH fuel (acc ++ [c]) d1 (pre ++ [c]) post Hat1 Hall Hpost
               ltac:(cbn in Hfuel; lia)).
    apply plain_spec in Hc as [Hn Hnl].
    unfold scanner.advance in Ha. rewrite (at_peek _ _ _ _ Hat), Hn in Ha.
    unfold isNewlineChar in Hnl. rewrite Hnl in Ha. injection Ha as <-.
    cbn [scanner.buf scanner.bufPos scanner.lineNum scanner.charNum
         scanner.prevLineCharNum length].
    rewrite <- app_assoc. cbn [app]. f_equal. f_equal.
    + lia.
    + now rewrite Nat.iter_succ_r.
Qed.

Lemma uint32_count n : forall c,
  0 <= c < 2 ^ 32 ->
  Nat.iter n (fun x => uint32 (x + 1)) c = uint32 (c + Z.of_nat n).
Proof.
  unfold uint32. induction n as [|n IH]; intros c Hc.
  - change (Nat.iter 0 _ c) with c. rewrite Z.add_0_r, Z.mod_small; [reflexivity|assumption].
  - rewrite Nat.iter_succ, IH by assumption. rewrite Zplus_mod_idemp_l.
    f_equal. lia.
Qed.

(** [takeUntil f] is [takeWhile] of the bytes that fail [f]. *)
Lemma takeUntil_takeWhile fuel f d :
  scanner.takeUntil fuel f d = scanner.takeWhile fuel (fun c => negb (f c)) d.
Proof. reflexivity. Qed.

(** A run of ordinary bytes up to a line break or the end of the buffer is
    what [takeUntil isNewlineChar] reads. *)
Lemma takeUntil_newline fuel d pre w post :
  at_ d pre (w ++ post) ->
  forallb plain w = true ->
  match post with [] => True | c :: _ => isNewlineChar c = true end ->
  (length w < fuel)%nat ->
  exists d', scanner.takeUntil fuel isNewlineChar d = (Ok w, d') /\ at_ d' (pre ++ w) post.
Proof.
  intros Hat Hw Hpost Hfuel. eexists. split.
  - unfold scanner.takeUntil, scanner.take.
    apply (take_loop_exact (fun c => negb (isNewlineChar c)) w fuel [] d pre post Hat).
    + rewrite forallb_forall in *. intros c Hc. specialize (Hw c Hc).
      rewrite Hw. unfold plain in Hw. apply andb_true_iff in Hw as [_ ->]. reflexivity.
    + destruct post as [|c post]; [exact I|]. now rewrite Hpost.
    + exact Hfuel.
  - now apply at_moved.
Qed.

(** X1: [handleNewline] takes a line feed, a carriage return, or a
    carriage return with its line feed as one line break: the cursor moves
    behind it, the line number goes up by one, the column restarts at 1 and
    the old column is kept as the last of the previous line.  In front of
    any other byte it answers false and moves nothing. *)
Theorem handleNewline_line_breaks (d : scanner.t) :
  (isNewlineChar (scanner.peek d) = false -> scanner.handleNewline d = (false, d)) /\
  (forall pre brk post,
      at_ d pre (brk ++ post) ->
      brk = [LF] \/ brk = [CR; LF] \/
      (brk = [CR] /\ match post with [] => True | c :: _ => (c == LF) = false end) ->
      scanner.handleNewline d
      = (true, scanner.mk (scanner.buf d) (scanner.bufPos d + length brk)
                 (uint32 (scanner.lineNum d + 1)) 1 (scanner.charNum d))).
Proof.
  split.
  - unfold isNewlineChar, scanner.handleNewline. intros H.
    apply orb_false_iff in H as [Hlf Hcr]. now rewrite Hcr, Hlf.
  - intros pre brk post Hat [->|[->|[-> Hpost]]]; cbn [app length] in *;
      unfold scanner.handleNewline; rewrite (at_peek _ _ _ _ Hat).
    + change (LF == CR) with false. cbv iota. rewrite (at_peek _ _ _ _ Hat).
      change (LF == LF) with true. cbv iota. cbn. now rewrite Nat.add_1_r.
    + change (CR == CR) with true. cbv iota.
      rewrite (at_peek _ _ _ _ (at_skip1 _ _ _ _ Hat)).
      change (LF == LF) with true. cbv iota. cbn. do 3 f_equal. lia.
    + change (CR == CR) with true. cbv iota.
      pose proof (at_skip1 _ _ _ _ Hat) as Hat1.
      destruct post as [|c post].
      * rewrite (at_peek_end _ _ Hat1). change (NUL == LF) with false. cbv iota.
        cbn. now rewrite Nat.add_1_r.
      * rewrite (at_peek _ _ _ _ Hat1), Hpost. cbn. now rewrite Nat.add_1_r.
Qed.

Lemma handleNewline_line_breaks_witness :
  scanner.handleNewline (scanner.mk (bs "a=1" ++ [CR; LF] ++ bs "b=2") 2 1 3 0)
  = (false, scanner.mk (bs "a=1" ++ [CR; LF] ++ bs "b=2") 2 1 3 0) /\
  scanner.handleNewline (scanner.mk (bs "a=1" ++ [CR; LF] ++ bs "b=2") 3 1 4 0)
  = (true, scanner.mk (bs "a=1" ++ [CR; LF] ++ bs "b=2") 5 2 1 4).
Proof.
  split.
  - apply (proj1 (handleNewline_line_breaks
                    (scanner.mk (bs "a=1" ++ [CR; LF] ++ bs "b=2") 2 1 3 0))).
    reflexivity.
  - apply (proj2 (handleNewline_line_breaks
                    (scanner.mk (bs "a=1" ++ [CR; LF] ++ bs "b=2") 3 1 4 0))
             (bs "a=1") [CR; LF] (bs "b=2")).
    + split; reflexivity.
    + right. left. reflexivity.
Defined.

(** ** One round of the line grammar *)

(** [name] reads a run of name characters, which may be empty, up to a byte
    that is neither a name character nor a space. *)
Lemma name_any fuel d pre w c post :
  at_ d pre (w ++ c :: post) ->
  forallb isNameCharOrDigit w = true ->
  isNameCharOrDigit c = false -> (c == " "%char) = false ->
  (length w < fuel)%nat ->
  exists d', Decoder.name fuel d = (Ok w, d') /\ at_ d' (pre ++ w) (c :: post).
Proof.
  intros Hat Hw Hc Hsp Hfuel. destruct fuel as [|fuel]; [lia|].
  assert (H0 : (scanner.peek d == " "%char) = false).
  { destruct w as [|c0 w]; cbn [app] in Hat; rewrite (at_peek _ _ _ _ Hat); [exact Hsp|].
    cbn [forallb] in Hw. apply andb_true_iff in Hw as [Hc0 _].
    now apply isNameCharOrDigit_not_space. }
  destruct (takeWhile_run isNameCharOrDigit isNameCharOrDigit_plain w (S fuel)
              d pre (c :: post) Hat Hw Hc Hfuel) as (d' & Ht & Hat').
  exists d'. split; [|exact Hat'].
  unfold Decoder.name, bind.
  rewrite skipSpaces_no_space by exact H0.
  rewrite Ht. rewrite skipSpaces_no_space by now rewrite (at_peek _ _ _ _ Hat').
  reflexivity.
Qed.

Ltac scan_open :=
  cbn [scan]; unfold bind at 1; unfold onScanner at 1, get; cbn [fst snd];
  unfold bind at 1; unfold onScanner at 1; cbn [fst snd].

Section LineRounds.
Context {runtime : Runtime}.

(** One round of [scan] on a line that starts with a name character. *)
Lemma scan_key_round fuel sections cur (d : scanner.t) (mem : GoValue)
    fieldName value d1 d2 d3 :
  isNameChar (scanner.peek d) = true ->
  Decoder.name (S fuel) d = (Ok fieldName, d1) ->
  scanner.consume "="%char d1 = (true, d2) ->
  Decoder.value (S fuel) d2 = (Ok value, d3) ->
  scan (S (S fuel)) sections cur (d, mem)
  = match cur with
    | None => (Err errKeyMustBeUnderSection, (d3, mem))
    | Some section =>
        match Section_Field section fieldName with
        | Some field =>
            match decode (TrimSpace value) (Field.Value field) mem with
            | (Ok _, mem') => lineEnd (S fuel) sections cur d3 mem'
            | (Err e, mem') => (Err e, (d3, mem'))
            | (Panic msg, mem') => (Panic msg, (d3, mem'))
            | (Timeout, mem') => (Timeout, (d3, mem'))
            end
        | None => lineEnd (S fuel) sections cur d3 mem
        end
    end.
Proof.
  intros Hpeek Hname Heq Hvalue.
  destruct (isNameChar_dispatch _ Hpeek) as [Hnul Hnewline].
  scan_open.
  rewrite skipSpaces_no_space by (now apply isNameChar_not_space).
  rewrite Hnul, Hnewline, Hpeek.
  unfold bind, onScanner, onTarget, call, ret, fail, lineEnd. cbn [fst snd].
  rewrite Hname. cbn [fst snd]. rewrite Heq. cbn [negb fst snd].
  rewrite Hvalue. cbn [fst snd].
  destruct cur as [section|]; [|reflexivity].
  destruct (Section_Field section fieldName) as [field|]; cbn [fst snd].
  - destruct (decode (TrimSpace value) (Field.Value field) mem) as [[[]|e|msg|] mem'];
      cbn [fst snd]; try reflexivity.
    destruct (scanner.handleNewline d3) as [[|] d4]; reflexivity.
  - destruct (scanner.handleNewline d3) as [[|] d4]; reflexivity.
Qed.

(** One round of [scan] on a line that starts with a name character and
    whose name is not followed by the equals sign. *)
Lemma scan_key_no_equals fuel sections cur (d : scanner.t) (mem : GoValue) fieldName d1 :
  isNameChar (scanner.peek d) = true ->
  Decoder.name (S fuel) d = (Ok fieldName, d1) ->
  (scanner.peek d1 == "="%char) = false ->
  scan (S (S fuel)) sections cur (d, mem)
  = (Err (errUnexpectedChar (scanner.peek d1) (scanner.lineNum d1) (scanner.charNum d1)),
     (d1, mem)).
Proof.
  intros Hpeek Hname Heq.
  destruct (isNameChar_dispatch _ Hpeek) as [Hnul Hnewline].
  scan_open.
  rewrite skipSpaces_no_space by (now apply isNameChar_not_space).
  rewrite Hnul, Hnewline, Hpeek.
  unfold bind, onScanner, call, Decoder.unexpectedChar. cbn [fst snd].
  rewrite Hname. cbn [fst snd]. rewrite (consume_miss _ _ Heq). reflexivity.
Qed.

(** One round of [scan] on a line that starts with a bracket. *)
Lemma scan_header_round fuel sections cur (d : scanner.t) (mem : GoValue) sectionName d1 :
  scanner.peek d = "["%char ->
  Decoder.name (S fuel) (snd (scanner.advance d)) = (Ok sectionName, d1) ->
  scan (S (S fuel)) sections cur (d, mem)
  = match sectionName with
    | [] => (Err (errUnexpectedChar (scanner.peek d1) (scanner.lineNum d1)
                                    (scanner.charNum d1)), (d1, mem))
    | _ =>
        match scanner.consume "]"%char d1 with
        | (false, d2) =>
            (Err (errUnexpectedChar (scanner.peek d2) (scanner.lineNum d2)
                                    (scanner.charNum d2)), (d2, mem))
        | (true, d2) =>
            match findSection sections sectionName with
            | Some section => lineEnd (S fuel) sections (Some section) d2 mem
            | None => (Err (errUnknownSection sectionName), (d2, mem))
            end
        end
    end.
Proof.
  intros Hpeek Hname.
  scan_open.
  rewrite skipSpaces_no_space by (rewrite Hpeek; reflexivity).
  rewrite Hpeek.
  change ("["%char == NUL) with false. change (isNewlineChar "["%char) with false.
  change (isNameChar "["%char) with false. change ("["%char == "["%char) with true.
  cbv iota.
  unfold bind, onScanner, call, ret, fail, Decoder.unexpectedChar, lineEnd. cbn [fst snd].
  destruct (scanner.advance d) as [c d'] eqn:Hadv. cbn [snd] in Hname.
  cbn [fst snd]. rewrite Hname. cbn [fst snd].
  destruct sectionName as [|c0 sn]; [reflexivity|]. cbn [fst snd].
  destruct (scanner.consume "]"%char d1) as [[|] d2]; cbn [negb fst snd]; [|reflexivity].
  destruct (findSection sections (c0 :: sn)) as [section|]; cbn [fst snd]; [|reflexivity].
  destruct (scanner.handleNewline d2) as [[|] d3]; reflexivity.
Qed.

(** One round of [scan] on a comment line. *)
Lemma scan_comment_round fuel sections cur (d : scanner.t) (mem : GoValue) w d1 :
  (scanner.peek d == "#"%char) || (scanner.peek d == ";"%char) = true ->
  scanner.takeUntil (S fuel) isNewlineChar d = (Ok w, d1) ->
  scan (S (S fuel)) sections cur (d, mem) = lineEnd (S fuel) sections cur d1 mem.
Proof.
  intros Hc Htake.
  assert (Hd : (scanner.peek d == " "%char) = false /\ (scanner.peek d == NUL) = false /\
               isNewlineChar (scanner.peek d) = false /\ isNameChar (scanner.peek d) = false /\
               (scanner.peek d == "["%char) = false).
  { apply orb_true_iff in Hc as [Hc|Hc]; apply char_eqb_eq in Hc; rewrite Hc;
      repeat split; reflexivity. }
  destruct Hd as (Hsp & Hnul & Hnl & Hname & Hbr).
  scan_open.
  rewrite skipSpaces_no_space by exact Hsp.
  rewrite Hnul, Hnl, Hname, Hbr, Hc.
  unfold bind, onScanner, call, ret, lineEnd. cbn [fst snd].
  rewrite Htake. cbn [fst snd].
  destruct (scanner.handleNewline d1) as [[|] d2]; reflexivity.
Qed.

Lemma lineEnd_LF fuel sections cur d mem pre post :
  at_ d pre (LF :: post) ->
  exists d', lineEnd fuel sections cur d mem = scan fuel sections cur (d', mem) /\
             at_ d' (pre ++ [LF]) post.
Proof.
  intros Hat. destruct (handleNewline_LF _ _ _ Hat) as (d' & Hnl & Hat').
  exists d'. split; [|exact Hat']. unfold lineEnd. now rewrite Hnl.
Qed.

Lemma handleNewline_none d : isNewlineChar (scanner.peek d) = false ->
  scanner.handleNewline d = (false, d).
Proof.
  unfold isNewlineChar, scanner.handleNewline. intros H.
  apply orb_false_iff in H as [Hlf Hcr]. now rewrite Hcr, Hlf.
Qed.

Lemma lineEnd_missing fuel sections cur d mem pre post :
  at_ d pre post ->
  match post with [] => True | c :: _ => isNewlineChar c = false end ->
  lineEnd fuel sections cur d mem
  = (Err (errExpectedNewLine (scanner.lineNum d) (scanner.charNum d)), (d, mem)).
Proof.
  intros Hat Hpost. unfold lineEnd. rewrite handleNewline_none; [reflexivity|].
  destruct post as [|c post].
  - now rewrite (at_peek_end _ _ Hat).
  - now rewrite (at_peek _ _ _ _ Hat).
Qed.

End LineRounds.

(** ** Comment lines, and where a NUL byte stands *)

Section Comments.
Context {runtime : Runtime}.

(** X3: a line that starts with [#] or [;] is a comment: it is read up to
    its line break and has no effect; the loop goes on with the next line in
    the same section and with the same target. *)
Theorem scan_comment_line fuel sections cur (d : scanner.t) (mem : GoValue) pre c w post :
  (c == "#"%char) || (c == ";"%char) = true ->
  forallb plain w = true ->
  at_ d pre (c :: w ++ LF :: post) ->
  (length w + 2 < fuel)%nat ->
  exists d',
    scan (S fuel) sections cur (d, mem) = scan fuel sections cur (d', mem) /\
    at_ d' (pre ++ c :: w ++ [LF]) post.
Proof.
  intros Hc Hw Hat Hfuel. destruct fuel as [|fuel]; [lia|].
  assert (Hpc : plain c = true).
  { apply orb_true_iff in Hc as [Hc|Hc]; apply char_eqb_eq in Hc; now subst. }
  destruct (takeUntil_newline (S fuel) d pre (c :: w) (LF :: post) Hat) as (d1 & Ht & Hat1).
  { cbn [forallb]. now rewrite Hpc. }
  { reflexivity. }
  { cbn [length]. lia. }
  destruct (lineEnd_LF (S fuel) sections cur d1 mem _ _ Hat1) as (d2 & Hend & Hat2).
  exists d2. split; [|at_exact Hat2].
  rewrite (scan_comment_round fuel sections cur d mem (c :: w) d1); [exact Hend| |exact Ht].
  now rewrite (at_peek _ _ _ _ Hat).
Qed.

End Comments.

Lemma scan_comment_line_witness :
  exists d',
    scan (runtime := bareRuntime) 11 [] None
      (scanner.init (document ["# A note"; "[A]"]), Conf [] 0)
    = scan (runtime := bareRuntime) 10 [] None (d', Conf [] 0) /\
    at_ d' ([] ++ "#"%char :: bs " A note" ++ [LF]) (document ["[A]"]).
Proof.
  apply (scan_comment_line (runtime := bareRuntime) 10 [] None
           (scanner.init (document ["# A note"; "[A]"])) (Conf [] 0) []
           "#"%char (bs " A note") (document ["[A]"])).
  - reflexivity.
  - reflexivity.
  - split; reflexivity.
  - cbn. lia.
Defined.

(** [advance] does not move over a NUL byte, so a producer that accepts it
    is called for ever. *)
Lemma take_loop_at_NUL (g : ascii -> bool) d :
  g NUL = true -> scanner.peek d = NUL ->
  (scanner.bufPos d <? length (scanner.buf d))%nat = true ->
  forall fuel acc,
    scanner.take_loop fuel
      (fun base => if g (scanner.peek base)
                   then let (c, base) := scanner.advance base in (Ok [c], base)
                   else (Err stop, base)) acc d
    = (Timeout, d).
Proof.
  intros Hg Hpeek Hin. induction fuel as [|fuel IH]; intros acc;
    cbn [scanner.take_loop]; rewrite Hin; [reflexivity|].
  rewrite Hpeek, Hg. unfold scanner.advance. rewrite Hpeek.
  change (NUL == NUL) with true. cbv iota. apply IH.
Qed.

Lemma take_loop_to_NUL (g : ascii -> bool) w :
  g NUL = true ->
  forall fuel acc d pre post,
    at_ d pre (w ++ NUL :: post) ->
    forallb (fun c => g c && plain c) w = true ->
    exists d',
      scanner.take_loop fuel
        (fun base => if g (scanner.peek base)
                     then let (c, base) := scanner.advance base in (Ok [c], base)
                     else (Err stop, base)) acc d
      = (Timeout, d').
Proof.
  intros Hg. induction w as [|c w IH]; intros fuel acc d pre post Hat Hall.
  - cbn [app] in Hat. exists d. apply take_loop_at_NUL; [assumption| |].
    + exact (at_peek _ _ _ _ Hat).
    + exact (at_inside _ _ _ _ Hat).
  - cbn [app] in Hat. cbn [forallb] in Hall. apply andb_true_iff in Hall as [Hc Hall].
    apply andb_true_iff in Hc as [Hgc Hc].
    destruct fuel as [|fuel]; cbn [scanner.take_loop]; rewrite (at_inside _ _ _ _ Hat);
      [now exists d|].
    rewrite (at_peek _ _ _ _ Hat), Hgc.
    destruct (advance_plain _ _ _ _ Hat Hc) as (d1 & -> & Hat1).
    exact (IH fuel (acc ++ [c]) d1 _ post Hat1 Hall).
Qed.

Section NulBytes.
Context {runtime : Runtime}.

(** X4: a NUL byte inside a comment line stops the scanner without ending
    the loop that reads the comment: whatever the fuel, [scan] does not
    return, and the target is not touched. *)
Theorem scan_NUL_in_comment_diverges sections cur (d : scanner.t) (mem : GoValue)
    pre c w post :
  (c == "#"%char) || (c == ";"%char) = true ->
  forallb plain w = true ->
  at_ d pre (c :: w ++ NUL :: post) ->
  forall fuel, exists d', scan fuel sections cur (d, mem) = (Timeout, (d', mem)).
Proof.
  intros Hc Hw Hat fuel.
  assert (Hpc : plain c = true).
  { apply orb_true_iff in Hc as [Hc0|Hc0]; apply char_eqb_eq in Hc0; now subst. }
  assert (Hpeek : scanner.peek d = c) by exact (at_peek _ _ _ _ Hat).
  assert (Hd : (c == " "%char) = false /\ (c == NUL) = false /\
               isNewlineChar c = false /\ isNameChar c = false /\
               (c == "["%char) = false).
  { apply orb_true_iff in Hc as [Hc0|Hc0]; apply char_eqb_eq in Hc0; rewrite Hc0;
      repeat split; reflexivity. }
  destruct Hd as (Hsp & Hnul & Hnl & Hname & Hbr).
  destruct fuel as [|fuel]; [now exists d|].
  scan_open.
  destruct fuel as [|fuel].
  - exists d. unfold Decoder.skipSpaces, bind, scanner.takeWhile, scanner.take.
    cbn [scanner.take_loop]. now rewrite (at_inside _ _ _ _ Hat).
  - rewrite skipSpaces_no_space by (now rewrite Hpeek).
    rewrite Hpeek, Hnul, Hnl, Hname, Hbr, Hc.
    unfold bind, onScanner. cbn [fst snd].
    destruct (take_loop_to_NUL (fun x => negb (isNewlineChar x)) (c :: w) eq_refl
                (S fuel) [] d pre post Hat) as (d' & Ht).
    { cbn [forallb]. rewrite Hnl, Hpc. cbn [negb andb].
      rewrite forallb_forall in *. intros x Hx. specialize (Hw x Hx).
      rewrite Hw. unfold plain in Hw. apply andb_true_iff in Hw as [_ ->]. reflexivity. }
    exists d'. unfold scanner.takeUntil, scanner.take. now rewrite Ht.
Qed.

(** X5: in front of a NUL byte, or at the end of the buffer, the loop of
    [scan] returns without error: [Unmarshal] of the empty document, or of
    a document whose first byte is NUL, succeeds whatever follows the NUL
    and leaves the target as it was. *)
Theorem scan_stops_at_NUL {methods : Methods} fuel :
  (forall sections cur (d : scanner.t) (mem : GoValue),
      scanner.peek d = NUL ->
      scan (S (S fuel)) sections cur (d, mem) = (Ok tt, (d, mem))) /\
  (forall data value sections mem a,
      match data with [] => True | c :: _ => c = NUL end ->
      SectionsOf value = Ok (sections, None) ->
      Indirect value = Some (mem, a) ->
      Unmarshal (S (S fuel)) data value = (Ok tt, Some mem)).
Proof.
  assert (Hscan : forall sections cur (d : scanner.t) (mem : GoValue),
             scanner.peek d = NUL ->
             scan (S (S fuel)) sections cur (d, mem) = (Ok tt, (d, mem))).
  { intros sections cur d mem Hpeek. scan_open.
    rewrite skipSpaces_no_space by (rewrite Hpeek; reflexivity).
    rewrite Hpeek. reflexivity. }
  split; [exact Hscan|].
  intros data value sections mem a Hdata Hs Hroot.
  unfold Unmarshal, Decode. rewrite Hs, Hroot. cbn [ReadAll Bytes_Reader fmap option_fmap option_map fst].
  rewrite Hscan; [reflexivity|].
  destruct data as [|c data]; [reflexivity|]. now subst.
Qed.

End NulBytes.

Lemma scan_NUL_in_comment_diverges_witness :
  exists d',
    scan (runtime := bareRuntime) 1000 [] None
      (scanner.init (bs "; a" ++ NUL :: bs "b" ++ [LF]), Conf [] 0)
    = (Timeout, (d', Conf [] 0)).
Proof.
  apply (scan_NUL_in_comment_diverges (runtime := bareRuntime) [] None
           (scanner.init (bs "; a" ++ NUL :: bs "b" ++ [LF])) (Conf [] 0) []
           ";"%char (bs " a") (bs "b" ++ [LF])).
  - reflexivity.
  - reflexivity.
  - split; reflexivity.
Defined.

Lemma scan_stops_at_NUL_witness :
  scan (runtime := bareRuntime) 2 [] None (scanner.mk (bs "[A]" ++ [LF; NUL] ++ bs "k=1") 4 2 1 3,
                                        Conf [] 0)
  = (Ok tt, (scanner.mk (bs "[A]" ++ [LF; NUL] ++ bs "k=1") 4 2 1 3, Conf [] 0)) /\
  Unmarshal (methods := noMethods) (runtime := bareRuntime) 2
    (NUL :: document ["[A]"; "n=7"]) (addressOf (Conf (bs "x") 1))
  = (Ok tt, Some (Conf (bs "x") 1)).
Proof.
  split.
  - apply (proj1 (scan_stops_at_NUL (methods := noMethods) (runtime := bareRuntime) 0)).
    reflexivity.
  - eapply (proj2 (scan_stops_at_NUL (methods := noMethods) (runtime := bareRuntime) 0)).
    + reflexivity.
    + vm_compute. reflexivity.
    + reflexivity.
Defined.
(** ** Lines that are refused *)

Lemma closesValue_spec post :
  closesValue post = true ->
  endsValue post /\
  match post with
  | [] => True
  | c :: _ => isNameCharOrDigit c = false /\ (c == "."%char) = false
  end.
Proof.
  destruct post as [|c post]; [now split|]. unfold closesValue.
  rewrite !andb_true_iff, !negb_true_iff. intros ((((H1 & H2) & H3) & H4) & H5).
  repeat split; assumption.
Qed.

(** [literal] reads a bare text that no byte of a bare text follows. *)
Lemma literal_bare_any fuel d pre t post :
  bareText t = true ->
  at_ d pre (t ++ post) ->
  match post with
  | [] => True
  | c :: _ => isNameCharOrDigit c = false /\ (c == "."%char) = false
  end ->
  (length t < fuel)%nat ->
  exists d', Decoder.literal fuel d = (Ok t, d') /\ at_ d' (pre ++ t) post.
Proof.
  intros Hb Hat Hpost Hfuel.
  destruct (bareText_inv _ Hb) as (c0 & w & -> & Hall & Hkind).
  assert (Hpeek : scanner.peek d = c0) by exact (at_peek _ _ _ _ Hat).
  assert (H0 : isNameCharOrDigit c0 = true)
    by (cbn [forallb] in Hall; now apply andb_true_iff in Hall).
  destruct (isNameCharOrDigit_facts _ H0) as (_ & _ & Hsq & Hdq & _).
  unfold Decoder.literal, bind, get, call, ret. rewrite Hpeek, Hsq, Hdq.
  destruct Hkind as [[Hd Hds]|Hn].
  - destruct (takeWhile_run isDigit isDigit_plain (c0 :: w) fuel d pre post
                Hat Hds) as (d1 & Htw & Hat1); [|exact Hfuel|].
    { destruct post as [|c post]; [exact I|]. destruct Hpost as [Hc _].
      destruct (isDigit c) eqn:E; [|reflexivity].
      apply isDigit_isNameCharOrDigit in E. congruence. }
    exists d1. split; [|exact Hat1]. rewrite Hd, Htw.
    rewrite consume_miss; [reflexivity|].
    destruct post as [|c post].
    + now rewrite (at_peek_end _ _ Hat1).
    + rewrite (at_peek _ _ _ _ Hat1). apply Hpost.
  - destruct (takeWhile_run isNameCharOrDigit isNameCharOrDigit_plain (c0 :: w) fuel d pre
                post Hat Hall) as (d1 & Htw & Hat1); [|exact Hfuel|].
    { destruct post as [|c post]; [exact I|]. apply Hpost. }
    exists d1. split; [|exact Hat1].
    now rewrite (isNameChar_not_digit _ Hn), Hn.
Qed.

Lemma atom_bare y :
  atomOK y = true ->
  (exists tn s, y = reflect.VString tn s) \/ bareText (atomText y) = true.
Proof.
  intros Hok. destruct y; try discriminate Hok; cbn [atomText].
  - right. now destruct b.
  - right. destruct (atomOK_int _ _ Hok) as [Hi _].
    destruct (FormatInt_nonneg i Hi) as [Hf _]. rewrite Hf.
    destruct (FormatUint_digits i ltac:(lia)) as (Hne & Hd & _).
    destruct (FormatUint i) as [|c ds]; [contradiction|]. unfold bareText.
    rewrite Hd. cbn [forallb] in Hd. apply andb_true_iff in Hd as [-> _]. reflexivity.
  - right. destruct (atomOK_uint _ _ Hok) as [Hu _].
    destruct (FormatUint_digits u Hu) as (Hne & Hd & _).
    destruct (FormatUint u) as [|c ds]; [contradiction|]. unfold bareText.
    rewrite Hd. cbn [forallb] in Hd. apply andb_true_iff in Hd as [-> _]. reflexivity.
  - left. eauto.
Qed.

Lemma bareText_peek d pre t post :
  bareText t = true -> at_ d pre (t ++ post) -> (scanner.peek d == " "%char) = false.
Proof.
  intros Hb Hat. destruct (bareText_inv _ Hb) as (c0 & w & -> & Hall & _).
  rewrite (at_peek _ _ _ _ Hat). cbn [forallb] in Hall.
  apply andb_true_iff in Hall as [H0 _]. now apply isNameCharOrDigit_not_space.
Qed.

(** The text of an atom, in front of anything that continues no value, is
    read by [value] as the raw text of the atom. *)
Lemma value_atom_then fuel d pre y post :
  atomOK y = true ->
  at_ d pre (atomText y ++ post) ->
  closesValue post = true ->
  (length (atomText y) + 2 < fuel)%nat ->
  exists d', Decoder.value fuel d = (Ok (atomRaw y), d') /\ at_ d' (pre ++ atomText y) post.
Proof.
  intros Hok Hat Hpost Hfuel. destruct fuel as [|[|fuel]]; try lia.
  destruct (closesValue_spec _ Hpost) as [Hends Hbare].
  destruct (atom_bare y Hok) as [(tn & s & ->)|Hb].
  - cbn [atomOK atomText atomRaw] in *.
    apply andb_true_iff in Hok as [Hok _]. apply andb_true_iff in Hok as [Hv Hq].
    rewrite (quoteString_valid s Hv) in *.
    assert (length s <= length (flat_map quoteByte s))%nat.
    { clear. induction s as [|c s IH]; cbn; [lia|]. rewrite length_app.
      assert (1 <= length (quoteByte c))%nat; [|lia].
      unfold quoteByte. repeat match goal with |- context [if ?b then _ else _] => destruct b end;
        try destruct (hex_Encode c); cbn; lia. }
    cbn [app length] in Hat, Hfuel. rewrite length_app in Hfuel.
    rewrite <- app_assoc in Hat. cbn [app] in Hat.
    destruct (literal_quoted (S fuel) d pre s post Hq Hat ltac:(lia)) as (d1 & Hl & Hat1).
    exists d1. split; [|exact Hat1].
    eapply value_single; [now rewrite (at_peek _ _ _ _ Hat)|exact Hl|exact Hat1|exact Hends].
  - assert (Hraw : atomRaw y = atomText y).
    { destruct y; try reflexivity. discriminate Hb || (cbn in Hb; destruct Hok). }
    destruct (literal_bare_any (S fuel) d pre (atomText y) post Hb Hat Hbare ltac:(lia))
      as (d1 & Hl & Hat1).
    exists d1. split; [|exact Hat1]. rewrite Hraw.
    eapply value_single; [exact (bareText_peek _ _ _ _ Hb Hat)|exact Hl|exact Hat1|exact Hends].
Qed.
Lemma noBreak_spec post :
  noBreak post = true -> match post with [] => True | c :: _ => isNewlineChar c = false end.
Proof. destruct post as [|c post]; [auto|]. unfold noBreak. now rewrite negb_true_iff. Qed.

(** [decodeKind] of the raw text of an atom writes the atom over whatever
    value of its type the location held. *)
Lemma decodeKind_atom_over {runtime : Runtime} y old p mem :
  atomOK y = true ->
  atomRaw y <> [] ->
  reflect.load mem p = Some old ->
  reflect.typeOf old = reflect.typeOf y ->
  decodeKind (reflect.typeOf y) (atomRaw y) p mem
  = (Ok tt, reflect.modify mem p (fun _ => y)).
Proof.
  intros Hok Hne Hload Hty.
  destruct y; try discriminate Hok; cbn [atomText atomRaw reflect.typeOf] in *.
  - assert (Hd : decodeKind (reflect.TBool tn) (FormatBool b) p mem
                 = (Ok tt, reflect.modify mem p (SetBool b))) by (now destruct b).
    rewrite Hd. f_equal. apply modify_ext. intros x Hx.
    rewrite Hload in Hx. injection Hx as <-.
    destruct old; try discriminate Hty. injection Hty as ->. reflexivity.
  - destruct (atomOK_int _ _ Hok) as [Hi Hw].
    destruct (FormatInt_nonneg i Hi) as [Hf Hp].
    assert (Hd : decodeKind (reflect.TInt tn k) (FormatInt i) p mem
                 = (Ok tt, reflect.modify mem p (SetInt i))).
    { destruct (FormatInt i) eqn:E; [contradiction|]. cbn [decodeKind]. now rewrite Hp. }
    rewrite Hd. f_equal. apply modify_ext. intros x Hx.
    rewrite Hload in Hx. injection Hx as <-.
    destruct old; try discriminate Hty. injection Hty as -> ->. cbn. now rewrite Hw.
  - destruct (atomOK_uint _ _ Hok) as [Hu Hw].
    destruct (FormatUint_digits u Hu) as (_ & _ & Hp).
    assert (Hd : decodeKind (reflect.TUint tn k) (FormatUint u) p mem
                 = (Ok tt, reflect.modify mem p (SetUint u))).
    { destruct (FormatUint u) eqn:E; [contradiction|]. cbn [decodeKind]. now rewrite Hp. }
    rewrite Hd. f_equal. apply modify_ext. intros x Hx.
    rewrite Hload in Hx. injection Hx as <-.
    destruct old; try discriminate Hty. injection Hty as -> ->. cbn. now rewrite Hw.
  - assert (Hd : decodeKind (reflect.TString tn) s p mem
                 = (Ok tt, reflect.modify mem p (SetString s))).
    { destruct s; [contradiction|]. reflexivity. }
    rewrite Hd. f_equal. apply modify_ext. intros x Hx.
    rewrite Hload in Hx. injection Hx as <-.
    destruct old; try discriminate Hty. injection Hty as ->. reflexivity.
Qed.

(** [decode] of the text [value] read for an atom, into a settable location
    that holds a value of the atom's type. *)
Lemma decode_atom_over {runtime : Runtime} y old p mem :
  atomOK y = true ->
  atomRaw y <> [] ->
  reflect.load mem p = Some old ->
  reflect.typeOf old = reflect.typeOf y ->
  decode (TrimSpace (atomRaw y)) (reflect.At p true) mem
  = (Ok tt, reflect.modify mem p (fun _ => y)).
Proof.
  intros Hok Hne Hload Hty. rewrite TrimSpace_atomRaw by assumption.
  unfold decode. cbn [reflect.resolve]. rewrite Hload.
  cbn [fmap option_fmap option_map].
  destruct (atomRaw y) as [|r raw] eqn:Hraw; [contradiction|].
  rewrite Hty, <- Hraw. apply (decodeKind_atom_over y old); assumption || congruence.
Qed.

Section RefusedLines.
Context {runtime : Runtime}.

(** X7: a line that starts with a name which no equals sign follows is an
    error: the unexpected character is the byte behind the name, reported
    at the position behind the name, and the target is not touched. *)
Theorem scan_key_without_equals fuel sections cur (d : scanner.t) (mem : GoValue)
    pre name c post :
  validName true name = true ->
  at_ d pre (name ++ c :: post) ->
  isNameCharOrDigit c = false -> (c == " "%char) = false -> (c == "="%char) = false ->
  (length name < fuel)%nat ->
  exists d',
    scan (S fuel) sections cur (d, mem)
    = (Err (errUnexpectedChar c (scanner.lineNum d') (scanner.charNum d')), (d', mem)) /\
    at_ d' (pre ++ name) (c :: post).
Proof.
  intros Hname Hat Hc Hsp Heq Hfuel.
  destruct (validName_inv _ _ Hname) as (c0 & w & -> & Hw & Hc0).
  specialize (Hc0 eq_refl).
  destruct (name_run fuel d pre (c0 :: w) c post Hat ltac:(discriminate) Hw Hc Hsp Hfuel)
    as (d1 & Hn & Hat1).
  exists d1. split; [|exact Hat1].
  destruct fuel as [|fuel]; [lia|].
  rewrite (scan_key_no_equals fuel sections cur d mem (c0 :: w) d1);
    try assumption.
  - now rewrite (at_peek _ _ _ _ Hat1).
  - now rewrite (at_peek _ _ _ _ Hat).
  - now rewrite (at_peek _ _ _ _ Hat1).
Qed.

(** X8: a header needs a name and its closing bracket: when the bracket is
    followed by no name, or the name by a byte other than the closing
    bracket, [scan] ends with the error for that unexpected byte and the
    target is not touched. *)
Theorem scan_bad_header fuel sections cur (d : scanner.t) (mem : GoValue)
    pre name c post :
  at_ d pre ("["%char :: name ++ c :: post) ->
  forallb isNameCharOrDigit name = true ->
  isNameCharOrDigit c = false -> (c == " "%char) = false ->
  name = [] \/ (c == "]"%char) = false ->
  (length name < fuel)%nat ->
  exists d',
    scan (S fuel) sections cur (d, mem)
    = (Err (errUnexpectedChar c (scanner.lineNum d') (scanner.charNum d')), (d', mem)) /\
    at_ d' (pre ++ "["%char :: name) (c :: post).
Proof.
  intros Hat Hw Hc Hsp Hbad Hfuel.
  destruct (advance_plain _ _ _ _ Hat eq_refl) as (d1 & Hadv & Hat1).
  destruct (name_any fuel d1 _ name c post Hat1 Hw Hc Hsp Hfuel) as (d2 & Hn & Hat2).
  exists d2. split; [|at_exact Hat2].
  destruct fuel as [|fuel]; [lia|].
  rewrite (scan_header_round fuel sections cur d mem name d2);
    [|exact (at_peek _ _ _ _ Hat)|now rewrite Hadv].
  rewrite (at_peek _ _ _ _ Hat2).
  destruct name as [|c0 name]; [reflexivity|].
  destruct Hbad as [Hbad|Hbad]; [discriminate|].
  rewrite consume_miss by now rewrite (at_peek _ _ _ _ Hat2).
  now rewrite (at_peek _ _ _ _ Hat2).
Qed.

(** X9: every line needs its line break, the last one too.  A header, a key
    line or a comment that is followed by something else than a line break,
    or by the end of the buffer, ends [scan] with the error for an expected
    new line; the value of a key line has been assigned by then and stays
    assigned. *)
Theorem scan_missing_newline fuel sections (d : scanner.t) (mem : GoValue) pre :
  (forall cur name section post,
      at_ d pre ("["%char :: name ++ "]"%char :: post) ->
      validName false name = true ->
      findSection sections name = Some section ->
      noBreak post = true ->
      (length name + 1 < fuel)%nat ->
      exists d',
        scan (S fuel) sections cur (d, mem)
        = (Err (errExpectedNewLine (scanner.lineNum d') (scanner.charNum d')), (d', mem)) /\
        at_ d' (pre ++ "["%char :: name ++ ["]"%char]) post) /\
  (forall section name y fld p old post,
      at_ d pre (name ++ "="%char :: atomText y ++ post) ->
      validName true name = true ->
      atomOK y = true -> atomRaw y <> [] ->
      closesValue post = true -> noBreak post = true ->
      Section_Field section name = Some fld ->
      Field.Value fld = reflect.At p true ->
      reflect.load mem p = Some old ->
      reflect.typeOf old = reflect.typeOf y ->
      (length name + length (atomText y) + 2 < fuel)%nat ->
      exists d',
        scan (S fuel) sections (Some section) (d, mem)
        = (Err (errExpectedNewLine (scanner.lineNum d') (scanner.charNum d')),
           (d', reflect.modify mem p (fun _ => y))) /\
        at_ d' (pre ++ name ++ "="%char :: atomText y) post) /\
  (forall cur c w,
      at_ d pre (c :: w) ->
      (c == "#"%char) || (c == ";"%char) = true ->
      forallb plain w = true ->
      (length w + 1 < fuel)%nat ->
      exists d',
        scan (S fuel) sections cur (d, mem)
        = (Err (errExpectedNewLine (scanner.lineNum d') (scanner.charNum d')), (d', mem)) /\
        at_ d' (pre ++ c :: w) []).
Proof.
  split; [|split].
  - intros cur name section post Hat Hname Hfind Hpost Hfuel.
    destruct (validName_inv _ _ Hname) as (c & w & -> & Hw & _).
    destruct (advance_plain _ _ _ _ Hat eq_refl) as (d1 & Hadv & Hat1).
    destruct (name_run fuel d1 _ (c :: w) "]"%char post Hat1 ltac:(discriminate) Hw
                eq_refl eq_refl ltac:(lia)) as (d2 & Hn & Hat2).
    destruct (consume_hit _ _ _ _ Hat2 eq_refl) as (d3 & Hc & Hat3).
    exists d3. split; [|at_exact Hat3].
    destruct fuel as [|fuel]; [lia|].
    rewrite (scan_header_round fuel sections cur d mem (c :: w) d2);
      [|exact (at_peek _ _ _ _ Hat)|now rewrite Hadv].
    rewrite Hc, Hfind.
    exact (lineEnd_missing _ _ _ _ _ _ _ Hat3 (noBreak_spec _ Hpost)).
  - intros section name y fld p old post Hat Hname Hok Hne Hcl Hnb Hfld Hval Hload Hty Hfuel.
    destruct (validName_inv _ _ Hname) as (c & w & -> & Hw & Hc).
    specialize (Hc eq_refl).
    destruct (name_run fuel d pre (c :: w) "="%char _ Hat ltac:(discriminate) Hw
                eq_refl eq_refl ltac:(cbn [length] in *; lia)) as (d1 & Hn & Hat1).
    destruct (consume_hit _ _ _ _ Hat1 eq_refl) as (d2 & Heq & Hat2).
    destruct (value_atom_then fuel d2 _ y post Hok Hat2 Hcl ltac:(lia)) as (d3 & Hv & Hat3).
    exists d3. split; [|at_exact Hat3].
    destruct fuel as [|fuel]; [lia|].
    rewrite (scan_key_round fuel sections (Some section) d mem (c :: w) (atomRaw y) d1 d2 d3);
      try assumption; [|now rewrite (at_peek _ _ _ _ Hat)].
    rewrite Hfld, Hval, (decode_atom_over y old p mem Hok Hne Hload Hty).
    exact (lineEnd_missing _ _ _ _ _ _ _ Hat3 (noBreak_spec _ Hnb)).
  - intros cur c w Hat Hc Hw Hfuel.
    assert (Hpc : plain c = true).
    { apply orb_true_iff in Hc as [Hc|Hc]; apply char_eqb_eq in Hc; now subst. }
    destruct fuel as [|fuel]; [lia|].
    rewrite <- (app_nil_r (c :: w)) in Hat.
    destruct (takeUntil_newline (S fuel) d pre (c :: w) [] Hat) as (d1 & Ht & Hat1).
    { cbn [forallb]. now rewrite Hpc. }
    { exact I. }
    { cbn [length]. lia. }
    exists d1. split; [|exact Hat1].
    rewrite (scan_comment_round fuel sections cur d mem (c :: w) d1); [| |exact Ht].
    + exact (lineEnd_missing _ _ _ _ _ _ _ Hat1 I).
    + rewrite app_nil_r in Hat. now rewrite (at_peek _ _ _ _ Hat).
Qed.

End RefusedLines.

Lemma scan_key_without_equals_witness :
  exists d',
    scan (runtime := bareRuntime) 9 [] None (scanner.init (document ["width:1024"]), Conf [] 0)
    = (Err (errUnexpectedChar ":"%char (scanner.lineNum d') (scanner.charNum d')),
       (d', Conf [] 0)) /\
    at_ d' ([] ++ bs "width") (":"%char :: document ["1024"]).
Proof.
  apply (scan_key_without_equals (runtime := bareRuntime) 8 [] None
           (scanner.init (document ["width:1024"])) (Conf [] 0) [] (bs "width") ":"%char
           (document ["1024"])).
  - reflexivity.
  - split; reflexivity.
  - reflexivity.
  - reflexivity.
  - reflexivity.
  - vm_compute. lia.
Defined.

Lemma scan_bad_header_witness :
  (exists d',
     scan (runtime := bareRuntime) 9 [] None (scanner.init (document ["[]"]), Conf [] 0)
     = (Err (errUnexpectedChar "]"%char (scanner.lineNum d') (scanner.charNum d')),
        (d', Conf [] 0)) /\
     at_ d' ([] ++ "["%char :: []) ("]"%char :: [LF])) /\
  (exists d',
     scan (runtime := bareRuntime) 9 [] None (scanner.init (document ["[A.B]"]), Conf [] 0)
     = (Err (errUnexpectedChar "."%char (scanner.lineNum d') (scanner.charNum d')),
        (d', Conf [] 0)) /\
     at_ d' ([] ++ "["%char :: bs "A") ("."%char :: document ["B]"])).
Proof.
  split.
  - apply (scan_bad_header (runtime := bareRuntime) 8 [] None
             (scanner.init (document ["[]"])) (Conf [] 0) [] [] "]"%char [LF]).
    + split; reflexivity.
    + reflexivity.
    + reflexivity.
    + reflexivity.
    + left. reflexivity.
    + vm_compute. lia.
  - apply (scan_bad_header (runtime := bareRuntime) 8 [] None
             (scanner.init (document ["[A.B]"])) (Conf [] 0) [] (bs "A") "."%char
             (document ["B]"])).
    + split; reflexivity.
    + reflexivity.
    + reflexivity.
    + reflexivity.
    + right. reflexivity.
    + vm_compute. lia.
Defined.

Lemma scan_missing_newline_witness :
  (exists d',
     scan (runtime := bareRuntime) 9 [Section.mk (bs "A") [] false] None
       (scanner.init (bs "[A]"), Conf [] 0)
     = (Err (errExpectedNewLine (scanner.lineNum d') (scanner.charNum d')), (d', Conf [] 0)) /\
     at_ d' ([] ++ "["%char :: bs "A" ++ ["]"%char]) []) /\
  (let s := Section.mk (bs "A")
              [Field.mk (bs "n") (reflect.At [reflect.SField 0; reflect.SField 1] true)
                        false false] false in
   exists d',
     scan (runtime := bareRuntime) 9 [s] (Some s)
       (scanner.mk (document ["[A]"] ++ bs "n=7#seven") 4 2 1 3, Conf [] 3)
     = (Err (errExpectedNewLine (scanner.lineNum d') (scanner.charNum d')),
        (d', reflect.modify (Conf [] 3) [reflect.SField 0; reflect.SField 1]
               (fun _ => int_ 7))) /\
     at_ d' (document ["[A]"] ++ bs "n" ++ "="%char :: atomText (int_ 7)) (bs "#seven")) /\
  (exists d',
     scan (runtime := bareRuntime) 9 [] None (scanner.init (bs "; end"), Conf [] 0)
     = (Err (errExpectedNewLine (scanner.lineNum d') (scanner.charNum d')), (d', Conf [] 0)) /\
     at_ d' ([] ++ ";"%char :: bs " end") []).
Proof.
  split; [|split].
  - apply (proj1 (scan_missing_newline (runtime := bareRuntime) 8 [Section.mk (bs "A") [] false]
                    (scanner.init (bs "[A]")) (Conf [] 0) []) None (bs "A")
             (Section.mk (bs "A") [] false) []).
    + split; reflexivity.
    + reflexivity.
    + reflexivity.
    + reflexivity.
    + vm_compute. lia.
  - cbv zeta.
    refine (proj1 (proj2 (scan_missing_newline (runtime := bareRuntime) 8 _
                    (scanner.mk (document ["[A]"] ++ bs "n=7#seven") 4 2 1 3)
                    (Conf [] 3) (document ["[A]"]))) _ (bs "n") (int_ 7) _
             [reflect.SField 0; reflect.SField 1] (int_ 3) (bs "#seven")
             _ _ _ _ _ _ _ _ _ _ _).
    + split; reflexivity.
    + reflexivity.
    + reflexivity.
    + discriminate.
    + reflexivity.
    + reflexivity.
    + reflexivity.
    + reflexivity.
    + reflexivity.
    + reflexivity.
    + vm_compute. lia.
  - apply (proj2 (proj2 (scan_missing_newline (runtime := bareRuntime) 8 []
                    (scanner.init (bs "; end")) (Conf [] 0) [])) None ";"%char (bs " end")).
    + split; reflexivity.
    + reflexivity.
    + reflexivity.
    + vm_compute. lia.
Defined.
(** ** Quoted values: double quotes, unknown escapes, empty values *)

(** [literal] on a text between double quotes: the bytes between the quotes,
    as they are. *)
Lemma literal_double_quoted fuel d pre text post :
  forallb (fun c => plain c && negb (c == DQUOTE)) text = true ->
  at_ d pre (DQUOTE :: text ++ DQUOTE :: post) ->
  (length text < fuel)%nat ->
  exists d',
    Decoder.literal fuel d = (Ok text, d') /\
    at_ d' (pre ++ DQUOTE :: text ++ [DQUOTE]) post.
Proof.
  intros Htext Hat Hfuel. unfold Decoder.literal, bind, get, call, ret.
  rewrite (at_peek _ _ _ _ Hat).
  change (DQUOTE == SQUOTE) with false. change (DQUOTE == DQUOTE) with true. cbv iota.
  destruct (advance_plain _ _ _ _ Hat eq_refl) as (d1 & -> & Hat1).
  unfold scanner.takeUntil, scanner.take.
  rewrite (take_loop_exact (fun c => negb (c == DQUOTE)) text fuel [] d1 _ (DQUOTE :: post)
             Hat1); [|
    rewrite forallb_forall in *; intros c Hc; specialize (Htext c Hc);
      now rewrite andb_comm | reflexivity | exact Hfuel].
  pose proof (at_moved d1 _ text (DQUOTE :: post) (scanner.lineNum d1)
                (Nat.iter (length text) (fun x => uint32 (x + 1)) (scanner.charNum d1))
                (scanner.prevLineCharNum d1) Hat1) as Hat2.
  destruct (advance_plain _ _ _ _ Hat2 eq_refl) as (d3 & -> & Hat3).
  exists d3. split; [reflexivity|]. at_exact Hat3.
Qed.

Lemma closesValue_ends post : closesValue post = true -> endsValue post.
Proof. intros H. now apply closesValue_spec. Qed.

(** The producer of a quoted body reads the encoded bytes of [s] and goes on
    with what follows them. *)
Lemma take_loop_quoted_then s :
  forall fuel acc d pre rest,
    quotable s = true ->
    at_ d pre (flat_map quoteByte s ++ rest) ->
    exists d',
      scanner.take_loop (length s + fuel) Decoder.takeStringChar acc d
      = scanner.take_loop fuel Decoder.takeStringChar (acc ++ s) d' /\
      at_ d' (pre ++ flat_map quoteByte s) rest.
Proof.
  induction s as [|c s IH]; intros fuel acc d pre rest Hq Hat.
  - cbn in *. rewrite !app_nil_r. eauto.
  - cbn in Hq. apply andb_true_iff in Hq as [Hc Hq].
    cbn [length Nat.add scanner.take_loop flat_map] in *. rewrite <- app_assoc in Hat.
    assert (Hin : (scanner.bufPos d <? length (scanner.buf d))%nat = true).
    { destruct (quoteByte c) as [|q qs] eqn:Eq.
      - exfalso. revert Eq. clear. unfold quoteByte.
        destruct ((32 <=? code c) && (code c <=? 126)); [discriminate|].
        destruct (c == LF); [discriminate|]. destruct (c == CR); [discriminate|].
        destruct (hex_Encode c). discriminate.
      - eapply at_inside. exact Hat. }
    rewrite Hin.
    destruct (takeStringChar_quoteByte c d pre _ Hc Hat) as (d1 & -> & Hat1).
    destruct (IH fuel (acc ++ [c]) d1 _ rest Hq Hat1) as (d' & -> & Hat').
    exists d'. rewrite <- !app_assoc in *. cbn. split; [reflexivity|assumption].
Qed.

(** A backslash in front of a character that names no escape. *)
Lemma takeStringChar_unknown_escape d pre c post :
  plain c = true -> knownEscape c = false ->
  at_ d pre (BACKSLASH :: c :: post) ->
  exists d', Decoder.takeStringChar d = (Err errInvalidEscape, d') /\
             at_ d' (pre ++ [BACKSLASH; c]) post.
Proof.
  intros Hp Hk Hat. unfold Decoder.takeStringChar, bind, get, call, ret, fail.
  rewrite (at_peek _ _ _ _ Hat).
  change ((BACKSLASH == NUL) || (BACKSLASH == SQUOTE) || isNewlineChar BACKSLASH) with false.
  cbv iota.
  destruct (consume_hit _ _ _ _ Hat eq_refl) as (d1 & -> & Hat1). cbn [negb].
  destruct (advance_plain _ _ _ _ Hat1 Hp) as (d2 & -> & Hat2).
  apply plain_spec in Hp as [_ Hnl]. unfold isNewlineChar in Hnl.
  apply orb_false_iff in Hnl as [Hlf Hcr].
  unfold knownEscape in Hk. repeat (apply orb_false_iff in Hk as [Hk ?]).
  rewrite Hcr, Hlf.
  repeat match goal with H : (c == _) = false |- _ => rewrite H; clear H end.
  exists d2. split; [reflexivity|]. at_exact Hat2.
Qed.

Section QuotedValues.
Context {runtime : Runtime}.

(** One round of [scan] on a key line whose value does not scan. *)
Lemma scan_key_value_error fuel sections cur (d : scanner.t) (mem : GoValue)
    fieldName e d1 d2 d3 :
  isNameChar (scanner.peek d) = true ->
  Decoder.name (S fuel) d = (Ok fieldName, d1) ->
  scanner.consume "="%char d1 = (true, d2) ->
  Decoder.value (S fuel) d2 = (Err e, d3) ->
  scan (S (S fuel)) sections cur (d, mem) = (Err e, (d3, mem)).
Proof.
  intros Hpeek Hname Heq Hvalue.
  destruct (isNameChar_dispatch _ Hpeek) as [Hnul Hnewline].
  scan_open.
  rewrite skipSpaces_no_space by (now apply isNameChar_not_space).
  rewrite Hnul, Hnewline, Hpeek.
  unfold bind, onScanner, call. cbn [fst snd].
  rewrite Hname. cbn [fst snd]. rewrite Heq. cbn [negb fst snd].
  now rewrite Hvalue.
Qed.

(** X13: between single quotes a backslash in front of a character that
    names no escape is an error: the value is refused with "invalid escape
    sequence", [scan] ends with that error, and the target is not touched. *)
Theorem scan_invalid_escape fuel sections cur (d : scanner.t) (mem : GoValue)
    pre name s c post :
  validName true name = true ->
  quotable s = true ->
  plain c = true -> knownEscape c = false ->
  at_ d pre (name ++ "="%char :: SQUOTE :: flat_map quoteByte s ++ BACKSLASH :: c :: post) ->
  (length name + length s + 3 < fuel)%nat ->
  exists d',
    scan (S fuel) sections cur (d, mem) = (Err errInvalidEscape, (d', mem)) /\
    at_ d' (pre ++ name ++ "="%char :: SQUOTE :: flat_map quoteByte s ++ [BACKSLASH; c]) post.
Proof.
  intros Hname Hq Hp Hk Hat Hfuel.
  destruct (validName_inv _ _ Hname) as (c0 & w & -> & Hw & Hc0).
  specialize (Hc0 eq_refl).
  destruct (name_run fuel d pre (c0 :: w) "="%char _ Hat ltac:(discriminate) Hw
              eq_refl eq_refl ltac:(cbn [length] in *; lia)) as (d1 & Hn & Hat1).
  destruct (consume_hit _ _ _ _ Hat1 eq_refl) as (d2 & Heq & Hat2).
  destruct (advance_plain _ _ _ _ Hat2 eq_refl) as (d3 & Hadv & Hat3).
  destruct (take_loop_quoted_then s (S (fuel - length s - 2)) [] d3 _ _ Hq Hat3)
    as (d4 & Ht & Hat4).
  destruct (takeStringChar_unknown_escape d4 _ c post Hp Hk Hat4) as (d5 & Hbad & Hat5).
  exists d5. split; [|at_exact Hat5].
  destruct fuel as [|[|fuel]]; try lia.
  apply (scan_key_value_error (S fuel) sections cur d mem (c0 :: w) errInvalidEscape d1 d2 d5);
    try assumption; [now rewrite (at_peek _ _ _ _ Hat)|].
  cbn [Decoder.value]. unfold bind at 1.
  rewrite skipSpaces_pos by (lia || now rewrite (at_peek _ _ _ _ Hat2)).
  unfold bind at 1. unfold Decoder.literal, bind, get, call, ret, scanner.take.
  rewrite (at_peek _ _ _ _ Hat2), char_eqb_refl, Hadv.
  replace (S fuel) with (length s + S (S (S fuel) - length s - 2))%nat
    by (cbn [length] in Hfuel; lia).
  rewrite Ht. cbn [scanner.take_loop].
  rewrite (at_inside _ _ _ _ Hat4), Hbad. reflexivity.
Qed.

End QuotedValues.
Lemma scan_invalid_escape_witness :
  exists d',
    scan (runtime := bareRuntime) 11 [] None
      (scanner.init (document ["k='a\qb'"]), Conf [] 0)
    = (Err errInvalidEscape, (d', Conf [] 0)) /\
    at_ d' ([] ++ bs "k" ++ "="%char :: SQUOTE :: flat_map quoteByte (bs "a")
               ++ [BACKSLASH; "q"%char]) (bs "b'" ++ [LF]).
Proof.
  apply (scan_invalid_escape (runtime := bareRuntime) 10 [] None
           (scanner.init (document ["k='a\qb'"])) (Conf [] 0) [] (bs "k") (bs "a") "q"%char
           (bs "b'" ++ [LF])).
  - reflexivity.
  - reflexivity.
  - reflexivity.
  - reflexivity.
  - split; reflexivity.
  - vm_compute. lia.
Defined.

(** ** Spaces and comments inside a line *)

Lemma space_not_name : isNameCharOrDigit " "%char = false /\ (" "%char == "."%char) = false.
Proof. split; reflexivity. Qed.

(** [name] skips the spaces in front of the name and behind it. *)
Lemma name_spaced fuel d pre a w b c post :
  at_ d pre (replicate a " "%char ++ w ++ replicate b " "%char ++ c :: post) ->
  w <> [] -> forallb isNameCharOrDigit w = true ->
  isNameCharOrDigit c = false -> (c == " "%char) = false ->
  (a < fuel)%nat -> (length w < fuel)%nat -> (b < fuel)%nat ->
  exists d', Decoder.name fuel d = (Ok w, d') /\
             at_ d' (pre ++ replicate a " "%char ++ w ++ replicate b " "%char) (c :: post).
Proof.
  intros Hat Hne Hw Hc Hsp Ha Hlen Hb.
  destruct w as [|c0 w]; [contradiction|].
  assert (Hc0 : isNameCharOrDigit c0 = true)
    by (cbn [forallb] in Hw; now apply andb_true_iff in Hw).
  destruct (skipSpaces_run fuel d pre a _ Hat) as (d1 & Hs1 & Hat1);
    [cbn [app]; now apply isNameCharOrDigit_not_space|exact Ha|].
  destruct (takeWhile_run isNameCharOrDigit isNameCharOrDigit_plain (c0 :: w) fuel d1 _
              (replicate b " "%char ++ c :: post) Hat1 Hw) as (d2 & Ht & Hat2);
    [destruct b; [exact Hc|reflexivity]|exact Hlen|].
  destruct (skipSpaces_run fuel d2 _ b (c :: post) Hat2 Hsp Hb) as (d3 & Hs3 & Hat3).
  exists d3. split; [|at_from Hat3].
  unfold Decoder.name, bind. now rewrite Hs1, Ht, Hs3.
Qed.

(** [literal] reads the text of an atom that no byte of a bare text follows. *)
Lemma literal_atom fuel d pre y post :
  atomOK y = true ->
  at_ d pre (atomText y ++ post) ->
  match post with
  | [] => True
  | c :: _ => isNameCharOrDigit c = false /\ (c == "."%char) = false
  end ->
  (length (atomText y) < fuel)%nat ->
  exists d', Decoder.literal fuel d = (Ok (atomRaw y), d') /\ at_ d' (pre ++ atomText y) post.
Proof.
  intros Hok Hat Hpost Hfuel. pose proof (atomText_length_raw y Hok) as Hlen.
  destruct (atom_bare y Hok) as [(tn & s & ->)|Hb].
  - cbn [atomOK atomText atomRaw] in *.
    apply andb_true_iff in Hok as [Hok _]. apply andb_true_iff in Hok as [Hv Hq].
    rewrite (quoteString_valid s Hv) in *.
    cbn [app] in Hat. rewrite <- app_assoc in Hat. cbn [app] in Hat.
    destruct (literal_quoted fuel d pre s post Hq Hat ltac:(lia)) as (d1 & Hl & Hat1).
    exists d1. split; [exact Hl|exact Hat1].
  - assert (Hraw : atomRaw y = atomText y).
    { destruct y; try reflexivity. discriminate Hb || (cbn in Hb; destruct Hok). }
    rewrite Hraw. now apply literal_bare_any.
Qed.

Lemma atomText_peek d pre y post :
  atomOK y = true -> at_ d pre (atomText y ++ post) -> (scanner.peek d == " "%char) = false.
Proof.
  intros Hok Hat. destruct (atom_bare y Hok) as [(tn & s & ->)|Hb].
  - cbn [atomText] in Hat. unfold quoteString in Hat. cbn [app] in Hat.
    now rewrite (at_peek _ _ _ _ Hat).
  - exact (bareText_peek _ _ _ _ Hb Hat).
Qed.

Lemma atomText_head y rest :
  atomOK y = true ->
  match atomText y ++ rest with [] => True | c :: _ => (c == " "%char) = false end.
Proof.
  intros Hok. destruct (atom_bare y Hok) as [(tn & s & ->)|Hb].
  - reflexivity.
  - destruct (bareText_inv _ Hb) as (c1 & w1 & Hy & Hall & _). rewrite Hy in *.
    cbn [app]. cbn [forallb] in Hall. apply andb_true_iff in Hall as [H0 _].
    now apply isNameCharOrDigit_not_space.
Qed.

(** [value] once its literal is read and no comma follows. *)
Lemma value_unfold fuel d d1 lit d2 d3 :
  Decoder.skipSpaces fuel d = (Ok tt, d1) ->
  Decoder.literal fuel d1 = (Ok lit, d2) ->
  Decoder.skipSpaces fuel d2 = (Ok tt, d3) ->
  (scanner.peek d3 == ","%char) = false ->
  Decoder.value (S fuel) d
  = match scanner.consume ";"%char d3 with
    | (true, d4) =>
        match scanner.takeUntil fuel isNewlineChar d4 with
        | (Ok _, d5) => (Ok lit, d5)
        | (Err e, d5) => (Err e, d5)
        | (Panic msg, d5) => (Panic msg, d5)
        | (Timeout, d5) => (Timeout, d5)
        end
    | (false, d4) => (Ok lit, d4)
    end.
Proof.
  intros Hs1 Hl Hs2 Hcomma. cbn [Decoder.value]. unfold bind at 1. rewrite Hs1.
  unfold bind at 1. rewrite Hl. unfold bind at 1. rewrite Hs2.
  unfold bind, call, ret. rewrite (consume_miss _ _ Hcomma).
  destruct (scanner.consume ";"%char d3) as [[|] d4]; [|now rewrite app_nil_r].
  destruct (scanner.takeUntil fuel isNewlineChar d4) as [[x|e|msg|] d5];
    rewrite ?app_nil_r; reflexivity.
Qed.

(** The text of an atom between spaces, in front of anything that continues
    no value. *)
Lemma value_atom_padded fuel d pre a y b post :
  atomOK y = true ->
  at_ d pre (replicate a " "%char ++ atomText y ++ replicate b " "%char ++ post) ->
  closesValue post = true ->
  (a + length (atomText y) + b + 2 < fuel)%nat ->
  exists d',
    Decoder.value fuel d = (Ok (atomRaw y), d') /\
    at_ d' (pre ++ replicate a " "%char ++ atomText y ++ replicate b " "%char) post.
Proof.
  intros Hok Hat Hpost Hfuel. destruct fuel as [|fuel]; [lia|].
  destruct (closesValue_spec _ Hpost) as [Hends Hbare].
  destruct (skipSpaces_run fuel d pre a _ Hat (atomText_head y _ Hok)) as (d1 & Hs1 & Hat1);
    [lia|].
  destruct (literal_atom fuel d1 _ y (replicate b " "%char ++ post) Hok Hat1)
    as (d2 & Hl & Hat2); [|lia|].
  { destruct b; [exact Hbare|exact space_not_name]. }
  destruct (skipSpaces_run fuel d2 _ b post Hat2) as (d3 & Hs2 & Hat3); [|lia|].
  { destruct post as [|c post]; [exact I|]. apply Hends. }
  destruct (endsValue_peek _ _ _ Hat3 Hends) as (_ & Hcomma & Hsemi).
  exists d3. split; [|at_from Hat3].
  rewrite (value_unfold fuel d d1 (atomRaw y) d2 d3 Hs1 Hl Hs2 Hcomma).
  now rewrite (consume_miss _ _ Hsemi).
Qed.

(** The text of an atom between spaces, a semicolon and a note up to the end
    of the line. *)
Lemma value_atom_commented fuel d pre a y b note post :
  atomOK y = true ->
  at_ d pre (replicate a " "%char ++ atomText y ++ replicate b " "%char
             ++ ";"%char :: note ++ post) ->
  forallb plain note = true ->
  match post with [] => True | c :: _ => isNewlineChar c = true end ->
  (a + length (atomText y) + b + length note + 2 < fuel)%nat ->
  exists d',
    Decoder.value fuel d = (Ok (atomRaw y), d') /\
    at_ d' (pre ++ replicate a " "%char ++ atomText y ++ replicate b " "%char
            ++ ";"%char :: note) post.
Proof.
  intros Hok Hat Hnote Hpost Hfuel. destruct fuel as [|fuel]; [lia|].
  destruct (skipSpaces_run fuel d pre a _ Hat (atomText_head y _ Hok)) as (d1 & Hs1 & Hat1);
    [lia|].
  destruct (literal_atom fuel d1 _ y (replicate b " "%char ++ ";"%char :: note ++ post)
              Hok Hat1) as (d2 & Hl & Hat2); [|lia|].
  { destruct b; split; reflexivity. }
  destruct (skipSpaces_run fuel d2 _ b (";"%char :: note ++ post) Hat2 eq_refl)
    as (d3 & Hs2 & Hat3); [lia|].
  destruct (consume_hit _ _ _ _ Hat3 eq_refl) as (d4 & Hsemi & Hat4).
  destruct (takeUntil_newline fuel d4 _ note post Hat4 Hnote Hpost ltac:(lia))
    as (d5 & Ht & Hat5).
  exists d5. split; [|at_from Hat5].
  rewrite (value_unfold fuel d d1 (atomRaw y) d2 d3 Hs1 Hl Hs2);
    [|now rewrite (at_peek _ _ _ _ Hat3)].
  now rewrite Hsemi, Ht.
Qed.

Section SpacedLines.
Context {runtime : Runtime}.

(** X10: inside a line spaces are skipped around the name of a header,
    around the key, around the equals sign and around the value: the header
    selects the same section, the key line assigns the same value, as the
    line without the spaces. *)
Theorem scan_spaces_inside_line fuel sections (d : scanner.t) (mem : GoValue) pre name post :
  (forall cur a b section,
      at_ d pre ("["%char :: replicate a " "%char ++ name ++ replicate b " "%char
                 ++ "]"%char :: LF :: post) ->
      validName false name = true ->
      findSection sections name = Some section ->
      (a + length name + b + 1 < fuel)%nat ->
      exists d',
        scan (S fuel) sections cur (d, mem) = scan fuel sections (Some section) (d', mem) /\
        at_ d' (pre ++ "["%char :: replicate a " "%char ++ name ++ replicate b " "%char
                ++ ["]"%char; LF]) post) /\
  (forall section a b c y fld p old,
      at_ d pre (name ++ replicate a " "%char ++ "="%char :: replicate b " "%char
                 ++ atomText y ++ replicate c " "%char ++ LF :: post) ->
      validName true name = true ->
      atomOK y = true -> atomRaw y <> [] ->
      Section_Field section name = Some fld ->
      Field.Value fld = reflect.At p true ->
      reflect.load mem p = Some old ->
      reflect.typeOf old = reflect.typeOf y ->
      (length name + a + b + length (atomText y) + c + 3 < fuel)%nat ->
      exists d',
        scan (S fuel) sections (Some section) (d, mem)
        = scan fuel sections (Some section) (d', reflect.modify mem p (fun _ => y)) /\
        at_ d' (pre ++ name ++ replicate a " "%char ++ "="%char :: replicate b " "%char
                ++ atomText y ++ replicate c " "%char ++ [LF]) post).
Proof.
  split.
  - intros cur a b section Hat Hname Hfind Hfuel.
    destruct (validName_inv _ _ Hname) as (c0 & w & -> & Hw & _).
    destruct (advance_plain _ _ _ _ Hat eq_refl) as (d1 & Hadv & Hat1).
    destruct (name_spaced fuel d1 _ a (c0 :: w) b "]"%char (LF :: post) Hat1
                ltac:(discriminate) Hw eq_refl eq_refl ltac:(lia) ltac:(lia) ltac:(lia))
      as (d2 & Hn & Hat2).
    destruct (consume_hit _ _ _ _ Hat2 eq_refl) as (d3 & Hc & Hat3).
    destruct fuel as [|fuel]; [lia|].
    destruct (lineEnd_LF (S fuel) sections (Some section) d3 mem _ _ Hat3)
      as (d4 & Hend & Hat4).
    exists d4. split; [|at_from Hat4].
    rewrite (scan_header_round fuel sections cur d mem (c0 :: w) d2);
      [|exact (at_peek _ _ _ _ Hat)|now rewrite Hadv].
    now rewrite Hc, Hfind.
  - intros section a b c y fld p old Hat Hname Hok Hne Hfld Hval Hload Hty Hfuel.
    destruct (validName_inv _ _ Hname) as (c0 & w & -> & Hw & Hc0).
    specialize (Hc0 eq_refl).
    destruct (name_spaced fuel d pre 0 (c0 :: w) a "="%char _ Hat
                ltac:(discriminate) Hw eq_refl eq_refl ltac:(lia) ltac:(lia) ltac:(lia))
      as (d1 & Hn & Hat1).
    destruct (consume_hit _ _ _ _ Hat1 eq_refl) as (d2 & Heq & Hat2).
    destruct (value_atom_padded fuel d2 _ b y c (LF :: post) Hok Hat2 eq_refl ltac:(lia))
      as (d3 & Hv & Hat3).
    destruct fuel as [|fuel]; [lia|].
    destruct (lineEnd_LF (S fuel) sections (Some section) d3
                (reflect.modify mem p (fun _ => y)) _ _ Hat3) as (d4 & Hend & Hat4).
    exists d4. split; [|at_from Hat4].
    rewrite (scan_key_round fuel sections (Some section) d mem (c0 :: w) (atomRaw y) d1 d2 d3);
      try assumption; [|cbn [app] in Hat; now rewrite (at_peek _ _ _ _ Hat)].
    now rewrite Hfld, Hval, (decode_atom_over y old p mem Hok Hne Hload Hty).
Qed.

(** X11: behind a value a semicolon starts a comment that runs to the end
    of the line: the line assigns the value as if the comment were not
    there. *)
Theorem scan_trailing_comment fuel sections section (d : scanner.t) (mem : GoValue)
    pre name y b note post fld p old :
  at_ d pre (name ++ "="%char :: atomText y ++ replicate b " "%char
             ++ ";"%char :: note ++ LF :: post) ->
  validName true name = true ->
  atomOK y = true -> atomRaw y <> [] ->
  forallb plain note = true ->
  Section_Field section name = Some fld ->
  Field.Value fld = reflect.At p true ->
  reflect.load mem p = Some old ->
  reflect.typeOf old = reflect.typeOf y ->
  (length name + length (atomText y) + b + length note + 3 < fuel)%nat ->
  exists d',
    scan (S fuel) sections (Some section) (d, mem)
    = scan fuel sections (Some section) (d', reflect.modify mem p (fun _ => y)) /\
    at_ d' (pre ++ name ++ "="%char :: atomText y ++ replicate b " "%char
            ++ ";"%char :: note ++ [LF]) post.
Proof.
  intros Hat Hname Hok Hne Hnote Hfld Hval Hload Hty Hfuel.
  destruct (validName_inv _ _ Hname) as (c0 & w & -> & Hw & Hc0).
  specialize (Hc0 eq_refl).
  destruct (name_run fuel d pre (c0 :: w) "="%char _ Hat ltac:(discriminate) Hw
              eq_refl eq_refl ltac:(cbn [length] in *; lia)) as (d1 & Hn & Hat1).
  destruct (consume_hit _ _ _ _ Hat1 eq_refl) as (d2 & Heq & Hat2).
  destruct (value_atom_commented fuel d2 _ 0 y b note (LF :: post) Hok Hat2 Hnote eq_refl
              ltac:(lia)) as (d3 & Hv & Hat3).
  destruct fuel as [|fuel]; [lia|].
  destruct (lineEnd_LF (S fuel) sections (Some section) d3
              (reflect.modify mem p (fun _ => y)) _ _ Hat3) as (d4 & Hend & Hat4).
  exists d4. split; [|at_from Hat4].
  rewrite (scan_key_round fuel sections (Some section) d mem (c0 :: w) (atomRaw y) d1 d2 d3);
    try assumption; [|now rewrite (at_peek _ _ _ _ Hat)].
  now rewrite Hfld, Hval, (decode_atom_over y old p mem Hok Hne Hload Hty).
Qed.

(** X14: a key line with an empty value (nothing, or an empty pair of
    quotes) assigns nothing: whatever the field of that name holds, and
    whether or not it can be set, the target is unchanged and the loop goes
    on with the next line. *)
Theorem scan_empty_value_keeps_field fuel sections section (d : scanner.t) (mem : GoValue)
    pre name text post :
  at_ d pre (name ++ "="%char :: text ++ LF :: post) ->
  validName true name = true ->
  text = [] \/ text = [SQUOTE; SQUOTE] \/ text = [DQUOTE; DQUOTE] ->
  (length name + 4 < fuel)%nat ->
  exists d',
    scan (S fuel) sections (Some section) (d, mem)
    = scan fuel sections (Some section) (d', mem) /\
    at_ d' (pre ++ name ++ "="%char :: text ++ [LF]) post.
Proof.
  intros Hat Hname Htext Hfuel.
  destruct (validName_inv _ _ Hname) as (c0 & w & -> & Hw & Hc0).
  specialize (Hc0 eq_refl).
  destruct (name_run fuel d pre (c0 :: w) "="%char _ Hat ltac:(discriminate) Hw
              eq_refl eq_refl ltac:(cbn [length] in *; lia)) as (d1 & Hn & Hat1).
  destruct (consume_hit _ _ _ _ Hat1 eq_refl) as (d2 & Heq & Hat2).
  destruct fuel as [|[|fuel]]; try lia.
  assert (Hv : exists d3, Decoder.value (S (S fuel)) d2 = (Ok [], d3) /\
                          at_ d3 ((pre ++ c0 :: w) ++ "="%char :: text) (LF :: post)).
  { destruct Htext as [-> | [-> | ->]].
    - destruct (value_empty fuel d2 _ post Hat2) as (d3 & Hv & Hat3).
      exists d3. split; [exact Hv|at_from Hat3].
    - destruct (literal_quoted (S fuel) d2 _ [] (LF :: post) eq_refl Hat2 ltac:(cbn; lia))
        as (d3 & Hl & Hat3).
      exists d3. split; [|at_from Hat3].
      eapply value_single; [now rewrite (at_peek _ _ _ _ Hat2)|exact Hl|exact Hat3|].
      repeat split.
    - destruct (literal_double_quoted (S fuel) d2 _ [] (LF :: post) eq_refl Hat2
                  ltac:(cbn; lia))
        as (d3 & Hl & Hat3).
      exists d3. split; [|at_from Hat3].
      eapply value_single; [now rewrite (at_peek _ _ _ _ Hat2)|exact Hl|exact Hat3|].
      repeat split. }
  destruct Hv as (d3 & Hv & Hat3).
  destruct (lineEnd_LF (S (S fuel)) sections (Some section) d3 mem _ _ Hat3)
    as (d4 & Hend & Hat4).
  exists d4. split; [|at_from Hat4].
  rewrite (scan_key_round (S fuel) sections (Some section) d mem (c0 :: w) [] d1 d2 d3);
    try assumption; [|now rewrite (at_peek _ _ _ _ Hat)].
  destruct (Section_Field section (c0 :: w)) as [field|]; [|exact Hend].
  change (TrimSpace []) with (@nil ascii). unfold decode.
  destruct (reflect.resolve mem (Field.Value field)) as [[x a]|]; exact Hend.
Qed.

End SpacedLines.

Lemma scan_spaces_inside_line_witness :
  (let s := Section.mk (bs "A")
              [Field.mk (bs "n") (reflect.At [reflect.SField 0; reflect.SField 1] true)
                        false false] false in
   exists d',
     scan (runtime := bareRuntime) 21 [s] None
       (scanner.init (document ["[ A  ]"; "n = 7"]), Conf [] 3)
     = scan (runtime := bareRuntime) 20 [s] (Some s) (d', Conf [] 3) /\
     at_ d' ([] ++ "["%char :: replicate 1 " "%char ++ bs "A" ++ replicate 2 " "%char
                ++ ["]"%char; LF]) (document ["n = 7"])) /\
  (let s := Section.mk (bs "A")
              [Field.mk (bs "n") (reflect.At [reflect.SField 0; reflect.SField 1] true)
                        false false] false in
   exists d',
     scan (runtime := bareRuntime) 21 [s] (Some s)
       (scanner.mk (document ["[A]"; "n  = 7 "; "k=''"]) 4 2 1 3, Conf [] 3)
     = scan (runtime := bareRuntime) 20 [s] (Some s)
         (d', reflect.modify (Conf [] 3) [reflect.SField 0; reflect.SField 1]
                (fun _ => int_ 7)) /\
     at_ d' (document ["[A]"] ++ bs "n" ++ replicate 2 " "%char ++ "="%char
               :: replicate 1 " "%char ++ atomText (int_ 7) ++ replicate 1 " "%char ++ [LF])
            (document ["k=''"])).
Proof.
  split; cbv zeta.
  - refine (proj1 (scan_spaces_inside_line (runtime := bareRuntime) 20 _
                     (scanner.init (document ["[ A  ]"; "n = 7"])) (Conf [] 3) [] (bs "A")
                     (document ["n = 7"])) None 1%nat 2%nat _ _ _ _ _).
    + split; reflexivity.
    + reflexivity.
    + reflexivity.
    + vm_compute. lia.
  - refine (proj2 (scan_spaces_inside_line (runtime := bareRuntime) 20 _
                     (scanner.mk (document ["[A]"; "n  = 7 "; "k=''"]) 4 2 1 3) (Conf [] 3)
                     (document ["[A]"]) (bs "n") (document ["k=''"]))
              _ 2%nat 1%nat 1%nat (int_ 7) _ [reflect.SField 0; reflect.SField 1] (int_ 3)
              _ _ _ _ _ _ _ _ _).
    + split; reflexivity.
    + reflexivity.
    + reflexivity.
    + discriminate.
    + reflexivity.
    + reflexivity.
    + reflexivity.
    + reflexivity.
    + vm_compute. lia.
Defined.

Lemma scan_trailing_comment_witness :
  let s := Section.mk (bs "A")
             [Field.mk (bs "n") (reflect.At [reflect.SField 0; reflect.SField 1] true)
                       false false] false in
  exists d',
    scan (runtime := bareRuntime) 31 [s] (Some s)
      (scanner.mk (document ["[A]"; "n=7 ; seven"]) 4 2 1 3, Conf [] 3)
    = scan (runtime := bareRuntime) 30 [s] (Some s)
        (d', reflect.modify (Conf [] 3) [reflect.SField 0; reflect.SField 1]
               (fun _ => int_ 7)) /\
    at_ d' (document ["[A]"] ++ bs "n" ++ "="%char :: atomText (int_ 7)
              ++ replicate 1 " "%char ++ ";"%char :: bs " seven" ++ [LF]) [].
Proof.
  cbv zeta.
  refine (scan_trailing_comment (runtime := bareRuntime) 30 _ _
            (scanner.mk (document ["[A]"; "n=7 ; seven"]) 4 2 1 3) (Conf [] 3)
            (document ["[A]"]) (bs "n") (int_ 7) 1%nat (bs " seven") [] _
            [reflect.SField 0; reflect.SField 1] (int_ 3) _ _ _ _ _ _ _ _ _ _).
  - split; reflexivity.
  - reflexivity.
  - reflexivity.
  - discriminate.
  - reflexivity.
  - reflexivity.
  - reflexivity.
  - reflexivity.
  - reflexivity.
  - vm_compute. lia.
Defined.

Lemma scan_empty_value_keeps_field_witness :
  let s := Section.mk (bs "A")
             [Field.mk (bs "k") (reflect.At [reflect.SField 0; reflect.SField 0] true)
                       false false] false in
  exists d',
    scan (runtime := bareRuntime) 11 [s] (Some s)
      (scanner.mk (document ["[A]"; "k=''"]) 4 2 1 3, Conf (bs "kept") 3)
    = scan (runtime := bareRuntime) 10 [s] (Some s) (d', Conf (bs "kept") 3) /\
    at_ d' (document ["[A]"] ++ bs "k" ++ "="%char :: [SQUOTE; SQUOTE] ++ [LF]) [].
Proof.
  cbv zeta.
  apply (scan_empty_value_keeps_field (runtime := bareRuntime) 10).
  - split; reflexivity.
  - reflexivity.
  - right. left. reflexivity.
  - vm_compute. lia.
Defined.

(** ** Assignment: ranges, sequences, repeated keys *)

Lemma ParseUint_loop_overflow s0 ds :
  forall n,
    0 <= n < 2 ^ 64 -> forallb isDigit ds = true -> 2 ^ 64 <= digitsValue n ds ->
    ParseUint_loop s0 ds n = Err (errRange (bs "ParseUint") s0).
Proof.
  induction ds as [|c ds IH]; intros n Hn Hd Hbig.
  - cbn in Hbig. lia.
  - cbn [forallb] in Hd. apply andb_true_iff in Hd as [Hc Hd].
    rewrite digitsValue_cons in Hbig. cbn [ParseUint_loop]. rewrite Hc.
    apply isDigit_spec in Hc. change (code "0"%char) with 48.
    destruct (Z.leb_spec (2 ^ 64) (n * 10 + (code c - 48))); [reflexivity|].
    apply IH; [lia|assumption|assumption].
Qed.

Lemma ParseInt_digits ds :
  ds <> [] -> forallb isDigit ds = true ->
  ParseInt ds = if digitsValue 0 ds <? 2 ^ 63 then Ok (digitsValue 0 ds)
                else Err (errRange (bs "ParseInt") ds).
Proof.
  intros Hne Hd. destruct ds as [|c ds']; [contradiction|].
  assert (Hc : isDigit c = true) by (cbn in Hd; now apply andb_true_iff in Hd).
  assert (Hsign : (c == "+"%char) = false /\ (c == "-"%char) = false).
  { clear -Hc. each_byte c; try discriminate Hc; split; reflexivity. }
  destruct Hsign as [Hplus Hminus].
  unfold ParseInt, ParseUint. rewrite Hplus, Hminus. cbn [orb negb andb].
  set (ds := c :: ds') in *.
  destruct (Z.ltb_spec (digitsValue 0 ds) (2 ^ 64)).
  - rewrite ParseUint_loop_digits by (assumption || lia).
    destruct (Z.ltb_spec (digitsValue 0 ds) (2 ^ 63)), (Z.leb_spec (2 ^ 63) (digitsValue 0 ds));
      try lia; reflexivity.
  - rewrite ParseUint_loop_overflow by (assumption || lia).
    destruct (Z.ltb_spec (digitsValue 0 ds) (2 ^ 63)); [lia|reflexivity].
Qed.

Lemma wrapInt_range k n :
  - 2 ^ (reflect.intBits k - 1) <= wrapInt k n < 2 ^ (reflect.intBits k - 1) /\
  (wrapInt k n - n) mod 2 ^ reflect.intBits k = 0 /\
  (wrapInt k n = n <-> - 2 ^ (reflect.intBits k - 1) <= n < 2 ^ (reflect.intBits k - 1)).
Proof.
  unfold wrapInt.
  destruct k; cbv [reflect.intBits]; cbv zeta;
    [change (64 - 1) with 63 | change (8 - 1) with 7 | change (16 - 1) with 15
    |change (32 - 1) with 31 | change (64 - 1) with 63];
    repeat split; try intros; Z.div_mod_to_equations; lia.
Qed.

Section Ranges.
Context {runtime : Runtime}.

(** X16: [decode] checks an integer against the 64-bit range only.  Digits
    that denote a number below 2^63 are stored in a signed field of any
    width without error, reduced modulo the width of the field (so the
    stored number is the one written only when it fits); digits from 2^63 on
    are a range error and the field is unchanged. *)
Theorem decode_int_wraps tn k i0 ds p mem :
  ds <> [] -> forallb isDigit ds = true ->
  reflect.load mem p = Some (reflect.VInt tn k i0) ->
  (digitsValue 0 ds < 2 ^ 63 ->
   decode ds (reflect.At p true) mem
   = (Ok tt, reflect.modify mem p
               (fun _ => reflect.VInt tn k (wrapInt k (digitsValue 0 ds)))) /\
   - 2 ^ (reflect.intBits k - 1) <= wrapInt k (digitsValue 0 ds)
     < 2 ^ (reflect.intBits k - 1) /\
   (wrapInt k (digitsValue 0 ds) - digitsValue 0 ds) mod 2 ^ reflect.intBits k = 0 /\
   (wrapInt k (digitsValue 0 ds) = digitsValue 0 ds
    <-> digitsValue 0 ds < 2 ^ (reflect.intBits k - 1))) /\
  (2 ^ 63 <= digitsValue 0 ds ->
   decode ds (reflect.At p true) mem
   = (Err (errParsingFailed (errRange (bs "ParseInt") ds)), mem)).
Proof.
  intros Hne Hd Hload.
  assert (Hdec : decode ds (reflect.At p true) mem
                 = match ParseInt ds with
                   | Ok x => (Ok tt, reflect.modify mem p (SetInt x))
                   | Err err => (Err (errParsingFailed err), mem)
                   | Panic msg => (Panic msg, mem)
                   | Timeout => (Timeout, mem)
                   end).
  { unfold decode. cbn [reflect.resolve]. rewrite Hload.
    cbn [fmap option_fmap option_map reflect.typeOf].
    destruct ds as [|c ds']; [contradiction|]. cbn [decodeKind].
    destruct (ParseInt (c :: ds')); reflexivity. }
  rewrite Hdec, (ParseInt_digits ds Hne Hd).
  pose proof (digitsValue_ge ds 0 ltac:(lia) Hd) as Hpos.
  destruct (wrapInt_range k (digitsValue 0 ds)) as (Hr & Hm & Hiff).
  split; intros Hn.
  - destruct (Z.ltb_spec (digitsValue 0 ds) (2 ^ 63)); [|lia].
    split; [|split; [exact Hr|split; [exact Hm|]]].
    + f_equal. apply modify_ext. intros x Hx. rewrite Hload in Hx. now injection Hx as <-.
    + rewrite Hiff. split; [lia|]. intros Hlt. split; [|exact Hlt].
      assert (0 < 2 ^ (reflect.intBits k - 1)) by (destruct k; reflexivity). lia.
  - destruct (Z.ltb_spec (digitsValue 0 ds) (2 ^ 63)); [lia|reflexivity].
Qed.

End Ranges.

Lemma decode_int_wraps_witness :
  (decode (runtime := bareRuntime) (bs "300") (reflect.At [reflect.SField 0] true)
     (reflect.VStruct (bs "T") [(member "B" "", reflect.VInt (bs "int8") reflect.KInt8 0)])
   = (Ok tt,
      reflect.modify
        (reflect.VStruct (bs "T") [(member "B" "", reflect.VInt (bs "int8") reflect.KInt8 0)])
        [reflect.SField 0]
        (fun _ => reflect.VInt (bs "int8") reflect.KInt8
                    (wrapInt reflect.KInt8 (digitsValue 0 (bs "300"))))) /\
   wrapInt reflect.KInt8 (digitsValue 0 (bs "300")) = 44) /\
  decode (runtime := bareRuntime) (bs "9223372036854775808") (reflect.At [reflect.SField 0] true)
    (reflect.VStruct (bs "T") [(member "B" "", reflect.VInt (bs "int8") reflect.KInt8 0)])
  = (Err (errParsingFailed (errRange (bs "ParseInt") (bs "9223372036854775808"))),
     reflect.VStruct (bs "T") [(member "B" "", reflect.VInt (bs "int8") reflect.KInt8 0)]).
Proof.
  split; [split; [|reflexivity]|].
  - apply (proj1 (decode_int_wraps (runtime := bareRuntime) (bs "int8") reflect.KInt8 0 (bs "300")
                    [reflect.SField 0]
                    (reflect.VStruct (bs "T")
                       [(member "B" "", reflect.VInt (bs "int8") reflect.KInt8 0)])
                    ltac:(discriminate) eq_refl eq_refl)).
    vm_compute. reflexivity.
  - apply (proj2 (decode_int_wraps (runtime := bareRuntime) (bs "int8") reflect.KInt8 0
                    (bs "9223372036854775808") [reflect.SField 0]
                    (reflect.VStruct (bs "T")
                       [(member "B" "", reflect.VInt (bs "int8") reflect.KInt8 0)])
                    ltac:(discriminate) eq_refl eq_refl)).
    vm_compute. discriminate.
Defined.

Section Sequences.
Context {runtime : Runtime}.

(** The loop over the first pieces of a sequence whose elements hold values
    of the element type: the elements are overwritten one by one, and the
    loop goes on with the pieces that are left. *)
Lemma decodeElements_over elem (wrap : list GoValue -> GoValue) p :
  (forall l i, reflect.step (wrap l) (reflect.SIndex i) = l !! i) ->
  (forall l i f, reflect.modify (wrap l) [reflect.SIndex i] f
                 = wrap (alter (fun x => reflect.modify x [] f) i l)) ->
  forall todo olds done tail rest mem,
    forallb (elemOK elem) todo = true ->
    length olds = length todo ->
    Forall (fun x => reflect.typeOf x = elem) olds ->
    reflect.load mem p = Some (wrap (done ++ olds ++ tail)) ->
    decodeElements (decodeKind elem) p (length done) (map atomText todo ++ rest) mem
    = decodeElements (decodeKind elem) p (length (done ++ todo)) rest
        (reflect.modify mem p (fun _ => wrap (done ++ todo ++ tail))).
Proof.
  intros Hstep Hmod.
  induction todo as [|x todo IH]; intros olds done tail rest mem Hall Hlen Holds Hload.
  - destruct olds; [|discriminate]. cbn [map app] in *. rewrite app_nil_r.
    now rewrite (modify_same p mem _ Hload).
  - destruct olds as [|o olds]; [discriminate|]. cbn [length] in Hlen.
    apply Forall_cons in Holds as [Ho Holds].
    cbn [forallb] in Hall. apply andb_true_iff in Hall as [Hx Hl].
    destruct (elemOK_inv _ _ Hx) as (Ht & Hok & Hraw & Hbare & _).
    cbn [map app decodeElements]. cbv zeta.
    assert (Hq : reflect.load mem (p ++ [reflect.SIndex (length done)]) = Some o).
    { rewrite load_app, Hload. cbn [reflect.load]. rewrite Hstep.
      cbn [app]. now rewrite list_lookup_middle. }
    rewrite Hq, (TrimSpace_bare _ Hbare). rewrite <- Ht at 1. rewrite <- Hraw.
    rewrite (decodeKind_atom_over x o); try assumption;
      [|rewrite Hraw; destruct (bareText_inv _ Hbare) as (c & w & -> & _); discriminate
       |congruence].
    replace (S (length done)) with (length (done ++ [x])) by (rewrite length_app; cbn; lia).
    rewrite (IH olds (done ++ [x]) tail rest); [|assumption|lia|assumption|].
    + rewrite modify_app, modify_modify. rewrite <- !app_assoc. reflexivity.
    + rewrite modify_app. rewrite (load_modify p mem _ _ Hload). rewrite Hmod.
      cbn [app]. rewrite alter_app_r_alt, Nat.sub_diag by lia. cbn.
      rewrite <- app_assoc. reflexivity.
Qed.

Lemma texts_nonempty elem todo :
  todo <> [] -> forallb (elemOK elem) todo = true ->
  joinComma (map atomText todo) <> [] /\
  Split_comma (joinComma (map atomText todo)) = map atomText todo.
Proof.
  intros Hne Hall. pose proof (elems_bare elem todo Hall) as Hb.
  destruct todo as [|x todo]; [contradiction|]. split.
  - cbn [map forallb] in *. apply andb_true_iff in Hb as [Hx _].
    now apply joinComma_nonempty.
  - apply Split_joined; [discriminate|assumption].
Qed.

(** X17: the pieces of a comma-separated value overwrite the elements of a
    sequence from the front; when the sequence holds more elements than
    there are pieces, the remaining elements keep their old values and the
    length of a slice is not reduced. *)
Theorem decode_sequence_keeps_tail tn elem todo olds tail cap p mem :
  todo <> [] ->
  forallb (elemOK elem) todo = true ->
  length olds = length todo ->
  Forall (fun x => reflect.typeOf x = elem) olds ->
  (reflect.load mem p = Some (reflect.VArray tn elem (olds ++ tail)) ->
   decode (joinComma (map atomText todo)) (reflect.At p true) mem
   = (Ok tt, reflect.modify mem p (fun _ => reflect.VArray tn elem (todo ++ tail)))) /\
  (reflect.load mem p = Some (reflect.VSlice tn elem (Some (olds ++ tail)) cap) ->
   (length (olds ++ tail) <= cap)%nat ->
   decode (joinComma (map atomText todo)) (reflect.At p true) mem
   = (Ok tt, reflect.modify mem p
               (fun _ => reflect.VSlice tn elem (Some (todo ++ tail)) cap))).
Proof.
  intros Hne Hall Hlen Holds.
  destruct (texts_nonempty elem todo Hne Hall) as [Htext Hsplit].
  split.
  - intros Hload. unfold decode. cbn [reflect.resolve]. rewrite Hload.
    cbn [fmap option_fmap option_map reflect.typeOf].
    destruct (joinComma (map atomText todo)) as [|c raw] eqn:E; [contradiction|].
    cbn [decodeKind]. rewrite Hsplit, length_map.
    replace (length (olds ++ tail) <? length todo)%nat with false
      by (symmetry; apply Nat.ltb_ge; rewrite length_app; lia).
    pose proof (decodeElements_over elem (reflect.VArray tn elem) p
                  ltac:(reflexivity) ltac:(reflexivity) todo olds [] tail [] mem
                  Hall Hlen Holds Hload) as Hrun.
    rewrite app_nil_r in Hrun. cbn [length] in Hrun. rewrite Hrun. reflexivity.
  - intros Hload Hcap. unfold decode. cbn [reflect.resolve]. rewrite Hload.
    cbn [fmap option_fmap option_map reflect.typeOf].
    destruct (joinComma (map atomText todo)) as [|c raw] eqn:E; [contradiction|].
    cbn [decodeKind]. rewrite Hsplit, length_map, Hload. cbn [sliceCap].
    replace (cap <? length todo)%nat with false
      by (symmetry; apply Nat.ltb_ge; rewrite length_app in Hcap; lia).
    pose proof (decodeElements_over elem (fun l => reflect.VSlice tn elem (Some l) cap) p
                  ltac:(reflexivity) ltac:(reflexivity) todo olds [] tail [] mem
                  Hall Hlen Holds Hload) as Hrun.
    rewrite app_nil_r in Hrun. cbn [length] in Hrun. rewrite Hrun. reflexivity.
Qed.

(** X18: [decode] into a sequence that is too short panics.  An array with
    fewer elements than there are pieces panics in [Grow] before anything is
    assigned.  A slice whose capacity holds the pieces but whose length does
    not is not extended: its elements are overwritten, then [Index] panics
    on the first piece beyond its length. *)
Theorem decode_sequence_out_of_range tn elem todo p mem :
  forallb (elemOK elem) todo = true ->
  (forall l,
      reflect.load mem p = Some (reflect.VArray tn elem l) ->
      (length l < length todo)%nat ->
      decode (joinComma (map atomText todo)) (reflect.At p true) mem
      = (Panic (bs "reflect: call of reflect.Value.Grow on array Value"), mem)) /\
  (forall olds first more cap,
      reflect.load mem p = Some (reflect.VSlice tn elem (Some olds) cap) ->
      todo = first ++ more -> more <> [] ->
      length olds = length first ->
      Forall (fun x => reflect.typeOf x = elem) olds ->
      (length todo <= cap)%nat ->
      decode (joinComma (map atomText todo)) (reflect.At p true) mem
      = (Panic (bs "reflect: slice index out of range"),
         reflect.modify mem p (fun _ => reflect.VSlice tn elem (Some first) cap))).
Proof.
  intros Hall. split.
  - intros l Hload Hlen.
    assert (Hne : todo <> []) by (destruct todo; [cbn in Hlen; lia|discriminate]).
    destruct (texts_nonempty elem todo Hne Hall) as [Htext Hsplit].
    unfold decode. cbn [reflect.resolve]. rewrite Hload.
    cbn [fmap option_fmap option_map reflect.typeOf].
    destruct (joinComma (map atomText todo)) as [|c raw] eqn:E; [contradiction|].
    cbn [decodeKind]. rewrite Hsplit, length_map.
    replace (length l <? length todo)%nat with true by (symmetry; now apply Nat.ltb_lt).
    reflexivity.
  - intros olds first more cap Hload -> Hmore Hlen Holds Hcap.
    assert (Hne : first ++ more <> []) by (destruct first, more; try discriminate; contradiction).
    destruct (texts_nonempty elem _ Hne Hall) as [Htext Hsplit].
    rewrite forallb_app in Hall. apply andb_true_iff in Hall as [Hfirst Hmoreok].
    unfold decode. cbn [reflect.resolve]. rewrite Hload.
    cbn [fmap option_fmap option_map reflect.typeOf].
    destruct (joinComma (map atomText (first ++ more))) as [|c raw] eqn:E; [contradiction|].
    cbn [decodeKind]. rewrite Hsplit, length_map, Hload. cbn [sliceCap].
    replace (cap <? length (first ++ more))%nat with false
      by (symmetry; now apply Nat.ltb_ge).
    rewrite map_app.
    pose proof (decodeElements_over elem (fun l => reflect.VSlice tn elem (Some l) cap) p
                  ltac:(reflexivity) ltac:(reflexivity) first olds [] [] (map atomText more) mem
                  Hfirst Hlen Holds) as Hrun.
    rewrite !app_nil_r in Hrun. cbn [length app] in Hrun. rewrite (Hrun Hload).
    destruct more as [|x more]; [contradiction|]. cbn [map decodeElements]. cbv zeta.
    rewrite load_app, (load_modify p mem _ _ Hload). cbn [reflect.load reflect.step].
    now rewrite lookup_ge_None_2 by lia.
Qed.

End Sequences.

Lemma decode_sequence_keeps_tail_witness :
  decode (runtime := bareRuntime) (joinComma (map atomText [bool_ true]))
    (reflect.At [reflect.SField 0] true)
    (reflect.VStruct (bs "T") [(member "On" "", bools2_ false true)])
  = (Ok tt,
     reflect.modify (reflect.VStruct (bs "T") [(member "On" "", bools2_ false true)])
       [reflect.SField 0]
       (fun _ => reflect.VArray (bs "[2]bool") (reflect.TBool (bs "bool"))
                   ([bool_ true] ++ [bool_ true]))) /\
  decode (runtime := bareRuntime) (joinComma (map atomText [int_ 7; int_ 8]))
    (reflect.At [reflect.SField 0] true)
    (reflect.VStruct (bs "T") [(member "Xs" "", ints_ (Some [1; 2; 3]) 3)])
  = (Ok tt,
     reflect.modify (reflect.VStruct (bs "T") [(member "Xs" "", ints_ (Some [1; 2; 3]) 3)])
       [reflect.SField 0]
       (fun _ => reflect.VSlice (bs "[]int") (reflect.TInt (bs "int") reflect.KInt)
                   (Some ([int_ 7; int_ 8] ++ [int_ 3])) 3)).
Proof.
  split.
  - apply (proj1 (decode_sequence_keeps_tail (runtime := bareRuntime) (bs "[2]bool")
                    (reflect.TBool (bs "bool")) [bool_ true] [bool_ false] [bool_ true] 0%nat
                    [reflect.SField 0]
                    (reflect.VStruct (bs "T") [(member "On" "", bools2_ false true)])
                    ltac:(discriminate) eq_refl eq_refl
                    ltac:(repeat constructor))).
    reflexivity.
  - apply (proj2 (decode_sequence_keeps_tail (runtime := bareRuntime) (bs "[]int")
                    (reflect.TInt (bs "int") reflect.KInt) [int_ 7; int_ 8]
                    [int_ 1; int_ 2] [int_ 3] 3%nat [reflect.SField 0]
                    (reflect.VStruct (bs "T") [(member "Xs" "", ints_ (Some [1; 2; 3]) 3)])
                    ltac:(discriminate) eq_refl eq_refl
                    ltac:(repeat constructor))).
    + reflexivity.
    + cbn. lia.
Defined.

Lemma decode_sequence_out_of_range_witness :
  decode (runtime := bareRuntime) (joinComma (map atomText [bool_ true; bool_ true; bool_ false]))
    (reflect.At [reflect.SField 0] true)
    (reflect.VStruct (bs "T") [(member "On" "", bools2_ false false)])
  = (Panic (bs "reflect: call of reflect.Value.Grow on array Value"),
     reflect.VStruct (bs "T") [(member "On" "", bools2_ false false)]) /\
  decode (runtime := bareRuntime) (joinComma (map atomText ([int_ 7] ++ [int_ 8])))
    (reflect.At [reflect.SField 0] true)
    (reflect.VStruct (bs "T") [(member "Xs" "", ints_ (Some [1]) 4)])
  = (Panic (bs "reflect: slice index out of range"),
     reflect.modify (reflect.VStruct (bs "T") [(member "Xs" "", ints_ (Some [1]) 4)])
       [reflect.SField 0]
       (fun _ => reflect.VSlice (bs "[]int") (reflect.TInt (bs "int") reflect.KInt)
                   (Some [int_ 7]) 4)).
Proof.
  split.
  - apply (proj1 (decode_sequence_out_of_range (runtime := bareRuntime) (bs "[2]bool")
                    (reflect.TBool (bs "bool")) [bool_ true; bool_ true; bool_ false]
                    [reflect.SField 0]
                    (reflect.VStruct (bs "T") [(member "On" "", bools2_ false false)])
                    eq_refl) [bool_ false; bool_ false]).
    + reflexivity.
    + cbn. lia.
  - apply (proj2 (decode_sequence_out_of_range (runtime := bareRuntime) (bs "[]int")
                    (reflect.TInt (bs "int") reflect.KInt) ([int_ 7] ++ [int_ 8])
                    [reflect.SField 0]
                    (reflect.VStruct (bs "T") [(member "Xs" "", ints_ (Some [1]) 4)])
                    eq_refl) [int_ 1] [int_ 7] [int_ 8] 4%nat).
    + reflexivity.
    + reflexivity.
    + discriminate.
    + reflexivity.
    + repeat constructor.
    + cbn. lia.
Defined.

Section AtomLines.
Context {runtime : Runtime}.

(** A key line of a known field assigns the atom it spells to the field's
    location, whatever value of that type the location held. *)
Lemma scan_atom_line fuel sections section (d : scanner.t) (mem : GoValue)
    pre name y post fld p old :
  at_ d pre (name ++ "="%char :: atomText y ++ LF :: post) ->
  validName true name = true ->
  atomOK y = true -> atomRaw y <> [] ->
  Section_Field section name = Some fld ->
  Field.Value fld = reflect.At p true ->
  reflect.load mem p = Some old ->
  reflect.typeOf old = reflect.typeOf y ->
  (length name + length (atomText y) + 2 < fuel)%nat ->
  exists d',
    scan (S fuel) sections (Some section) (d, mem)
    = scan fuel sections (Some section) (d', reflect.modify mem p (fun _ => y)) /\
    at_ d' (pre ++ name ++ "="%char :: atomText y ++ [LF]) post.
Proof.
  intros Hat Hname Hok Hne Hfld Hval Hload Hty Hfuel.
  destruct (validName_inv _ _ Hname) as (c0 & w & -> & Hw & Hc0).
  specialize (Hc0 eq_refl).
  destruct (name_run fuel d pre (c0 :: w) "="%char _ Hat ltac:(discriminate) Hw
              eq_refl eq_refl ltac:(cbn [length] in *; lia)) as (d1 & Hn & Hat1).
  destruct (consume_hit _ _ _ _ Hat1 eq_refl) as (d2 & Heq & Hat2).
  destruct (value_atom fuel d2 _ y post Hok Hat2 ltac:(lia)) as (d3 & Hv & Hat3).
  destruct fuel as [|fuel]; [lia|].
  destruct (lineEnd_LF (S fuel) sections (Some section) d3
              (reflect.modify mem p (fun _ => y)) _ _ Hat3) as (d4 & Hend & Hat4).
  exists d4. split; [|at_from Hat4].
  rewrite (scan_key_round fuel sections (Some section) d mem (c0 :: w) (atomRaw y) d1 d2 d3);
    try assumption; [|now rewrite (at_peek _ _ _ _ Hat)].
  now rewrite Hfld, Hval, (decode_atom_over y old p mem Hok Hne Hload Hty).
Qed.

End AtomLines.

(** ** Targets that cannot be set *)

Lemma fieldsTree_not_settable t i leaves :
  forall j, Forall (fun f => settable (Field.Value f) = false) (fieldsTree false t i j leaves).
Proof.
  induction leaves as [|my leaves IH]; intros j; cbn [fieldsTree]; [constructor|].
  apply Forall_app. split; [|apply IH].
  destruct (memberFlags t (fst my) (snd my)); repeat constructor.
Qed.

Lemma sectionsTree_not_settable t sections :
  forall i,
    Forall (fun s => Forall (fun f => settable (Field.Value f) = false) (Section.Fields s))
           (sectionsTree false t i sections).
Proof.
  induction sections as [|mx sections IH]; intros i; cbn [sectionsTree]; constructor;
    [|apply IH].
  unfold sectionTree. destruct (memberFlags t (fst mx) (snd mx)); cbn [Section.Fields].
  - apply fieldsTree_not_settable.
  - constructor.
Qed.

Section NotSettable.
Context {runtime : Runtime}.
Existing Instance noMethods.

(** X15: a target that is handed over by value cannot be decoded into.  The
    section tree of a record that is not behind a pointer holds no field
    that can be set, and a key line whose field cannot be set, with a value
    that is not empty, ends [scan] with "value cannot be set" and the target
    untouched. *)
Theorem Unmarshal_by_value_cannot_set :
  (forall v,
      supported v = true ->
      exists sections,
        SectionsOf v = Ok (sections, None) /\
        Forall (fun s => Forall (fun f => settable (Field.Value f) = false)
                                (Section.Fields s)) sections) /\
  (forall fuel sections section (d : scanner.t) (mem : GoValue) pre name y post fld x a,
      at_ d pre (name ++ "="%char :: atomText y ++ LF :: post) ->
      validName true name = true ->
      atomOK y = true -> atomRaw y <> [] ->
      Section_Field section name = Some fld ->
      settable (Field.Value fld) = false ->
      reflect.resolve mem (Field.Value fld) = Some (x, a) ->
      (length name + length (atomText y) + 2 < fuel)%nat ->
      exists d',
        scan (S fuel) sections (Some section) (d, mem)
        = (Err errValueCannotBeSet, (d', mem)) /\
        at_ d' (pre ++ name ++ "="%char :: atomText y) (LF :: post)).
Proof.
  split.
  - intros v Hv. destruct v; try discriminate Hv.
    cbn [supported] in Hv. apply andb_true_iff in Hv as [Hall _].
    destruct (SectionsOf_supported tn fields Hall) as [Hs _].
    eexists. split; [exact Hs|]. apply sectionsTree_not_settable.
  - intros fuel sections section d mem pre name y post fld x a
           Hat Hname Hok Hne Hfld Hset Hres Hfuel.
    destruct (validName_inv _ _ Hname) as (c0 & w & -> & Hw & Hc0).
    specialize (Hc0 eq_refl).
    destruct (name_run fuel d pre (c0 :: w) "="%char _ Hat ltac:(discriminate) Hw
                eq_refl eq_refl ltac:(cbn [length] in *; lia)) as (d1 & Hn & Hat1).
    destruct (consume_hit _ _ _ _ Hat1 eq_refl) as (d2 & Heq & Hat2).
    destruct (value_atom fuel d2 _ y post Hok Hat2 ltac:(lia)) as (d3 & Hv & Hat3).
    exists d3. split; [|at_from Hat3].
    destruct fuel as [|fuel]; [lia|].
    rewrite (scan_key_round fuel sections (Some section) d mem (c0 :: w) (atomRaw y) d1 d2 d3);
      try assumption; [|now rewrite (at_peek _ _ _ _ Hat)].
    rewrite Hfld, (TrimSpace_atomRaw y Hok). unfold decode. rewrite Hres.
    destruct (atomRaw y) as [|r raw]; [contradiction|].
    destruct (Field.Value fld) as [|q [|]|z]; try discriminate Hset; reflexivity.
Qed.

End NotSettable.

Lemma Unmarshal_by_value_cannot_set_witness :
  (exists sections,
     SectionsOf (methods := noMethods) (Conf [] 0) = Ok (sections, None) /\
     Forall (fun s => Forall (fun f => settable (Field.Value f) = false) (Section.Fields s))
            sections) /\
  (let s := Section.mk (bs "A")
              [Field.mk (bs "n") (reflect.At [reflect.SField 0; reflect.SField 1] false)
                        false false] false in
   exists d',
     scan (runtime := bareRuntime) 11 [s] (Some s)
       (scanner.mk (document ["[A]"; "n=7"]) 4 2 1 3, Conf [] 0)
     = (Err errValueCannotBeSet, (d', Conf [] 0)) /\
     at_ d' (document ["[A]"] ++ bs "n" ++ "="%char :: atomText (int_ 7)) (LF :: [])) /\
  Unmarshal (methods := noMethods) (runtime := bareRuntime) 20 (document ["[A]"; "n=7"])
    (Conf [] 0)
  = (Err errValueCannotBeSet, Some (Conf [] 0)).
Proof.
  split; [|split; [|vm_compute; reflexivity]].
  - apply (proj1 (Unmarshal_by_value_cannot_set (runtime := bareRuntime)) (Conf [] 0)).
    reflexivity.
  - cbv zeta.
    refine (proj2 (Unmarshal_by_value_cannot_set (runtime := bareRuntime)) 10%nat _ _
              (scanner.mk (document ["[A]"; "n=7"]) 4 2 1 3) (Conf [] 0)
              (document ["[A]"]) (bs "n") (int_ 7) [] _ (int_ 0) false _ _ _ _ _ _ _ _).
    + split; reflexivity.
    + reflexivity.
    + reflexivity.
    + discriminate.
    + reflexivity.
    + reflexivity.
    + reflexivity.
    + vm_compute. lia.
Defined.

(** ** The walker where it cannot go on: nil indirections, maps *)

Section WalkPrefix.
Context {runtime : Runtime}.
Existing Instance noMethods.

(** The walk over supported leaves goes on with the members behind them. *)
Lemma walk_fields_app t st a i leaves rest :
  forallb (fieldOK t) leaves = true ->
  forall j vals errs,
    walkStructFields_loop t (reflect.At [reflect.SField i] a) (fieldsOf' st) j
      (leaves ++ rest) vals errs
    = walkStructFields_loop t (reflect.At [reflect.SField i] a) (fieldsOf' st)
        (j + length leaves) rest
        (vals ++ map (fun f => [f]) (fieldsTree a t i j leaves)) errs.
Proof.
  induction leaves as [|[m y] leaves IH]; intros Hall j vals errs.
  - cbn. now rewrite app_nil_r, Nat.add_0_r.
  - cbn [forallb] in Hall. apply andb_true_iff in Hall as [Hy Hall].
    unfold fieldOK in Hy. cbn [fst snd] in Hy.
    destruct (memberFlags t m y) as [fl|] eqn:Hfl; [|discriminate].
    apply andb_true_iff in Hy as [Hy Hleaf].
    destruct (memberFlags_Some _ _ _ _ Hfl) as (Hex & fl0 & Hp & Hdash & Hfl0).
    cbn [app walkStructFields_loop fieldsTree fst snd length].
    rewrite Hex, Hp, Hdash, Hfl. cbn [negb].
    rewrite <- Hfl0.
    assert (Hcall : match y with
                    | reflect.VPointer _ _ e =>
                        fieldsOf' st e (handleElem (handleField (reflect.At [reflect.SField i] a) j y) true e)
                                  (reflect.fieldOf m y) (set_omitempty fl)
                    | reflect.VInterface _ e =>
                        fieldsOf' st e (handleElem (handleField (reflect.At [reflect.SField i] a) j y) false e)
                                  (reflect.fieldOf m y) fl
                    | _ => fieldsOf' st (Some y) (handleField (reflect.At [reflect.SField i] a) j y)
                                     (reflect.fieldOf m y) fl
                    end
                    = Ok ([Field.mk (key fl) (reflect.At [reflect.SField i; reflect.SField j] a)
                                    (omitempty fl) (commented fl)], None)).
    { destruct y; try discriminate Hleaf; cbn [fieldsOf']; now rewrite fieldsOf_leaf. }
    rewrite Hcall. rewrite IH by assumption.
    cbn [map app]. rewrite <- app_assoc. cbn [app]. f_equal. lia.
Qed.

(** The walk over supported sections goes on with the members behind them. *)
Lemma walk_sections_app t a sections rest :
  forallb (sectionOK t) sections = true ->
  forall i vals errs,
    walkStructFields_loop t (reflect.At [] a)
      (fun v hv f fl =>
         let fl := set_inline fl in
         obind (fieldsOf' (Some t) v hv f fl) (sectionOf fl))
      i (sections ++ rest) vals errs
    = walkStructFields_loop t (reflect.At [] a)
        (fun v hv f fl =>
           let fl := set_inline fl in
           obind (fieldsOf' (Some t) v hv f fl) (sectionOf fl))
        (i + length sections) rest (vals ++ sectionsTree a t i sections) errs.
Proof.
  induction sections as [|[m x] sections IH]; intros Hall i vals errs.
  - cbn. now rewrite app_nil_r, Nat.add_0_r.
  - cbn [forallb] in Hall. apply andb_true_iff in Hall as [Hx Hall].
    destruct (sectionOK_inv _ _ _ Hx) as (fl & tn & leaves & Hfl & -> & Hn & Hf & Hd).
    destruct (memberFlags_Some _ _ _ _ Hfl) as (Hex & fl0 & Hp & Hdash & Hfl0).
    cbn [app walkStructFields_loop sectionsTree length]. rewrite Hex, Hp, Hdash. cbn [negb].
    rewrite <- Hfl0. cbv zeta. cbn [fieldsOf' handleField app].
    rewrite fieldsOf_section by (assumption || reflexivity).
    cbn [obind sectionOf]. rewrite IH by assumption.
    unfold sectionTree. cbn [fst snd members]. rewrite Hfl.
    rewrite <- app_assoc. cbn [app]. f_equal. lia.
Qed.

(** A member that is a nil pointer or a nil interface hands the zero Value
    to the callback of the walk. *)
Lemma walk_nil_member {T} t h
    (f : option GoValue -> reflect.Value -> reflect.StructField -> flags ->
         outcome (T * option error)) i m x rest vals errs msg :
  nilIndirect x = true ->
  memberFlags t m x <> None ->
  (forall hx field fl, f None hx field fl = Panic msg) ->
  walkStructFields_loop t h f i ((m, x) :: rest) vals errs = Panic msg.
Proof.
  intros Hnil Hfl Hf.
  destruct (memberFlags t m x) as [fl|] eqn:E; [|contradiction].
  destruct (memberFlags_Some _ _ _ _ E) as (Hex & fl0 & Hp & Hdash & _).
  cbn [walkStructFields_loop]. rewrite Hex, Hp, Hdash. cbn [negb].
  destruct x as [| | | | | | | | |? ? [?|]|? [?|]|]; try discriminate Hnil;
    now rewrite Hf.
Qed.

(** X20: a member that is a nil pointer or a nil interface makes the walk
    panic.  [Elem] of the nil member is the zero Value, and [fieldsOf] asks
    it for its type.  This holds for a member of the root that follows
    supported sections and for a member of a section that follows supported
    leaves, for the record by value and behind a pointer; and when
    [SectionsOf] panics, so do [Marshal] and [Unmarshal], whatever the
    document. *)
Theorem SectionsOf_nil_member_panics :
  (forall tn pre m x rest,
      let v := reflect.VStruct tn (pre ++ (m, x) :: rest) in
      forallb (sectionOK (reflect.typeOf v)) pre = true ->
      nilIndirect x = true ->
      memberFlags (reflect.typeOf v) m x <> None ->
      SectionsOf v = typePanic /\ SectionsOf (addressOf v) = typePanic) /\
  (forall tn pre m tn' leaves m' x rest' rest,
      let s := reflect.VStruct tn' (leaves ++ (m', x) :: rest') in
      let v := reflect.VStruct tn (pre ++ (m, s) :: rest) in
      forallb (sectionOK (reflect.typeOf v)) pre = true ->
      memberFlags (reflect.typeOf v) m s <> None ->
      forallb (fieldOK (reflect.typeOf s)) leaves = true ->
      nilIndirect x = true ->
      memberFlags (reflect.typeOf s) m' x <> None ->
      SectionsOf v = typePanic /\ SectionsOf (addressOf v) = typePanic) /\
  (forall value msg,
      SectionsOf value = Panic msg ->
      Marshal value = Panic msg /\
      forall fuel data, fst (Unmarshal fuel data value) = Panic msg).
Proof.
  split; [|split].
  - intros tn pre m x rest v Hpre Hnil Hfl.
    unfold SectionsOf, addressOf, Indirect, sectionsOfStruct, walkStructFields.
    cbn [MarshalINI noMethods]. subst v.
    change (reflect.Kind_eqb (reflect.Type_Kind (reflect.typeOf
              (reflect.VStruct tn (pre ++ (m, x) :: rest)))) reflect.Map) with false.
    change (reflect.Kind_eqb (reflect.Type_Kind (reflect.typeOf
              (reflect.VStruct tn (pre ++ (m, x) :: rest)))) reflect.Struct) with true.
    cbv iota.
    split; rewrite walk_sections_app by assumption;
      apply walk_nil_member; try assumption; reflexivity.
  - intros tn pre m tn' leaves m' x rest' rest s v Hpre Hfl Hleaves Hnil Hfl'.
    unfold SectionsOf, addressOf, Indirect, sectionsOfStruct, walkStructFields.
    cbn [MarshalINI noMethods]. subst v.
    change (reflect.Kind_eqb (reflect.Type_Kind (reflect.typeOf
              (reflect.VStruct tn (pre ++ (m, s) :: rest)))) reflect.Map) with false.
    change (reflect.Kind_eqb (reflect.Type_Kind (reflect.typeOf
              (reflect.VStruct tn (pre ++ (m, s) :: rest)))) reflect.Struct) with true.
    cbv iota.
    set (t := reflect.typeOf (reflect.VStruct tn (pre ++ (m, s) :: rest))) in *.
    destruct (memberFlags t m s) as [fl|] eqn:E; [|contradiction].
    destruct (memberFlags_Some _ _ _ _ E) as (Hex & fl0 & Hp & Hdash & _).
    assert (Hsec : forall a i st f fl1,
               inline fl1 = true ->
               fieldsOf s (reflect.At [reflect.SField i] a) st f fl1 = typePanic).
    { intros a i st f fl1 Hin. subst s. cbn [fieldsOf]. cbn [SectionMarshalINI noMethods].
      replace (if canAddr (reflect.At [reflect.SField i] a) then None else None)
        with (@None (GoValue -> reflect.Value -> outcome (Section.t * option error)))
        by (now destruct a).
      change (reflect.Kind_eqb (reflect.Type_Kind (reflect.typeOf
                (reflect.VStruct tn' (leaves ++ (m', x) :: rest')))) reflect.Map) with false.
      change (reflect.Kind_eqb (reflect.Type_Kind (reflect.typeOf
                (reflect.VStruct tn' (leaves ++ (m', x) :: rest')))) reflect.Struct) with true.
      rewrite Hin. cbn [andb]. unfold walkStructFields.
      change (fun (x0 : option GoValue) (hx : reflect.Value) (f0 : reflect.StructField)
                  (fl' : flags) =>
                match x0 with
                | Some x1 =>
                    fieldsOf x1 hx
                      (Some (reflect.typeOf (reflect.VStruct tn' (leaves ++ (m', x) :: rest'))))
                      f0 fl'
                | None => typePanic
                end)
        with (fieldsOf' (Some (reflect.typeOf
                                 (reflect.VStruct tn' (leaves ++ (m', x) :: rest'))))).
      rewrite walk_fields_app by assumption.
      rewrite (walk_nil_member _ _ _ _ m' x rest' _ _
                 (bs "reflect: call of reflect.Value.Type on zero Value"));
        try assumption; reflexivity. }
    split; rewrite walk_sections_app by assumption;
      cbn [walkStructFields_loop]; rewrite Hex, Hp, Hdash; cbn [negb]; cbv zeta;
      subst s; cbn [fieldsOf' handleField app];
      rewrite Hsec by reflexivity; reflexivity.
  - intros value msg Hs. split.
    + unfold Marshal, Encoder.Encode. now rewrite Hs.
    + intros fuel data. unfold Unmarshal, Decode. now rewrite Hs.
Qed.

End WalkPrefix.

Lemma SectionsOf_nil_member_panics_witness :
  (SectionsOf (methods := noMethods)
     (reflect.VStruct (bs "T")
        ([(member "A" "", reflect.VStruct (bs "TA") [(member "K" "k", string_ [])])]
         ++ (member "P" "", reflect.VPointer (bs "*int") (reflect.TInt (bs "int") reflect.KInt)
                              None) :: []))
   = typePanic /\
   SectionsOf (methods := noMethods)
     (addressOf
        (reflect.VStruct (bs "T")
           ([(member "A" "", reflect.VStruct (bs "TA") [(member "K" "k", string_ [])])]
            ++ (member "P" "", reflect.VPointer (bs "*int")
                                 (reflect.TInt (bs "int") reflect.KInt) None) :: [])))
   = typePanic) /\
  (SectionsOf (methods := noMethods)
     (reflect.VStruct (bs "T")
        ([] ++ (member "A" "",
                reflect.VStruct (bs "TA")
                  ([(member "K" "k", string_ [])]
                   ++ (member "E" "", reflect.VInterface (bs "interface {}") None) :: []))
            :: []))
   = typePanic /\
   SectionsOf (methods := noMethods)
     (addressOf
        (reflect.VStruct (bs "T")
           ([] ++ (member "A" "",
                   reflect.VStruct (bs "TA")
                     ([(member "K" "k", string_ [])]
                      ++ (member "E" "", reflect.VInterface (bs "interface {}") None) :: []))
               :: [])))
   = typePanic) /\
  (Marshal (methods := noMethods) (runtime := bareRuntime)
     (reflect.VStruct (bs "T")
        [(member "P" "", reflect.VPointer (bs "*int") (reflect.TInt (bs "int") reflect.KInt)
                           None)])
   = Panic (bs "reflect: call of reflect.Value.Type on zero Value") /\
   forall fuel data,
     fst (Unmarshal (methods := noMethods) (runtime := bareRuntime) fuel data
            (reflect.VStruct (bs "T")
               [(member "P" "", reflect.VPointer (bs "*int")
                                  (reflect.TInt (bs "int") reflect.KInt) None)]))
     = Panic (bs "reflect: call of reflect.Value.Type on zero Value")).
Proof.
  split; [|split].
  - apply (proj1 (SectionsOf_nil_member_panics (runtime := bareRuntime)) (bs "T")
             [(member "A" "", reflect.VStruct (bs "TA") [(member "K" "k", string_ [])])]
             (member "P" "")
             (reflect.VPointer (bs "*int") (reflect.TInt (bs "int") reflect.KInt) None) []).
    + reflexivity.
    + reflexivity.
    + vm_compute. discriminate.
  - apply (proj1 (proj2 (SectionsOf_nil_member_panics (runtime := bareRuntime))) (bs "T") []
             (member "A" "") (bs "TA") [(member "K" "k", string_ [])] (member "E" "")
             (reflect.VInterface (bs "interface {}") None) [] []).
    + reflexivity.
    + vm_compute. discriminate.
    + reflexivity.
    + reflexivity.
    + vm_compute. discriminate.
  - apply (proj2 (proj2 (SectionsOf_nil_member_panics (runtime := bareRuntime)))).
    vm_compute. reflexivity.
Defined.

Section Shapes.
Context {runtime : Runtime}.
Existing Instance noMethods.

(** X21: what the entry points answer to a value of the wrong shape, when
    no type implements a hook.  Behind a nil pointer, or for the nil
    interface, [SectionsOf], [Marshal] and [Decode] panic; a root that is
    neither a struct nor a map is refused with the error that names its
    type, and a map whose keys are not strings with the error for the map
    key.  [Decode] returns these errors before it reads its input, and the
    target is untouched. *)
Theorem entry_points_reject_shape (value : GoValue) :
  (Indirect value = None ->
   SectionsOf value = typePanic /\ Marshal value = typePanic /\
   forall R (reader : Reader R) fuel (r : R), Decode fuel r value = (typePanic, None)) /\
  (forall v a,
      Indirect value = Some (v, a) ->
      reflect.Kind_eqb (reflect.Value_Kind v) reflect.Struct = false ->
      let err := if reflect.Kind_eqb (reflect.Value_Kind v) reflect.Map
                 then if mapKeyIsString (reflect.typeOf v)
                      then None
                      else Some (errMapKey (reflect.Type_String (reflect.typeOf v)))
                 else Some (errInvalidType (reflect.Type_String (reflect.typeOf v))) in
      forall e, err = Some e ->
        SectionsOf value = Ok ([], Some e) /\
        Marshal value = Ok ([], Some e) /\
        forall R (reader : Reader R) fuel (r : R),
          Decode fuel r value = (Err e, Some v)).
Proof.
  split.
  - intros Hroot.
    assert (Hs : SectionsOf value = typePanic) by (unfold SectionsOf; now rewrite Hroot).
    split; [exact Hs|]. split.
    + unfold Marshal, Encoder.Encode. now rewrite Hs.
    + intros R reader fuel r. unfold Decode. now rewrite Hs, Hroot.
  - intros v a Hroot Hstruct err e He.
    assert (Hs : SectionsOf value = Ok ([], Some e)).
    { unfold SectionsOf. rewrite Hroot. cbn [MarshalINI noMethods].
      replace (if a then None else None)
        with (@None (GoValue -> reflect.Value -> outcome (list Section.t * option error)))
        by (now destruct a).
      unfold reflect.Value_Kind in *. subst err. rewrite Hstruct.
      destruct (reflect.Kind_eqb (reflect.Type_Kind (reflect.typeOf v)) reflect.Map).
      - destruct (mapKeyIsString (reflect.typeOf v)); [discriminate|].
        injection He as <-. reflexivity.
      - injection He as <-. reflexivity. }
    split; [exact Hs|]. split.
    + unfold Marshal, Encoder.Encode. now rewrite Hs.
    + intros R reader fuel r. unfold Decode. now rewrite Hs, Hroot.
Qed.

End Shapes.

Lemma entry_points_reject_shape_witness :
  (SectionsOf (methods := noMethods)
     (reflect.VPointer (bs "*Conf") (reflect.typeOf (Conf [] 0)) None) = typePanic /\
   Marshal (methods := noMethods) (runtime := bareRuntime)
     (reflect.VPointer (bs "*Conf") (reflect.typeOf (Conf [] 0)) None) = typePanic /\
   forall R (reader : Reader R) fuel (r : R),
     Decode (methods := noMethods) (runtime := bareRuntime) fuel r
       (reflect.VPointer (bs "*Conf") (reflect.typeOf (Conf [] 0)) None)
     = (typePanic, None)) /\
  (SectionsOf (methods := noMethods) (addressOf (int_ 5))
   = Ok ([], Some (errInvalidType (bs "int"))) /\
   Marshal (methods := noMethods) (runtime := bareRuntime) (addressOf (int_ 5))
   = Ok ([], Some (errInvalidType (bs "int"))) /\
   forall R (reader : Reader R) fuel (r : R),
     Decode (methods := noMethods) (runtime := bareRuntime) fuel r (addressOf (int_ 5))
     = (Err (errInvalidType (bs "int")), Some (int_ 5))) /\
  (SectionsOf (methods := noMethods)
     (reflect.VMap (bs "map[int]string") (reflect.TInt (bs "int") reflect.KInt)
        (reflect.TString (bs "string")) None)
   = Ok ([], Some (errMapKey (bs "map[int]string")))).
Proof.
  split; [|split].
  - apply (proj1 (entry_points_reject_shape (runtime := bareRuntime)
                    (reflect.VPointer (bs "*Conf") (reflect.typeOf (Conf [] 0)) None))).
    reflexivity.
  - apply (proj2 (entry_points_reject_shape (runtime := bareRuntime) (addressOf (int_ 5)))
             (int_ 5) true); reflexivity.
  - apply (proj2 (entry_points_reject_shape (runtime := bareRuntime)
                    (reflect.VMap (bs "map[int]string") (reflect.TInt (bs "int") reflect.KInt)
                       (reflect.TString (bs "string")) None))
             (reflect.VMap (bs "map[int]string") (reflect.TInt (bs "int") reflect.KInt)
                (reflect.TString (bs "string")) None) false); reflexivity.
Defined.

Lemma walkMap_unfold {T} v h
    (f : option GoValue -> reflect.Value -> flags -> outcome (T * option error)) :
  walkMap v h f
  = match v with
    | reflect.VMap _ _ _ entries => walkMap_loop h f 0 (default [] entries) [] []
    | _ => Panic (bs "reflect: call of reflect.Value.MapRange on non-map Value")
    end.
Proof. destruct v; reflexivity. Qed.

(** One entry of the map whose value is held directly. *)
Lemma walkMap_loop_step {T} h
    (f : option GoValue -> reflect.Value -> flags -> outcome (T * option error))
    i tn k x entries vals errs :
  plainEntry (reflect.VString tn k, x) = true ->
  walkMap_loop h f i ((reflect.VString tn k, x) :: entries) vals errs
  = match f (Some x) (handleEntry h i x) (mkFlags k false false false) with
    | Ok (_, Some err) => walkMap_loop h f (S i) entries vals (errs ++ [err])
    | Ok (val, None) => walkMap_loop h f (S i) entries (vals ++ [val]) errs
    | Err e => Err e
    | Panic msg => Panic msg
    | Timeout => Timeout
    end.
Proof.
  unfold plainEntry. cbn [fst snd]. intros H. apply andb_true_iff in H as [Hk Hx].
  cbn [walkMap_loop]. rewrite Hk. cbn [negb].
  destruct x; try discriminate Hx; reflexivity.
Qed.

Lemma walkMap_loop_fields h entries :
  forallb plainEntry entries = true ->
  forall i vals errs,
    walkMap_loop h
      (fun v hv fl => Ok (Field.mk (key fl) hv (omitempty fl) (commented fl), None))
      i entries vals errs
    = Ok (vals ++ entryFields h i entries, errors_Join errs).
Proof.
  induction entries as [|[kv x] entries IH]; intros Hall i vals errs.
  - cbn. now rewrite app_nil_r.
  - cbn [forallb] in Hall. apply andb_true_iff in Hall as [Hkx Hall].
    assert (Hk : exists tn k, kv = reflect.VString tn k).
    { unfold plainEntry in Hkx. cbn [fst] in Hkx. destruct kv; try discriminate Hkx. eauto. }
    destruct Hk as (tn & k & ->).
    rewrite walkMap_loop_step by assumption. cbn [key omitempty commented].
    rewrite IH by assumption. cbn [entryFields entryKey fst snd].
    rewrite <- app_assoc. reflexivity.
Qed.

Lemma entryFields_not_settable h entries :
  forall i, Forall (fun f => settable (Field.Value f) = false /\ Field.OmitEmpty f = false /\
                             Field.Commented f = false) (entryFields h i entries).
Proof.
  induction entries as [|kx entries IH]; intros i; cbn [entryFields]; constructor;
    [|apply IH].
  cbn [Field.Value Field.OmitEmpty Field.Commented]. repeat split.
  destruct h; reflexivity.
Qed.

Section MapFields.
Context {runtime : Runtime}.

(** X22: the fields of a section that is a [map[string]T] with values held
    directly are its entries in the order of the range, each named by its
    key, none omitted when empty and none commented; a nil map has no
    fields.  None of these fields can be set: [decode] of a text that is not
    empty into one of them is "value cannot be set", so a map is written but
    never read back. *)
Theorem fieldsOfMap_entries tn kt et entries h :
  forallb plainEntry entries = true ->
  fieldsOfMap (reflect.VMap tn kt et (Some entries)) h = Ok (entryFields h 0 entries, None) /\
  fieldsOfMap (reflect.VMap tn kt et None) h = Ok ([], None) /\
  map Field.Name (entryFields h 0 entries) = map entryKey entries /\
  Forall (fun f => settable (Field.Value f) = false /\ Field.OmitEmpty f = false /\
                   Field.Commented f = false) (entryFields h 0 entries) /\
  (forall f str mem x a,
      In f (entryFields h 0 entries) -> str <> [] ->
      reflect.resolve mem (Field.Value f) = Some (x, a) ->
      decode str (Field.Value f) mem = (Err errValueCannotBeSet, mem)).
Proof.
  intros Hall. split; [|split; [|split; [|split]]].
  - unfold fieldsOfMap. rewrite walkMap_unfold. cbn [default].
    now rewrite walkMap_loop_fields.
  - reflexivity.
  - generalize 0%nat. clear Hall. induction entries as [|kx entries IH]; intros i;
      cbn [entryFields map Field.Name]; [reflexivity|]. now rewrite IH.
  - apply entryFields_not_settable.
  - intros f str mem x a Hin Hne Hres.
    pose proof (entryFields_not_settable h entries 0) as Hno.
    rewrite Forall_forall in Hno. apply list_elem_of_In in Hin.
    destruct (Hno f Hin) as (Hset & _).
    unfold decode. rewrite Hres. destruct str as [|c str]; [contradiction|].
    destruct (Field.Value f) as [|q [|]|z]; try discriminate Hset; reflexivity.
Qed.

End MapFields.

Lemma fieldsOfMap_entries_witness :
  fieldsOfMap
    (reflect.VMap (bs "map[string]int") (reflect.TString (bs "string"))
       (reflect.TInt (bs "int") reflect.KInt)
       (Some [(string_ (bs "width"), int_ 1024); (string_ (bs "height"), int_ 768)]))
    (reflect.At [reflect.SField 0] true)
  = Ok ([Field.mk (bs "width") (reflect.At [reflect.SField 0; reflect.SEntry 0] false)
                  false false;
         Field.mk (bs "height") (reflect.At [reflect.SField 0; reflect.SEntry 1] false)
                  false false], None) /\
  Unmarshal (methods := noMethods) (runtime := bareRuntime) 30 (document ["[Video]"; "width=1"])
    (addressOf
       (reflect.VStruct (bs "S")
          [(member "Video" "",
            reflect.VMap (bs "map[string]int") (reflect.TString (bs "string"))
              (reflect.TInt (bs "int") reflect.KInt)
              (Some [(string_ (bs "width"), int_ 1024);
                     (string_ (bs "height"), int_ 768)]))]))
  = (Err errValueCannotBeSet,
     Some (reflect.VStruct (bs "S")
             [(member "Video" "",
               reflect.VMap (bs "map[string]int") (reflect.TString (bs "string"))
                 (reflect.TInt (bs "int") reflect.KInt)
                 (Some [(string_ (bs "width"), int_ 1024);
                        (string_ (bs "height"), int_ 768)]))])).
Proof.
  split; [|vm_compute; reflexivity].
  apply (proj1 (fieldsOfMap_entries (runtime := bareRuntime) (bs "map[string]int")
                  (reflect.TString (bs "string")) (reflect.TInt (bs "int") reflect.KInt)
                  [(string_ (bs "width"), int_ 1024); (string_ (bs "height"), int_ 768)]
                  (reflect.At [reflect.SField 0] true) eq_refl)).
Defined.

(** ** What the encoder writes *)

Lemma printable_plain c : printable c = true -> plain c = true.
Proof. each_byte c; intros H; try discriminate H; reflexivity. Qed.

Lemma hex_Encode_printable c :
  printable (fst (hex_Encode c)) = true /\ printable (snd (hex_Encode c)) = true.
Proof. each_byte c; split; reflexivity. Qed.

Lemma quoteRune_printable r : forallb printable (quoteRune r) = true.
Proof.
  unfold quoteRune.
  destruct ((32 <=? r) && (r <=? 126)) eqn:E.
  - cbn [forallb]. rewrite andb_true_r. unfold printable.
    apply andb_true_iff in E as [H1 H2]. apply Z.leb_le in H1. apply Z.leb_le in H2.
    rewrite code_chr by lia. apply andb_true_iff. split; now apply Z.leb_le.
  - destruct (r =? code LF); [reflexivity|]. destruct (r =? code CR); [reflexivity|].
    induction (EncodeRune r) as [|c l IH]; [reflexivity|].
    cbn [flat_map]. rewrite forallb_app, IH, andb_true_r.
    destruct (hex_Encode_printable c) as [Hhi Hlo].
    destruct (hex_Encode c) as [hi lo]. cbn [fst snd] in *. cbn [forallb].
    now rewrite Hhi, Hlo.
Qed.

(** X23: whatever the text, [quoteString] writes printable ASCII only,
    between two single quotes: no control character, no line break and no
    byte above 0x7E reaches the document through a quoted value, so a
    rendered text never spans lines. *)
Theorem quoteString_printable (s : bytes) :
  exists body,
    quoteString s = SQUOTE :: body ++ [SQUOTE] /\
    forallb printable body = true /\
    forallb printable (quoteString s) = true /\
    forallb plain (quoteString s) = true.
Proof.
  unfold quoteString. exists (flat_map quoteRune (range_string s)).
  assert (Hbody : forallb printable (flat_map quoteRune (range_string s)) = true).
  { induction (range_string s) as [|r l IH]; [reflexivity|].
    cbn [flat_map]. now rewrite forallb_app, quoteRune_printable, IH. }
  assert (Hall : forallb printable (SQUOTE :: flat_map quoteRune (range_string s) ++ [SQUOTE])
                 = true).
  { cbn [forallb]. now rewrite forallb_app, Hbody. }
  repeat split; try assumption.
  rewrite forallb_forall in *. intros c Hc. apply printable_plain. now apply Hall.
Qed.

Section SkippedFields.
Context {methods : Methods} {runtime : Runtime} {W : Type} {writer : Writer W}.

Lemma fields_loop_filtered (e e' : Encoder.t W) mem fields :
  Encoder.skipFieldEncodeFailure e = true ->
  forall buf,
    Encoder.fields_loop e mem buf fields
    = Encoder.fields_loop e' mem buf (List.filter (encodes mem) fields) /\
    forall b err, Encoder.fields_loop e mem buf fields <> Ok (b, Some err).
Proof.
  intros Hskip. induction fields as [|g fields IH]; intros buf.
  - split; [reflexivity|]. intros b err. discriminate.
  - cbn [Encoder.fields_loop List.filter]. unfold encodes at 1.
    pose proof (field_error_iff e mem buf g) as Hg.
    pose proof (field_error_iff e' mem buf g) as Hg'.
    destruct (Field_MarshalText mem g) as [[bg [errg|]]| | |] eqn:Eg.
    + rewrite Hg. cbn [obind]. rewrite Hskip. cbn [negb]. apply IH.
    + destruct Hg as [buf1 Hg]. destruct Hg' as [buf2 Hg'].
      assert (buf2 = buf1) as ->.
      { unfold Encoder.field in Hg, Hg'. rewrite Eg in Hg, Hg'. cbn in Hg, Hg'. congruence. }
      cbn [Encoder.fields_loop]. rewrite Hg, Hg'. cbn [obind]. apply IH.
    + cbn [Encoder.fields_loop]. rewrite Hg, Hg'. split; [reflexivity|discriminate].
    + cbn [Encoder.fields_loop]. rewrite Hg, Hg'. split; [reflexivity|discriminate].
    + cbn [Encoder.fields_loop]. rewrite Hg, Hg'. split; [reflexivity|discriminate].
Qed.

(** X24: with [SkipFieldEncodeFailure(true)] a section is written as if the
    fields that fail to render were not there: the output is that of the
    section with those fields removed, written by any encoder, and the
    section never reports a field error. *)
Theorem section_skips_failures (e e' : Encoder.t W) mem buf s :
  Encoder.skipFieldEncodeFailure e = true ->
  Encoder.section e mem buf s
  = Encoder.section e' mem buf
      (Section.mk (Section.Name s) (List.filter (encodes mem) (Section.Fields s))
                  (Section.OmitEmpty s)) /\
  forall b err, Encoder.section e mem buf s <> Ok (b, Some err).
Proof.
  intros Hskip. unfold Encoder.section. cbn [Section.Name Section.Fields].
  apply fields_loop_filtered. exact Hskip.
Qed.

End SkippedFields.

Lemma section_skips_failures_witness :
  Encoder.section (methods := noMethods) (runtime := bareRuntime)
    (Encoder.SkipFieldEncodeFailure (Encoder.NewEncoder (@nil ascii)) true) Unrenderable []
    (Section.mk (bs "S")
       [Field.mk (bs "Bad") (reflect.At [reflect.SField 0; reflect.SField 1] false) false false;
        Field.mk (bs "Ok") (reflect.At [reflect.SField 0; reflect.SField 0] false) false false]
       false)
  = Encoder.section (methods := noMethods) (runtime := bareRuntime)
      (Encoder.NewEncoder (@nil ascii)) Unrenderable []
      (Section.mk (bs "S")
         (List.filter (encodes (methods := noMethods) (runtime := bareRuntime) Unrenderable)
            [Field.mk (bs "Bad") (reflect.At [reflect.SField 0; reflect.SField 1] false)
                      false false;
             Field.mk (bs "Ok") (reflect.At [reflect.SField 0; reflect.SField 0] false)
                      false false])
         false) /\
  Encoder.section (methods := noMethods) (runtime := bareRuntime)
    (Encoder.SkipFieldEncodeFailure (Encoder.NewEncoder (@nil ascii)) true) Unrenderable []
    (Section.mk (bs "S")
       [Field.mk (bs "Bad") (reflect.At [reflect.SField 0; reflect.SField 1] false) false false;
        Field.mk (bs "Ok") (reflect.At [reflect.SField 0; reflect.SField 0] false) false false]
       false)
  = Ok (document ["[S]"; "Ok=1"], None).
Proof.
  split; [|vm_compute; reflexivity].
  apply (proj1 (section_skips_failures (methods := noMethods) (runtime := bareRuntime)
                  (Encoder.SkipFieldEncodeFailure (Encoder.NewEncoder (@nil ascii)) true)
                  (Encoder.NewEncoder (@nil ascii)) Unrenderable []
                  (Section.mk (bs "S")
                     [Field.mk (bs "Bad") (reflect.At [reflect.SField 0; reflect.SField 1] false)
                               false false;
                      Field.mk (bs "Ok") (reflect.At [reflect.SField 0; reflect.SField 0] false)
                               false false]
                     false) eq_refl)).
Defined.

(** X25: the encoder never omits a section.  For a supported record whose
    sections hold nothing but members that are tagged [omitempty] and zero,
    [Marshal] still writes the header of every section, also of a section
    that is itself tagged [omitempty]: the document is the headers alone. *)
Theorem Marshal_never_omits_section {runtime : Runtime} (v : GoValue) :
  supported v = true ->
  forallb (fun mx => allOmitted (snd mx)) (members v) = true ->
  Marshal (methods := noMethods) v
  = Ok (flat_map (headerOf (reflect.typeOf v)) (members v), None).
Proof.
  intros Hs Hall. rewrite (Marshal_supported v Hs). unfold docOf.
  f_equal. f_equal. apply flat_map_ext_Forall with (P := fun mx => allOmitted (snd mx) = true).
  - intros mx Hmx.
    assert (Hnil : flat_map (lineOf (reflect.typeOf (snd mx))) (members (snd mx)) = []).
    { unfold allOmitted in Hmx.
      induction (members (snd mx)) as [|my l IH]; [reflexivity|].
      cbn [forallb] in Hmx. apply andb_true_iff in Hmx as [Hmy Hl].
      cbn [flat_map]. rewrite (IH Hl), app_nil_r. unfold lineOf.
      destruct (memberFlags (reflect.typeOf (snd mx)) (fst my) (snd my)); [|reflexivity].
      now rewrite Hmy. }
    unfold sectionText, headerOf. rewrite Hnil. reflexivity.
  - rewrite forallb_forall in Hall. apply Forall_forall. intros mx Hmx.
    apply Hall. now apply list_elem_of_In.
Qed.

Lemma Marshal_never_omits_section_witness :
  Marshal (methods := noMethods) (runtime := bareRuntime)
    (reflect.VStruct (bs "T")
       [(member "A" ",omitempty",
         reflect.VStruct (bs "TA")
           [(member "K" "k,omitempty", string_ []); (member "N" "n,omitempty", int_ 0)])])
  = Ok (document ["[A]"], None).
Proof.
  apply (Marshal_never_omits_section (runtime := bareRuntime)
           (reflect.VStruct (bs "T")
              [(member "A" ",omitempty",
                reflect.VStruct (bs "TA")
                  [(member "K" "k,omitempty", string_ []);
                   (member "N" "n,omitempty", int_ 0)])])).
  - reflexivity.
  - reflexivity.
Defined.

(** ** Tags that parse *)

Lemma flagSet_setFlag_eq fl y x :
  knownFlag y = true -> knownFlag x = true ->
  flagSet (setFlag fl y) x = flagSet fl x || bytes_eqb x y.
Proof.
  intros Hy Hx.
  apply knownFlag_cases in Hy as [-> | [-> | ->]];
    apply knownFlag_cases in Hx as [-> | [-> | ->]];
    unfold flagSet, setFlag; cbn;
    destruct (inline fl), (omitempty fl), (commented fl); reflexivity.
Qed.

Lemma key_setFlag fl y : key (setFlag fl y) = key fl.
Proof.
  unfold setFlag. destruct (bytes_eqb y (bs "inline")); [reflexivity|].
  destruct (bytes_eqb y (bs "omitempty")); reflexivity.
Qed.

(** The loop of [parseTag] over known flags, each listed once, sets exactly
    the flags it is given. *)
Lemma parseTag_loop_accepts t field rest :
  forall fl,
    NoDup (map TrimSpace rest) ->
    Forall (freshKnown fl) (map TrimSpace rest) ->
    exists fl',
      parseTag_loop t field rest fl = (fl', None) /\
      key fl' = key fl /\
      forall x, knownFlag x = true ->
                flagSet fl' x = flagSet fl x || existsb (bytes_eqb x) (map TrimSpace rest).
Proof.
  induction rest as [|y rest IH]; intros fl Hnd Hall; cbn [map] in *.
  - exists fl. repeat split. intros x _. cbn. now rewrite orb_false_r.
  - apply NoDup_cons in Hnd as [Hni Hnd]. apply Forall_cons in Hall as [[Hk Hs] Hall].
    rewrite parseTag_loop_step, Hk, Hs.
    destruct (IH (setFlag fl (TrimSpace y)) Hnd) as (fl' & Hrun & Hkey & Hflags).
    { apply freshKnown_step; [split; assumption| |exact Hall].
      intros Hin. apply Hni. now apply list_elem_of_In. }
    exists fl'. split; [exact Hrun|]. split; [now rewrite Hkey, key_setFlag|].
    intros x Hx. rewrite (Hflags x Hx), (flagSet_setFlag_eq fl _ x Hk Hx).
    cbn [existsb]. now rewrite orb_assoc.
Qed.

Lemma flagSet_initial k :
  flagSet (mkFlags k false false false) (bs "inline") = false /\
  flagSet (mkFlags k false false false) (bs "omitempty") = false /\
  flagSet (mkFlags k false false false) (bs "commented") = false.
Proof. repeat split; reflexivity. Qed.

Lemma flagSet_read fl :
  flagSet fl (bs "inline") = inline fl /\
  flagSet fl (bs "omitempty") = omitempty fl /\
  flagSet fl (bs "commented") = commented fl.
Proof.
  unfold flagSet. cbn. destruct (inline fl), (omitempty fl), (commented fl);
    repeat split; reflexivity.
Qed.

(** X26: a tag whose flags are known and listed once each parses without
    error: the key is the trimmed text in front of the first comma and
    exactly the listed flags are set, spaces around the flags not counting.
    A comma with nothing behind it is the error for an unexpected comma. *)
Theorem parseTag_accepts t field :
  (NoDup (listedFlags field) ->
   Forall (fun x => knownFlag x = true) (listedFlags field) ->
   (snd (tagOf field) = true -> tagRest field <> []) ->
   exists fl,
     parseTag t field = (fl, None) /\
     key fl = TrimSpace (fst (fst (tagOf field))) /\
     inline fl = existsb (bytes_eqb (bs "inline")) (listedFlags field) /\
     omitempty fl = existsb (bytes_eqb (bs "omitempty")) (listedFlags field) /\
     commented fl = existsb (bytes_eqb (bs "commented")) (listedFlags field)) /\
  (snd (tagOf field) = true -> tagRest field = [] ->
   snd (parseTag t field) = Some errUnexpectedComma).
Proof.
  split.
  - intros Hnd Hknown Hrest. rewrite parseTag_unfold. cbv zeta.
    unfold listedFlags in *.
    destruct (snd (tagOf field)) eqn:Hfound.
    + specialize (Hrest eq_refl).
      destruct (tagRest field) as [|c rest] eqn:Er; [contradiction|]. rewrite <- Er in *.
      destruct (parseTag_loop_accepts (reflect.Type_String t) (reflect.Name field)
                  (Split_comma (tagRest field))
                  (mkFlags (TrimSpace (fst (fst (tagOf field)))) false false false) Hnd)
        as (fl & Hrun & Hkey & Hflags).
      { now apply freshKnown_initial. }
      exists fl. split; [exact Hrun|]. split; [exact Hkey|].
      destruct (flagSet_read fl) as (Hi & Ho & Hc).
      destruct (flagSet_initial (TrimSpace (fst (fst (tagOf field))))) as (Hi0 & Ho0 & Hc0).
      rewrite <- Hi, <- Ho, <- Hc.
      rewrite !Hflags by reflexivity. rewrite Hi0, Ho0, Hc0. repeat split.
    + eexists. repeat split.
  - intros Hfound Hrest. rewrite parseTag_unfold. cbv zeta. now rewrite Hfound, Hrest.
Qed.

Lemma parseTag_accepts_witness :
  (exists fl,
     parseTag (reflect.typeOf BadTags)
       (reflect.fieldOf (member "F" " full , omitempty, commented ") (bool_ false))
     = (fl, None) /\
     key fl = TrimSpace (fst (fst (tagOf (reflect.fieldOf
                (member "F" " full , omitempty, commented ") (bool_ false))))) /\
     inline fl = existsb (bytes_eqb (bs "inline"))
                   (listedFlags (reflect.fieldOf
                      (member "F" " full , omitempty, commented ") (bool_ false))) /\
     omitempty fl = existsb (bytes_eqb (bs "omitempty"))
                      (listedFlags (reflect.fieldOf
                         (member "F" " full , omitempty, commented ") (bool_ false))) /\
     commented fl = existsb (bytes_eqb (bs "commented"))
                      (listedFlags (reflect.fieldOf
                         (member "F" " full , omitempty, commented ") (bool_ false)))) /\
  parseTag (reflect.typeOf BadTags)
    (reflect.fieldOf (member "F" " full , omitempty, commented ") (bool_ false))
  = (mkFlags (bs "full") false true true, None) /\
  snd (parseTag (reflect.typeOf BadTags) (reflect.fieldOf (member "G" "g,") (bool_ false)))
  = Some errUnexpectedComma.
Proof.
  split; [|split; [vm_compute; reflexivity|]].
  - apply (proj1 (parseTag_accepts (reflect.typeOf BadTags)
                    (reflect.fieldOf (member "F" " full , omitempty, commented ")
                                     (bool_ false)))).
    + assert (Hl : listedFlags (reflect.fieldOf (member "F" " full , omitempty, commented ")
                                                (bool_ false))
                   = [bs "omitempty"; bs "commented"]) by (vm_compute; reflexivity).
      rewrite Hl. apply NoDup_cons. split.
      * intros Hin. apply list_elem_of_In in Hin. destruct Hin as [H|[]]. discriminate H.
      * apply NoDup_cons. split; [intros Hin; inversion Hin|constructor].
    + assert (Hl : listedFlags (reflect.fieldOf (member "F" " full , omitempty, commented ")
                                                (bool_ false))
                   = [bs "omitempty"; bs "commented"]) by (vm_compute; reflexivity).
      rewrite Hl. repeat constructor.
    + intros _. vm_compute. discriminate.
  - apply (proj2 (parseTag_accepts (reflect.typeOf BadTags)
                    (reflect.fieldOf (member "G" "g,") (bool_ false)))).
    + vm_compute. reflexivity.
    + vm_compute. reflexivity.
Defined.

(** ** Looking a name up *)

(** X27: [Section.Field] and [findSection] return the first entry of the
    name, so of two fields or two sections of one name only the first is
    ever reached; they find nothing exactly when no entry has the name. *)
Theorem lookups_return_first :
  (forall s pre f post name,
      Section.Fields s = pre ++ f :: post ->
      Field.Name f = name ->
      Forall (fun g => Field.Name g <> name) pre ->
      Section_Field s name = Some f) /\
  (forall s name,
      Section_Field s name = None <-> Forall (fun g => Field.Name g <> name) (Section.Fields s)) /\
  (forall pre s post name,
      Section.Name s = name ->
      Forall (fun g => Section.Name g <> name) pre ->
      findSection (pre ++ s :: post) name = Some s) /\
  (forall sections name,
      findSection sections name = None <-> Forall (fun g => Section.Name g <> name) sections).
Proof.
  split; [|split; [|split]].
  - intros s pre f post name Hs Hf Hpre. unfold Section_Field. rewrite Hs. clear Hs.
    induction pre as [|g pre IH]; cbn [app Section_Field_loop].
    + now rewrite Hf, bytes_eqb_refl.
    + apply Forall_cons in Hpre as [Hg Hpre]. apply bytes_eqb_neq in Hg. rewrite Hg.
      now apply IH.
  - intros s name. unfold Section_Field.
    induction (Section.Fields s) as [|g l IH]; cbn [Section_Field_loop].
    + split; [constructor|reflexivity].
    + destruct (bytes_eqb (Field.Name g) name) eqn:E.
      * split; [discriminate|]. intros H. apply Forall_cons in H as [Hg _].
        apply bytes_eqb_eq in E. contradiction.
      * rewrite IH. apply bytes_eqb_neq in E. split.
        -- intros H. now constructor.
        -- intros H. now apply Forall_cons in H as [_ H].
  - intros pre s post name Hs Hpre.
    induction pre as [|g pre IH]; cbn [app findSection].
    + now rewrite Hs, bytes_eqb_refl.
    + apply Forall_cons in Hpre as [Hg Hpre]. apply bytes_eqb_neq in Hg. rewrite Hg.
      now apply IH.
  - intros sections name.
    induction sections as [|g l IH]; cbn [findSection].
    + split; [constructor|reflexivity].
    + destruct (bytes_eqb (Section.Name g) name) eqn:E.
      * split; [discriminate|]. intros H. apply Forall_cons in H as [Hg _].
        apply bytes_eqb_eq in E. contradiction.
      * rewrite IH. apply bytes_eqb_neq in E. split.
        -- intros H. now constructor.
        -- intros H. now apply Forall_cons in H as [_ H].
Qed.

Lemma lookups_return_first_witness :
  Section_Field
    (Section.mk (bs "A")
       [Field.mk (bs "k") (reflect.At [reflect.SField 0] true) false false;
        Field.mk (bs "n") (reflect.At [reflect.SField 1] true) false false;
        Field.mk (bs "n") (reflect.At [reflect.SField 2] true) true false] false) (bs "n")
  = Some (Field.mk (bs "n") (reflect.At [reflect.SField 1] true) false false) /\
  findSection ([Section.mk (bs "B") [] false]
               ++ Section.mk (bs "A") [] false :: [Section.mk (bs "A") [] true]) (bs "A")
  = Some (Section.mk (bs "A") [] false).
Proof.
  destruct lookups_return_first as (Hf & _ & Hs & _). split.
  - apply (Hf _ [Field.mk (bs "k") (reflect.At [reflect.SField 0] true) false false]
              (Field.mk (bs "n") (reflect.At [reflect.SField 1] true) false false)
              [Field.mk (bs "n") (reflect.At [reflect.SField 2] true) true false]).
    + reflexivity.
    + reflexivity.
    + repeat constructor. discriminate.
  - apply Hs.
    + reflexivity.
    + repeat constructor. discriminate.
Defined.

(** ** Commented fields *)

Lemma quoteString_plain s : forallb plain (quoteString s) = true.
Proof.
  unfold quoteString. cbn [forallb]. rewrite forallb_app. cbn [forallb].
  change (plain SQUOTE) with true. rewrite andb_true_r. cbn [andb].
  induction (range_string s) as [|r l IH]; [reflexivity|].
  cbn [flat_map]. rewrite forallb_app, IH, andb_true_r.
  pose proof (quoteRune_printable r) as H. rewrite forallb_forall in *.
  intros c Hc. apply printable_plain. now apply H.
Qed.

Lemma atomText_plain y : atomOK y = true -> forallb plain (atomText y) = true.
Proof.
  intros Hok. destruct y; try discriminate Hok; cbn [atomText].
  - now destruct b.
  - destruct (atomOK_int _ _ Hok) as [Hi _].
    destruct (FormatInt_nonneg i Hi) as [Hf _]. rewrite Hf.
    destruct (FormatUint_digits i ltac:(lia)) as (_ & Hd & _).
    rewrite forallb_forall in *. intros c Hc. apply isDigit_plain. now apply Hd.
  - destruct (atomOK_uint _ _ Hok) as [Hu _].
    destruct (FormatUint_digits u Hu) as (_ & Hd & _).
    rewrite forallb_forall in *. intros c Hc. apply isDigit_plain. now apply Hd.
  - apply quoteString_plain.
Qed.

Section CommentedFields.
Context {runtime : Runtime} {W : Type} {writer : Writer W}.
Existing Instance noMethods.

(** A comment line up to its line feed is skipped. *)
Lemma scan_comment_skip fuel sections cur (d : scanner.t) (mem : GoValue) pre c w post :
  (c == "#"%char) || (c == ";"%char) = true ->
  forallb plain w = true ->
  at_ d pre (c :: w ++ LF :: post) ->
  (length w + 2 < fuel)%nat ->
  exists d',
    scan (S fuel) sections cur (d, mem) = scan fuel sections cur (d', mem) /\
    at_ d' (pre ++ c :: w ++ [LF]) post.
Proof.
  intros Hc Hw Hat Hfuel. destruct fuel as [|fuel]; [lia|].
  assert (Hpc : plain c = true).
  { apply orb_true_iff in Hc as [Hc|Hc]; apply char_eqb_eq in Hc; now subst. }
  destruct (takeUntil_newline (S fuel) d pre (c :: w) (LF :: post) Hat) as (d1 & Ht & Hat1).
  { cbn [forallb]. now rewrite Hpc. }
  { reflexivity. }
  { cbn [length]. lia. }
  destruct (lineEnd_LF (S fuel) sections cur d1 mem _ _ Hat1) as (d2 & Hend & Hat2).
  exists d2. split; [|at_exact Hat2].
  rewrite (scan_comment_round fuel sections cur d mem (c :: w) d1); [exact Hend| |exact Ht].
  now rewrite (at_peek _ _ _ _ Hat).
Qed.

(** X28: a commented field is written but not read back.  The encoder
    writes it as a line that starts with a semicolon (with an empty value
    when the field is omitted as empty), and the decoder takes that line for
    a comment: it assigns nothing and goes on with the next line. *)
Theorem commented_field_not_read_back (e : Encoder.t W) mem buf f y a :
  Field.Commented f = true ->
  reflect.resolve mem (Field.Value f) = Some (y, a) ->
  atomOK y = true ->
  forallb plain (Field.Name f) = true ->
  Encoder.field e mem buf f = Ok (buf ++ commentedLine f y, None) /\
  forall fuel sections cur (d : scanner.t) (target : GoValue) pre post,
    at_ d pre (commentedLine f y ++ post) ->
    (length (commentedLine f y) < fuel)%nat ->
    exists d',
      scan (S fuel) sections cur (d, target) = scan fuel sections cur (d', target) /\
      at_ d' (pre ++ commentedLine f y) post.
Proof.
  intros Hc Hres Hok Hname. split.
  - unfold Encoder.field, Field_MarshalText, commentedLine. rewrite Hres, Hc.
    destruct (Field.OmitEmpty f), (reflect.IsZero y); cbn [negb orb andb];
      rewrite ?encode_atom by assumption; cbn [obind default];
      rewrite <- ?app_assoc; reflexivity.
  - intros fuel sections cur d target pre post Hat Hfuel.
    set (text := if Field.OmitEmpty f && reflect.IsZero y then [] else atomText y) in *.
    assert (Hline : commentedLine f y
                    = ";"%char :: (Field.Name f ++ "="%char :: text) ++ [LF]).
    { unfold commentedLine. fold text. now rewrite <- app_assoc. }
    rewrite Hline in *.
    apply (scan_comment_skip fuel sections cur d target pre ";"%char
             (Field.Name f ++ "="%char :: text) post).
    + reflexivity.
    + rewrite forallb_app, Hname. cbn [forallb andb].
      change (plain "="%char) with true. cbn [andb]. subst text.
      destruct (Field.OmitEmpty f && reflect.IsZero y); [reflexivity|].
      now apply atomText_plain.
    + cbn [app] in Hat. rewrite <- app_assoc in Hat. exact Hat.
    + cbn [length] in Hfuel. rewrite length_app in Hfuel. cbn [length] in Hfuel. lia.
Qed.

End CommentedFields.

Lemma commented_field_not_read_back_witness :
  Encoder.field (methods := noMethods) (runtime := bareRuntime)
    (Encoder.NewEncoder (@nil ascii)) (Settings (VideoSettings 1024 768 true))
    (document ["[Video]"])
    (Field.mk (bs "fullscreen") (reflect.At [reflect.SField 0; reflect.SField 2] false)
              true true)
  = Ok (document ["[Video]"]
        ++ commentedLine
             (Field.mk (bs "fullscreen") (reflect.At [reflect.SField 0; reflect.SField 2] false)
                       true true) (bool_ true), None) /\
  commentedLine
    (Field.mk (bs "fullscreen") (reflect.At [reflect.SField 0; reflect.SField 2] false)
              true true) (bool_ true)
  = document [";fullscreen=true"] /\
  exists d',
    scan (runtime := bareRuntime) 31 [] None
      (scanner.mk (document ["[Video]"; ";fullscreen=true"]) 8 2 1 7,
       Settings (VideoSettings 0 0 false))
    = scan (runtime := bareRuntime) 30 [] None (d', Settings (VideoSettings 0 0 false)) /\
    at_ d' (document ["[Video]"]
            ++ commentedLine
                 (Field.mk (bs "fullscreen")
                           (reflect.At [reflect.SField 0; reflect.SField 2] false) true true)
                 (bool_ true)) [].
Proof.
  destruct (commented_field_not_read_back (runtime := bareRuntime)
              (Encoder.NewEncoder (@nil ascii)) (Settings (VideoSettings 1024 768 true))
              (document ["[Video]"])
              (Field.mk (bs "fullscreen") (reflect.At [reflect.SField 0; reflect.SField 2] false)
                        true true) (bool_ true) false eq_refl eq_refl eq_refl eq_refl)
    as [Hw Hr].
  split; [exact Hw|]. split; [reflexivity|].
  apply (Hr 30%nat [] None (scanner.mk (document ["[Video]"; ";fullscreen=true"]) 8 2 1 7)
            (Settings (VideoSettings 0 0 false)) (document ["[Video]"]) []).
  - split; reflexivity.
  - vm_compute. lia.
Defined.

(** ** Line breaks of any kind, and a document of one line *)

Lemma lineBreak_cases brk post :
  lineBreak brk post = true ->
  brk = [LF] \/ brk = [CR; LF] \/
  (brk = [CR] /\ match post with [] => True | c :: _ => (c == LF) = false end).
Proof.
  unfold lineBreak. rewrite !orb_true_iff, andb_true_iff, !bytes_eqb_eq.
  intros [[H|H]|[H Hp]]; auto. right. right. split; [assumption|].
  destruct post as [|c post]; [exact I|]. now apply negb_true_iff.
Qed.

Lemma handleNewline_break d pre brk post :
  lineBreak brk post = true ->
  at_ d pre (brk ++ post) ->
  exists d', scanner.handleNewline d = (true, d') /\ at_ d' (pre ++ brk) post.
Proof.
  intros Hbrk Hat.
  destruct (lineBreak_cases _ _ Hbrk) as [-> | [-> | [-> Hpost]]]; cbn [app] in Hat.
  - now apply handleNewline_LF.
  - unfold scanner.handleNewline. rewrite (at_peek _ _ _ _ Hat).
    change (CR == CR) with true. cbv iota.
    pose proof (at_skip1 _ _ _ _ Hat) as Hat1.
    rewrite (at_peek _ _ _ _ Hat1). change (LF == LF) with true. cbv iota.
    eexists. split; [reflexivity|].
    pose proof (at_skip1 _ _ _ _ Hat1) as Hat2. rewrite <- app_assoc in Hat2. exact Hat2.
  - unfold scanner.handleNewline. rewrite (at_peek _ _ _ _ Hat).
    change (CR == CR) with true. cbv iota.
    pose proof (at_skip1 _ _ _ _ Hat) as Hat1.
    assert (Hp : (scanner.peek (scanner.skip1 d) == LF) = false).
    { destruct post as [|c post].
      - now rewrite (at_peek_end _ _ Hat1).
      - now rewrite (at_peek _ _ _ _ Hat1). }
    rewrite Hp. eexists. split; [reflexivity|]. exact Hat1.
Qed.

Lemma lineBreak_closes brk post : lineBreak brk post = true -> closesValue (brk ++ post) = true.
Proof.
  intros H. destruct (lineBreak_cases _ _ H) as [-> | [-> | [-> _]]]; reflexivity.
Qed.

Section AnyLineBreak.
Context {runtime : Runtime}.

Lemma lineEnd_break fuel sections cur d mem pre brk post :
  lineBreak brk post = true ->
  at_ d pre (brk ++ post) ->
  exists d', lineEnd fuel sections cur d mem = scan fuel sections cur (d', mem) /\
             at_ d' (pre ++ brk) post.
Proof.
  intros Hbrk Hat. destruct (handleNewline_break _ _ _ _ Hbrk Hat) as (d' & Hnl & Hat').
  exists d'. split; [|exact Hat']. unfold lineEnd. now rewrite Hnl.
Qed.

(** X29: a line may end in a line feed, in a carriage return with a line
    feed, or in a carriage return alone: a header selects its section and a
    key line assigns its value with each of the three, and the loop goes on
    behind the line break. *)
Theorem scan_any_line_break fuel sections (d : scanner.t) (mem : GoValue)
    pre name brk post :
  lineBreak brk post = true ->
  (forall cur section,
      at_ d pre ("["%char :: name ++ "]"%char :: brk ++ post) ->
      validName false name = true ->
      findSection sections name = Some section ->
      (length name + 1 < fuel)%nat ->
      exists d',
        scan (S fuel) sections cur (d, mem) = scan fuel sections (Some section) (d', mem) /\
        at_ d' (pre ++ "["%char :: name ++ "]"%char :: brk) post) /\
  (forall section y fld p old,
      at_ d pre (name ++ "="%char :: atomText y ++ brk ++ post) ->
      validName true name = true ->
      atomOK y = true -> atomRaw y <> [] ->
      Section_Field section name = Some fld ->
      Field.Value fld = reflect.At p true ->
      reflect.load mem p = Some old ->
      reflect.typeOf old = reflect.typeOf y ->
      (length name + length (atomText y) + 2 < fuel)%nat ->
      exists d',
        scan (S fuel) sections (Some section) (d, mem)
        = scan fuel sections (Some section) (d', reflect.modify mem p (fun _ => y)) /\
        at_ d' (pre ++ name ++ "="%char :: atomText y ++ brk) post).
Proof.
  intros Hbrk. split.
  - intros cur section Hat Hname Hfind Hfuel.
    destruct (validName_inv _ _ Hname) as (c0 & w & -> & Hw & _).
    destruct (advance_plain _ _ _ _ Hat eq_refl) as (d1 & Hadv & Hat1).
    destruct (name_run fuel d1 _ (c0 :: w) "]"%char (brk ++ post) Hat1 ltac:(discriminate) Hw
                eq_refl eq_refl ltac:(lia)) as (d2 & Hn & Hat2).
    destruct (consume_hit _ _ _ _ Hat2 eq_refl) as (d3 & Hc & Hat3).
    destruct fuel as [|fuel]; [lia|].
    destruct (lineEnd_break (S fuel) sections (Some section) d3 mem _ _ _ Hbrk Hat3)
      as (d4 & Hend & Hat4).
    exists d4. split; [|at_from Hat4].
    rewrite (scan_header_round fuel sections cur d mem (c0 :: w) d2);
      [|exact (at_peek _ _ _ _ Hat)|now rewrite Hadv].
    now rewrite Hc, Hfind.
  - intros section y fld p old Hat Hname Hok Hne Hfld Hval Hload Hty Hfuel.
    destruct (validName_inv _ _ Hname) as (c0 & w & -> & Hw & Hc0).
    specialize (Hc0 eq_refl).
    destruct (name_run fuel d pre (c0 :: w) "="%char _ Hat ltac:(discriminate) Hw
                eq_refl eq_refl ltac:(cbn [length] in *; lia)) as (d1 & Hn & Hat1).
    destruct (consume_hit _ _ _ _ Hat1 eq_refl) as (d2 & Heq & Hat2).
    destruct (value_atom_then fuel d2 _ y (brk ++ post) Hok Hat2 (lineBreak_closes _ _ Hbrk)
                ltac:(lia)) as (d3 & Hv & Hat3).
    destruct fuel as [|fuel]; [lia|].
    destruct (lineEnd_break (S fuel) sections (Some section) d3
                (reflect.modify mem p (fun _ => y)) _ _ _ Hbrk Hat3) as (d4 & Hend & Hat4).
    exists d4. split; [|at_from Hat4].
    rewrite (scan_key_round fuel sections (Some section) d mem (c0 :: w) (atomRaw y) d1 d2 d3);
      try assumption; [|now rewrite (at_peek _ _ _ _ Hat)].
    now rewrite Hfld, Hval, (decode_atom_over y old p mem Hok Hne Hload Hty).
Qed.

End AnyLineBreak.

Lemma scan_any_line_break_witness :
  (let s := Section.mk (bs "A")
              [Field.mk (bs "n") (reflect.At [reflect.SField 0; reflect.SField 1] true)
                        false false] false in
   exists d',
     scan (runtime := bareRuntime) 11 [s] None
       (scanner.init (bs "[A]" ++ [CR; LF] ++ bs "n=7" ++ [CR; LF]), Conf [] 3)
     = scan (runtime := bareRuntime) 10 [s] (Some s) (d', Conf [] 3) /\
     at_ d' ([] ++ "["%char :: bs "A" ++ "]"%char :: [CR; LF]) (bs "n=7" ++ [CR; LF])) /\
  (let s := Section.mk (bs "A")
              [Field.mk (bs "n") (reflect.At [reflect.SField 0; reflect.SField 1] true)
                        false false] false in
   exists d',
     scan (runtime := bareRuntime) 11 [s] (Some s)
       (scanner.mk (bs "[A]" ++ [CR; LF] ++ bs "n=7" ++ [CR; LF]) 5 2 1 4, Conf [] 3)
     = scan (runtime := bareRuntime) 10 [s] (Some s)
         (d', reflect.modify (Conf [] 3) [reflect.SField 0; reflect.SField 1]
                (fun _ => int_ 7)) /\
     at_ d' ((bs "[A]" ++ [CR; LF]) ++ bs "n" ++ "="%char :: atomText (int_ 7) ++ [CR; LF]) []) /\
  Unmarshal (methods := noMethods) (runtime := bareRuntime) 20
    (bs "[A]" ++ [CR; LF] ++ bs "n=7" ++ [CR; LF]) (addressOf (Conf [] 3))
  = (Ok tt, Some (Conf [] 7)).
Proof.
  split; [|split; [|vm_compute; reflexivity]]; cbv zeta.
  - refine (proj1 (scan_any_line_break (runtime := bareRuntime) 10 _
                     (scanner.init (bs "[A]" ++ [CR; LF] ++ bs "n=7" ++ [CR; LF])) (Conf [] 3)
                     [] (bs "A") [CR; LF] (bs "n=7" ++ [CR; LF]) eq_refl) None _ _ _ _ _).
    + split; reflexivity.
    + reflexivity.
    + reflexivity.
    + vm_compute. lia.
  - refine (proj2 (scan_any_line_break (runtime := bareRuntime) 10 _
                     (scanner.mk (bs "[A]" ++ [CR; LF] ++ bs "n=7" ++ [CR; LF]) 5 2 1 4)
                     (Conf [] 3) (bs "[A]" ++ [CR; LF]) (bs "n") [CR; LF] [] eq_refl)
              _ (int_ 7) _ [reflect.SField 0; reflect.SField 1] (int_ 3) _ _ _ _ _ _ _ _ _).
    + split; reflexivity.
    + reflexivity.
    + reflexivity.
    + discriminate.
    + reflexivity.
    + reflexivity.
    + reflexivity.
    + reflexivity.
    + vm_compute. lia.
Defined.

Section OneLine.
Context {runtime : Runtime}.
Existing Instance noMethods.

(** X30: decoding into a target that already holds values changes the
    field the document names and nothing else.  For a supported record
    behind a pointer, the document made of the header of one of its
    sections and a line for one of the leaves of that section assigns the
    atom of the line to that leaf; every other leaf and every other section
    keeps what it held. *)
Theorem Unmarshal_updates_one_field tn A m tn' B m' old C D y fuel :
  supported (reflect.VStruct tn
               (A ++ (m, reflect.VStruct tn' (B ++ (m', old) :: C)) :: D)) = true ->
  atomOK y = true -> atomRaw y <> [] ->
  reflect.typeOf y = reflect.typeOf old ->
  (length (headerOf (reflect.typeOf (reflect.VStruct tn
                       (A ++ (m, reflect.VStruct tn' (B ++ (m', old) :: C)) :: D)))
                    (m, reflect.VStruct tn' (B ++ (m', old) :: C))
           ++ memberKey (reflect.typeOf (reflect.VStruct tn' (B ++ (m', old) :: C))) (m', old)
           ++ "="%char :: atomText y ++ [LF]) + 4 <= fuel)%nat ->
  Unmarshal fuel
    (headerOf (reflect.typeOf (reflect.VStruct tn
                 (A ++ (m, reflect.VStruct tn' (B ++ (m', old) :: C)) :: D)))
              (m, reflect.VStruct tn' (B ++ (m', old) :: C))
     ++ memberKey (reflect.typeOf (reflect.VStruct tn' (B ++ (m', old) :: C))) (m', old)
     ++ "="%char :: atomText y ++ [LF])
    (addressOf (reflect.VStruct tn
                  (A ++ (m, reflect.VStruct tn' (B ++ (m', old) :: C)) :: D)))
  = (Ok tt, Some (reflect.VStruct tn
                    (A ++ (m, reflect.VStruct tn' (B ++ (m', y) :: C)) :: D))).
Proof.
  set (s := reflect.VStruct tn' (B ++ (m', old) :: C)).
  set (v := reflect.VStruct tn (A ++ (m, s) :: D)).
  set (t := reflect.typeOf v). set (t' := reflect.typeOf s).
  intros Hsup Hok Hne Hty Hfuel.
  unfold supported in Hsup. fold t in Hsup. subst v.
  apply andb_true_iff in Hsup as [Hall Hdist].
  destruct (SectionsOf_supported tn _ Hall) as [_ Hsec]. fold t in Hsec.
  assert (Hs : sectionOK t (m, s) = true).
  { rewrite forallb_app in Hall. apply andb_true_iff in Hall as [_ Hall].
    cbn [forallb] in Hall. now apply andb_true_iff in Hall as [Hs _]. }
  destruct (sectionOK_inv _ _ _ Hs) as (fl & tn0 & leaves & Hfl & Hx & Hn & Hf & Hd).
  subst s. injection Hx as <- <-. fold t' in Hf, Hd.
  set (s := reflect.VStruct tn' (B ++ (m', old) :: C)) in *.
  assert (Hkey : memberKey t (m, s) = key fl) by (unfold memberKey; cbn [fst snd]; now rewrite Hfl).
  assert (Hleaf : fieldOK t' (m', old) = true).
  { rewrite forallb_app in Hf. apply andb_true_iff in Hf as [_ Hf].
    cbn [forallb] in Hf. now apply andb_true_iff in Hf as [Hleaf _]. }
  destruct (fieldOK_flags _ _ Hleaf) as (fl' & Hfl' & Hkey' & Hn' & _ & _).
  pose proof (findSection_tree true t A (m, s) D Hall Hdist 0) as Hfind.
  destruct (Section_Field_tree true t' (length A) B (m', old) C Hf Hd 0) as (fld & Hfld & Hval).
  unfold Unmarshal, Decode. rewrite Hsec.
  cbn [Indirect addressOf fmap option_fmap option_map fst ReadAll Bytes_Reader].
  unfold headerOf in *. rewrite Hkey, Hkey' in *.
  set (line := key fl' ++ "="%char :: atomText y ++ [LF]) in *.
  assert (Hlen : (length (key fl) + length (key fl') + length (atomText y) + 9 <= fuel)%nat).
  { subst line. len_norm Hfuel. lia. }
  destruct fuel as [|[|[|[|fuel]]]]; try lia.
  destruct (scan_header (S (S (S fuel))) (sectionsTree true t 0 (A ++ (m, s) :: D)) None
              (scanner.init (("["%char :: key fl ++ ["]"%char; LF]) ++ line))
              (reflect.VStruct tn (A ++ (m, s) :: D)) [] (key fl) line
              (sectionTree true t (0 + length A) (m, s)) Hn)
    as (d1 & Hs1 & Hat1); [split; [|reflexivity]; cbn [app]; now rewrite <- app_assoc
                          |exact Hfind|lia|].
  rewrite Hs1.
  destruct (scan_atom_line (S (S fuel)) (sectionsTree true t 0 (A ++ (m, s) :: D))
              (sectionTree true t (0 + length A) (m, s)) d1
              (reflect.VStruct tn (A ++ (m, s) :: D))
              ([] ++ "["%char :: key fl ++ ["]"%char; LF]) (key fl') y [] fld
              [reflect.SField (length A); reflect.SField (length B)] old)
    as (d2 & Hs2 & Hat2); try assumption.
  { unfold Section_Field, sectionTree. cbn [fst snd]. rewrite Hfl.
    cbn [Section.Fields members]. subst s. cbn [members]. exact Hfld. }
  { subst s. apply load_leaf. }
  { congruence. }
  { lia. }
  rewrite Hs2.
  rewrite (scan_end fuel _ _ d2 _ _ Hat2).
  subst s. rewrite modify_leaf. reflexivity.
Qed.

End OneLine.

Lemma Unmarshal_updates_one_field_witness :
  Unmarshal (methods := noMethods) (runtime := bareRuntime) 40
    (headerOf (reflect.typeOf (Lists (bs "x") 1 (ints_ (Some [4; 5]) 2) (bools2_ true true)))
       (member "A" "",
        reflect.VStruct (bs "ListsA")
          ([(member "K" "k", string_ (bs "x"))] ++ (member "N" "n", int_ 1) :: []))
     ++ memberKey (reflect.typeOf (reflect.VStruct (bs "ListsA")
                     ([(member "K" "k", string_ (bs "x"))] ++ (member "N" "n", int_ 1) :: [])))
          (member "N" "n", int_ 1)
     ++ "="%char :: atomText (int_ 42) ++ [LF])
    (addressOf (Lists (bs "x") 1 (ints_ (Some [4; 5]) 2) (bools2_ true true)))
  = (Ok tt, Some (Lists (bs "x") 42 (ints_ (Some [4; 5]) 2) (bools2_ true true))) /\
  headerOf (reflect.typeOf (Lists (bs "x") 1 (ints_ (Some [4; 5]) 2) (bools2_ true true)))
    (member "A" "",
     reflect.VStruct (bs "ListsA")
       ([(member "K" "k", string_ (bs "x"))] ++ (member "N" "n", int_ 1) :: []))
  ++ memberKey (reflect.typeOf (reflect.VStruct (bs "ListsA")
                  ([(member "K" "k", string_ (bs "x"))] ++ (member "N" "n", int_ 1) :: [])))
       (member "N" "n", int_ 1)
  ++ "="%char :: atomText (int_ 42) ++ [LF]
  = document ["[A]"; "n=42"].
Proof.
  split; [|vm_compute; reflexivity].
  apply (Unmarshal_updates_one_field (runtime := bareRuntime) (bs "Lists") []
           (member "A" "") (bs "ListsA") [(member "K" "k", string_ (bs "x"))]
           (member "N" "n") (int_ 1) []
           [(member "B" "",
             reflect.VStruct (bs "ListsB")
               [(member "Xs" "xs", ints_ (Some [4; 5]) 2);
                (member "On" "on", bools2_ true true)])]
           (int_ 42) 40).
  - vm_compute. reflexivity.
  - reflexivity.
  - discriminate.
  - reflexivity.
  - vm_compute. lia.
Defined.

(** ** Runs that hold line breaks *)

Lemma yielded_plain w : forallb plain w = true -> yielded w = w.
Proof.
  induction w as [|c w IH]; [reflexivity|]. cbn [forallb yielded]. intros H.
  apply andb_true_iff in H as [Hc Hw]. rewrite (IH Hw).
  apply plain_spec in Hc as [_ Hnl]. unfold isNewlineChar in Hnl.
  apply orb_false_iff in Hnl as [_ ->]. reflexivity.
Qed.

Lemma yielded_length w : (length (yielded w) <= length w)%nat.
Proof.
  assert (H : forall n w, (length w <= n)%nat -> (length (yielded w) <= length w)%nat).
  { induction n as [|n IH]; intros u Hn; destruct u as [|c v]; cbn [length] in *;
      try (cbn; lia).
    cbn [yielded length]. destruct (c == CR).
    - destruct v as [|c' v']; [cbn; lia|]. cbn [length] in *.
      destruct (c' == LF).
      + specialize (IH v' ltac:(lia)). lia.
      + specialize (IH (c' :: v') ltac:(cbn [length]; lia)). cbn [length] in IH. lia.
    - specialize (IH v ltac:(lia)). lia. }
  exact (H (length w) w (Nat.le_refl _)).
Qed.

Lemma yielded_forallb (g : ascii -> bool) w : forallb g w = true -> forallb g (yielded w) = true.
Proof.
  assert (H : forall n w, (length w <= n)%nat -> forallb g w = true ->
                          forallb g (yielded w) = true).
  { induction n as [|n IH]; intros u Hn Hg; destruct u as [|c v]; cbn [length] in *;
      try lia; try reflexivity.
    cbn [yielded forallb] in *. apply andb_true_iff in Hg as [-> Hv]. cbn [andb].
    destruct (c == CR).
    - destruct v as [|c' v']; [reflexivity|]. cbn [length forallb] in *.
      destruct (c' == LF).
      + apply andb_true_iff in Hv as [_ Hv]. apply IH; [lia|assumption].
      + apply IH; [cbn [length]; lia|exact Hv].
    - apply IH; [lia|assumption]. }
  exact (H (length w) w (Nat.le_refl _)).
Qed.

Lemma closedRun_tail c w post : closedRun (c :: w) post = true -> closedRun w post = true.
Proof.
  unfold closedRun. destruct w as [|c' w]; [reflexivity|].
  now change (List.last (c :: c' :: w) NUL) with (List.last (c' :: w) NUL).
Qed.

Lemma advance_break d pre brk post :
  lineBreak brk post = true ->
  at_ d pre (brk ++ post) ->
  exists c d', scanner.advance d = (c, d') /\ yielded brk = [c] /\ at_ d' (pre ++ brk) post.
Proof.
  intros Hbrk Hat.
  destruct (handleNewline_break _ _ _ _ Hbrk Hat) as (d' & Hnl & Hat').
  destruct (lineBreak_cases _ _ Hbrk) as [-> | [-> | [-> Hpost]]]; cbn [app] in Hat;
    unfold scanner.advance; rewrite (at_peek _ _ _ _ Hat), Hnl; eexists _, d';
    (split; [reflexivity|split; [reflexivity|exact Hat']]).
Qed.

(** The loop of [take] over a run without NUL whose steps the producer
    accepts: one round per step, then the loop goes on behind the run with
    what the steps yielded. *)
Lemma take_loop_run (g : ascii -> bool) :
  forall n w, (length w <= n)%nat ->
  forall acc d pre post,
    at_ d pre (w ++ post) ->
    forallb (fun c => negb (c == NUL)) w = true ->
    forallb g (yielded w) = true ->
    closedRun w post = true ->
    exists d',
      at_ d' (pre ++ w) post /\
      forall fuel,
        scanner.take_loop (length (yielded w) + fuel)
          (fun base => if g (scanner.peek base)
                       then let (c, base) := scanner.advance base in (Ok [c], base)
                       else (Err stop, base)) acc d
        = scanner.take_loop fuel
            (fun base => if g (scanner.peek base)
                         then let (c, base) := scanner.advance base in (Ok [c], base)
                         else (Err stop, base)) (acc ++ yielded w) d'.
Proof.
  induction n as [|n IH]; intros w Hn acc d pre post Hat Hnul Hg Hclosed;
    destruct w as [|c w]; cbn [length] in Hn; try lia.
  - exists d. rewrite !app_nil_r. split; [exact Hat|]. intros fuel. reflexivity.
  - exists d. rewrite !app_nil_r. split; [exact Hat|]. intros fuel. reflexivity.
  - cbn [app] in Hat. cbn [forallb] in Hnul. apply andb_true_iff in Hnul as [Hc Hnul].
    apply negb_true_iff in Hc.
    assert (Hgc : g c = true).
    { cbn [yielded forallb] in Hg. now apply andb_true_iff in Hg as [-> _]. }
    assert (Hstep : forall brk rest d1,
               c :: w = brk ++ rest -> yielded (c :: w) = c :: yielded rest ->
               scanner.advance d = (c, d1) -> at_ d1 (pre ++ brk) (rest ++ post) ->
               (length rest <= n)%nat ->
               forallb (fun c => negb (c == NUL)) rest = true ->
               closedRun rest post = true ->
               exists d',
                 at_ d' (pre ++ c :: w) post /\
                 forall fuel,
                   scanner.take_loop (length (yielded (c :: w)) + fuel)
                     (fun base => if g (scanner.peek base)
                                  then let (c, base) := scanner.advance base in (Ok [c], base)
                                  else (Err stop, base)) acc d
                   = scanner.take_loop fuel
                       (fun base => if g (scanner.peek base)
                                    then let (c, base) := scanner.advance base in (Ok [c], base)
                                    else (Err stop, base)) (acc ++ yielded (c :: w)) d').
    { intros brk rest d1 Hsplit Hy Hadv Hat1 Hlen Hnul' Hclosed'.
      rewrite Hy in Hg |- *. cbn [forallb] in Hg. apply andb_true_iff in Hg as [_ Hg].
      destruct (IH rest Hlen (acc ++ [c]) d1 (pre ++ brk) post Hat1 Hnul' Hg Hclosed')
        as (d' & Hat' & Hloop).
      exists d'. split; [rewrite Hsplit; now rewrite <- app_assoc in Hat'|].
      intros fuel. cbn [length Nat.add scanner.take_loop].
      rewrite (at_inside _ _ _ _ Hat), (at_peek _ _ _ _ Hat), Hgc, Hadv.
      rewrite Hloop, <- app_assoc. reflexivity. }
    destruct (plain c) eqn:Hp.
    + destruct (advance_plain _ _ _ _ Hat Hp) as (d1 & Hadv & Hat1).
      apply (Hstep [c] w d1); try assumption; try reflexivity; try lia.
      * cbn [yielded]. apply plain_spec in Hp as [_ Hnl]. unfold isNewlineChar in Hnl.
        apply orb_false_iff in Hnl as [_ ->]. reflexivity.
      * now apply closedRun_tail in Hclosed.
    + assert (Hbrk : c = LF \/ c = CR).
      { unfold plain in Hp. rewrite Hc in Hp. cbn [negb andb] in Hp.
        apply negb_false_iff in Hp. unfold isNewlineChar in Hp.
        apply orb_true_iff in Hp as [Hp|Hp]; apply char_eqb_eq in Hp; auto. }
      destruct Hbrk as [->| ->].
      * destruct (advance_break d pre [LF] (w ++ post) eq_refl Hat) as (c & d1 & Hadv & Hy & Hat1).
        injection Hy as <-.
        apply (Hstep [LF] w d1); try assumption; try reflexivity; try lia.
        now apply closedRun_tail in Hclosed.
      * destruct w as [|c' w'].
        -- assert (Hb : lineBreak [CR] ([] ++ post) = true).
           { unfold closedRun in Hclosed. cbn [List.last app] in *.
             change (CR == CR) with true in Hclosed. cbn [andb] in Hclosed.
             unfold lineBreak. cbn. destruct post as [|x post]; [reflexivity|exact Hclosed]. }
           destruct (advance_break d pre [CR] ([] ++ post) Hb Hat) as (c & d1 & Hadv & Hy & Hat1).
           injection Hy as <-.
           apply (Hstep [CR] [] d1); try assumption; try reflexivity; cbn [length]; lia.
        -- destruct (c' == LF) eqn:Hlf.
           ++ apply char_eqb_eq in Hlf. subst c'.
              destruct (advance_break d pre [CR; LF] (w' ++ post) eq_refl Hat)
                as (c & d1 & Hadv & Hy & Hat1).
              injection Hy as <-.
              cbn [forallb] in Hnul. apply andb_true_iff in Hnul as [_ Hnul].
              apply (Hstep [CR; LF] w' d1); try assumption; try reflexivity;
                cbn [length] in *; try lia.
              now apply closedRun_tail, closedRun_tail in Hclosed.
           ++ assert (Hb : lineBreak [CR] ((c' :: w') ++ post) = true).
              { unfold lineBreak. cbn. now rewrite Hlf. }
              destruct (advance_break d pre [CR] ((c' :: w') ++ post) Hb Hat)
                as (c & d1 & Hadv & Hy & Hat1).
              injection Hy as <-.
              apply (Hstep [CR] (c' :: w') d1); try assumption; try reflexivity;
                cbn [length] in *; try lia;
                try (now apply closedRun_tail in Hclosed).
              change (yielded (CR :: c' :: w'))
                with (CR :: (if c' == LF then yielded w' else yielded (c' :: w'))).
              now rewrite Hlf.
Qed.

(** Behind the run the loop stops: at the end of the buffer, or in front of
    a byte the producer refuses. *)
Lemma take_loop_stop (g : ascii -> bool) fuel acc d pre post :
  at_ d pre post ->
  match post with [] => True | c :: _ => g c = false end ->
  scanner.take_loop (S fuel)
    (fun base => if g (scanner.peek base)
                 then let (c, base) := scanner.advance base in (Ok [c], base)
                 else (Err stop, base)) acc d
  = (Ok acc, d).
Proof.
  intros Hat Hpost. cbn [scanner.take_loop]. destruct post as [|c post].
  - now rewrite (at_outside _ _ Hat).
  - now rewrite (at_inside _ _ _ _ Hat), (at_peek _ _ _ _ Hat), Hpost.
Qed.

Lemma take_loop_run_stop (g : ascii -> bool) w fuel d pre post :
  at_ d pre (w ++ post) ->
  forallb (fun c => negb (c == NUL)) w = true ->
  forallb g (yielded w) = true ->
  closedRun w post = true ->
  match post with [] => True | c :: _ => g c = false end ->
  (length w < fuel)%nat ->
  exists d',
    scanner.take_loop fuel
      (fun base => if g (scanner.peek base)
                   then let (c, base) := scanner.advance base in (Ok [c], base)
                   else (Err stop, base)) [] d
    = (Ok (yielded w), d') /\
    at_ d' (pre ++ w) post.
Proof.
  intros Hat Hnul Hg Hclosed Hpost Hfuel.
  destruct (take_loop_run g (length w) w (Nat.le_refl _) [] d pre post Hat Hnul Hg Hclosed)
    as (d' & Hat' & Hloop).
  exists d'. split; [|exact Hat'].
  pose proof (yielded_length w) as Hlen.
  replace fuel with (length (yielded w) + S (fuel - length (yielded w) - 1))%nat by lia.
  rewrite Hloop. cbn [app]. now apply (take_loop_stop g _ _ d' (pre ++ w) post).
Qed.

(** X2: [takeWhile f] reads the longest run of steps that [f] accepts, up
    to the first byte that fails it or to the end of the buffer, and leaves
    the cursor behind the run.  A step is one byte, or a carriage return
    with the line feed behind it: [f] is asked about the first byte of a
    step only, and only that byte is yielded, so a CR LF pair gives CR
    alone.  Over a run of ordinary bytes the result is the run itself, the
    line number is unchanged and the column has grown by the length of the
    run (modulo 2^32).  [takeUntil] of the complement reads the same run. *)
Theorem takeWhile_longest_run (f : ascii -> bool) w fuel d pre post :
  at_ d pre (w ++ post) ->
  forallb (fun c => negb (c == NUL)) w = true ->
  forallb f (yielded w) = true ->
  closedRun w post = true ->
  match post with [] => True | c :: _ => f c = false end ->
  (length w < fuel)%nat ->
  exists d',
    scanner.takeWhile fuel f d = (Ok (yielded w), d') /\
    scanner.takeUntil fuel (fun c => negb (f c)) d = (Ok (yielded w), d') /\
    at_ d' (pre ++ w) post /\
    (forallb plain w = true -> 0 <= scanner.charNum d < 2 ^ 32 ->
     yielded w = w /\
     d' = scanner.mk (scanner.buf d) (scanner.bufPos d + length w) (scanner.lineNum d)
            (uint32 (scanner.charNum d + Z.of_nat (length w)))
            (scanner.prevLineCharNum d)).
Proof.
  intros Hat Hnul Hf Hclosed Hpost Hfuel.
  destruct (take_loop_run_stop f w fuel d pre post Hat Hnul Hf Hclosed Hpost Hfuel)
    as (d' & Hw & Hat').
  exists d'. split; [exact Hw|]. split; [|split; [exact Hat'|]].
  - rewrite <- Hw. unfold scanner.takeUntil, scanner.takeWhile, scanner.take.
    apply take_loop_ext. intros b. now rewrite negb_involutive.
  - intros Hplain Hcol. split; [now apply yielded_plain|].
    assert (Hall : forallb (fun c => f c && plain c) w = true).
    { pose proof Hf as Hf'. rewrite (yielded_plain w Hplain) in Hf'.
      rewrite forallb_forall in *. intros c Hc. now rewrite (Hf' c Hc), (Hplain c Hc). }
    pose proof (take_loop_exact f w fuel [] d pre post Hat Hall Hpost Hfuel) as Hexact.
    rewrite uint32_count in Hexact by exact Hcol.
    unfold scanner.takeWhile, scanner.take in Hw. rewrite Hexact in Hw.
    now injection Hw as _ <-.
Qed.

Lemma takeWhile_longest_run_witness :
  exists d',
    scanner.takeWhile 10 (fun c => negb (c == DQUOTE))
      (scanner.mk (DQUOTE :: bs "a" ++ [CR; LF] ++ bs "b" ++ [DQUOTE]) 1 1 2 0)
    = (Ok (bs "a" ++ [CR] ++ bs "b"), d') /\
    scanner.takeUntil 10 (fun c => negb (negb (c == DQUOTE)))
      (scanner.mk (DQUOTE :: bs "a" ++ [CR; LF] ++ bs "b" ++ [DQUOTE]) 1 1 2 0)
    = (Ok (bs "a" ++ [CR] ++ bs "b"), d') /\
    at_ d' ([DQUOTE] ++ (bs "a" ++ [CR; LF] ++ bs "b")) [DQUOTE].
Proof.
  destruct (takeWhile_longest_run (fun c => negb (c == DQUOTE)) (bs "a" ++ [CR; LF] ++ bs "b")
              10 (scanner.mk (DQUOTE :: bs "a" ++ [CR; LF] ++ bs "b" ++ [DQUOTE]) 1 1 2 0)
              [DQUOTE] [DQUOTE])
    as (d' & Hw & Hu & Hat & _).
  - split; reflexivity.
  - reflexivity.
  - reflexivity.
  - reflexivity.
  - reflexivity.
  - cbn. lia.
  - exists d'. exact (conj Hw (conj Hu Hat)).
Defined.

(** ** Values between double quotes *)

(** More fuel does not change what the loop of [take] returns. *)
Lemma take_loop_more (F : M scanner.t bytes) fuel :
  forall acc d,
    fst (scanner.take_loop fuel F acc d) <> Timeout ->
    scanner.take_loop (S fuel) F acc d = scanner.take_loop fuel F acc d.
Proof.
  induction fuel as [|fuel IH]; intros acc d Hr.
  - cbn [scanner.take_loop] in *.
    destruct (scanner.bufPos d <? length (scanner.buf d))%nat; [now cbn in Hr|reflexivity].
  - cbn [scanner.take_loop] in Hr.
    change (scanner.take_loop (S (S fuel)) F acc d)
      with (if (scanner.bufPos d <? length (scanner.buf d))%nat
            then match F d with
                 | (Ok b, base) => scanner.take_loop (S fuel) F (acc ++ b) base
                 | (Err err, base) =>
                     if is_stop err then (Ok acc, base) else (Err err, base)
                 | (Panic msg, base) => (Panic msg, base)
                 | (Timeout, base) => (Timeout, base)
                 end
            else (Ok acc, d)).
    cbn [scanner.take_loop].
    destruct (scanner.bufPos d <? length (scanner.buf d))%nat; [|reflexivity].
    destruct (F d) as [[b|e|msg|] d1]; try reflexivity.
    exact (IH (acc ++ b) d1 Hr).
Qed.

Lemma take_loop_timeout (F : M scanner.t bytes) k fuel acc d :
  fst (scanner.take_loop (k + fuel) F acc d) = Timeout ->
  fst (scanner.take_loop fuel F acc d) = Timeout.
Proof.
  induction k as [|k IH]; [trivial|]. intros H. apply IH.
  change (S k + fuel)%nat with (S (k + fuel)) in H.
  destruct (fst (scanner.take_loop (k + fuel) F acc d)) eqn:E; try reflexivity;
    rewrite (take_loop_more F (k + fuel) acc d) in H by (rewrite E; discriminate);
    rewrite E in H; discriminate H.
Qed.

(** A run that ends in front of a NUL byte the producer accepts: the loop
    of [take] does not return, whatever the fuel. *)
Lemma take_loop_run_NUL (g : ascii -> bool) w fuel d pre post :
  g NUL = true ->
  at_ d pre (w ++ NUL :: post) ->
  forallb (fun c => negb (c == NUL)) w = true ->
  forallb g (yielded w) = true ->
  fst (scanner.take_loop fuel
         (fun base => if g (scanner.peek base)
                      then let (c, base) := scanner.advance base in (Ok [c], base)
                      else (Err stop, base)) [] d) = Timeout.
Proof.
  intros Hg Hat Hnul Hw.
  assert (Hclosed : closedRun w (NUL :: post) = true).
  { unfold closedRun. change (NUL == LF) with false. now rewrite andb_false_r. }
  destruct (take_loop_run g (length w) w (Nat.le_refl _) [] d pre (NUL :: post)
              Hat Hnul Hw Hclosed) as (d' & Hat' & Hloop).
  apply (take_loop_timeout _ (length (yielded w))).
  rewrite Hloop, (take_loop_at_NUL g d' Hg); [reflexivity| |].
  - exact (at_peek _ _ _ _ Hat').
  - exact (at_inside _ _ _ _ Hat').
Qed.

Lemma unquoted_parts text :
  forallb (fun c => negb (c == NUL) && negb (c == DQUOTE)) text = true ->
  forallb (fun c => negb (c == NUL)) text = true /\
  forallb (fun c => negb (c == DQUOTE)) (yielded text) = true.
Proof.
  intros H. split.
  - rewrite forallb_forall in *. intros c Hc. specialize (H c Hc).
    now apply andb_true_iff in H as [-> _].
  - apply yielded_forallb. rewrite forallb_forall in *. intros c Hc. specialize (H c Hc).
    now apply andb_true_iff in H as [_ ->].
Qed.

(** X12: a value between double quotes is taken up to the next double
    quote with no escape read, a backslash being an ordinary byte.  Line
    breaks inside the quotes belong to the value, except that of a carriage
    return with its line feed only the carriage return is kept; a text of
    ordinary bytes is taken as it is.  A NUL byte in front of the closing
    quote keeps [value] from returning, whatever the fuel. *)
Theorem value_double_quoted :
  (forall fuel d pre text post,
      forallb (fun c => negb (c == NUL) && negb (c == DQUOTE)) text = true ->
      at_ d pre (DQUOTE :: text ++ DQUOTE :: post) ->
      closesValue post = true ->
      (length text + 2 < fuel)%nat ->
      exists d',
        Decoder.value fuel d = (Ok (yielded text), d') /\
        at_ d' (pre ++ DQUOTE :: text ++ [DQUOTE]) post) /\
  (forall text, forallb plain text = true -> yielded text = text) /\
  (forall d pre text post,
      forallb (fun c => negb (c == NUL) && negb (c == DQUOTE)) text = true ->
      at_ d pre (DQUOTE :: text ++ NUL :: post) ->
      forall fuel, fst (Decoder.value fuel d) = Timeout).
Proof.
  split; [|split; [exact yielded_plain|]].
  - intros fuel d pre text post Htext Hat Hpost Hfuel.
    destruct (unquoted_parts _ Htext) as [Hnul Hq].
    destruct fuel as [|[|fuel]]; try lia.
    destruct (advance_plain _ _ _ _ Hat eq_refl) as (d1 & Hadv & Hat1).
    destruct (take_loop_run_stop (fun c => negb (c == DQUOTE)) text (S fuel) d1 _
                (DQUOTE :: post) Hat1 Hnul Hq) as (d2 & Htake & Hat2);
      [unfold closedRun; change (DQUOTE == LF) with false; now rewrite andb_false_r
      |reflexivity|lia|].
    destruct (advance_plain _ _ _ _ Hat2 eq_refl) as (d3 & Hadv3 & Hat3).
    exists d3. split; [|at_exact Hat3].
    eapply value_single; [now rewrite (at_peek _ _ _ _ Hat)| |exact Hat3
                         |now apply closesValue_ends].
    unfold Decoder.literal, bind, get, call, ret.
    rewrite (at_peek _ _ _ _ Hat).
    change (DQUOTE == SQUOTE) with false. change (DQUOTE == DQUOTE) with true.
    cbv beta iota.
    rewrite Hadv. unfold scanner.takeUntil, scanner.take. rewrite Htake, Hadv3.
    reflexivity.
  - intros d pre text post Htext Hat fuel.
    destruct (unquoted_parts _ Htext) as [Hnul Hq].
    destruct fuel as [|fuel]; [reflexivity|].
    cbn [Decoder.value]. unfold bind at 1.
    destruct fuel as [|fuel].
    + unfold Decoder.skipSpaces, bind, scanner.takeWhile, scanner.take.
      cbn [scanner.take_loop]. now rewrite (at_inside _ _ _ _ Hat).
    + rewrite skipSpaces_no_space by now rewrite (at_peek _ _ _ _ Hat).
      unfold bind at 1. unfold Decoder.literal, bind at 1, get.
      rewrite (at_peek _ _ _ _ Hat).
      change (DQUOTE == SQUOTE) with false. change (DQUOTE == DQUOTE) with true. cbv iota.
      destruct (advance_plain _ _ _ _ Hat eq_refl) as (d1 & Hadv & Hat1).
      unfold bind at 1, call. rewrite Hadv. unfold bind at 1.
      pose proof (take_loop_run_NUL (fun c => negb (c == DQUOTE)) text (S fuel) d1 _ post
                    eq_refl Hat1 Hnul Hq) as Ht.
      unfold scanner.takeUntil, scanner.take.
      destruct (scanner.take_loop (S fuel) _ [] d1) as [[x|e|msg|] d2]; try discriminate Ht.
      reflexivity.
Qed.

Lemma value_double_quoted_witness :
  (exists d',
     Decoder.value 20 (scanner.init (DQUOTE :: bs "C:\new" ++ [CR; LF] ++ bs "dir" ++ DQUOTE :: [LF]))
     = (Ok (bs "C:\new" ++ [CR] ++ bs "dir"), d') /\
     at_ d' ([] ++ DQUOTE :: (bs "C:\new" ++ [CR; LF] ++ bs "dir") ++ [DQUOTE]) [LF]) /\
  yielded (bs "C:\new dir") = bs "C:\new dir" /\
  fst (Decoder.value 1000 (scanner.init (DQUOTE :: bs "a" ++ NUL :: bs "b" ++ [DQUOTE; LF])))
  = Timeout.
Proof.
  split; [|split].
  - apply (proj1 value_double_quoted 20%nat
             (scanner.init (DQUOTE :: bs "C:\new" ++ [CR; LF] ++ bs "dir" ++ DQUOTE :: [LF]))
             [] (bs "C:\new" ++ [CR; LF] ++ bs "dir") [LF]).
    + reflexivity.
    + split; reflexivity.
    + reflexivity.
    + vm_compute. lia.
  - apply (proj1 (proj2 value_double_quoted) (bs "C:\new dir")). reflexivity.
  - apply (proj2 (proj2 value_double_quoted)
             (scanner.init (DQUOTE :: bs "a" ++ NUL :: bs "b" ++ [DQUOTE; LF]))
             [] (bs "a") (bs "b" ++ [DQUOTE; LF])).
    + reflexivity.
    + split; reflexivity.
Defined.

(** ** Key lines in front of the first header *)

Section OutsideSections.
Context {runtime : Runtime}.

(** X6: a key line in front of the first section header is an error.  The
    name, the equals sign and the value are scanned first: whatever value
    [value] reads, [scan] then ends with "key must be under a section" and
    the target is not touched; a value that [value] refuses ends [scan] with
    the error of the value instead.  The first part says it of a line that
    spells a leaf. *)
Theorem scan_key_outside_section fuel sections (d : scanner.t) (mem : GoValue) :
  (forall pre name y post,
      validName true name = true -> leafOK y = true ->
      at_ d pre (name ++ "="%char :: leafText y ++ LF :: post) ->
      (length name + length (leafText y) + 2 < fuel)%nat ->
      exists d',
        scan (S fuel) sections None (d, mem) = (Err errKeyMustBeUnderSection, (d', mem)) /\
        at_ d' (pre ++ name ++ "="%char :: leafText y) (LF :: post)) /\
  (forall fieldName value d1 d2 d3,
      isNameChar (scanner.peek d) = true ->
      Decoder.name (S fuel) d = (Ok fieldName, d1) ->
      scanner.consume "="%char d1 = (true, d2) ->
      Decoder.value (S fuel) d2 = (Ok value, d3) ->
      scan (S (S fuel)) sections None (d, mem)
      = (Err errKeyMustBeUnderSection, (d3, mem))) /\
  (forall fieldName e d1 d2 d3,
      isNameChar (scanner.peek d) = true ->
      Decoder.name (S fuel) d = (Ok fieldName, d1) ->
      scanner.consume "="%char d1 = (true, d2) ->
      Decoder.value (S fuel) d2 = (Err e, d3) ->
      scan (S (S fuel)) sections None (d, mem) = (Err e, (d3, mem))).
Proof.
  split; [|split].
  - intros pre name y post Hname Hok Hat Hfuel.
    destruct (validName_inv _ _ Hname) as (c & w & -> & Hw & Hc).
    specialize (Hc eq_refl).
    destruct (name_run fuel d pre (c :: w) "="%char _ Hat ltac:(discriminate) Hw
                eq_refl eq_refl ltac:(cbn [length] in *; lia)) as (d1 & Hn & Hat1).
    destruct (consume_hit _ _ _ _ Hat1 eq_refl) as (d2 & Heq & Hat2).
    destruct (value_leaf fuel d2 _ y post Hok Hat2 ltac:(lia)) as (d3 & Hv & Hat3).
    exists d3. split; [|at_exact Hat3].
    destruct fuel as [|fuel]; [lia|].
    rewrite (scan_key_round fuel sections None d mem (c :: w) (leafRaw y) d1 d2 d3);
      try assumption; [reflexivity|].
    now rewrite (at_peek _ _ _ _ Hat).
  - intros fieldName value d1 d2 d3 Hpeek Hname Heq Hvalue.
    now rewrite (scan_key_round fuel sections None d mem fieldName value d1 d2 d3).
  - intros fieldName e d1 d2 d3 Hpeek Hname Heq Hvalue.
    now apply (scan_key_value_error fuel sections None d mem fieldName e d1 d2 d3).
Qed.

End OutsideSections.

Lemma scan_key_outside_section_witness :
  (exists d',
     scan (runtime := bareRuntime) 9 [Section.mk (bs "A") [] false] None
       (scanner.init (document ["n=17"; "[A]"]), Conf [] 0)
     = (Err errKeyMustBeUnderSection, (d', Conf [] 0)) /\
     at_ d' ([] ++ bs "n" ++ "="%char :: leafText (int_ 17)) (LF :: document ["[A]"])) /\
  scan (runtime := bareRuntime) 31 [Section.mk (bs "A") [] false] None
    (scanner.init (bs "dir = " ++ DQUOTE :: bs "a b" ++ DQUOTE :: bs " ; note" ++ LF
                   :: document ["[A]"]), Conf [] 0)
  = (Err errKeyMustBeUnderSection,
     (scanner.mk (bs "dir = " ++ DQUOTE :: bs "a b" ++ DQUOTE :: bs " ; note" ++ LF
                  :: document ["[A]"]) 18 1 19 0, Conf [] 0)) /\
  scan (runtime := bareRuntime) 31 [Section.mk (bs "A") [] false] None
    (scanner.init (document ["n=-5"; "[A]"]), Conf [] 0)
  = (Err (errUnexpectedChar "-"%char 1 3),
     (scanner.mk (document ["n=-5"; "[A]"]) 2 1 3 0, Conf [] 0)).
Proof.
  split; [|split].
  - apply (proj1 (scan_key_outside_section (runtime := bareRuntime) 8
                    [Section.mk (bs "A") [] false]
                    (scanner.init (document ["n=17"; "[A]"])) (Conf [] 0))
             [] (bs "n") (int_ 17) (document ["[A]"])).
    + reflexivity.
    + reflexivity.
    + split; reflexivity.
    + vm_compute. lia.
  - eapply (proj1 (proj2 (scan_key_outside_section (runtime := bareRuntime) 29
                            [Section.mk (bs "A") [] false] _ (Conf [] 0)))).
    + reflexivity.
    + vm_compute. reflexivity.
    + vm_compute. reflexivity.
    + vm_compute. reflexivity.
  - eapply (proj2 (proj2 (scan_key_outside_section (runtime := bareRuntime) 29
                            [Section.mk (bs "A") [] false] _ (Conf [] 0)))).
    + reflexivity.
    + vm_compute. reflexivity.
    + vm_compute. reflexivity.
    + vm_compute. reflexivity.
Defined.

(** ** A key that is repeated *)

Section RepeatedKey.
Context {runtime : Runtime}.





End RepeatedKey.


(** ** The tag errors one level of the walk gathers *)

Section TagErrors.
Context {methods : Methods}.

(** The loop of the walk returns once its callback returns on the calls it
    makes, and what it returns is the join of the errors gathered before,
    the tag error of every exported member, and the error of every call. *)
Lemma walkStructFields_loop_gathers {T} t h
  (f : option GoValue -> reflect.Value -> reflect.StructField -> flags ->
       outcome (T * option error)) members :
  forall i vals errs,
  returnsOn f t h i members ->
  exists vals' errs',
    walkStructFields_loop t h f i members vals errs
    = Ok (vals', errors_Join (errs ++ errs')) /\
    (forall m x e,
        In (m, x) members ->
        reflect.IsExported (reflect.fieldOf m x) = true ->
        snd (parseTag t (reflect.fieldOf m x)) = Some e ->
        In e errs') /\
    (forall j m x fl val e,
        members !! j = Some (m, x) ->
        memberFlags t m x = Some fl ->
        memberCall f h (i + j) m x fl = Ok (val, Some e) ->
        In e errs').
Proof.
  induction members as [|[m x] members IH]; intros i vals errs Hf.
  - exists vals, []. rewrite app_nil_r. split; [reflexivity|].
    split; [intros ? ? ? []|intros j ? ? ? ? ? Hj; destruct j; discriminate Hj].
  - assert (Hf' : returnsOn f t h (S i) members).
    { intros j m' x' fl Hj Hfl. specialize (Hf (S j) m' x' fl Hj Hfl).
      now rewrite Nat.add_succ_r in Hf. }
    assert (Hskip : memberFlags t m x = None ->
               forall vals0 errs0 extra,
                 (forall e, reflect.IsExported (reflect.fieldOf m x) = true ->
                            snd (parseTag t (reflect.fieldOf m x)) = Some e ->
                            In e extra) ->
                 exists vals' errs',
                   walkStructFields_loop t h f (S i) members vals0 (errs0 ++ extra)
                   = Ok (vals', errors_Join (errs0 ++ errs')) /\
                   (forall m' x' e,
                       In (m', x') ((m, x) :: members) ->
                       reflect.IsExported (reflect.fieldOf m' x') = true ->
                       snd (parseTag t (reflect.fieldOf m' x')) = Some e ->
                       In e errs') /\
                   (forall j m' x' fl val e,
                       ((m, x) :: members) !! j = Some (m', x') ->
                       memberFlags t m' x' = Some fl ->
                       memberCall f h (i + j) m' x' fl = Ok (val, Some e) ->
                       In e errs')).
    { intros Hnone vals0 errs0 extra Hextra.
      destruct (IH (S i) vals0 (errs0 ++ extra) Hf') as (vals' & errs' & Heq & Htag & Hcall).
      exists vals', (extra ++ errs'). rewrite <- app_assoc in Heq. split; [assumption|].
      split.
      - intros m' x' e [[= -> ->]|Hx] Hex' Hp'; apply in_or_app; [left|right]; eauto.
      - intros [|j] m' x' fl val e Hj Hfl Hc; cbn in Hj.
        + injection Hj as -> ->. congruence.
        + apply in_or_app. right. rewrite Nat.add_succ_r in Hc. eauto. }
    cbn [walkStructFields_loop].
    destruct (reflect.IsExported (reflect.fieldOf m x)) eqn:Hex; cbn [negb].
    2:{ destruct (Hskip ltac:(unfold memberFlags; now rewrite Hex) vals errs [])
          as (vals' & errs' & Heq & Hrest); [intros e H; discriminate H|].
        rewrite app_nil_r in Heq. eauto. }
    destruct (parseTag t (reflect.fieldOf m x)) as [fl0 [err|]] eqn:Hp.
    { apply (Hskip ltac:(unfold memberFlags; now rewrite Hex, Hp) vals errs [err]).
      intros e _ [= <-]. now left. }
    destruct (bytes_eqb (key fl0) (bs "-")) eqn:Hdash.
    { destruct (Hskip ltac:(unfold memberFlags; now rewrite Hex, Hp, Hdash) vals errs [])
        as (vals' & errs' & Heq & Hrest); [intros e _ H; discriminate H|].
      rewrite app_nil_r in Heq. eauto. }
    set (fl := match key fl0 with
               | [] => set_key fl0 (reflect.Name (reflect.fieldOf m x))
               | _ => fl0
               end).
    assert (Hfl : memberFlags t m x = Some fl)
      by (unfold memberFlags; now rewrite Hex, Hp, Hdash).
    destruct (Hf 0%nat m x fl eq_refl Hfl) as [[val oerr] Hr].
    rewrite Nat.add_0_r in Hr.
    change (match x with
            | reflect.VPointer _ _ e =>
                f e (handleElem (handleField h i x) true e) (reflect.fieldOf m x)
                  (set_omitempty fl)
            | reflect.VInterface _ e =>
                f e (handleElem (handleField h i x) false e) (reflect.fieldOf m x) fl
            | _ => f (Some x) (handleField h i x) (reflect.fieldOf m x) fl
            end) with (memberCall f h i m x fl).
    rewrite Hr.
    assert (Hcase : forall vals0 extra,
               (forall e, oerr = Some e -> In e extra) ->
               exists vals' errs',
                 walkStructFields_loop t h f (S i) members vals0 (errs ++ extra)
                 = Ok (vals', errors_Join (errs ++ errs')) /\
                 (forall m' x' e,
                     In (m', x') ((m, x) :: members) ->
                     reflect.IsExported (reflect.fieldOf m' x') = true ->
                     snd (parseTag t (reflect.fieldOf m' x')) = Some e ->
                     In e errs') /\
                 (forall j m' x' fl' val' e,
                     ((m, x) :: members) !! j = Some (m', x') ->
                     memberFlags t m' x' = Some fl' ->
                     memberCall f h (i + j) m' x' fl' = Ok (val', Some e) ->
                     In e errs')).
    { intros vals0 extra Hextra.
      destruct (IH (S i) vals0 (errs ++ extra) Hf') as (vals' & errs' & Heq & Htag & Hcall).
      exists vals', (extra ++ errs'). rewrite <- app_assoc in Heq. split; [assumption|].
      split.
      - intros m' x' e [[= -> ->]|Hx] Hex' Hp'.
        + rewrite Hp in Hp'. discriminate Hp'.
        + apply in_or_app. right. eauto.
      - intros [|j] m' x' fl' val' e Hj Hfl' Hc; cbn in Hj.
        + injection Hj as -> ->. rewrite Hfl in Hfl'. injection Hfl' as <-.
          rewrite Nat.add_0_r, Hr in Hc. injection Hc as _ ->.
          apply in_or_app. left. now apply Hextra.
        + apply in_or_app. right. rewrite Nat.add_succ_r in Hc. eauto. }
    destruct oerr as [err|].
    + apply (Hcase vals [err]). intros e [= <-]. now left.
    + destruct (Hcase (vals ++ [val]) []) as (vals' & errs' & Heq & Hrest);
        [intros e H; discriminate H|].
      rewrite app_nil_r in Heq. eauto.
Qed.

(** C9: a tag that parses lists known flags only, each at most once; the
    first flag that is unknown, or that was listed before, is an error that
    names the flag, the member and the owning type.  One level of the walk
    does not stop at such an error: when its callback returns on the calls
    the walk makes, the walk returns the join of a list of errors that holds
    the tag error of every exported member and the error of every call.
    The last two parts say it of the two walks of the program, that of
    [SectionsOf] over the members of a struct and that of [fieldsOfStruct]
    over the members of a section. *)
Theorem annotation_errors :
  (forall t field,
      snd (parseTag t field) = None ->
      NoDup (listedFlags field) /\
      Forall (fun x => knownFlag x = true) (listedFlags field)) /\
  (forall t field pre u post,
      listedFlags field = pre ++ u :: post ->
      tagRest field <> [] ->
      NoDup pre ->
      Forall (fun x => knownFlag x = true) pre ->
      (knownFlag u = false ->
       snd (parseTag t field)
       = Some (errUnknownFlag u (reflect.Name field) (reflect.Type_String t))) /\
      (In u pre ->
       snd (parseTag t field)
       = Some (errDuplicateFlag u (reflect.Name field) (reflect.Type_String t)))) /\
  (forall T tn members h
          (f : option GoValue -> reflect.Value -> reflect.StructField -> flags ->
               outcome (T * option error)),
      let t := reflect.typeOf (reflect.VStruct tn members) in
      returnsOn f t h 0 members ->
      exists vals errs,
        walkStructFields (reflect.VStruct tn members) h f
        = Ok (vals, errors_Join errs) /\
        (forall m x e,
            In (m, x) members ->
            reflect.IsExported (reflect.fieldOf m x) = true ->
            snd (parseTag t (reflect.fieldOf m x)) = Some e ->
            In e errs) /\
        (forall j m x fl val e,
            members !! j = Some (m, x) ->
            memberFlags t m x = Some fl ->
            memberCall f h j m x fl = Ok (val, Some e) ->
            In e errs)) /\
  (forall data tn members a,
      let root := reflect.VStruct tn members in
      let t := reflect.typeOf root in
      Indirect data = Some (root, a) ->
      MarshalINI t false = None -> MarshalINI t true = None ->
      returnsOn (sectionCallback root) t (reflect.At [] a) 0 members ->
      exists sections errs,
        SectionsOf data = Ok (sections, errors_Join errs) /\
        forall m x e,
          In (m, x) members ->
          reflect.IsExported (reflect.fieldOf m x) = true ->
          snd (parseTag t (reflect.fieldOf m x)) = Some e ->
          In e errs) /\
  (forall tn members h,
      let section := reflect.VStruct tn members in
      let t := reflect.typeOf section in
      returnsOn (fieldsOf' (Some t)) t h 0 members ->
      exists fields errs,
        fieldsOfStruct section h = Ok (fields, errors_Join errs) /\
        forall m x e,
          In (m, x) members ->
          reflect.IsExported (reflect.fieldOf m x) = true ->
          snd (parseTag t (reflect.fieldOf m x)) = Some e ->
          In e errs).
Proof.
  split; [|split; [|split; [|split]]].
  - intros t field H. rewrite parseTag_unfold in H. unfold listedFlags. cbn zeta in H.
    destruct (snd (tagOf field)); [|split; constructor].
    destruct (tagRest field) eqn:Er; [discriminate|]. rewrite <- Er in *.
    destruct (parseTag_loop _ _ _ _) as [fl' o] eqn:El. cbn in H. subst o.
    apply parseTag_loop_ok in El as [Hnd Hall]. split; [assumption|].
    eapply Forall_impl; [exact Hall|]. now intros x [Hx _].
  - intros t field pre u post Hl Hrest Hnd Hall.
    pose proof (listedFlags_found _ _ _ _ Hl) as Hfound.
    rewrite parseTag_unfold. unfold listedFlags in Hl. rewrite Hfound in *. cbn zeta.
    destruct (tagRest field) eqn:Er; [contradiction|]. rewrite <- Er in *.
    split.
    + intros Hu. eapply parseTag_loop_unknown; eauto using freshKnown_initial.
    + intros Hin. eapply parseTag_loop_duplicate; eauto using freshKnown_initial.
      rewrite Forall_forall in Hall. apply Hall. now apply list_elem_of_In.
  - intros T tn members h f t Hf. unfold walkStructFields.
    destruct (walkStructFields_loop_gathers t h f members 0%nat [] [] Hf)
      as (vals & errs & Heq & Htag & Hcall).
    exists vals, errs. split; [exact Heq|]. split; [exact Htag|exact Hcall].
  - intros data tn members a root t Hroot Hm0 Hm1 Hf.
    destruct (walkStructFields_loop_gathers t (reflect.At [] a) (sectionCallback root)
                members 0%nat [] [] Hf) as (vals & errs & Heq & Htag & _).
    exists vals, errs. split; [|exact Htag].
    unfold SectionsOf. rewrite Hroot. fold root. fold t. rewrite Hm0.
    replace (if a then MarshalINI t true else None) with
      (@None (GoValue -> reflect.Value -> outcome (list Section.t * option error)))
      by (destruct a; [now rewrite Hm1|reflexivity]).
    cbn [reflect.Type_Kind t reflect.typeOf root reflect.Kind_eqb].
    exact Heq.
  - intros tn members h section t Hf.
    destruct (walkStructFields_loop_gathers t h (fieldsOf' (Some t)) members 0%nat [] [] Hf)
      as (vals & errs & Heq & Htag & _).
    exists (concat vals), errs. split; [|exact Htag].
    unfold fieldsOfStruct, walkStructFields. fold section. fold t.
    unfold section at 1. rewrite Heq. reflexivity.
Qed.

End TagErrors.

Lemma annotation_errors_witness :
  (let field := reflect.fieldOf (member "A" "a,omitempty,omitempty") (int_ 0) in
   listedFlags field = [bs "omitempty"] ++ bs "omitempty" :: [] /\
   tagRest field <> [] /\ NoDup [bs "omitempty"] /\
   Forall (fun x => knownFlag x = true) [bs "omitempty"] /\ In (bs "omitempty") [bs "omitempty"] /\
   snd (parseTag (reflect.typeOf BadTags) field)
   = Some (errDuplicateFlag (bs "omitempty") (bs "A") (bs "BadTags"))) /\
  (let field := reflect.fieldOf (member "C" ",bogus") (int_ 0) in
   listedFlags field = [] ++ bs "bogus" :: [] /\ knownFlag (bs "bogus") = false /\
   snd (parseTag (reflect.typeOf BadTags) field)
   = Some (errUnknownFlag (bs "bogus") (bs "C") (bs "BadTags"))) /\
  (let field := reflect.fieldOf (member "F" "f,omitempty, commented") (int_ 0) in
   snd (parseTag (reflect.typeOf BadTags) field) = None /\
   NoDup (listedFlags field)) /\
  returnsOn (sectionCallback (methods := noMethods) BadTags) (reflect.typeOf BadTags)
            (reflect.At [] false) 0 (members BadTags) /\
  (exists sections,
     SectionsOf (methods := noMethods) BadTags
     = Ok (sections,
           errors_Join [errDuplicateFlag (bs "omitempty") (bs "A") (bs "BadTags");
                        errUnknownFlag (bs "bogus") (bs "C") (bs "BadTags")])) /\
  (exists fields,
     fieldsOfStruct (methods := noMethods) BadTags (reflect.At [] true)
     = Ok (fields,
           errors_Join [errDuplicateFlag (bs "omitempty") (bs "A") (bs "BadTags");
                        errUnknownFlag (bs "bogus") (bs "C") (bs "BadTags")])).
Proof.
  destruct (annotation_errors (methods := noMethods)) as (Hok & Hbad & _ & Hsec & Hfld).
  assert (Hret : returnsOn (sectionCallback (methods := noMethods) BadTags)
                   (reflect.typeOf BadTags) (reflect.At [] false) 0 (members BadTags)).
  { intros [|[|[|j]]] m x fl Hj Hfl; cbn in Hj; try discriminate Hj;
      injection Hj as <- <-; vm_compute in Hfl; try discriminate Hfl;
      injection Hfl as <-; eexists; vm_compute; reflexivity. }
  split; [|split; [|split; [|split; [exact Hret|split]]]].
  - cbv zeta.
    assert (Hl : listedFlags (reflect.fieldOf (member "A" "a,omitempty,omitempty") (int_ 0))
                 = [bs "omitempty"] ++ bs "omitempty" :: []) by (vm_compute; reflexivity).
    assert (Hr : tagRest (reflect.fieldOf (member "A" "a,omitempty,omitempty") (int_ 0)) <> [])
      by (vm_compute; discriminate).
    assert (Hnd : NoDup [bs "omitempty"]) by (repeat constructor; intros H; inversion H).
    assert (Hk : Forall (fun x => knownFlag x = true) [bs "omitempty"])
      by (repeat constructor).
    assert (Hin : In (bs "omitempty") [bs "omitempty"]) by (left; reflexivity).
    repeat (split; [assumption|]).
    exact (proj2 (Hbad (reflect.typeOf BadTags) _ _ _ _ Hl Hr Hnd Hk) Hin).
  - cbv zeta.
    assert (Hl : listedFlags (reflect.fieldOf (member "C" ",bogus") (int_ 0))
                 = [] ++ bs "bogus" :: []) by (vm_compute; reflexivity).
    assert (Hr : tagRest (reflect.fieldOf (member "C" ",bogus") (int_ 0)) <> [])
      by (vm_compute; discriminate).
    repeat (split; [assumption || reflexivity|]).
    exact (proj1 (Hbad (reflect.typeOf BadTags) _ _ _ _ Hl Hr ltac:(constructor)
                   ltac:(constructor)) eq_refl).
  - cbv zeta.
    assert (Hp : snd (parseTag (reflect.typeOf BadTags)
                        (reflect.fieldOf (member "F" "f,omitempty, commented") (int_ 0))) = None)
      by (vm_compute; reflexivity).
    split; [assumption|]. exact (proj1 (Hok _ _ Hp)).
  - destruct (Hsec BadTags (bs "BadTags") (members BadTags) false eq_refl eq_refl eq_refl Hret)
      as (sections & errs & Heq & _).
    exists sections. rewrite Heq. vm_compute in Heq.
    injection Heq as _ Hj. f_equal. f_equal. symmetry. exact Hj.
  - destruct (Hfld (bs "BadTags") (members BadTags) (reflect.At [] true))
      as (fields & errs & Heq & _).
    + intros [|[|[|j]]] m x fl Hj Hfl; cbn in Hj; try discriminate Hj;
        injection Hj as <- <-; vm_compute in Hfl; try discriminate Hfl;
        injection Hfl as <-; eexists; vm_compute; reflexivity.
    + exists fields. change (reflect.VStruct (bs "BadTags") (members BadTags)) with BadTags in Heq.
      rewrite Heq. vm_compute in Heq.
      injection Heq as _ Hj. f_equal. f_equal. symmetry. exact Hj.
Defined.
